(** * A shallow embedding of the GarbageCollector library

    Two subsystems are embedded, each in a module of its own:

    - [RC]: the reference-counted shared pointer of
      [collections/cpp/VSharedPtr.hpp] ([ControlBlock], [LockedProxy],
      [VSharedPtr]);
    - [TC]: the tracing collector of [collections/cpp/gc.h] and
      [collections/cpp/gc.cpp] ([gc_object], [gc_base_ptr], [New],
      [gc_collect]).

    Objects live in finite maps from addresses to records, every function of
    the source is a computation in a state-and-error monad over those maps,
    one thread at a time: an atomic operation is the read or the write it
    performs, a compare-and-swap loop succeeds at its first turn, and the
    collector's [gc_mutex], which only ever brackets a block of one function,
    is always free when it is asked for.  What user code does (payload
    constructors and destructors) is recorded in a trace of events; the
    destructor of a payload that holds handles of the library as members ends
    with the destructors of those handles, which are run. *)

From Stdlib Require Import ZArith Lia.
From stdpp Require Import gmap strings list fin_maps.

Local Open Scope Z_scope.

(** ** Machine integers

    [size_t] and [long] are taken at 64 bits, [int] at 32 bits; the
    wrap-around of the atomic read-modify-write operations is written out. *)

Definition wrap_size_t (z : Z) : Z := z mod 2 ^ 64.
Definition SIZE_MAX : Z := 2 ^ 64 - 1.

Definition wrap_signed (bits : Z) (z : Z) : Z :=
  (z + 2 ^ (bits - 1)) mod 2 ^ bits - 2 ^ (bits - 1).
Definition wrap_int (z : Z) : Z := wrap_signed 32 z.
Definition wrap_long (z : Z) : Z := wrap_signed 64 z.

Lemma wrap_size_t_small z : 0 <= z < 2 ^ 64 -> wrap_size_t z = z.
Proof. intros H. unfold wrap_size_t. apply Z.mod_small. exact H. Qed.

Lemma wrap_size_t_underflow : wrap_size_t (0 - 1) = SIZE_MAX.
Proof. reflexivity. Qed.

Lemma wrap_signed_small bits z :
  0 < bits -> - 2 ^ (bits - 1) <= z < 2 ^ (bits - 1) -> wrap_signed bits z = z.
Proof.
  intros Hb Hz. unfold wrap_signed.
  assert (E : 2 ^ bits = 2 * 2 ^ (bits - 1)).
  { replace bits with (Z.succ (bits - 1)) at 1 by lia.
    rewrite Z.pow_succ_r by lia. reflexivity. }
  rewrite Z.mod_small by lia. lia.
Qed.

Lemma wrap_int_small z : - 2 ^ 31 <= z < 2 ^ 31 -> wrap_int z = z.
Proof. intros H. apply wrap_signed_small; [lia | exact H]. Qed.

Lemma wrap_long_small z : - 2 ^ 63 <= z < 2 ^ 63 -> wrap_long z = z.
Proof. intros H. apply wrap_signed_small; [lia | exact H]. Qed.

(** ** Counting the values of a finite map *)

Section counting.
Context `{Countable K} {A : Type} (P : A -> Prop) `{forall x, Decision (P x)}.

Definition count_values (m : gmap K A) : nat :=
  size (filter (fun kv => P kv.2) m).
Definition indicator (x : A) : nat := if decide (P x) then 1%nat else 0%nat.

Lemma count_values_insert_fresh (m : gmap K A) k v :
  m !! k = None ->
  count_values (<[k:=v]> m) = (count_values m + indicator v)%nat.
Proof.
  intros Hk. unfold count_values, indicator.
  rewrite map_filter_insert. simpl. destruct (decide (P v)).
  - rewrite map_size_insert_None; [lia |].
    apply map_lookup_filter_None. left. exact Hk.
  - rewrite delete_id by exact Hk. lia.
Qed.

Lemma count_values_delete (m : gmap K A) k v :
  m !! k = Some v ->
  count_values m = (count_values (delete k m) + indicator v)%nat.
Proof.
  intros Hk. rewrite <- (insert_delete_id m k v Hk) at 1.
  apply count_values_insert_fresh. apply lookup_delete_eq.
Qed.

Lemma count_values_insert (m : gmap K A) k v old :
  m !! k = Some old ->
  (count_values (<[k:=v]> m) + indicator old = count_values m + indicator v)%nat.
Proof.
  intros Hk. rewrite <- (insert_delete_eq m).
  rewrite count_values_insert_fresh by apply lookup_delete_eq.
  rewrite (count_values_delete m k old Hk). lia.
Qed.

Lemma count_values_le_size (m : gmap K A) : (count_values m <= size m)%nat.
Proof. unfold count_values. apply map_subseteq_size, map_filter_subseteq. Qed.

Lemma count_values_zero (m : gmap K A) k v :
  count_values m = 0%nat -> m !! k = Some v -> ~ P v.
Proof.
  intros Hz Hk HP. rewrite (count_values_delete m k v Hk) in Hz.
  unfold indicator in Hz. rewrite decide_True in Hz by exact HP. lia.
Qed.
End counting.

(** ** Computations with state and failure

    A function of the source that reads and writes shared objects and may
    throw, abort or run into undefined behaviour is a state transformer that
    ends in [Ok] or in [Fail], with the state it left behind either way. *)

Inductive result (S E A : Type) :=
| Ok (a : A) (s : S)
| Fail (e : E) (s : S).
Arguments Ok {S E A} a s.
Arguments Fail {S E A} e s.

Definition computation (S E A : Type) : Type := S -> result S E A.

Definition ret {S E A} (a : A) : computation S E A := fun s => Ok a s.
Definition bind {S E A B} (m : computation S E A) (k : A -> computation S E B) : computation S E B :=
  fun s => match m s with
           | Ok a s' => k a s'
           | Fail e s' => Fail e s'
           end.
Definition throw {S E A} (e : E) : computation S E A := fun s => Fail e s.

Notation "'do' x <- m ; k" := (bind m (fun x => k))
  (at level 10, x name, m at level 100, k at level 200).
Notation "m ;; k" := (bind m (fun _ => k))
  (at level 100, k at level 200, right associativity).

(** [try { m } catch (...) { h; throw; }], for the errors [is_exn] that are
    exceptions. *)
Definition catch_rethrow {S E A} (is_exn : E -> bool) (m : computation S E A)
    (h : computation S E unit) : computation S E A :=
  fun s => match m s with
           | Fail e s' =>
               if is_exn e then
                 match h s' with
                 | Ok _ s'' => Fail e s''
                 | Fail e' s'' => Fail e' s''
                 end
               else Fail e s'
           | r => r
           end.

(** The state a computation ends in, and its answer. *)
Definition final_state {S E A} (r : result S E A) : S :=
  match r with Ok _ s => s | Fail _ s => s end.

(** ** The reference-counted pointer *)

Module RC.

(** [ptr::meta] *)

Inductive ThreadMode := TM_True | TM_False.

Inductive memory_order :=
| memory_order_relaxed
| memory_order_acquire
| memory_order_release
| memory_order_acq_rel
| memory_order_seq_cst.

Module magic.
Definition alive : Z := 0xDEADBEEFCAFEBABE.
Definition destroyed : Z := 0xDEADDEADDEADDEAD.
End magic.

(** [meta::MemoryOrder<TM>] *)
Module MO.
Definition acquire (TM : ThreadMode) :=
  match TM with TM_True => memory_order_acquire | TM_False => memory_order_relaxed end.
Definition release (TM : ThreadMode) :=
  match TM with TM_True => memory_order_release | TM_False => memory_order_relaxed end.
Definition acq_rel (TM : ThreadMode) :=
  match TM with TM_True => memory_order_acq_rel | TM_False => memory_order_relaxed end.
Definition seq_cst (TM : ThreadMode) :=
  match TM with TM_True => memory_order_seq_cst | TM_False => memory_order_relaxed end.
Definition relaxed (TM : ThreadMode) := memory_order_relaxed.
End MO.

(** [std::shared_mutex], as seen by one thread. *)
Inductive shared_mutex := Unlocked | LockedShared (readers : nat) | LockedExclusive.

Inductive counter := Strong | Weak.

(** What is observable of a run: counter decrements, fences, the read of the
    other counter, and the two deletions. *)
Inductive event :=
| EvFetchSub (c : counter) (mo : memory_order)
| EvPostDecrement (c : counter)
| EvFence (mo : memory_order)
| EvLoadCount (c : counter)
| EvLockExclusive (cb : Z)
| EvUnlock (cb : Z)
| EvDeleteObject (p : Z) (is_array : bool)
| EvDeleteThis (cb : Z).

Record ControlBlock := mkCB {
  gc_strong_count_ : Z;
  gc_weak_count_ : Z;
  ptr_ : option Z;
  object_destroyed_ : bool;
  is_array_ : bool;
  object_mutex_ : shared_mutex;
  magic_header_ : Z;
  magic_footer_ : Z;
  control_block_destroyed_ : bool
}.

Record VSharedPtr := mkPtr {
  ctrl_ : option Z;
  is_weak_ : bool
}.

Record LockedProxy := mkProxy {
  lp_ptr_ : option Z;
  lock_ : option Z   (* the control block whose mutex the unique_lock owns *)
}.

Record State := mkState {
  blocks : gmap Z ControlBlock;
  handles : gmap Z VSharedPtr;
  trace : list event
}.

Inductive error :=
| MemorySafety (msg : string)   (* exception::MemorySafety *)
| bad_alloc                     (* operator new failed *)
| Abort                         (* std::abort *)
| Terminate                     (* an exception left a noexcept function *)
| Undefined                     (* a dangling pointer was dereferenced *)
| Blocked                       (* the only thread waits for a lock it cannot get *)
| OutOfFuel.                    (* destructors nested deeper than [destroy_object_n] allows *)

(** The errors that are C++ exceptions, which unwind the stack. *)
Definition is_exception (e : error) : bool :=
  match e with
  | MemorySafety _ | bad_alloc => true
  | _ => false
  end.

Abbreviation M := (computation State error).

(** A [noexcept] function: an exception that would leave it ends the process. *)
Definition noexcept {A} (m : M A) : M A :=
  fun s => match m s with
           | Fail e s' => Fail (if is_exception e then Terminate else e) s'
           | r => r
           end.

(** [try { m } catch (...) { h; throw; }] *)
Definition try_catch_rethrow {A} (m : M A) (h : M unit) : M A :=
  catch_rethrow is_exception m h.

Definition emit (e : event) : M unit :=
  fun s => Ok tt (mkState (blocks s) (handles s) (trace s ++ [e])).

Definition load_block (c : Z) : M ControlBlock :=
  fun s => match blocks s !! c with
           | Some cb => Ok cb s
           | None => Fail Undefined s
           end.
Definition store_block (c : Z) (cb : ControlBlock) : M unit :=
  fun s => Ok tt (mkState (<[c := cb]> (blocks s)) (handles s) (trace s)).
Definition free_block (c : Z) : M unit :=
  fun s => Ok tt (mkState (delete c (blocks s)) (handles s) (trace s)).

Definition load_handle (h : Z) : M VSharedPtr :=
  fun s => match handles s !! h with
           | Some v => Ok v s
           | None => Fail Undefined s
           end.
Definition store_handle (h : Z) (v : VSharedPtr) : M unit :=
  fun s => Ok tt (mkState (blocks s) (<[h := v]> (handles s)) (trace s)).
Definition free_handle (h : Z) : M unit :=
  fun s => Ok tt (mkState (blocks s) (delete h (handles s)) (trace s)).

Definition set_strong (v : Z) (cb : ControlBlock) : ControlBlock :=
  mkCB v (gc_weak_count_ cb) (ptr_ cb) (object_destroyed_ cb) (is_array_ cb)
       (object_mutex_ cb) (magic_header_ cb) (magic_footer_ cb)
       (control_block_destroyed_ cb).
Definition set_weak (v : Z) (cb : ControlBlock) : ControlBlock :=
  mkCB (gc_strong_count_ cb) v (ptr_ cb) (object_destroyed_ cb) (is_array_ cb)
       (object_mutex_ cb) (magic_header_ cb) (magic_footer_ cb)
       (control_block_destroyed_ cb).
Definition set_ptr (p : option Z) (cb : ControlBlock) : ControlBlock :=
  mkCB (gc_strong_count_ cb) (gc_weak_count_ cb) p (object_destroyed_ cb)
       (is_array_ cb) (object_mutex_ cb) (magic_header_ cb) (magic_footer_ cb)
       (control_block_destroyed_ cb).
Definition set_object_destroyed (b : bool) (cb : ControlBlock) : ControlBlock :=
  mkCB (gc_strong_count_ cb) (gc_weak_count_ cb) (ptr_ cb) b (is_array_ cb)
       (object_mutex_ cb) (magic_header_ cb) (magic_footer_ cb)
       (control_block_destroyed_ cb).
Definition set_mutex (m : shared_mutex) (cb : ControlBlock) : ControlBlock :=
  mkCB (gc_strong_count_ cb) (gc_weak_count_ cb) (ptr_ cb) (object_destroyed_ cb)
       (is_array_ cb) m (magic_header_ cb) (magic_footer_ cb)
       (control_block_destroyed_ cb).

Definition count_of (c : counter) (cb : ControlBlock) : Z :=
  match c with Strong => gc_strong_count_ cb | Weak => gc_weak_count_ cb end.
Definition set_count (c : counter) (v : Z) (cb : ControlBlock) : ControlBlock :=
  match c with Strong => set_strong v cb | Weak => set_weak v cb end.

(** [std::unique_lock] and [std::shared_lock] on a [shared_mutex]. *)
Definition lock_exclusive (m : shared_mutex) : option shared_mutex :=
  match m with Unlocked => Some LockedExclusive | _ => None end.
Definition lock_shared (m : shared_mutex) : option shared_mutex :=
  match m with
  | Unlocked => Some (LockedShared 1)
  | LockedShared n => Some (LockedShared (S n))
  | LockedExclusive => None
  end.
Definition unlock (m : shared_mutex) : shared_mutex := Unlocked.
Definition unlock_shared (m : shared_mutex) : shared_mutex :=
  match m with
  | LockedShared (S (S n)) => LockedShared (S n)
  | _ => Unlocked
  end.

Section Mode.

(** The template argument [TM] and the build flag
    [meta::safety_checks_enabled]. *)
Context (TM : ThreadMode) (safety_checks_enabled : bool).

(** The layout of the payloads, which follows from the template argument
    [T]: [members_of p] lists the addresses of the handles that are members
    of the object at [p] (of the elements of the array at [p]), in the order
    in which the destructor of the payload destroys them, that is last
    declared first. *)
Context (members_of : Z -> list Z).

(** [exception::throw_or_abort] *)
Definition throw_or_abort {A} (msg : string) : M A :=
  if safety_checks_enabled then throw (MemorySafety msg) else throw Abort.

(** *** [detail::ControlBlock] *)

Definition ControlBlock_new (p : Z) (is_array : bool) : ControlBlock :=
  mkCB 1 0 (Some p) false is_array Unlocked magic.alive magic.alive false.

Definition load_count (which : counter) (c : Z) : M Z :=
  do cb <- load_block c;
  ret (count_of which cb).

Definition verify_integrity (c : Z) : M unit :=
  do cb <- load_block c;
  if negb safety_checks_enabled then ret tt
  else if negb (magic_header_ cb =? magic.alive) || negb (magic_footer_ cb =? magic.alive)
  then throw (MemorySafety "ControlBlock: corruption detected!")
  else if control_block_destroyed_ cb
  then throw (MemorySafety "ControlBlock: already destroyed!")
  else ret tt.

(** [delete p] and [delete[] p]: the destructor of the payload runs, and with
    it the destructors of the handles that are its members; [del] is the
    destructor of a handle. *)
Fixpoint destroy_members (del : Z -> M unit) (l : list Z) : M unit :=
  match l with
  | [] => ret tt
  | h :: l' => del h ;; destroy_members del l'
  end.

Definition delete_object (del : Z -> M unit) (p : Z) (is_array : bool) : M unit :=
  emit (EvDeleteObject p is_array) ;;
  destroy_members del (members_of p).

(** [destroy_object] calls [~VSharedPtr] through the payload, and
    [~VSharedPtr] calls [destroy_object] through [release] and
    [release_strong].  Each of them is written first with the function it
    reaches through the payload as an argument ([del], [destroy]);
    [destroy_object_n] below closes the circle. *)
Definition destroy_object_with (del : Z -> M unit) (c : Z) : M unit :=
  do cb <- load_block c;
  if object_destroyed_ cb then ret tt
  else
    store_block c (set_object_destroyed true cb) ;;
    (* std::unique_lock lock(object_mutex_): held until the end of the block *)
    match lock_exclusive (object_mutex_ cb) with
    | None => throw Blocked
    | Some m =>
        emit (EvLockExclusive c) ;;
        store_block c (set_mutex m (set_ptr None (set_object_destroyed true cb))) ;;
        match ptr_ cb with
        | Some p => delete_object del p (is_array_ cb)
        | None => ret tt
        end ;;
        (* the end of the block: lock is destroyed, the mutex of this block
           is unlocked *)
        do cb' <- load_block c;
        store_block c (set_mutex (unlock (object_mutex_ cb')) cb') ;;
        emit (EvUnlock c)
    end.

Definition add_count (which : counter) (c : Z) : M unit :=
  verify_integrity c ;;
  do cb <- load_block c;
  store_block c (set_count which (wrap_size_t (count_of which cb + 1)) cb).

Definition add_strong : Z -> M unit := add_count Strong.
Definition add_weak : Z -> M unit := add_count Weak.

Definition try_add_strong (c : Z) : M bool :=
  do cb <- load_block c;
  if 0 <? gc_strong_count_ cb
  then store_block c (set_strong (wrap_size_t (gc_strong_count_ cb + 1)) cb) ;; ret true
  else ret false.

(** [x.fetch_sub(1, MO::release)], or [x--] on a plain counter: both give the
    value before the decrement. *)
Definition decrement_event (which : counter) : event :=
  match TM with
  | TM_True => EvFetchSub which (MO.release TM)
  | TM_False => EvPostDecrement which
  end.

Definition fetch_sub_count (which : counter) (c : Z) : M Z :=
  do cb <- load_block c;
  store_block c (set_count which (wrap_size_t (count_of which cb - 1)) cb) ;;
  emit (decrement_event which) ;;
  ret (count_of which cb).

Definition fence (mo : memory_order) : M unit :=
  match TM with TM_True => emit (EvFence mo) | TM_False => ret tt end.

(** [delete this]: the destructor overwrites the sentinels, then the storage
    is given back. *)
Definition delete_this (c : Z) : M unit :=
  load_block c ;;
  emit (EvDeleteThis c) ;;
  free_block c.

Definition release_strong_with (destroy : Z -> M unit) (c : Z) : M unit :=
  do old_count <- fetch_sub_count Strong c;
  if old_count =? 0 then ret tt   (* underflow guard *)
  else if old_count =? 1 then
    fence (MO.acquire TM) ;;
    destroy c ;;
    (* read the weak count now, before any delete this *)
    emit (EvLoadCount Weak) ;;
    do weak <- load_count Weak c;
    if weak =? 0 then fence (MO.acquire TM) ;; delete_this c
    else ret tt
  else ret tt.

Definition release_weak (c : Z) : M unit :=
  do old_count <- fetch_sub_count Weak c;
  if old_count =? 0 then ret tt   (* underflow guard *)
  else if old_count =? 1 then
    fence (MO.acquire TM) ;;
    emit (EvLoadCount Strong) ;;
    do strong <- load_count Strong c;
    if strong =? 0 then fence (MO.acquire TM) ;; delete_this c
    else ret tt
  else ret tt.

(** [VSharedPtr::release] and [~VSharedPtr], which the payloads reach. *)
Definition release_with (destroy : Z -> M unit) (this : Z) : M unit :=
  do h <- load_handle this;
  match ctrl_ h with
  | Some c => if is_weak_ h then release_weak c else release_strong_with destroy c
  | None => ret tt
  end.

Definition VSharedPtr_delete_with (destroy : Z -> M unit) (this : Z) : M unit :=
  release_with destroy this ;; free_handle this.

(** The circle closed.  Every call of [destroy_object] that gets as far as
    the payload has set the flag [object_destroyed_] of a block that had it
    clear, and no block is made meanwhile: the calls cannot be nested deeper
    than there are control blocks, which is the depth that [destroy_object]
    allows for. *)
Fixpoint destroy_object_n (n : nat) (c : Z) : M unit :=
  match n with
  | O => throw OutOfFuel
  | S n' => destroy_object_with (VSharedPtr_delete_with (destroy_object_n n')) c
  end.

Definition destroy_object (c : Z) : M unit :=
  fun s => destroy_object_n (S (size (blocks s))) c s.

Definition release_strong : Z -> M unit := release_strong_with destroy_object.

Definition get_ptr (c : Z) : M (option Z) :=
  do cb <- load_block c; ret (ptr_ cb).
Definition is_alive (c : Z) : M bool :=
  do n <- load_count Strong c; ret (0 <? n).
Definition strong_count (c : Z) : M Z := load_count Strong c.
Definition weak_count_cb (c : Z) : M Z := load_count Weak c.
Definition is_array (c : Z) : M bool :=
  do cb <- load_block c; ret (is_array_ cb).

(** *** [detail::LockedProxy] *)

Definition LockedProxy_new (ptr : option Z) (c : Z) : M LockedProxy :=
  do cb <- load_block c;
  (* member initialiser lock_(mtx): std::unique_lock *)
  match lock_exclusive (object_mutex_ cb) with
  | None => throw Blocked
  | Some m =>
      store_block c (set_mutex m cb) ;;
      match ptr with
      | None =>
          (* the exception leaves the constructor: lock_ is destroyed *)
          try_catch_rethrow (throw_or_abort "LockedProxy: null pointer")
                            (store_block c (set_mutex (unlock m) cb))
      | Some _ => ret (mkProxy ptr (Some c))
      end
  end.

Definition LockedProxy_delete (v : LockedProxy) : M unit :=
  match lock_ v with
  | Some c => do cb <- load_block c; store_block c (set_mutex (unlock (object_mutex_ cb)) cb)
  | None => ret tt
  end.

Definition LockedProxy_get (v : LockedProxy) : option Z := lp_ptr_ v.

(** *** [VSharedPtr] *)

Definition null_handle : VSharedPtr := mkPtr None false.

Definition release : Z -> M unit := release_with destroy_object.

Definition VSharedPtr_delete (this : Z) : M unit :=
  release this ;; free_handle this.

Definition VSharedPtr_default (this : Z) : M unit := store_handle this null_handle.

(** [explicit VSharedPtr(Elem* ptr)]; [cb_addr] is what [new CB] returns, [None]
    when the allocation fails. *)
Definition VSharedPtr_from_raw (arr : bool) (this : Z) (ptr : option Z)
    (cb_addr : option Z) : M unit :=
  store_handle this null_handle ;;
  match ptr with
  | None => ret tt
  | Some p =>
      match cb_addr with
      | None => delete_object VSharedPtr_delete p arr ;; free_handle this ;; throw bad_alloc
      | Some cb =>
          store_block cb (ControlBlock_new p arr) ;;
          store_handle this (mkPtr (Some cb) false)
      end
  end.

Definition VSharedPtr_copy (this o : Z) : M unit :=
  noexcept (
    store_handle this null_handle ;;
    do oh <- load_handle o;
    match ctrl_ oh with
    | Some c => if is_weak_ oh then add_weak c else add_strong c
    | None => ret tt
    end ;;
    store_handle this (mkPtr (ctrl_ oh) (is_weak_ oh))).

Definition VSharedPtr_move (this o : Z) : M unit :=
  do oh <- load_handle o;
  store_handle o null_handle ;;
  store_handle this (mkPtr (ctrl_ oh) (is_weak_ oh)).

Definition swap (this other : Z) : M unit :=
  do me <- load_handle this;
  do oh <- load_handle other;
  store_handle this oh ;;
  store_handle other me.

Definition reset (this : Z) : M unit :=
  release this ;; store_handle this null_handle.

(** The assignments; [tmp] is where the temporary of copy-and-swap lives. *)
Definition assign_copy (tmp : Z) (this o : Z) : M unit :=
  if this =? o then ret tt
  else VSharedPtr_copy tmp o ;; swap this tmp ;; VSharedPtr_delete tmp.

Definition assign_move (this o : Z) : M unit :=
  if this =? o then ret tt
  else
    release this ;;
    do oh <- load_handle o;
    store_handle o null_handle ;;
    store_handle this (mkPtr (ctrl_ oh) (is_weak_ oh)).

Definition assign_nullptr (this : Z) : M unit := reset this.

Definition reset_raw (arr : bool) (tmp : Z) (this : Z) (ptr : option Z)
    (cb_addr : option Z) : M unit :=
  VSharedPtr_from_raw arr tmp ptr cb_addr ;; swap this tmp ;; VSharedPtr_delete tmp.

(** What [operator->] returns: a locked view in thread-safe mode, the plain
    pointer otherwise. *)
Inductive arrow_result :=
| View (v : LockedProxy)
| Raw (p : option Z).

Definition operator_arrow (this : Z) : M arrow_result :=
  do h <- load_handle this;
  if is_weak_ h then throw_or_abort "operator->: cannot dereference weak pointer"
  else match ctrl_ h with
       | None => throw_or_abort "operator->: null pointer dereference"
       | Some c =>
           do p <- get_ptr c;
           match TM with
           | TM_True => do v <- LockedProxy_new p c; ret (View v)
           | TM_False => ret (Raw p)
           end
       end.

Definition deref_locked (c : Z) : M Z :=
  do cb <- load_block c;
  match TM with
  | TM_True =>
      (* std::shared_lock lock(c->get_mutex()), released on return *)
      match lock_shared (object_mutex_ cb) with
      | None => throw Blocked
      | Some _ => match ptr_ cb with Some p => ret p | None => throw Undefined end
      end
  | TM_False => match ptr_ cb with Some p => ret p | None => throw Undefined end
  end.

Definition operator_star (this : Z) : M Z :=
  do h <- load_handle this;
  if is_weak_ h then throw_or_abort "operator*: cannot dereference weak pointer"
  else match ctrl_ h with
       | None => throw_or_abort "operator*: null pointer dereference"
       | Some c => deref_locked c
       end.

Definition operator_index (this : Z) (index : Z) : M (Z * Z) :=
  do h <- load_handle this;
  if is_weak_ h then throw_or_abort "operator[]: cannot access weak pointer"
  else match ctrl_ h with
       | None => throw_or_abort "operator[]: null pointer access"
       | Some c => do p <- deref_locked c; ret (p, index)
       end.

Definition get (this : Z) : M (option Z) :=
  do h <- load_handle this;
  match ctrl_ h with
  | None => ret None
  | Some c => if is_weak_ h then ret None else get_ptr c
  end.

(** [lock_access] exists in thread-safe mode only. *)
Definition lock_access (this : Z) : M LockedProxy :=
  do h <- load_handle this;
  if is_weak_ h then throw_or_abort "lock_access: called on weak pointer"
  else match ctrl_ h with
       | None => throw_or_abort "lock_access: called on null pointer"
       | Some c => do p <- get_ptr c; LockedProxy_new p c
       end.

(** [make_weak], [lock]: the handle they return is built at [dest]. *)
Definition make_weak (dest : Z) (strong_ref : Z) : M unit :=
  do sh <- load_handle strong_ref;
  match ctrl_ sh with
  | None => store_handle dest null_handle
  | Some c =>
      if is_weak_ sh then store_handle dest null_handle
      else
        store_handle dest (mkPtr (Some c) true) ;;
        (* if add_weak throws, wp is destroyed on the way out *)
        try_catch_rethrow (add_weak c) (VSharedPtr_delete dest)
  end.

Definition lock (dest : Z) (this : Z) : M unit :=
  do h <- load_handle this;
  if negb (is_weak_ h) then VSharedPtr_copy dest this   (* already strong *)
  else match ctrl_ h with
       | None => store_handle dest null_handle
       | Some c =>
           do ok <- try_add_strong c;
           if ok then store_handle dest (mkPtr (Some c) false)
           else store_handle dest null_handle
       end.

Definition weak (this other : Z) : M unit :=
  if this =? other then ret tt
  else
    release this ;;
    do oh <- load_handle other;
    match ctrl_ oh with
    | Some c =>
        if is_weak_ oh then store_handle this null_handle
        else add_weak c ;; store_handle this (mkPtr (Some c) true)
    | None => store_handle this null_handle
    end.

Definition expired (this : Z) : M bool :=
  do h <- load_handle this;
  match ctrl_ h with
  | None => ret true
  | Some c => do a <- is_alive c; ret (negb a)
  end.

Definition operator_bool (this : Z) : M bool :=
  do h <- load_handle this;
  if is_weak_ h then do e <- expired this; ret (negb e)
  else do p <- get this; ret (bool_decide (p <> None)).

Definition ref_count (this : Z) : M Z :=
  do h <- load_handle this;
  match ctrl_ h with Some c => strong_count c | None => ret 0 end.
Definition weak_count (this : Z) : M Z :=
  do h <- load_handle this;
  match ctrl_ h with Some c => weak_count_cb c | None => ret 0 end.
Definition unique (this : Z) : M bool :=
  do n <- ref_count this; ret (n =? 1).
Definition is_weak (this : Z) : M bool :=
  do h <- load_handle this; ret (is_weak_ h).

Definition operator_eq (this o : Z) : M bool :=
  do p <- get this; do q <- get o; ret (bool_decide (p = q)).
Definition operator_ne (this o : Z) : M bool :=
  do b <- operator_eq this o; ret (negb b).
Definition operator_eq_nullptr (this : Z) : M bool :=
  do p <- get this; ret (bool_decide (p = None)).
Definition operator_ne_nullptr (this : Z) : M bool :=
  do p <- get this; ret (bool_decide (p <> None)).

(** [VMakeShared]: the payload [p] has been built by [new T(...)]. *)
Definition VMakeShared (arr : bool) (dest : Z) (p : Z) (cb_addr : option Z) : M unit :=
  VSharedPtr_from_raw arr dest (Some p) cb_addr.

End Mode.

End RC.

(** ** The tracing collector *)

Module TC.

(** [sizeof(gc_object)]: the payload starts right behind the header. *)
Definition sizeof_gc_object : Z := 40.

Inductive PtrType := ROOT | GC_HEAP.

(** The destructor callbacks that the source installs in a header: the empty
    lambda of the default constructor, [std::destroy_at] of [New<T>], and the
    reverse [std::destroy] of [New<T[]>] (with [sizeof(T)]). *)
Inductive destructor_fn :=
| destroy_nothing
| destroy_single
| destroy_reverse (sizeof_T : Z).

Record gc_object := mkObj {
  end_ : Z;
  destructor : destructor_fn;
  root_ref_cnt : Z;
  first : option Z;
  mark : bool
}.

(** A [Ptr<T>]: the [gc_base_ptr] subobject ([type], [next], [object]) and
    the pointer [ptr] that the handle shows. *)
Record Ptr := mkPtr {
  type : PtrType;
  next : option Z;
  object : option Z;
  ptr : option Z
}.

Inductive event :=
| EvConstruct (a : Z)     (* a payload constructor ran at a *)
| EvDestroy (a : Z)       (* a payload destructor ran at a *)
| EvDestructor (o : Z)    (* the destructor callback of header o was invoked *)
| EvDelete (o : Z).       (* ::operator delete(o) *)

Record State := mkState {
  objs : gmap Z gc_object;
  ptrs : gmap Z Ptr;
  all_objects : list Z;
  gc_counter : Z;
  current : option Z;
  trace : list event
}.

Inductive error :=
| constructor_exception   (* a payload constructor threw *)
| Undefined               (* a dangling pointer was dereferenced *)
| Diverges.               (* a loop of the source does not end *)

Definition is_exception (e : error) : bool :=
  match e with constructor_exception => true | _ => false end.

Abbreviation M := (computation State error).

Definition set_objs (f : gmap Z gc_object -> gmap Z gc_object) (s : State) : State :=
  mkState (f (objs s)) (ptrs s) (all_objects s) (gc_counter s) (current s) (trace s).
Definition set_ptrs (f : gmap Z Ptr -> gmap Z Ptr) (s : State) : State :=
  mkState (objs s) (f (ptrs s)) (all_objects s) (gc_counter s) (current s) (trace s).
Definition set_all_objects (l : list Z) (s : State) : State :=
  mkState (objs s) (ptrs s) l (gc_counter s) (current s) (trace s).
Definition set_gc_counter (c : Z) (s : State) : State :=
  mkState (objs s) (ptrs s) (all_objects s) c (current s) (trace s).
Definition set_current (c : option Z) (s : State) : State :=
  mkState (objs s) (ptrs s) (all_objects s) (gc_counter s) c (trace s).
Definition add_trace (l : list event) (s : State) : State :=
  mkState (objs s) (ptrs s) (all_objects s) (gc_counter s) (current s) (trace s ++ l).

Definition get_state : M State := fun s => Ok s s.
Definition modify (f : State -> State) : M unit := fun s => Ok tt (f s).
Definition emit (l : list event) : M unit := modify (add_trace l).

Definition load_obj (o : Z) : M gc_object :=
  fun s => match objs s !! o with
           | Some ob => Ok ob s
           | None => Fail Undefined s
           end.
Definition store_obj (o : Z) (ob : gc_object) : M unit :=
  modify (set_objs (insert o ob)).

Definition load_ptr (h : Z) : M Ptr :=
  fun s => match ptrs s !! h with
           | Some p => Ok p s
           | None => Fail Undefined s
           end.
Definition store_ptr (h : Z) (p : Ptr) : M unit :=
  modify (set_ptrs (insert h p)).

Definition set_root_ref_cnt (n : Z) (ob : gc_object) : gc_object :=
  mkObj (end_ ob) (destructor ob) n (first ob) (mark ob).
Definition set_first (f : option Z) (ob : gc_object) : gc_object :=
  mkObj (end_ ob) (destructor ob) (root_ref_cnt ob) f (mark ob).
Definition set_mark (b : bool) (ob : gc_object) : gc_object :=
  mkObj (end_ ob) (destructor ob) (root_ref_cnt ob) (first ob) b.

Definition set_object (o : option Z) (p : Ptr) : Ptr :=
  mkPtr (type p) (next p) o (ptr p).
Definition set_ptr (d : option Z) (p : Ptr) : Ptr :=
  mkPtr (type p) (next p) (object p) d.

(** *** [gc_object] *)

Definition start (o : Z) : Z := o + sizeof_gc_object.

Definition gc_object_new (e : Z) (d : destructor_fn) : gc_object :=
  mkObj e d 0 None false.

(** The payload elements of an array of [n] values of size [sz] at [b]. *)
Definition elements (b sz : Z) (n : nat) : list Z :=
  map (fun i => b + Z.of_nat i * sz) (seq 0 n).

(** What the destructor callback does on [start, end). *)
Definition run_destructor (d : destructor_fn) (s e : Z) : list event :=
  match d with
  | destroy_nothing => []
  | destroy_single => [EvDestroy s]
  | destroy_reverse sz => map EvDestroy (rev (elements s sz (Z.to_nat ((e - s) / sz))))
  end.

(** [gc_object::~gc_object] *)
Definition gc_object_delete (o : Z) : M unit :=
  do ob <- load_obj o;
  emit (EvDestructor o :: run_destructor (destructor ob) (start o) (end_ ob)).

(** *** [gc_base_ptr] *)

Definition inc_root (o : Z) : M unit :=
  do ob <- load_obj o;
  store_obj o (set_root_ref_cnt (wrap_int (root_ref_cnt ob + 1)) ob).

Definition dec_root (o : Z) : M unit :=
  do ob <- load_obj o;
  store_obj o (set_root_ref_cnt (wrap_int (root_ref_cnt ob - 1)) ob).

(** The test that fixes the type of a handle at [this]: does it lie inside
    the object under construction? *)
Definition classify (this : Z) : M PtrType :=
  do s <- get_state;
  match current s with
  | None => ret ROOT
  | Some cur =>
      do cob <- load_obj cur;
      if (start cur <=? this) && (this <? end_ cob) then ret GC_HEAP else ret ROOT
  end.

(** Push a heap handle on the list of the object under construction. *)
Definition link_heap_ptr (this : Z) (o : option Z) : M unit :=
  do s <- get_state;
  match current s with
  | None => throw Undefined
  | Some cur =>
      do cob <- load_obj cur;
      store_ptr this (mkPtr GC_HEAP (first cob) o None) ;;
      store_obj cur (set_first (Some this) cob)
  end.

(** [gc_base_ptr::gc_base_ptr(gc_object* o)] *)
Definition gc_base_ptr_new (this : Z) (o : option Z) : M unit :=
  do ty <- classify this;
  match ty with
  | GC_HEAP => link_heap_ptr this o
  | ROOT =>
      store_ptr this (mkPtr ROOT None o None) ;;
      match o with Some a => inc_root a | None => ret tt end
  end.

(** [gc_base_ptr::gc_base_ptr(const gc_base_ptr& o)] *)
Definition gc_base_ptr_copy (this o : Z) : M unit :=
  do op <- load_ptr o;
  gc_base_ptr_new this (object op).

(** [gc_base_ptr::gc_base_ptr(gc_base_ptr&& o)] *)
Definition gc_base_ptr_move (this o : Z) : M unit :=
  do ty <- classify this;
  do op <- load_ptr o;
  let o2 := object op in
  match ty with
  | GC_HEAP => link_heap_ptr this o2
  | ROOT =>
      store_ptr this (mkPtr ROOT None o2 None) ;;
      match o2 with
      | Some a =>
          match type op with
          | ROOT => (* steal the reference *) store_ptr o (set_object None op)
          | GC_HEAP => inc_root a
          end
      | None => ret tt
      end
  end.

(** [gc_base_ptr::operator=(nullptr_t)] and [gc_base_ptr::reset] *)
Definition gc_base_ptr_reset (this : Z) : M unit :=
  do p <- load_ptr this;
  match type p with
  | GC_HEAP => store_ptr this (set_object None p)
  | ROOT =>
      store_ptr this (set_object None p) ;;
      match object p with Some a => dec_root a | None => ret tt end
  end.

Definition gc_base_ptr_assign_nullptr (this : Z) : M unit := gc_base_ptr_reset this.

(** [gc_base_ptr::operator=(const gc_base_ptr& o)] *)
Definition gc_base_ptr_assign (this o : Z) : M unit :=
  do p <- load_ptr this;
  do op <- load_ptr o;
  let o1 := object p in
  let o2 := object op in
  if bool_decide (o1 = o2) then ret tt
  else match type p with
       | GC_HEAP => store_ptr this (set_object o2 p)
       | ROOT =>
           match o1 with Some a => dec_root a | None => ret tt end ;;
           store_ptr this (set_object o2 p) ;;
           match o2 with Some a => inc_root a | None => ret tt end
       end.

(** [gc_base_ptr::operator=(gc_base_ptr&& o)] *)
Definition gc_base_ptr_assign_move (this o : Z) : M unit :=
  do p <- load_ptr this;
  do op <- load_ptr o;
  let o1 := object p in
  let o2 := object op in
  if bool_decide (o1 = o2) then ret tt
  else match type p with
       | GC_HEAP => store_ptr this (set_object o2 p)
       | ROOT =>
           match type op with
           | ROOT =>
               (* swap: both reference counts are reused *)
               store_ptr this (set_object o2 p) ;;
               store_ptr o (set_object o1 op)
           | GC_HEAP =>
               match o1 with Some a => dec_root a | None => ret tt end ;;
               store_ptr this (set_object o2 p) ;;
               match o2 with Some a => inc_root a | None => ret tt end
           end
       end.

(** [gc_base_ptr::~gc_base_ptr].  The storage of a ROOT handle goes with the
    handle; a heap handle stays where it is, linked in the list of its
    object, until the object is freed. *)
Definition gc_base_ptr_delete (this : Z) : M unit :=
  do p <- load_ptr this;
  match type p with
  | ROOT =>
      match object p with Some a => dec_root a | None => ret tt end ;;
      modify (set_ptrs (delete this))
  | GC_HEAP => ret tt
  end.

(** *** [Ptr<T>] *)

Definition store_display (this : Z) (d : option Z) : M unit :=
  do p <- load_ptr this; store_ptr this (set_ptr d p).

Definition Ptr_default (this : Z) : M unit := gc_base_ptr_new this None.

Definition Ptr_copy (this o : Z) : M unit :=
  gc_base_ptr_copy this o ;;
  do op <- load_ptr o; store_display this (ptr op).

(** [Ptr(const gc_base_ptr& o, T* p)], the aliasing constructor: the handle
    counts for [o]'s object and shows [p].  The free [operator+] and
    [operator-] and the four casts return [Ptr<T>(a, q)] for a pointer [q]
    that they compute from [a.get()]. *)
Definition Ptr_alias (this o : Z) (d : option Z) : M unit :=
  gc_base_ptr_copy this o ;; store_display this d.

Definition Ptr_move (this o : Z) : M unit :=
  gc_base_ptr_move this o ;;
  do op <- load_ptr o; store_display this (ptr op).

Definition Ptr_assign (this o : Z) : M unit :=
  gc_base_ptr_assign this o ;;
  do op <- load_ptr o; store_display this (ptr op).

Definition Ptr_assign_move (this o : Z) : M unit :=
  gc_base_ptr_assign_move this o ;;
  do op <- load_ptr o; store_display this (ptr op).

Definition Ptr_assign_nullptr (this : Z) : M unit :=
  gc_base_ptr_assign_nullptr this ;; store_display this None.

Definition Ptr_reset (this : Z) : M unit :=
  store_display this None ;; gc_base_ptr_reset this.

Definition Ptr_get (this : Z) : M (option Z) :=
  do p <- load_ptr this; ret (ptr p).

(** [Ptr::operator bool]: [ptr != nullptr] *)
Definition Ptr_operator_bool (this : Z) : M bool :=
  do p <- load_ptr this; ret (bool_decide (ptr p <> None)).

(** *** [gc_collect] *)

Definition lift {A} (r : error + A) : M A :=
  fun s => match r with inl e => Fail e s | inr a => Ok a s end.

Fixpoint for_each {A} (l : list A) (f : A -> M unit) : M unit :=
  match l with
  | [] => ret tt
  | x :: l' => f x ;; for_each l' f
  end.

(** The loop [for (j = first; j != nullptr; j = j->next)]: the handles it
    visits.  A list that is not null-terminated within [fuel] links has a
    cycle, and the loop of the source does not end. *)
Fixpoint walk (fuel : nat) (ps : gmap Z Ptr) (j : option Z) : error + list Ptr :=
  match j with
  | None => inr []
  | Some a =>
      match fuel with
      | O => inl Diverges
      | S f =>
          match ps !! a with
          | None => inl Undefined
          | Some p =>
              match walk f ps (next p) with
              | inl e => inl e
              | inr l => inr (p :: l)
              end
          end
      end
  end.

Definition embedded (ps : gmap Z Ptr) (ob : gc_object) : error + list Ptr :=
  walk (S (size ps)) ps (first ob).

(** [pending] is a vector used as a stack: its back is the head of the list. *)

(** Phase 1, inner loop: push every non-null referent. *)
Fixpoint push_referents (l : list Ptr) (pending : list Z) : list Z :=
  match l with
  | [] => pending
  | p :: l' =>
      match object p with
      | Some o => push_referents l' (o :: pending)
      | None => push_referents l' pending
      end
  end.

(** Phase 1: seed [pending] from the root-referenced objects. *)
Fixpoint phase1 (ps : gmap Z Ptr) (l : list Z) (os : gmap Z gc_object)
    (pending : list Z) : error + (gmap Z gc_object * list Z) :=
  match l with
  | [] => inr (os, pending)
  | c :: l' =>
      match os !! c with
      | None => inl Undefined
      | Some ob =>
          if negb (root_ref_cnt ob =? 0) then
            match embedded ps ob with
            | inl e => inl e
            | inr hs =>
                phase1 ps l' (<[c := set_mark true ob]> os) (push_referents hs pending)
            end
          else phase1 ps l' (<[c := set_mark false ob]> os) pending
      end
  end.

(** Phase 2, inner loop: push every referent that is not marked yet. *)
Fixpoint push_unmarked (os : gmap Z gc_object) (l : list Ptr) (pending : list Z)
    : error + list Z :=
  match l with
  | [] => inr pending
  | p :: l' =>
      match object p with
      | Some o =>
          match os !! o with
          | None => inl Undefined
          | Some ob =>
              if mark ob then push_unmarked os l' pending
              else push_unmarked os l' (o :: pending)
          end
      | None => push_unmarked os l' pending
      end
  end.

(** Phase 2: [while (!pending.empty())]. *)
Fixpoint phase2 (fuel : nat) (ps : gmap Z Ptr) (os : gmap Z gc_object)
    (pending : list Z) : error + gmap Z gc_object :=
  match pending with
  | [] => inr os
  | c :: rest =>
      match fuel with
      | O => inl Diverges
      | S f =>
          match os !! c with
          | None => inl Undefined
          | Some ob =>
              if mark ob then phase2 f ps os rest
              else
                match embedded ps ob with
                | inl e => inl e
                | inr hs =>
                    let os' := <[c := set_mark true ob]> os in
                    match push_unmarked os' hs rest with
                    | inl e => inl e
                    | inr pending' => phase2 f ps os' pending'
                    end
                end
          end
      end
  end.

(** Every pass of the loop of phase 2 pops an entry, and pushes entries only
    when it marks an object: this many passes are enough. *)
Definition phase2_fuel (ps : gmap Z Ptr) (os : gmap Z gc_object)
    (pending : list Z) : nat :=
  (length pending + size os * S (size ps))%nat.

(** Phase 3: [std::stable_partition] by the mark, live objects first. *)
Fixpoint partition_marked (os : gmap Z gc_object) (l : list Z)
    : error + (list Z * list Z) :=
  match l with
  | [] => inr ([], [])
  | o :: l' =>
      match os !! o with
      | None => inl Undefined
      | Some ob =>
          match partition_marked os l' with
          | inl e => inl e
          | inr (live, garbage) =>
              if mark ob then inr (o :: live, garbage) else inr (live, o :: garbage)
          end
      end
  end.

(** [::operator delete(o)] gives back the block from the header to the end
    of the payload, with the handles that lie in it. *)
Definition release_storage (o : Z) (ob : gc_object) (s : State) : State :=
  set_ptrs (filter (fun kv => ~ (o <= kv.1 < end_ ob))) (set_objs (delete o) s).

Definition operator_delete (o : Z) : M unit :=
  do ob <- load_obj o;
  emit [EvDelete o] ;;
  modify (release_storage o ob).

Definition gc_collect : M unit :=
  do s <- get_state;
  if bool_decide (all_objects s = []) then ret tt
  else
    do seeded <- lift (phase1 (ptrs s) (all_objects s) (objs s) []);
    do marked <- lift (phase2 (phase2_fuel (ptrs s) seeded.1 seeded.2)
                              (ptrs s) seeded.1 seeded.2);
    do parts <- lift (partition_marked marked (all_objects s));
    let garbage := parts.2 in
    modify (set_objs (fun _ => marked)) ;;
    modify (set_all_objects parts.1) ;;
    (* a vector of pointers is too short for the product to overflow *)
    modify (set_gc_counter (Z.max (Z.of_nat (length parts.1) * 2) 1024)) ;;
    (* phase 4: destructors, outside the lock *)
    for_each garbage gc_object_delete ;;
    (* phase 5: free the memory *)
    for_each garbage operator_delete.

(** [gc_atexit_handler], which [std::atexit] runs when the program ends. *)
Definition gc_atexit_handler : M unit := gc_collect.

(** *** [New<T>] and [New<T[]>] *)

(** [gc_counter.fetch_sub(1)] *)
Definition fetch_sub_gc_counter : M Z :=
  do s <- get_state;
  modify (set_gc_counter (wrap_long (gc_counter s - 1))) ;;
  ret (gc_counter s).

(** The block under the lock: build the header at [mem], point the handle at
    it, give it its first root reference, enter it in the registry. *)
Definition register_object (this mem : Z) (e : Z) (d : destructor_fn) : M unit :=
  store_obj mem (gc_object_new e d) ;;
  do p <- load_ptr this;
  store_ptr this (set_object (Some mem) p) ;;
  match type p with
  | ROOT => store_obj mem (set_root_ref_cnt 1 (gc_object_new e d))
  | GC_HEAP => ret tt
  end ;;
  do s <- get_state;
  modify (set_all_objects (all_objects s ++ [mem])).

(** The [catch (...)] block of both constructors, after the destruction of
    what had been built. *)
Definition constructor_failed (this mem : Z) (parent : option Z) : M unit :=
  do p <- load_ptr this;
  match type p with
  | ROOT => dec_root mem
  | GC_HEAP => ret tt
  end ;;
  store_ptr this (set_ptr None (set_object None p)) ;;
  modify (set_current parent).

(** [New<T>::New(args...)]: [this] is the handle under construction, [mem]
    the block that [::operator new] returned, [ctor] the constructor of the
    payload. *)
Definition New_single (sizeof_T : Z) (ctor : Z -> M unit) (this mem : Z) : M unit :=
  Ptr_default this ;;
  do old <- fetch_sub_gc_counter;
  (if old <=? 0 then ret tt else ret tt) ;;
  do s <- get_state;
  (if gc_counter s <? 0 then gc_collect else ret tt) ;;
  register_object this mem (mem + sizeof_gc_object + sizeof_T) destroy_single ;;
  do s <- get_state;
  let parent := current s in
  modify (set_current (Some mem)) ;;
  store_display this (Some (start mem)) ;;
  catch_rethrow is_exception (ctor (start mem))
                (constructor_failed this mem parent) ;;
  modify (set_current parent).

(** The loop that builds the elements; [done] are those built so far, which
    [std::destroy(begin, constructed_end)] destroys when one throws. *)
Fixpoint construct_elements (ctor : Z -> M unit) (todo done : list Z)
    (failed : M unit) : M unit :=
  match todo with
  | [] => ret tt
  | i :: rest =>
      catch_rethrow is_exception (ctor i)
                    (emit (map EvDestroy done) ;; failed) ;;
      construct_elements ctor rest (done ++ [i]) failed
  end.

(** [New<T[]>::New(size)] *)
Definition New_array (sizeof_T : Z) (ctor : Z -> M unit) (this mem : Z)
    (size : nat) : M unit :=
  Ptr_default this ;;
  do old <- fetch_sub_gc_counter;
  (if old <=? 0 then gc_collect else ret tt) ;;
  register_object this mem (mem + sizeof_gc_object + Z.of_nat size * sizeof_T)
                  (destroy_reverse sizeof_T) ;;
  do s <- get_state;
  let parent := current s in
  modify (set_current (Some mem)) ;;
  store_display this (Some (start mem)) ;;
  construct_elements ctor (elements (start mem) sizeof_T size) []
                     (constructor_failed this mem parent) ;;
  modify (set_current parent).

(** A payload without handles: its constructor only runs, or throws. *)
Definition plain_ctor (throws : Z -> bool) (a : Z) : M unit :=
  if throws a then throw constructor_exception else emit [EvConstruct a].

(** A payload with handle members, like [struct Node { Ptr<Node> next; ... }]
    of the tests: the members are built in the order of their declaration,
    at their offsets in the payload, then the body of the constructor runs;
    when the body throws, the members are destroyed in reverse order. *)
Definition member_ctor (offs : list Z) (throws : Z -> bool) (a : Z) : M unit :=
  for_each offs (fun off => Ptr_default (a + off)) ;;
  catch_rethrow is_exception (plain_ctor throws a)
                (for_each (rev offs) (fun off => gc_base_ptr_delete (a + off))).

End TC.

(** * Properties of the reference-counted pointer *)

Section RC_facts.
Import RC.

Context (TM : ThreadMode) (safety_checks_enabled : bool).
Context (members_of : Z -> list Z).

Local Abbreviation decrement_event := (RC.decrement_event TM).
Local Abbreviation fetch_sub_count := (RC.fetch_sub_count TM).
Local Abbreviation fence := (RC.fence TM).
Local Abbreviation release_strong := (RC.release_strong TM members_of).
Local Abbreviation destroy_object := (RC.destroy_object TM members_of).
Local Abbreviation release_weak := (RC.release_weak TM).
Local Abbreviation release := (RC.release TM members_of).
Local Abbreviation verify_integrity := (RC.verify_integrity safety_checks_enabled).
Local Abbreviation add_count := (RC.add_count safety_checks_enabled).
Local Abbreviation add_strong := (RC.add_strong safety_checks_enabled).
Local Abbreviation add_weak := (RC.add_weak safety_checks_enabled).
Local Abbreviation throw_or_abort := (RC.throw_or_abort safety_checks_enabled).

(** A control block whose sentinels are in place. *)
Definition intact (cb : ControlBlock) : Prop :=
  magic_header_ cb = magic.alive /\ magic_footer_ cb = magic.alive /\
  control_block_destroyed_ cb = false.

(** What [destroy_object] leaves of a block, and what it is seen to do, when
    the payload has no handle among its members. *)
Definition destroyed_block (cb : ControlBlock) : ControlBlock :=
  if object_destroyed_ cb then cb
  else set_ptr None (set_object_destroyed true cb).

Definition destroy_trace (c : Z) (cb : ControlBlock) : list event :=
  if object_destroyed_ cb then []
  else [EvLockExclusive c] ++
       match ptr_ cb with
       | Some p => [EvDeleteObject p (is_array_ cb)]
       | None => []
       end ++ [EvUnlock c].

Definition fence_trace (mo : memory_order) : list event :=
  match TM with TM_True => [EvFence mo] | TM_False => [] end.

Ltac unfold_monad :=
  unfold bind, ret, throw, emit, load_block, store_block, free_block,
    load_handle, store_handle, free_handle in *.

Lemma fence_run mo s :
  fence mo s = Ok tt (mkState (blocks s) (handles s) (trace s ++ fence_trace mo)).
Proof.
  unfold RC.fence, fence_trace. destruct TM; unfold_monad; simpl.
  - reflexivity.
  - rewrite app_nil_r. destruct s; reflexivity.
Qed.

(** The payload of a block holds no handle. *)
Definition plain_payload (cb : ControlBlock) : Prop :=
  forall p, ptr_ cb = Some p -> members_of p = [].

Lemma destroy_object_run s c cb :
  blocks s !! c = Some cb ->
  object_destroyed_ cb = true \/ object_mutex_ cb = Unlocked ->
  plain_payload cb ->
  destroy_object c s =
  Ok tt (mkState (<[c := destroyed_block cb]> (blocks s)) (handles s)
                 (trace s ++ destroy_trace c cb)).
Proof.
  intros Hc Hfree Hplain. unfold RC.destroy_object, destroyed_block, destroy_trace.
  simpl. unfold destroy_object_with, delete_object.
  unfold_monad. rewrite Hc.
  destruct (object_destroyed_ cb) eqn:Hd.
  - rewrite app_nil_r, insert_id by exact Hc. destruct s; reflexivity.
  - destruct Hfree as [Hfree | Hfree]; [discriminate |].
    rewrite Hfree. simpl. rewrite insert_insert_eq.
    assert (Hback : set_mutex (unlock LockedExclusive)
                      (set_mutex LockedExclusive (set_ptr None (set_object_destroyed true cb))) =
                    set_ptr None (set_object_destroyed true cb)).
    { destruct cb; simpl in *; subst; reflexivity. }
    destruct (ptr_ cb) as [p |] eqn:Hp; simpl.
    + rewrite (Hplain p Hp). simpl. rewrite lookup_insert_eq. simpl.
      rewrite insert_insert_eq, Hback, <- !app_assoc. reflexivity.
    + rewrite lookup_insert_eq. simpl.
      rewrite insert_insert_eq, Hback, <- !app_assoc. reflexivity.
Qed.

Lemma delete_object_plain del p arr s :
  members_of p = [] ->
  delete_object members_of del p arr s =
  Ok tt (mkState (blocks s) (handles s) (trace s ++ [EvDeleteObject p arr])).
Proof. intros Hp. unfold delete_object. rewrite Hp. reflexivity. Qed.

Lemma fetch_sub_count_run which s c cb :
  blocks s !! c = Some cb ->
  fetch_sub_count which c s =
  Ok (count_of which cb)
     (mkState (<[c := set_count which (wrap_size_t (count_of which cb - 1)) cb]> (blocks s))
              (handles s) (trace s ++ [decrement_event which])).
Proof.
  intros Hc. unfold RC.fetch_sub_count. unfold_monad. rewrite Hc. reflexivity.
Qed.

(** *** The nesting of destructors is bounded

    The depth that [destroy_object] allows for is never used up: a call that
    gets as far as the payload has set the flag [object_destroyed_] of a
    block that had it clear, and nothing on the way clears a flag or makes a
    block. *)

Definition undestroyed (bl : gmap Z ControlBlock) : nat :=
  count_values (fun cb => object_destroyed_ cb = false) bl.

(** From a state with fewer than [n] blocks whose object is still there, the
    computation does not run out of depth, and it leaves no more such blocks
    than it found. *)
Definition tame {A} (n : nat) (m : M A) : Prop :=
  forall s, (undestroyed (blocks s) < n)%nat ->
    match m s with
    | Ok _ s' => (undestroyed (blocks s') <= undestroyed (blocks s))%nat
    | Fail e s' =>
        e <> OutOfFuel /\ (undestroyed (blocks s') <= undestroyed (blocks s))%nat
    end.

Lemma undestroyed_insert (bl : gmap Z ControlBlock) c cb cb' :
  bl !! c = Some cb ->
  (object_destroyed_ cb = true -> object_destroyed_ cb' = true) ->
  (undestroyed (<[c := cb']> bl) <= undestroyed bl)%nat.
Proof.
  intros Hc Hflag. unfold undestroyed.
  pose proof (count_values_insert (fun cb => object_destroyed_ cb = false) bl c cb' cb Hc)
    as Hcount.
  unfold indicator in Hcount.
  destruct (object_destroyed_ cb) eqn:Hd.
  - rewrite (Hflag eq_refl) in Hcount. repeat case_decide; try discriminate. lia.
  - repeat case_decide; try congruence; lia.
Qed.

Lemma undestroyed_set_flag (bl : gmap Z ControlBlock) c cb cb' :
  bl !! c = Some cb ->
  object_destroyed_ cb = false -> object_destroyed_ cb' = true ->
  (undestroyed (<[c := cb']> bl) < undestroyed bl)%nat.
Proof.
  intros Hc Hd Hd'. unfold undestroyed.
  pose proof (count_values_insert (fun cb => object_destroyed_ cb = false) bl c cb' cb Hc)
    as Hcount.
  unfold indicator in Hcount. rewrite Hd, Hd' in Hcount.
  repeat case_decide; try congruence; lia.
Qed.

Lemma undestroyed_delete (bl : gmap Z ControlBlock) c :
  (undestroyed (delete c bl) <= undestroyed bl)%nat.
Proof.
  unfold undestroyed. destruct (bl !! c) as [cb |] eqn:Hc.
  - rewrite (count_values_delete _ bl c cb Hc). lia.
  - rewrite delete_id by exact Hc. lia.
Qed.

Lemma undestroyed_le_size (bl : gmap Z ControlBlock) : (undestroyed bl <= size bl)%nat.
Proof. apply count_values_le_size. Qed.

Lemma tame_result_le {A} (r : result State error A) (a b : nat) :
  match r with
  | Ok _ s' => (undestroyed (blocks s') <= a)%nat
  | Fail e s' => e <> OutOfFuel /\ (undestroyed (blocks s') <= a)%nat
  end ->
  (a <= b)%nat ->
  match r with
  | Ok _ s' => (undestroyed (blocks s') <= b)%nat
  | Fail e s' => e <> OutOfFuel /\ (undestroyed (blocks s') <= b)%nat
  end.
Proof. destruct r; [lia |]. intros [He Hle] Hab. split; [exact He | lia]. Qed.

Lemma tame_ret {A} n (a : A) : tame n (ret a).
Proof. intros s _. simpl. lia. Qed.

Lemma tame_throw {A} n e : e <> OutOfFuel -> tame n (throw e : M A).
Proof. intros He s _. simpl. split; [exact He | lia]. Qed.

Lemma tame_emit n e : tame n (emit e).
Proof. intros s _. simpl. lia. Qed.

Lemma tame_load_block n c : tame n (load_block c).
Proof.
  intros s _. unfold load_block. destruct (blocks s !! c); [lia |].
  split; [discriminate | lia].
Qed.

Lemma tame_load_handle n h : tame n (load_handle h).
Proof.
  intros s _. unfold load_handle. destruct (handles s !! h); [lia |].
  split; [discriminate | lia].
Qed.

Lemma tame_free_handle n h : tame n (free_handle h).
Proof. intros s _. simpl. lia. Qed.

Lemma tame_free_block n c : tame n (free_block c).
Proof. intros s _. simpl. apply undestroyed_delete. Qed.

Lemma tame_bind {A B} n (m : M A) (k : A -> M B) :
  tame n m -> (forall a, tame n (k a)) -> tame n (bind m k).
Proof.
  intros Hm Hk s Hlt. specialize (Hm s Hlt). unfold bind.
  destruct (m s) as [a s1 | e s1].
  - specialize (Hk a s1 ltac:(lia)).
    destruct (k a s1) as [b s2 | e s2]; [lia |]. split; [apply Hk | lia].
  - exact Hm.
Qed.

(** A block is read and written back with its flag as it was, or set. *)
Lemma tame_load_store {A} n c (f : ControlBlock -> ControlBlock)
    (k : ControlBlock -> M A) :
  (forall cb, object_destroyed_ cb = true -> object_destroyed_ (f cb) = true) ->
  (forall cb, tame n (k cb)) ->
  tame n (do cb <- load_block c; store_block c (f cb) ;; k cb).
Proof.
  intros Hf Hk s Hlt. unfold bind, load_block, store_block.
  destruct (blocks s !! c) as [cb |] eqn:Hc; [| split; [discriminate | lia]].
  pose proof (undestroyed_insert (blocks s) c cb (f cb) Hc (Hf cb)) as Hle.
  specialize (Hk cb (mkState (<[c := f cb]> (blocks s)) (handles s) (trace s))).
  simpl in Hk. specialize (Hk ltac:(lia)).
  destruct (k cb _) as [b s2 | e s2]; [lia |]. split; [apply Hk | lia].
Qed.

Lemma tame_fence n mo : tame n (fence mo).
Proof. unfold RC.fence. destruct TM; [apply tame_emit | apply tame_ret]. Qed.

Lemma tame_fetch_sub_count n which c : tame n (fetch_sub_count which c).
Proof.
  unfold RC.fetch_sub_count. apply tame_load_store.
  - intros cb Hd. destruct which; exact Hd.
  - intros cb. apply tame_bind; [apply tame_emit | intros _; apply tame_ret].
Qed.

Lemma tame_load_count n which c : tame n (load_count which c).
Proof.
  unfold load_count. apply tame_bind; [apply tame_load_block | intros cb; apply tame_ret].
Qed.

Lemma tame_delete_this n c : tame n (delete_this c).
Proof.
  unfold delete_this. apply tame_bind; [apply tame_load_block | intros _].
  apply tame_bind; [apply tame_emit | intros _; apply tame_free_block].
Qed.

Lemma tame_release_weak n c : tame n (release_weak c).
Proof.
  unfold RC.release_weak. apply tame_bind; [apply tame_fetch_sub_count | intros old].
  destruct (old =? 0); [apply tame_ret |]. destruct (old =? 1); [| apply tame_ret].
  apply tame_bind; [apply tame_fence | intros _].
  apply tame_bind; [apply tame_emit | intros _].
  apply tame_bind; [apply tame_load_count | intros strong].
  destruct (strong =? 0); [| apply tame_ret].
  apply tame_bind; [apply tame_fence | intros _; apply tame_delete_this].
Qed.

Lemma tame_release_strong_with n destroy c :
  (forall c', tame n (destroy c')) -> tame n (release_strong_with TM destroy c).
Proof.
  intros Hd. unfold release_strong_with.
  apply tame_bind; [apply tame_fetch_sub_count | intros old].
  destruct (old =? 0); [apply tame_ret |]. destruct (old =? 1); [| apply tame_ret].
  apply tame_bind; [apply tame_fence | intros _].
  apply tame_bind; [apply Hd | intros _].
  apply tame_bind; [apply tame_emit | intros _].
  apply tame_bind; [apply tame_load_count | intros weak].
  destruct (weak =? 0); [| apply tame_ret].
  apply tame_bind; [apply tame_fence | intros _; apply tame_delete_this].
Qed.

Lemma tame_release_with n destroy this :
  (forall c', tame n (destroy c')) -> tame n (release_with TM destroy this).
Proof.
  intros Hd. unfold release_with.
  apply tame_bind; [apply tame_load_handle | intros h].
  destruct (ctrl_ h) as [c |]; [| apply tame_ret].
  destruct (is_weak_ h); [apply tame_release_weak | apply tame_release_strong_with, Hd].
Qed.

Lemma tame_VSharedPtr_delete_with n destroy this :
  (forall c', tame n (destroy c')) -> tame n (VSharedPtr_delete_with TM destroy this).
Proof.
  intros Hd. unfold VSharedPtr_delete_with.
  apply tame_bind; [apply tame_release_with, Hd | intros _; apply tame_free_handle].
Qed.

Lemma tame_destroy_members n del l :
  (forall h, tame n (del h)) -> tame n (destroy_members del l).
Proof.
  intros Hdel. induction l as [| h l IH]; simpl; [apply tame_ret |].
  apply tame_bind; [apply Hdel | intros _; exact IH].
Qed.

Lemma tame_destroy_object_with n del c :
  (forall h, tame n (del h)) -> tame (S n) (destroy_object_with members_of del c).
Proof.
  intros Hdel s Hlt. unfold destroy_object_with. unfold bind at 1. unfold load_block.
  destruct (blocks s !! c) as [cb |] eqn:Hc; [| split; [discriminate | lia]].
  destruct (object_destroyed_ cb) eqn:Hflag; [simpl; lia |].
  unfold bind at 1. unfold store_block at 1.
  pose proof (undestroyed_set_flag (blocks s) c cb (set_object_destroyed true cb)
                Hc Hflag eq_refl) as Hless.
  destruct (lock_exclusive (object_mutex_ cb)) as [m |];
    [| simpl; split; [discriminate | lia]].
  unfold bind at 1. unfold emit at 1. unfold bind at 1. unfold store_block at 1. simpl.
  rewrite insert_insert_eq.
  pose proof (undestroyed_set_flag (blocks s) c cb
                (set_mutex m (set_ptr None (set_object_destroyed true cb)))
                Hc Hflag eq_refl) as Hless2.
  assert (Hrest : tame n
            (match ptr_ cb with
             | Some p => delete_object members_of del p (is_array_ cb)
             | None => ret tt
             end ;;
             do cb' <- load_block c;
             store_block c (set_mutex (unlock (object_mutex_ cb')) cb') ;;
             emit (EvUnlock c))).
  { apply tame_bind.
    - destruct (ptr_ cb) as [p |]; [| apply tame_ret]. unfold delete_object.
      apply tame_bind; [apply tame_emit | intros _].
      apply tame_destroy_members, Hdel.
    - intros _. apply tame_load_store; [intros cb' Hd; exact Hd |].
      intros _. apply tame_emit. }
  eapply tame_result_le; [apply Hrest; simpl; lia | simpl; lia].
Qed.

Lemma tame_destroy_object_n n c : tame n (destroy_object_n TM members_of n c).
Proof.
  revert c. induction n as [| n IH]; intros c.
  - intros s Hlt. lia.
  - simpl. apply tame_destroy_object_with. intros h.
    apply tame_VSharedPtr_delete_with, IH.
Qed.

(** [destroy_object], and with it [release_strong], [release] and
    [~VSharedPtr], never run out of depth. *)
Lemma tame_destroy_object n c : tame n (destroy_object c).
Proof.
  intros s Hlt. unfold RC.destroy_object.
  pose proof (tame_destroy_object_n (S (size (blocks s))) c s) as Ht.
  pose proof (undestroyed_le_size (blocks s)).
  specialize (Ht ltac:(lia)). exact Ht.
Qed.

Lemma tame_bounded {A} (m : M A) s s' :
  tame (S (undestroyed (blocks s))) m -> m s <> Fail OutOfFuel s'.
Proof.
  intros Ht Hrun. specialize (Ht s ltac:(lia)). rewrite Hrun in Ht.
  destruct Ht as [Hne _]. contradiction.
Qed.

Lemma destroy_object_bounded c s s' : destroy_object c s <> Fail OutOfFuel s'.
Proof. apply tame_bounded, tame_destroy_object. Qed.

Lemma release_bounded this s s' : release this s <> Fail OutOfFuel s'.
Proof.
  apply tame_bounded. unfold RC.release. apply tame_release_with.
  intros c. apply tame_destroy_object.
Qed.

(** The depth does not matter once it suffices: a run that does not use up
    its depth is the run at any greater depth, and the run of
    [destroy_object]. *)
Definition refines {A} (m m' : M A) : Prop :=
  forall s, (forall s', m s <> Fail OutOfFuel s') -> m' s = m s.

Lemma refines_refl {A} (m : M A) : refines m m.
Proof. intros s _. reflexivity. Qed.

Lemma refines_trans {A} (m1 m2 m3 : M A) :
  refines m1 m2 -> refines m2 m3 -> refines m1 m3.
Proof.
  intros H12 H23 s Hno. rewrite <- (H12 s Hno). apply H23.
  intros s'. rewrite (H12 s Hno). apply Hno.
Qed.

Lemma refines_bind {A B} (m m' : M A) (k k' : A -> M B) :
  refines m m' -> (forall a, refines (k a) (k' a)) ->
  refines (bind m k) (bind m' k').
Proof.
  intros Hm Hk s Hno. unfold bind in *.
  assert (Hm' : m' s = m s).
  { apply Hm. intros s' Hrun. rewrite Hrun in Hno. exact (Hno s' eq_refl). }
  rewrite Hm'. destruct (m s) as [a s1 | e s1]; [| reflexivity].
  apply Hk. exact Hno.
Qed.

Lemma refines_destroy_members (del del' : Z -> M unit) l :
  (forall h, refines (del h) (del' h)) ->
  refines (destroy_members del l) (destroy_members del' l).
Proof.
  intros Hdel. induction l as [| h l IH]; simpl; [apply refines_refl |].
  apply refines_bind; [apply Hdel | intros _; exact IH].
Qed.

Lemma refines_destroy_object_with (del del' : Z -> M unit) c :
  (forall h, refines (del h) (del' h)) ->
  refines (destroy_object_with members_of del c) (destroy_object_with members_of del' c).
Proof.
  intros Hdel. unfold destroy_object_with.
  apply refines_bind; [apply refines_refl | intros cb].
  destruct (object_destroyed_ cb); [apply refines_refl |].
  apply refines_bind; [apply refines_refl | intros _].
  destruct (lock_exclusive (object_mutex_ cb)) as [m |]; [| apply refines_refl].
  apply refines_bind; [apply refines_refl | intros _].
  apply refines_bind; [apply refines_refl | intros _].
  apply refines_bind; [| intros _; apply refines_refl].
  destruct (ptr_ cb) as [p |]; [| apply refines_refl]. unfold delete_object.
  apply refines_bind; [apply refines_refl | intros _].
  apply refines_destroy_members, Hdel.
Qed.

Lemma refines_release_strong_with (destroy destroy' : Z -> M unit) c :
  (forall c', refines (destroy c') (destroy' c')) ->
  refines (release_strong_with TM destroy c) (release_strong_with TM destroy' c).
Proof.
  intros Hd. unfold release_strong_with.
  apply refines_bind; [apply refines_refl | intros old].
  destruct (old =? 0); [apply refines_refl |].
  destruct (old =? 1); [| apply refines_refl].
  apply refines_bind; [apply refines_refl | intros _].
  apply refines_bind; [apply Hd | intros _; apply refines_refl].
Qed.

Lemma refines_VSharedPtr_delete_with (destroy destroy' : Z -> M unit) this :
  (forall c', refines (destroy c') (destroy' c')) ->
  refines (VSharedPtr_delete_with TM destroy this) (VSharedPtr_delete_with TM destroy' this).
Proof.
  intros Hd. unfold VSharedPtr_delete_with, release_with.
  apply refines_bind; [| intros _; apply refines_refl].
  apply refines_bind; [apply refines_refl | intros h].
  destruct (ctrl_ h) as [c |]; [| apply refines_refl].
  destruct (is_weak_ h); [apply refines_refl |].
  apply refines_release_strong_with, Hd.
Qed.

Lemma refines_destroy_object_n_S n c :
  refines (destroy_object_n TM members_of n c) (destroy_object_n TM members_of (S n) c).
Proof.
  revert c. induction n as [| n IH]; intros c.
  - intros s Hno. exfalso. exact (Hno s eq_refl).
  - change (refines
              (destroy_object_with members_of
                 (VSharedPtr_delete_with TM (destroy_object_n TM members_of n)) c)
              (destroy_object_with members_of
                 (VSharedPtr_delete_with TM (destroy_object_n TM members_of (S n))) c)).
    apply refines_destroy_object_with. intros h.
    apply refines_VSharedPtr_delete_with, IH.
Qed.

Lemma refines_destroy_object_n_le n n' c :
  (n <= n')%nat ->
  refines (destroy_object_n TM members_of n c) (destroy_object_n TM members_of n' c).
Proof.
  induction 1 as [| n' Hle IH]; [apply refines_refl |].
  eapply refines_trans; [exact IH | apply refines_destroy_object_n_S].
Qed.

Lemma refines_destroy_object n c :
  refines (destroy_object_n TM members_of n c) (destroy_object c).
Proof.
  intros s Hno. unfold RC.destroy_object.
  destruct (Nat.le_ge_cases n (S (size (blocks s)))) as [Hle | Hge].
  - apply (refines_destroy_object_n_le _ _ c Hle s Hno).
  - symmetry. apply (refines_destroy_object_n_le _ _ c Hge s).
    intros s'. apply tame_bounded.
    intros s0 Hlt. apply tame_destroy_object_n.
    pose proof (undestroyed_le_size (blocks s)). lia.
Qed.

Lemma refines_VSharedPtr_delete n this :
  refines (VSharedPtr_delete_with TM (destroy_object_n TM members_of n) this)
          (RC.VSharedPtr_delete TM members_of this).
Proof.
  change (RC.VSharedPtr_delete TM members_of this)
    with (VSharedPtr_delete_with TM destroy_object this).
  apply refines_VSharedPtr_delete_with. intros c. apply refines_destroy_object.
Qed.

(** The trace of the last strong release: decrement, fence, destruction of the
    managed object, read of the weak counter, and only then the deletion. *)
Definition release_strong_trace (c : Z) (cb : ControlBlock) : list event :=
  [decrement_event Strong] ++ fence_trace (MO.acquire TM) ++
  destroy_trace c cb ++ [EvLoadCount Weak] ++
  (if gc_weak_count_ cb =? 0
   then fence_trace (MO.acquire TM) ++ [EvDeleteThis c] else []).

Lemma release_strong_last_run s c cb :
  blocks s !! c = Some cb ->
  gc_strong_count_ cb = 1 ->
  object_destroyed_ cb = true \/ object_mutex_ cb = Unlocked ->
  plain_payload cb ->
  release_strong c s =
  Ok tt (mkState
           (if gc_weak_count_ cb =? 0 then delete c (blocks s)
            else <[c := destroyed_block (set_strong 0 cb)]> (blocks s))
           (handles s)
           (trace s ++ release_strong_trace c cb)).
Proof.
  intros Hc H1 Hfree Hplain.
  unfold RC.release_strong, release_strong_with, release_strong_trace.
  unfold bind at 1. rewrite (fetch_sub_count_run Strong s c cb Hc). simpl.
  rewrite H1. simpl.
  unfold bind at 1. rewrite fence_run. simpl.
  unfold bind at 1.
  erewrite destroy_object_run; simpl;
    [| apply lookup_insert_eq | exact Hfree | exact Hplain].
  rewrite insert_insert_eq.
  unfold load_count.
  unfold_monad. simpl. rewrite lookup_insert_eq. simpl.
  replace (gc_weak_count_ (destroyed_block (set_strong (wrap_size_t (1 - 1)) cb)))
    with (gc_weak_count_ cb)
    by (unfold destroyed_block; simpl; destruct (object_destroyed_ cb); reflexivity).
  destruct (gc_weak_count_ cb =? 0) eqn:Hw.
  - rewrite fence_run. simpl. unfold delete_this. unfold_monad. simpl.
    rewrite lookup_insert_eq. simpl. rewrite delete_insert_eq.
    rewrite <- !app_assoc. reflexivity.
  - rewrite <- !app_assoc. reflexivity.
Qed.

Lemma release_strong_zero_run s c cb :
  blocks s !! c = Some cb ->
  gc_strong_count_ cb = 0 ->
  release_strong c s =
  Ok tt (mkState (<[c := set_strong SIZE_MAX cb]> (blocks s)) (handles s)
                 (trace s ++ [decrement_event Strong])).
Proof.
  intros Hc H0. unfold RC.release_strong, release_strong_with.
  unfold bind at 1. rewrite (fetch_sub_count_run Strong s c cb Hc). simpl.
  rewrite H0. reflexivity.
Qed.

Lemma release_weak_zero_run s c cb :
  blocks s !! c = Some cb ->
  gc_weak_count_ cb = 0 ->
  release_weak c s =
  Ok tt (mkState (<[c := set_weak SIZE_MAX cb]> (blocks s)) (handles s)
                 (trace s ++ [decrement_event Weak])).
Proof.
  intros Hc H0. unfold RC.release_weak.
  unfold bind at 1. rewrite (fetch_sub_count_run Weak s c cb Hc). simpl.
  rewrite H0. reflexivity.
Qed.

Lemma release_strong_many_run s c cb :
  blocks s !! c = Some cb ->
  gc_strong_count_ cb <> 0 -> gc_strong_count_ cb <> 1 ->
  release_strong c s =
  Ok tt (mkState (<[c := set_strong (wrap_size_t (gc_strong_count_ cb - 1)) cb]> (blocks s))
                 (handles s) (trace s ++ [decrement_event Strong])).
Proof.
  intros Hc H0 H1. unfold RC.release_strong, release_strong_with.
  unfold bind at 1. rewrite (fetch_sub_count_run Strong s c cb Hc). simpl.
  destruct (Z.eqb_spec (gc_strong_count_ cb) 0); [contradiction |].
  destruct (Z.eqb_spec (gc_strong_count_ cb) 1); [contradiction |].
  reflexivity.
Qed.

Lemma release_weak_many_run s c cb :
  blocks s !! c = Some cb ->
  gc_weak_count_ cb <> 0 -> gc_weak_count_ cb <> 1 ->
  release_weak c s =
  Ok tt (mkState (<[c := set_weak (wrap_size_t (gc_weak_count_ cb - 1)) cb]> (blocks s))
                 (handles s) (trace s ++ [decrement_event Weak])).
Proof.
  intros Hc H0 H1. unfold RC.release_weak.
  unfold bind at 1. rewrite (fetch_sub_count_run Weak s c cb Hc). simpl.
  destruct (Z.eqb_spec (gc_weak_count_ cb) 0); [contradiction |].
  destruct (Z.eqb_spec (gc_weak_count_ cb) 1); [contradiction |].
  reflexivity.
Qed.

Definition release_weak_trace (c : Z) (cb : ControlBlock) : list event :=
  [decrement_event Weak] ++ fence_trace (MO.acquire TM) ++ [EvLoadCount Strong] ++
  (if gc_strong_count_ cb =? 0
   then fence_trace (MO.acquire TM) ++ [EvDeleteThis c] else []).

Lemma release_weak_last_run s c cb :
  blocks s !! c = Some cb ->
  gc_weak_count_ cb = 1 ->
  release_weak c s =
  Ok tt (mkState
           (if gc_strong_count_ cb =? 0 then delete c (blocks s)
            else <[c := set_weak 0 cb]> (blocks s))
           (handles s)
           (trace s ++ release_weak_trace c cb)).
Proof.
  intros Hc H1. unfold RC.release_weak, release_weak_trace.
  unfold bind at 1. rewrite (fetch_sub_count_run Weak s c cb Hc). simpl.
  rewrite H1. simpl.
  unfold bind at 1. rewrite fence_run. simpl.
  unfold load_count. unfold_monad. simpl. rewrite lookup_insert_eq. simpl.
  destruct (gc_strong_count_ cb =? 0) eqn:Hw.
  - rewrite fence_run. simpl. unfold delete_this. unfold_monad. simpl.
    rewrite lookup_insert_eq. simpl. rewrite delete_insert_eq.
    rewrite <- !app_assoc. reflexivity.
  - rewrite <- !app_assoc. reflexivity.
Qed.

(** X25: the last strong release of a payload that holds no handle.
    [release_strong] starts with the decrement of the strong counter, a
    fetch-sub with release ordering in thread-safe mode and a plain
    post-decrement otherwise.  When the counter was 1, it then destroys the
    managed object, then reads the weak counter, and deletes the control
    block exactly when that read gave 0: in the trace the read
    [EvLoadCount Weak] stands after the deletion of the object and before
    [EvDeleteThis]. *)
Theorem release_strong_of_plain_payload s c cb :
  blocks s !! c = Some cb ->
  object_destroyed_ cb = true \/ object_mutex_ cb = Unlocked ->
  plain_payload cb ->
  decrement_event Strong =
    match TM with
    | TM_True => EvFetchSub Strong memory_order_release
    | TM_False => EvPostDecrement Strong
    end /\
  (exists rest,
     trace (final_state (release_strong c s)) =
     trace s ++ decrement_event Strong :: rest) /\
  (gc_strong_count_ cb = 1 ->
   exists s',
     release_strong c s = Ok tt s' /\
     trace s' =
       trace s ++
       [decrement_event Strong] ++ fence_trace (MO.acquire TM) ++
       destroy_trace c cb ++ [EvLoadCount Weak] ++
       (if gc_weak_count_ cb =? 0
        then fence_trace (MO.acquire TM) ++ [EvDeleteThis c] else []) /\
     (blocks s' !! c = None <-> gc_weak_count_ cb = 0) /\
     (gc_weak_count_ cb <> 0 ->
      blocks s' !! c = Some (destroyed_block (set_strong 0 cb)))).
Proof.
  intros Hc Hfree Hplain.
  split; [unfold RC.decrement_event; destruct TM; reflexivity |]. split.
  - destruct (decide (gc_strong_count_ cb = 0)) as [H0 | H0].
    { rewrite (release_strong_zero_run s c cb Hc H0). simpl. eauto. }
    destruct (decide (gc_strong_count_ cb = 1)) as [H1 | H1].
    { rewrite (release_strong_last_run s c cb Hc H1 Hfree Hplain). simpl.
      unfold release_strong_trace. simpl. eauto. }
    rewrite (release_strong_many_run s c cb Hc H0 H1). simpl. eauto.
  - intros H1. eexists. split.
    { apply (release_strong_last_run s c cb Hc H1 Hfree Hplain). }
    simpl. split; [reflexivity |].
    destruct (Z.eqb_spec (gc_weak_count_ cb) 0) as [Hw | Hw].
    + split; [| intros; contradiction].
      split; [intros _; exact Hw | intros _; apply lookup_delete_eq].
    + split; [| intros _; apply lookup_insert_eq].
      rewrite lookup_insert_eq. split; [discriminate | contradiction].
Qed.

(** C8: on a counter that is 0 the fetch-sub is followed by the underflow
    guard and nothing else: no object and no control block is destroyed (the
    only event is the decrement, the block keeps its place, its managed
    pointer and its destroyed flag).  The counter itself has wrapped to
    [SIZE_MAX]. *)
Theorem release_at_zero_destroys_nothing s c cb :
  blocks s !! c = Some cb ->
  (gc_strong_count_ cb = 0 ->
   release_strong c s =
   Ok tt (mkState (<[c := set_strong SIZE_MAX cb]> (blocks s)) (handles s)
                  (trace s ++ [decrement_event Strong]))) /\
  (gc_weak_count_ cb = 0 ->
   release_weak c s =
   Ok tt (mkState (<[c := set_weak SIZE_MAX cb]> (blocks s)) (handles s)
                  (trace s ++ [decrement_event Weak]))).
Proof.
  intros Hc. split; intros H0.
  - apply release_strong_zero_run; assumption.
  - apply release_weak_zero_run; assumption.
Qed.

Local Abbreviation make_weak := (RC.make_weak TM safety_checks_enabled members_of).
Local Abbreviation lock := (RC.lock safety_checks_enabled).
Local Abbreviation VSharedPtr_copy := (RC.VSharedPtr_copy safety_checks_enabled).
Local Abbreviation operator_arrow := (RC.operator_arrow TM safety_checks_enabled).
Local Abbreviation LockedProxy_new := (RC.LockedProxy_new safety_checks_enabled).

Lemma verify_integrity_run s c cb :
  blocks s !! c = Some cb -> intact cb -> verify_integrity c s = Ok tt s.
Proof.
  intros Hc (Hh & Hf & Hd). unfold RC.verify_integrity. unfold_monad.
  rewrite Hc, Hh, Hf, Hd. destruct safety_checks_enabled; reflexivity.
Qed.

Lemma add_count_run which s c cb :
  blocks s !! c = Some cb -> intact cb ->
  add_count which c s =
  Ok tt (mkState (<[c := set_count which (wrap_size_t (count_of which cb + 1)) cb]> (blocks s))
                 (handles s) (trace s)).
Proof.
  intros Hc Hi. unfold RC.add_count. unfold bind at 1.
  rewrite (verify_integrity_run s c cb Hc Hi). unfold_monad. rewrite Hc. reflexivity.
Qed.

Lemma VSharedPtr_copy_null_run s this o oh :
  handles s !! o = Some oh -> ctrl_ oh = None -> this <> o ->
  VSharedPtr_copy this o s =
  Ok tt (mkState (blocks s) (<[this := oh]> (handles s)) (trace s)).
Proof.
  intros Ho Hn Hne. unfold RC.VSharedPtr_copy, noexcept. unfold_monad. simpl.
  rewrite lookup_insert_ne by exact Hne. rewrite Ho, Hn. simpl.
  rewrite insert_insert_eq. destruct oh as [c w]; simpl in *; subst. reflexivity.
Qed.

Lemma VSharedPtr_copy_run s this o oh c cb :
  handles s !! o = Some oh -> ctrl_ oh = Some c -> this <> o ->
  blocks s !! c = Some cb -> intact cb ->
  VSharedPtr_copy this o s =
  Ok tt (mkState
           (<[c := set_count (if is_weak_ oh then Weak else Strong)
                     (wrap_size_t (count_of (if is_weak_ oh then Weak else Strong) cb + 1)) cb]>
              (blocks s))
           (<[this := oh]> (handles s)) (trace s)).
Proof.
  intros Ho Hn Hne Hc Hi. unfold RC.VSharedPtr_copy, noexcept.
  unfold bind at 1. unfold store_handle at 1. unfold bind at 1.
  unfold load_handle. simpl. rewrite lookup_insert_ne by exact Hne. rewrite Ho, Hn.
  unfold bind at 1.
  destruct oh as [oc w]; simpl in *; subst oc.
  destruct w; unfold RC.add_weak, RC.add_strong;
    (erewrite add_count_run; [| exact Hc | exact Hi]);
    unfold_monad; simpl; rewrite insert_insert_eq; reflexivity.
Qed.

Lemma make_weak_run s dest strong_ref sh c cb :
  handles s !! strong_ref = Some sh ->
  ctrl_ sh = Some c -> is_weak_ sh = false ->
  blocks s !! c = Some cb -> intact cb ->
  make_weak dest strong_ref s =
  Ok tt (mkState (<[c := set_weak (wrap_size_t (gc_weak_count_ cb + 1)) cb]> (blocks s))
                 (<[dest := mkPtr (Some c) true]> (handles s)) (trace s)).
Proof.
  intros Hs Hc Hw Hb Hi. unfold RC.make_weak.
  unfold bind at 1. unfold load_handle. rewrite Hs, Hc, Hw.
  unfold bind at 1. unfold store_handle at 1.
  unfold try_catch_rethrow, catch_rethrow. unfold RC.add_weak.
  erewrite add_count_run; [reflexivity | exact Hb | exact Hi].
Qed.

Lemma lock_weak_run s dest this h c cb :
  handles s !! this = Some h ->
  ctrl_ h = Some c -> is_weak_ h = true ->
  blocks s !! c = Some cb ->
  lock dest this s =
  if 0 <? gc_strong_count_ cb
  then Ok tt (mkState (<[c := set_strong (wrap_size_t (gc_strong_count_ cb + 1)) cb]> (blocks s))
                      (<[dest := mkPtr (Some c) false]> (handles s)) (trace s))
  else Ok tt (mkState (blocks s) (<[dest := null_handle]> (handles s)) (trace s)).
Proof.
  intros Hh Hc Hw Hb. unfold RC.lock, try_add_strong. unfold_monad.
  rewrite Hh, Hw, Hc. simpl. rewrite Hb.
  destruct (0 <? gc_strong_count_ cb); reflexivity.
Qed.


(** C10: [get] of a weak handle is null whatever the control block holds, so
    the handle equals [nullptr] and every other weak handle under
    [operator==]; its [operator bool] is the negation of [expired], hence
    true as long as the strong counter of its block is above zero. *)
Theorem weak_handle_get_is_null s this h :
  handles s !! this = Some h -> is_weak_ h = true ->
  get this s = Ok None s /\
  operator_eq_nullptr this s = Ok true s /\
  (forall o oh, handles s !! o = Some oh -> is_weak_ oh = true ->
                operator_eq this o s = Ok true s) /\
  (forall e s', expired this s = Ok e s' -> operator_bool this s = Ok (negb e) s') /\
  (forall c cb, ctrl_ h = Some c -> blocks s !! c = Some cb ->
                expired this s = Ok (negb (0 <? gc_strong_count_ cb)) s /\
                operator_bool this s = Ok (0 <? gc_strong_count_ cb) s).
Proof.
  intros Hh Hw.
  assert (Hget : forall o oh, handles s !! o = Some oh -> is_weak_ oh = true ->
                              get o s = Ok None s).
  { intros o oh Ho Hwo. unfold get. unfold_monad. rewrite Ho, Hwo.
    destruct (ctrl_ oh); reflexivity. }
  split; [| split; [| split; [| split]]].
  - eapply Hget; eassumption.
  - unfold operator_eq_nullptr. unfold bind. rewrite (Hget this h Hh Hw). reflexivity.
  - intros o oh Ho Hwo. unfold operator_eq. unfold bind.
    rewrite (Hget this h Hh Hw), (Hget o oh Ho Hwo). reflexivity.
  - intros e s' He. unfold operator_bool. unfold bind at 1. unfold load_handle.
    rewrite Hh, Hw. unfold bind. rewrite He. reflexivity.
  - intros c cb Hc Hb. split.
    + unfold expired, is_alive, load_count. unfold_monad.
      rewrite Hh, Hc, Hb. simpl. reflexivity.
    + unfold operator_bool, expired, is_alive, load_count. unfold_monad.
      rewrite Hh, Hw. rewrite Hh, Hc, Hb. simpl. rewrite negb_involutive. reflexivity.
Qed.

(** C6, as the code has it: [operator->] fails on a weak and on a null
    handle, with the memory-safety error in a checked build and by [abort]
    otherwise.  On a strong handle whose block holds an object and whose
    mutex is free, the thread-safe mode returns a view that holds the mutex
    exclusively ([std::unique_lock]); destroying the view gives the state
    before the call back.  [ThreadMode::False] returns the plain pointer and
    takes no lock. *)
Theorem operator_arrow_view_holds_exclusive_lock s this h :
  handles s !! this = Some h ->
  (is_weak_ h = true ->
   operator_arrow this s =
   Fail (if safety_checks_enabled
         then MemorySafety "operator->: cannot dereference weak pointer"
         else Abort) s) /\
  (is_weak_ h = false -> ctrl_ h = None ->
   operator_arrow this s =
   Fail (if safety_checks_enabled
         then MemorySafety "operator->: null pointer dereference"
         else Abort) s) /\
  (forall c cb p,
     is_weak_ h = false -> ctrl_ h = Some c ->
     blocks s !! c = Some cb -> ptr_ cb = Some p -> object_mutex_ cb = Unlocked ->
     let v := mkProxy (Some p) (Some c) in
     let s' := mkState (<[c := set_mutex LockedExclusive cb]> (blocks s))
                       (handles s) (trace s) in
     RC.operator_arrow TM_True safety_checks_enabled this s = Ok (View v) s' /\
     LockedProxy_delete v s' = Ok tt s /\
     RC.operator_arrow TM_False safety_checks_enabled this s = Ok (Raw (Some p)) s).
Proof.
  intros Hh. split; [| split].
  - intros Hw. unfold RC.operator_arrow, RC.throw_or_abort. unfold_monad.
    rewrite Hh, Hw. destruct safety_checks_enabled; reflexivity.
  - intros Hw Hc. unfold RC.operator_arrow, RC.throw_or_abort. unfold_monad.
    rewrite Hh, Hw, Hc. destruct safety_checks_enabled; reflexivity.
  - intros c cb p Hw Hc Hb Hp Hm v s'. split; [| split].
    + unfold RC.operator_arrow, get_ptr, RC.LockedProxy_new. unfold_monad.
      rewrite Hh, Hw, Hc, Hb, Hp. simpl. rewrite Hb, Hm. reflexivity.
    + unfold LockedProxy_delete. unfold_monad. subst v s'. simpl.
      rewrite lookup_insert_eq. simpl. rewrite insert_insert_eq.
      replace (set_mutex (unlock LockedExclusive) (set_mutex LockedExclusive cb))
        with cb by (destruct cb; simpl in *; subst; reflexivity).
      rewrite insert_id by assumption. destruct s; reflexivity.
    + unfold RC.operator_arrow, get_ptr. unfold_monad.
      rewrite Hh, Hw, Hc, Hb, Hp. reflexivity.
Qed.

(** *** The units that handles hold on the counters *)

(** A handle refers to block [c] as a weak ([w = true]) or as a strong
    handle. *)
Definition refers (c : Z) (w : bool) (h : VSharedPtr) : Prop :=
  ctrl_ h = Some c /\ is_weak_ h = w.

#[local] Instance refers_dec c w h : Decision (refers c w h).
Proof. unfold refers. apply _. Defined.

(** The number of live handles that refer to [c] in that way. *)
Definition units (c : Z) (w : bool) (hs : gmap Z VSharedPtr) : Z :=
  Z.of_nat (count_values (refers c w) hs).

Definition unit_of (c : Z) (w : bool) (h : VSharedPtr) : Z :=
  Z.of_nat (indicator (refers c w) h).

Definition counter_of (w : bool) : counter := if w then Weak else Strong.

(** C7's invariant: every handle refers to a block that is still allocated,
    and each counter of each block is the number of live handles of its kind
    on that block; the blocks are not corrupted and no view holds a lock. *)
Record accounted (bl : gmap Z ControlBlock) (hs : gmap Z VSharedPtr) : Prop := {
  acc_live : forall h v c, hs !! h = Some v -> ctrl_ v = Some c -> is_Some (bl !! c);
  acc_count : forall c cb w, bl !! c = Some cb -> count_of (counter_of w) cb = units c w hs;
  acc_intact : forall c cb, bl !! c = Some cb -> intact cb;
  acc_mutex : forall c cb, bl !! c = Some cb -> object_mutex_ cb = Unlocked
}.

Lemma unit_of_null c w v : ctrl_ v = None -> unit_of c w v = 0.
Proof.
  intros Hn. unfold unit_of, indicator. rewrite decide_False; [reflexivity |].
  unfold refers. rewrite Hn. intros [? _]. discriminate.
Qed.

Lemma unit_of_same c w : unit_of c w (mkPtr (Some c) w) = 1.
Proof. unfold unit_of, indicator. rewrite decide_True; [reflexivity | done]. Qed.

Lemma unit_of_other c w c' w' :
  (c', w') <> (c, w) -> unit_of c' w' (mkPtr (Some c) w) = 0.
Proof.
  intros Hne. unfold unit_of, indicator. rewrite decide_False; [reflexivity |].
  unfold refers. simpl. intros [[= ->] ->]. done.
Qed.

Lemma unit_of_range c w v : 0 <= unit_of c w v <= 1.
Proof. unfold unit_of, indicator. case_decide; lia. Qed.

Lemma unit_of_refers c w v : refers c w v -> unit_of c w v = 1.
Proof. intros Hr. unfold unit_of, indicator. rewrite decide_True; done. Qed.

Lemma units_insert_fresh c w (hs : gmap Z VSharedPtr) k v :
  hs !! k = None -> units c w (<[k:=v]> hs) = units c w hs + unit_of c w v.
Proof.
  intros Hk. unfold units, unit_of.
  rewrite (count_values_insert_fresh _ hs k v Hk). lia.
Qed.

Lemma units_delete c w (hs : gmap Z VSharedPtr) k v :
  hs !! k = Some v -> units c w (delete k hs) = units c w hs - unit_of c w v.
Proof.
  intros Hk. unfold units, unit_of.
  rewrite (count_values_delete _ hs k v Hk). lia.
Qed.

Lemma units_insert c w (hs : gmap Z VSharedPtr) k v old :
  hs !! k = Some old ->
  units c w (<[k:=v]> hs) = units c w hs - unit_of c w old + unit_of c w v.
Proof.
  intros Hk. unfold units, unit_of.
  pose proof (count_values_insert (refers c w) hs k v old Hk). lia.
Qed.

Lemma units_range c w (hs : gmap Z VSharedPtr) :
  0 <= units c w hs <= Z.of_nat (size hs).
Proof.
  unfold units. pose proof (count_values_le_size (refers c w) hs). lia.
Qed.

Lemma units_lookup c (hs : gmap Z VSharedPtr) k v :
  hs !! k = Some v -> ctrl_ v = Some c -> 1 <= units c (is_weak_ v) hs.
Proof.
  intros Hk Hc. pose proof (units_delete c (is_weak_ v) hs k v Hk) as Hd.
  rewrite unit_of_refers in Hd by done.
  pose proof (units_range c (is_weak_ v) (delete k hs)). lia.
Qed.

Lemma units_zero c w (hs : gmap Z VSharedPtr) k v :
  units c w hs = 0 -> hs !! k = Some v -> ~ refers c w v.
Proof.
  intros Hz Hk. apply (count_values_zero (refers c w) hs k v); [| exact Hk].
  unfold units in Hz. lia.
Qed.

Lemma accounted_live_units bl hs c cb w :
  accounted bl hs -> bl !! c = Some cb -> 0 <= count_of (counter_of w) cb.
Proof.
  intros Hacc Hc. rewrite (acc_count _ _ Hacc c cb w Hc). apply units_range.
Qed.

(** Handles may move about as long as every block keeps its units. *)
Lemma accounted_same_units bl hs hs' :
  accounted bl hs ->
  (forall c w, units c w hs' = units c w hs) ->
  accounted bl hs'.
Proof.
  intros Hacc Hu. split.
  - intros h v c Hh Hc.
    destruct (bl !! c) as [cb |] eqn:Hb; [eauto |].
    pose proof (units_lookup c hs' h v Hh Hc) as H1. rewrite Hu in H1.
    assert (Hex : exists k v0, hs !! k = Some v0 /\ refers c (is_weak_ v) v0).
    { destruct (decide (count_values (refers c (is_weak_ v)) hs = 0%nat)) as [Hz | Hz].
      { unfold units in H1. lia. }
      unfold count_values in Hz. rewrite map_size_empty_iff in Hz.
      apply map_choose in Hz as (k & v0 & Hkv).
      apply map_lookup_filter_Some in Hkv as [Hkv HP]. eauto. }
    destruct Hex as (k & v0 & Hk & Hr & _).
    destruct (acc_live _ _ Hacc k v0 c Hk Hr) as [cb Hcb]. congruence.
  - intros c cb w Hc. rewrite Hu. apply (acc_count _ _ Hacc c cb w Hc).
  - apply (acc_intact _ _ Hacc).
  - apply (acc_mutex _ _ Hacc).
Qed.

Lemma units_pos_exists c w (hs : gmap Z VSharedPtr) :
  1 <= units c w hs -> exists k v, hs !! k = Some v /\ refers c w v.
Proof.
  intros H1.
  destruct (decide (count_values (refers c w) hs = 0%nat)) as [Hz | Hz].
  { unfold units in H1. lia. }
  unfold count_values in Hz. rewrite map_size_empty_iff in Hz.
  apply map_choose in Hz as (k & v0 & Hkv).
  apply map_lookup_filter_Some in Hkv as [Hkv HP]. eauto.
Qed.

Lemma accounted_units_live bl hs c w :
  accounted bl hs -> 1 <= units c w hs -> is_Some (bl !! c).
Proof.
  intros Hacc H1. destruct (units_pos_exists c w hs H1) as (k & v & Hk & Hr & _).
  apply (acc_live _ _ Hacc k v c Hk Hr).
Qed.

Lemma accounted_intro bl hs :
  (forall c w, 1 <= units c w hs -> is_Some (bl !! c)) ->
  (forall c cb w, bl !! c = Some cb -> count_of (counter_of w) cb = units c w hs) ->
  (forall c cb, bl !! c = Some cb -> intact cb) ->
  (forall c cb, bl !! c = Some cb -> object_mutex_ cb = Unlocked) ->
  accounted bl hs.
Proof.
  intros Hlive Hcount Hint Hmut. split; try assumption.
  intros h v c Hh Hc. apply (Hlive c (is_weak_ v)).
  apply (units_lookup c hs h v Hh Hc).
Qed.

Lemma count_of_set_count_same which v cb : count_of which (set_count which v cb) = v.
Proof. destruct which; reflexivity. Qed.

Lemma count_of_set_count_other w w' v cb :
  w' <> w -> count_of (counter_of w') (set_count (counter_of w) v cb) =
             count_of (counter_of w') cb.
Proof. destruct w, w'; intros Hne; try done. Qed.

Lemma intact_set_count which v cb : intact cb -> intact (set_count which v cb).
Proof. destruct which; exact id. Qed.

Lemma mutex_set_count which v cb :
  object_mutex_ (set_count which v cb) = object_mutex_ cb.
Proof. destruct which; reflexivity. Qed.

(** A new handle on block [c] takes one unit of its kind. *)
Lemma accounted_add_unit bl hs hs' c cb w :
  accounted bl hs -> bl !! c = Some cb ->
  (forall c' w', units c' w' hs' = units c' w' hs + unit_of c' w' (mkPtr (Some c) w)) ->
  units c w hs + 1 < 2 ^ 64 ->
  accounted (<[c := set_count (counter_of w)
                      (wrap_size_t (count_of (counter_of w) cb + 1)) cb]> bl) hs'.
Proof.
  intros Hacc Hc Hu Hbound. apply accounted_intro.
  - intros c' w' H1. destruct (decide (c' = c)) as [-> | Hne].
    + rewrite lookup_insert_eq. eauto.
    + rewrite lookup_insert_ne by done. rewrite Hu, unit_of_other in H1 by congruence.
      apply (accounted_units_live bl hs c' w' Hacc). lia.
  - intros c' cb' w' Hc'. destruct (decide (c' = c)) as [-> | Hne].
    + rewrite lookup_insert_eq in Hc'. injection Hc' as <-. rewrite Hu.
      destruct (decide (w' = w)) as [-> | Hw].
      * rewrite count_of_set_count_same, unit_of_same.
        rewrite (acc_count _ _ Hacc c cb w Hc).
        apply wrap_size_t_small. pose proof (units_range c w hs). lia.
      * rewrite count_of_set_count_other by done.
        rewrite unit_of_other by congruence.
        rewrite (acc_count _ _ Hacc c cb w' Hc). lia.
    + rewrite lookup_insert_ne in Hc' by done.
      rewrite Hu, unit_of_other by congruence.
      rewrite (acc_count _ _ Hacc c' cb' w' Hc'). lia.
  - intros c' cb' Hc'. destruct (decide (c' = c)) as [-> | Hne].
    + rewrite lookup_insert_eq in Hc'. injection Hc' as <-.
      apply intact_set_count, (acc_intact _ _ Hacc c cb Hc).
    + rewrite lookup_insert_ne in Hc' by done. apply (acc_intact _ _ Hacc c' cb' Hc').
  - intros c' cb' Hc'. destruct (decide (c' = c)) as [-> | Hne].
    + rewrite lookup_insert_eq in Hc'. injection Hc' as <-.
      rewrite mutex_set_count. apply (acc_mutex _ _ Hacc c cb Hc).
    + rewrite lookup_insert_ne in Hc' by done. apply (acc_mutex _ _ Hacc c' cb' Hc').
Qed.

(** The first handle on a new block. *)
Lemma accounted_new_block bl hs hs' c p arr :
  accounted bl hs -> bl !! c = None ->
  (forall c' w', units c' w' hs' = units c' w' hs + unit_of c' w' (mkPtr (Some c) false)) ->
  accounted (<[c := ControlBlock_new p arr]> bl) hs'.
Proof.
  intros Hacc Hc Hu.
  assert (Hzero : forall w, units c w hs = 0).
  { intros w. pose proof (units_range c w hs).
    destruct (decide (1 <= units c w hs)) as [H1 | H1]; [| lia].
    destruct (accounted_units_live bl hs c w Hacc H1) as [cb Hcb]. congruence. }
  apply accounted_intro.
  - intros c' w' H1. destruct (decide (c' = c)) as [-> | Hne].
    + rewrite lookup_insert_eq. eauto.
    + rewrite lookup_insert_ne by done. rewrite Hu, unit_of_other in H1 by congruence.
      apply (accounted_units_live bl hs c' w' Hacc). lia.
  - intros c' cb' w' Hc'. destruct (decide (c' = c)) as [-> | Hne].
    + rewrite lookup_insert_eq in Hc'. injection Hc' as <-. rewrite Hu, Hzero.
      destruct w'; [rewrite unit_of_other by congruence | rewrite unit_of_same]; reflexivity.
    + rewrite lookup_insert_ne in Hc' by done.
      rewrite Hu, unit_of_other by congruence.
      rewrite (acc_count _ _ Hacc c' cb' w' Hc'). lia.
  - intros c' cb' Hc'. destruct (decide (c' = c)) as [-> | Hne].
    + rewrite lookup_insert_eq in Hc'. injection Hc' as <-. done.
    + rewrite lookup_insert_ne in Hc' by done. apply (acc_intact _ _ Hacc c' cb' Hc').
  - intros c' cb' Hc'. destruct (decide (c' = c)) as [-> | Hne].
    + rewrite lookup_insert_eq in Hc'. injection Hc' as <-. done.
    + rewrite lookup_insert_ne in Hc' by done. apply (acc_mutex _ _ Hacc c' cb' Hc').
Qed.

(** What a release leaves of the blocks: the counter one lower, the object
    destroyed by the last strong release, the block gone when the other
    counter is zero too. *)
Definition released (w : bool) (c : Z) (cb : ControlBlock)
    (bl : gmap Z ControlBlock) : gmap Z ControlBlock :=
  if count_of (counter_of w) cb =? 1 then
    if count_of (counter_of (negb w)) cb =? 0 then delete c bl
    else <[c := if w then set_weak 0 cb else destroyed_block (set_strong 0 cb)]> bl
  else <[c := set_count (counter_of w)
                (wrap_size_t (count_of (counter_of w) cb - 1)) cb]> bl.


Lemma destroyed_block_counts which cb :
  count_of which (destroyed_block cb) = count_of which cb.
Proof. unfold destroyed_block. destruct (object_destroyed_ cb), which; reflexivity. Qed.

Lemma destroyed_block_intact cb : intact cb -> intact (destroyed_block cb).
Proof. unfold destroyed_block. destruct (object_destroyed_ cb); exact id. Qed.

Lemma destroyed_block_mutex cb :
  object_mutex_ (destroyed_block cb) = object_mutex_ cb.
Proof. unfold destroyed_block. destruct (object_destroyed_ cb); reflexivity. Qed.

(** A handle on block [c] that goes away gives its unit back. *)
Lemma accounted_drop_unit bl hs hs' c cb w :
  accounted bl hs -> bl !! c = Some cb ->
  (forall c' w', units c' w' hs' = units c' w' hs - unit_of c' w' (mkPtr (Some c) w)) ->
  1 <= units c w hs -> Z.of_nat (size hs) < 2 ^ 64 ->
  accounted (released w c cb bl) hs'.
Proof.
  intros Hacc Hc Hu H1 Hbound.
  pose proof (acc_count _ _ Hacc c cb w Hc) as Hcw.
  pose proof (acc_count _ _ Hacc c cb (negb w) Hc) as Hcn.
  pose proof (units_range c w hs) as Hrw.
  pose proof (units_range c (negb w) hs) as Hrn.
  assert (Hsame : forall w', units c w' hs' = if decide (w' = w) then units c w hs - 1
                                                else units c w' hs).
  { intros w'. rewrite Hu. case_decide as Hw.
    - subst w'. rewrite unit_of_same. reflexivity.
    - rewrite unit_of_other by congruence. lia. }
  assert (Hother : forall c' w', c' <> c -> units c' w' hs' = units c' w' hs).
  { intros c' w' Hne. rewrite Hu, unit_of_other by congruence. lia. }
  unfold released.
  destruct (Z.eqb_spec (count_of (counter_of w) cb) 1) as [Hlast | Hmany];
    [destruct (Z.eqb_spec (count_of (counter_of (negb w)) cb) 0) as [Hz | Hnz] |].
  - (* the last unit of both kinds: the block is deleted *)
    apply accounted_intro.
    + intros c' w' Hpos. destruct (decide (c' = c)) as [-> | Hne].
      * exfalso. rewrite Hsame in Hpos. case_decide as Hw; [lia |].
        assert (w' = negb w) as -> by (destruct w, w'; done). lia.
      * rewrite lookup_delete_ne by done. rewrite Hother in Hpos by done.
        apply (accounted_units_live bl hs c' w' Hacc Hpos).
    + intros c' cb' w' Hc'. apply lookup_delete_Some in Hc' as [Hne Hc'].
      rewrite Hother by done. apply (acc_count _ _ Hacc c' cb' w' Hc').
    + intros c' cb' Hc'. apply lookup_delete_Some in Hc' as [Hne Hc'].
      apply (acc_intact _ _ Hacc c' cb' Hc').
    + intros c' cb' Hc'. apply lookup_delete_Some in Hc' as [Hne Hc'].
      apply (acc_mutex _ _ Hacc c' cb' Hc').
  - (* the last unit of its kind: the counter is 0 *)
    apply accounted_intro.
    + intros c' w' Hpos. destruct (decide (c' = c)) as [-> | Hne].
      * rewrite lookup_insert_eq. eauto.
      * rewrite lookup_insert_ne by done. rewrite Hother in Hpos by done.
        apply (accounted_units_live bl hs c' w' Hacc Hpos).
    + intros c' cb' w' Hc'. destruct (decide (c' = c)) as [-> | Hne].
      * rewrite lookup_insert_eq in Hc'. injection Hc' as <-. rewrite Hsame.
        case_decide as Hw.
        -- subst w'. destruct w; rewrite ?destroyed_block_counts; simpl in *; lia.
        -- assert (w' = negb w) as -> by (destruct w, w'; done).
           destruct w; rewrite ?destroyed_block_counts; simpl in *; lia.
      * rewrite lookup_insert_ne in Hc' by done. rewrite Hother by done.
        apply (acc_count _ _ Hacc c' cb' w' Hc').
    + intros c' cb' Hc'. destruct (decide (c' = c)) as [-> | Hne].
      * rewrite lookup_insert_eq in Hc'. injection Hc' as <-.
        pose proof (acc_intact _ _ Hacc c cb Hc).
        destruct w; [done | apply destroyed_block_intact; done].
      * rewrite lookup_insert_ne in Hc' by done. apply (acc_intact _ _ Hacc c' cb' Hc').
    + intros c' cb' Hc'. destruct (decide (c' = c)) as [-> | Hne].
      * rewrite lookup_insert_eq in Hc'. injection Hc' as <-.
        pose proof (acc_mutex _ _ Hacc c cb Hc).
        destruct w; [done | rewrite destroyed_block_mutex; done].
      * rewrite lookup_insert_ne in Hc' by done. apply (acc_mutex _ _ Hacc c' cb' Hc').
  - (* other handles of its kind remain *)
    apply accounted_intro.
    + intros c' w' Hpos. destruct (decide (c' = c)) as [-> | Hne].
      * rewrite lookup_insert_eq. eauto.
      * rewrite lookup_insert_ne by done. rewrite Hother in Hpos by done.
        apply (accounted_units_live bl hs c' w' Hacc Hpos).
    + intros c' cb' w' Hc'. destruct (decide (c' = c)) as [-> | Hne].
      * rewrite lookup_insert_eq in Hc'. injection Hc' as <-. rewrite Hsame.
        case_decide as Hw.
        -- subst w'. rewrite count_of_set_count_same, Hcw.
           apply wrap_size_t_small. lia.
        -- rewrite count_of_set_count_other by done.
           apply (acc_count _ _ Hacc c cb w' Hc).
      * rewrite lookup_insert_ne in Hc' by done. rewrite Hother by done.
        apply (acc_count _ _ Hacc c' cb' w' Hc').
    + intros c' cb' Hc'. destruct (decide (c' = c)) as [-> | Hne].
      * rewrite lookup_insert_eq in Hc'. injection Hc' as <-.
        apply intact_set_count, (acc_intact _ _ Hacc c cb Hc).
      * rewrite lookup_insert_ne in Hc' by done. apply (acc_intact _ _ Hacc c' cb' Hc').
    + intros c' cb' Hc'. destruct (decide (c' = c)) as [-> | Hne].
      * rewrite lookup_insert_eq in Hc'. injection Hc' as <-.
        rewrite mutex_set_count. apply (acc_mutex _ _ Hacc c cb Hc).
      * rewrite lookup_insert_ne in Hc' by done. apply (acc_mutex _ _ Hacc c' cb' Hc').
Qed.

(** *** The public operations, one by one *)

Local Abbreviation VSharedPtr_delete := (RC.VSharedPtr_delete TM members_of).
Local Abbreviation VSharedPtr_from_raw := (RC.VSharedPtr_from_raw TM members_of).
Local Abbreviation reset := (RC.reset TM members_of).
Local Abbreviation assign_move := (RC.assign_move TM members_of).
Local Abbreviation assign_copy := (RC.assign_copy TM safety_checks_enabled members_of).
Local Abbreviation reset_raw := (RC.reset_raw TM members_of).
Local Abbreviation weak := (RC.weak TM safety_checks_enabled members_of).

(** The operations are followed first for payloads that are plain: none has
    a handle among its members, so that the destructor of a payload
    releases nothing.  The lemmas of this section that go through
    [destroy_object] or through the deletion of a payload rest on it. *)

Section plain_payloads.
Hypothesis no_members : forall p, members_of p = [].

Lemma plain_payload_all cb : plain_payload cb.
Proof. intros p _. apply no_members. Qed.

Definition accounted_state (s : State) : Prop := accounted (blocks s) (handles s).

Lemma accounted_null_fresh bl hs k v :
  accounted bl hs -> hs !! k = None -> ctrl_ v = None ->
  accounted bl (<[k:=v]> hs).
Proof.
  intros Hacc Hk Hn. apply (accounted_same_units bl hs); [exact Hacc |].
  intros c w. rewrite units_insert_fresh by exact Hk.
  rewrite unit_of_null by exact Hn. lia.
Qed.










Lemma size_insert_le (hs : gmap Z VSharedPtr) k v :
  Z.of_nat (size (<[k:=v]> hs)) <= Z.of_nat (size hs) + 1.
Proof. rewrite map_size_insert. destruct (hs !! k); simpl; lia. Qed.






(** The public operations of [VSharedPtr].  An operation that builds a
    handle names the address where it is built; one that uses a temporary
    names the address of the temporary. *)
Inductive operation :=
| op_default (this : Z)
| op_from_raw (arr : bool) (this : Z) (ptr : option Z) (cb_addr : option Z)
| op_copy (this o : Z)
| op_move (this o : Z)
| op_assign_copy (tmp this o : Z)
| op_assign_move (this o : Z)
| op_assign_nullptr (this : Z)
| op_reset (this : Z)
| op_reset_raw (arr : bool) (tmp this : Z) (ptr : option Z) (cb_addr : option Z)
| op_make_weak (dest strong_ref : Z)
| op_lock (dest this : Z)
| op_weak (this other : Z)
| op_swap (this other : Z)
| op_delete (this : Z).

Definition run_operation (o : operation) : M unit :=
  match o with
  | op_default this => VSharedPtr_default this
  | op_from_raw arr this ptr cb_addr => VSharedPtr_from_raw arr this ptr cb_addr
  | op_copy this o => VSharedPtr_copy this o
  | op_move this o => VSharedPtr_move this o
  | op_assign_copy tmp this o => assign_copy tmp this o
  | op_assign_move this o => assign_move this o
  | op_assign_nullptr this => RC.assign_nullptr TM members_of this
  | op_reset this => reset this
  | op_reset_raw arr tmp this ptr cb_addr => reset_raw arr tmp this ptr cb_addr
  | op_make_weak dest strong_ref => make_weak dest strong_ref
  | op_lock dest this => lock dest this
  | op_weak this other => weak this other
  | op_swap this other => swap this other
  | op_delete this => VSharedPtr_delete this
  end.

(** The operands of an operation are live handles; a handle is built where
    none lives, a control block is allocated where none is. *)
Definition live (s : State) (h : Z) : Prop := is_Some (handles s !! h).
Definition free (s : State) (h : Z) : Prop := handles s !! h = None.
Definition unallocated (s : State) (cb_addr : option Z) : Prop :=
  forall a, cb_addr = Some a -> blocks s !! a = None.

Definition well_formed_operation (o : operation) (s : State) : Prop :=
  match o with
  | op_default this => free s this
  | op_from_raw _ this _ cb_addr => free s this /\ unallocated s cb_addr
  | op_copy this o | op_move this o => free s this /\ live s o
  | op_assign_copy tmp this o => free s tmp /\ live s this /\ live s o
  | op_assign_move this o => live s this /\ live s o
  | op_assign_nullptr this | op_reset this | op_delete this => live s this
  | op_reset_raw _ tmp this _ cb_addr =>
      free s tmp /\ live s this /\ unallocated s cb_addr
  | op_make_weak dest strong_ref => free s dest /\ live s strong_ref
  | op_lock dest this => free s dest /\ live s this
  | op_weak this other | op_swap this other => live s this /\ live s other
  end.

(** *** The life of the managed object

    Beyond the counters: a control block lives as long as a handle refers to
    it, its object lives as long as a strong handle does, and every object
    that the library was given is either still managed by a block or has been
    deleted, once. *)

(** The objects that a trace shows deleted, and those that the control
    blocks still hold, each with its array flag. *)
Definition deletions (tr : list event) : list (Z * bool) :=
  omap (fun e => match e with EvDeleteObject p a => Some (p, a) | _ => None end) tr.

Definition managed_object (cb : ControlBlock) : option (Z * bool) :=
  match ptr_ cb with Some p => Some (p, is_array_ cb) | None => None end.

Definition managed (bl : gmap Z ControlBlock) : list (Z * bool) :=
  omap (fun kv => managed_object kv.2) (map_to_list bl).

Definition ledger (s : State) : list (Z * bool) :=
  deletions (trace s) ++ managed (blocks s).

(** A block is held by a handle of one kind at least; its object is there
    exactly as long as the strong counter is above zero. *)
Definition block_ok (cb : ControlBlock) : Prop :=
  (0 < gc_strong_count_ cb \/ 0 < gc_weak_count_ cb) /\
  (0 < gc_strong_count_ cb -> object_destroyed_ cb = false /\ is_Some (ptr_ cb)) /\
  (gc_strong_count_ cb <= 0 -> object_destroyed_ cb = true /\ ptr_ cb = None).

Definition sound (bl : gmap Z ControlBlock) (hs : gmap Z VSharedPtr) : Prop :=
  accounted bl hs /\ forall c cb, bl !! c = Some cb -> block_ok cb.

Definition sound_state (s : State) : Prop := sound (blocks s) (handles s).

Lemma deletions_app tr1 tr2 : deletions (tr1 ++ tr2) = deletions tr1 ++ deletions tr2.
Proof. apply omap_app. Qed.

Lemma deletions_fence mo : deletions (fence_trace mo) = [].
Proof. unfold fence_trace. destruct TM; reflexivity. Qed.

Lemma deletions_decrement which : deletions [decrement_event which] = [].
Proof. unfold RC.decrement_event. destruct TM; reflexivity. Qed.

Lemma deletions_destroy c cb :
  deletions (destroy_trace c cb) =
  if object_destroyed_ cb then [] else option_list (managed_object cb).
Proof.
  unfold destroy_trace, managed_object.
  destruct (object_destroyed_ cb); [reflexivity |]. destruct (ptr_ cb); reflexivity.
Qed.

Lemma deletions_release_weak c cb : deletions (release_weak_trace c cb) = [].
Proof.
  unfold release_weak_trace.
  rewrite !deletions_app, deletions_decrement, deletions_fence. simpl.
  destruct (gc_strong_count_ cb =? 0); [| reflexivity].
  rewrite deletions_app, deletions_fence. reflexivity.
Qed.

Lemma deletions_release_strong c cb :
  deletions (release_strong_trace c cb) = deletions (destroy_trace c cb).
Proof.
  unfold release_strong_trace.
  rewrite !deletions_app, deletions_decrement, deletions_fence. simpl.
  destruct (gc_weak_count_ cb =? 0).
  - rewrite deletions_app, deletions_fence. simpl. apply app_nil_r.
  - apply app_nil_r.
Qed.

Lemma managed_delete (bl : gmap Z ControlBlock) c cb :
  bl !! c = Some cb ->
  managed bl ≡ₚ option_list (managed_object cb) ++ managed (delete c bl).
Proof.
  intros Hc. unfold managed. rewrite <- (map_to_list_delete bl c cb Hc). simpl.
  destruct (managed_object cb); reflexivity.
Qed.

Lemma managed_insert (bl : gmap Z ControlBlock) c cb :
  managed (<[c := cb]> bl) ≡ₚ option_list (managed_object cb) ++ managed (delete c bl).
Proof.
  rewrite (managed_delete (<[c := cb]> bl) c cb) by apply lookup_insert_eq.
  rewrite delete_insert_eq. reflexivity.
Qed.

Lemma managed_insert_same (bl : gmap Z ControlBlock) c cb cb' :
  bl !! c = Some cb -> managed_object cb' = managed_object cb ->
  managed (<[c := cb']> bl) ≡ₚ managed bl.
Proof.
  intros Hc Heq. rewrite managed_insert, Heq. symmetry. apply managed_delete, Hc.
Qed.

Lemma managed_insert_fresh (bl : gmap Z ControlBlock) c cb :
  bl !! c = None ->
  managed (<[c := cb]> bl) ≡ₚ option_list (managed_object cb) ++ managed bl.
Proof. intros Hc. rewrite managed_insert, delete_id by exact Hc. reflexivity. Qed.

Lemma managed_object_set_count which v cb :
  managed_object (set_count which v cb) = managed_object cb.
Proof. destruct which; reflexivity. Qed.

Lemma block_ok_set_count w v cb :
  block_ok cb -> 0 < v -> (w = false -> 0 < gc_strong_count_ cb) ->
  0 <= gc_weak_count_ cb ->
  block_ok (set_count (counter_of w) v cb).
Proof.
  intros (Hheld & Halive & Hdead) Hv Hs Hw. destruct w; unfold block_ok; simpl.
  - split; [right; exact Hv |]. split; assumption.
  - specialize (Hs eq_refl). split; [left; exact Hv |]. split.
    + intros _. apply Halive, Hs.
    + simpl. intros Hle. lia.
Qed.

(** The building blocks of the operations keep a state sound. *)
Lemma sound_same_units bl hs hs' :
  sound bl hs -> (forall c w, units c w hs' = units c w hs) -> sound bl hs'.
Proof.
  intros [Hacc Hok] Hu. split; [| exact Hok].
  apply (accounted_same_units bl hs); assumption.
Qed.

Lemma sound_null_fresh bl hs k v :
  sound bl hs -> hs !! k = None -> ctrl_ v = None -> sound bl (<[k:=v]> hs).
Proof.
  intros [Hacc Hok] Hk Hn. split; [| exact Hok].
  apply accounted_null_fresh; assumption.
Qed.

Lemma sound_add_unit bl hs hs' c cb w :
  sound bl hs -> bl !! c = Some cb ->
  (forall c' w', units c' w' hs' = units c' w' hs + unit_of c' w' (mkPtr (Some c) w)) ->
  units c w hs + 1 < 2 ^ 64 ->
  (w = false -> 0 < gc_strong_count_ cb) ->
  sound (<[c := set_count (counter_of w)
                  (wrap_size_t (count_of (counter_of w) cb + 1)) cb]> bl) hs'.
Proof.
  intros [Hacc Hok] Hc Hu Hbound Hs. split.
  - apply (accounted_add_unit bl hs); assumption.
  - intros c' cb' Hc'. destruct (decide (c' = c)) as [-> | Hne].
    + rewrite lookup_insert_eq in Hc'. injection Hc' as <-.
      pose proof (acc_count _ _ Hacc c cb w Hc) as Hcw.
      pose proof (acc_count _ _ Hacc c cb true Hc) as Hcweak. simpl in Hcweak.
      pose proof (units_range c w hs). pose proof (units_range c true hs).
      apply block_ok_set_count; [apply (Hok c cb Hc) | | exact Hs | lia].
      rewrite wrap_size_t_small by lia. lia.
    + rewrite lookup_insert_ne in Hc' by done. apply (Hok c' cb' Hc').
Qed.

Lemma sound_new_block bl hs hs' c p arr :
  sound bl hs -> bl !! c = None ->
  (forall c' w', units c' w' hs' = units c' w' hs + unit_of c' w' (mkPtr (Some c) false)) ->
  sound (<[c := ControlBlock_new p arr]> bl) hs'.
Proof.
  intros [Hacc Hok] Hc Hu. split.
  - apply (accounted_new_block bl hs); assumption.
  - intros c' cb' Hc'. destruct (decide (c' = c)) as [-> | Hne].
    + rewrite lookup_insert_eq in Hc'. injection Hc' as <-.
      unfold block_ok. simpl. split; [left; lia |]. split; [eauto | lia].
    + rewrite lookup_insert_ne in Hc' by done. apply (Hok c' cb' Hc').
Qed.

Lemma block_ok_released w c cb bl c' cb' :
  block_ok cb ->
  1 <= count_of (counter_of w) cb < 2 ^ 64 ->
  0 <= count_of (counter_of (negb w)) cb ->
  (forall c0 cb0, bl !! c0 = Some cb0 -> block_ok cb0) ->
  released w c cb bl !! c' = Some cb' -> block_ok cb'.
Proof.
  intros (Hheld & Halive & Hdead) H1 H0 Hok. unfold released.
  destruct (Z.eqb_spec (count_of (counter_of w) cb) 1) as [Hlast | Hmany];
    [destruct (Z.eqb_spec (count_of (counter_of (negb w)) cb) 0) as [Hz | Hnz] |].
  - intros Hc'. apply lookup_delete_Some in Hc' as [_ Hc']. apply (Hok c' cb' Hc').
  - destruct (decide (c' = c)) as [-> | Hne].
    + rewrite lookup_insert_eq. intros [= <-]. destruct w; simpl in *.
      * unfold block_ok. simpl.
        split; [left; lia |]. split; [intros _; apply Halive; lia | intros; lia].
      * destruct (Halive ltac:(lia)) as [Hd [p Hp]].
        unfold block_ok, destroyed_block. simpl. rewrite Hd. simpl.
        split; [right; lia |]. split; [intros; lia | done].
    + rewrite lookup_insert_ne by done. apply Hok.
  - destruct (decide (c' = c)) as [-> | Hne].
    + rewrite lookup_insert_eq. intros [= <-].
      assert (Hv : wrap_size_t (count_of (counter_of w) cb - 1) =
                   count_of (counter_of w) cb - 1) by (apply wrap_size_t_small; lia).
      rewrite Hv. destruct w; unfold block_ok; simpl in *.
      * split; [right; lia |]. split; assumption.
      * split; [left; lia |]. split; [intros _; apply Halive; lia | intros; lia].
    + rewrite lookup_insert_ne by done. apply Hok.
Qed.

Lemma sound_drop_unit bl hs hs' c cb w :
  sound bl hs -> bl !! c = Some cb ->
  (forall c' w', units c' w' hs' = units c' w' hs - unit_of c' w' (mkPtr (Some c) w)) ->
  1 <= units c w hs -> Z.of_nat (size hs) < 2 ^ 64 ->
  sound (released w c cb bl) hs'.
Proof.
  intros [Hacc Hok] Hc Hu H1 Hbound. split.
  - apply (accounted_drop_unit bl hs); assumption.
  - intros c' cb'.
    pose proof (acc_count _ _ Hacc c cb w Hc) as Hcw.
    pose proof (acc_count _ _ Hacc c cb (negb w) Hc) as Hcn.
    pose proof (units_range c w hs). pose proof (units_range c (negb w) hs).
    apply (block_ok_released w c cb bl); [apply (Hok c cb Hc) | lia | lia | exact Hok].
Qed.

(** A release hands the object over from the blocks to the trace, or leaves
    both as they were. *)
Lemma release_count_ledger w s c cb :
  blocks s !! c = Some cb -> block_ok cb ->
  1 <= count_of (counter_of w) cb ->
  object_mutex_ cb = Unlocked ->
  exists tr,
    (if w then release_weak c s else release_strong c s) =
    Ok tt (mkState (released w c cb (blocks s)) (handles s) (trace s ++ tr)) /\
    deletions tr ++ managed (released w c cb (blocks s)) ≡ₚ managed (blocks s).
Proof.
  intros Hc (Hheld & Halive & Hdead) H1 Hm. unfold released.
  destruct (Z.eqb_spec (count_of (counter_of w) cb) 1) as [Hlast | Hmany];
    destruct w; simpl in *.
  - rewrite (release_weak_last_run s c cb Hc Hlast). eexists. split; [reflexivity |].
    rewrite deletions_release_weak. simpl.
    destruct (Z.eqb_spec (gc_strong_count_ cb) 0) as [Hz | Hnz].
    + rewrite (managed_delete _ c cb Hc). unfold managed_object.
      destruct (Hdead ltac:(lia)) as [_ ->]. reflexivity.
    + apply (managed_insert_same _ c cb); [exact Hc | reflexivity].
  - rewrite (release_strong_last_run s c cb Hc Hlast)
      by first [right; exact Hm | apply plain_payload_all].
    eexists. split; [reflexivity |].
    rewrite deletions_release_strong, deletions_destroy.
    destruct (Halive ltac:(lia)) as [Hd [p Hp]]. rewrite Hd.
    destruct (Z.eqb_spec (gc_weak_count_ cb) 0) as [Hz | Hnz].
    + symmetry. apply (managed_delete _ c cb Hc).
    + rewrite managed_insert. unfold destroyed_block. simpl. rewrite Hd.
      unfold managed_object at 2. simpl. symmetry. apply (managed_delete _ c cb Hc).
  - rewrite (release_weak_many_run s c cb Hc) by lia. eexists. split; [reflexivity |].
    rewrite deletions_decrement. simpl.
    apply (managed_insert_same _ c cb); [exact Hc | reflexivity].
  - rewrite (release_strong_many_run s c cb Hc) by lia. eexists. split; [reflexivity |].
    rewrite deletions_decrement. simpl.
    apply (managed_insert_same _ c cb); [exact Hc | reflexivity].
Qed.

(** What an operation keeps: the state is sound again, and the ledger has
    grown by the objects [new] that the operation was given. *)
Definition kept (new : list (Z * bool)) (s s' : State) : Prop :=
  sound_state s' /\ ledger s' ≡ₚ new ++ ledger s.

Lemma ledger_same_blocks s s' :
  blocks s' = blocks s -> trace s' = trace s -> ledger s' ≡ₚ ledger s.
Proof. intros Hb Ht. unfold ledger. rewrite Hb, Ht. reflexivity. Qed.

Lemma VSharedPtr_default_kept s this :
  sound_state s -> handles s !! this = None ->
  exists s', VSharedPtr_default this s = Ok tt s' /\
             handles s' = <[this := null_handle]> (handles s) /\
             kept [] s s'.
Proof.
  intros Hs Hk. eexists. split; [reflexivity |]. split; [reflexivity |]. split.
  - apply sound_null_fresh; done.
  - reflexivity.
Qed.

Lemma VSharedPtr_from_raw_kept arr s this ptr cb_addr :
  sound_state s -> handles s !! this = None ->
  (forall a, cb_addr = Some a -> blocks s !! a = None) ->
  exists s',
    ((VSharedPtr_from_raw arr this ptr cb_addr s = Ok tt s' /\
      exists v, handles s' = <[this := v]> (handles s)) \/
     (VSharedPtr_from_raw arr this ptr cb_addr s = Fail bad_alloc s' /\
      handles s' = handles s)) /\
    kept (match ptr with Some p => [(p, arr)] | None => [] end) s s'.
Proof.
  intros Hs Hk Hfresh. unfold RC.VSharedPtr_from_raw. unfold_monad. simpl.
  destruct ptr as [p |]; [destruct cb_addr as [a |] |].
  - eexists. split; [left; split; [reflexivity | simpl] |].
    + rewrite insert_insert_eq. eauto.
    + split.
      * unfold sound_state. simpl. rewrite insert_insert_eq.
        apply (sound_new_block _ (handles s)); [exact Hs | auto |].
        intros c' w'. apply units_insert_fresh. exact Hk.
      * unfold ledger. simpl. rewrite managed_insert_fresh by auto.
        change (option_list (managed_object (ControlBlock_new p arr))) with [(p, arr)].
        simpl. rewrite <- Permutation_middle. reflexivity.
  - rewrite delete_object_plain by apply no_members. simpl.
    eexists. split; [right; split; [reflexivity | simpl] |].
    + rewrite delete_insert_eq. apply delete_id. exact Hk.
    + split.
      * unfold sound_state. simpl. rewrite delete_insert_eq, delete_id by exact Hk.
        exact Hs.
      * unfold ledger. simpl. rewrite deletions_app. simpl.
        rewrite <- app_assoc. simpl. rewrite <- Permutation_middle. reflexivity.
  - eexists. split; [left; split; [reflexivity | simpl; eauto] |]. split.
    + apply sound_null_fresh; done.
    + reflexivity.
Qed.

Lemma VSharedPtr_copy_kept s this o oh :
  sound_state s -> Z.of_nat (size (handles s)) + 1 < 2 ^ 64 ->
  handles s !! this = None -> handles s !! o = Some oh ->
  exists s', VSharedPtr_copy this o s = Ok tt s' /\
             handles s' = <[this := oh]> (handles s) /\
             kept [] s s'.
Proof.
  intros Hs Hbound Hk Ho. pose proof Hs as [Hacc Hok].
  assert (Hne : this <> o) by congruence.
  destruct (ctrl_ oh) as [c |] eqn:Hc.
  - destruct (acc_live _ _ Hacc o oh c Ho Hc) as [cb Hcb].
    rewrite (VSharedPtr_copy_run s this o oh c cb Ho Hc Hne Hcb
               (acc_intact _ _ Hacc c cb Hcb)).
    eexists. split; [reflexivity |]. split; [reflexivity |]. split.
    + unfold sound_state. simpl.
      apply (sound_add_unit _ (handles s) _ c cb (is_weak_ oh) Hs Hcb).
      * intros c' w'. rewrite units_insert_fresh by exact Hk.
        destruct oh as [oc ow]; simpl in *; subst oc. reflexivity.
      * pose proof (units_range c (is_weak_ oh) (handles s)). lia.
      * intros Hw. pose proof (units_lookup c (handles s) o oh Ho Hc) as Hpos.
        rewrite Hw in Hpos.
        pose proof (acc_count _ _ Hacc c cb false Hcb) as Hcnt. simpl in Hcnt. lia.
    + unfold ledger. simpl.
      rewrite (managed_insert_same _ c cb); [reflexivity | exact Hcb |].
      destruct (is_weak_ oh); reflexivity.
  - rewrite (VSharedPtr_copy_null_run s this o oh Ho Hc Hne).
    eexists. split; [reflexivity |]. split; [reflexivity |]. split.
    + apply sound_null_fresh; done.
    + reflexivity.
Qed.

Lemma VSharedPtr_move_kept s this o oh :
  sound_state s ->
  handles s !! this = None -> handles s !! o = Some oh ->
  exists s', VSharedPtr_move this o s = Ok tt s' /\
             handles s' = <[this := oh]> (<[o := null_handle]> (handles s)) /\
             blocks s' = blocks s /\
             kept [] s s'.
Proof.
  intros Hs Hk Ho.
  assert (Hne : this <> o) by congruence.
  unfold VSharedPtr_move. unfold_monad. rewrite Ho. simpl.
  eexists. split; [destruct oh; reflexivity |]. split; [reflexivity |].
  split; [reflexivity |]. split; [| reflexivity]. unfold sound_state. simpl.
  apply (sound_same_units _ (handles s)); [exact Hs |].
  intros c w. rewrite units_insert_fresh by (rewrite lookup_insert_ne; done).
  rewrite (units_insert c w (handles s) o null_handle oh Ho).
  rewrite (unit_of_null c w null_handle) by reflexivity. lia.
Qed.

Lemma swap_kept s this other me oh :
  sound_state s ->
  handles s !! this = Some me -> handles s !! other = Some oh ->
  exists s', swap this other s = Ok tt s' /\
             handles s' = <[other := me]> (<[this := oh]> (handles s)) /\
             blocks s' = blocks s /\
             kept [] s s'.
Proof.
  intros Hs Hk Ho. unfold swap. unfold_monad. rewrite Hk, Ho. simpl.
  eexists. split; [reflexivity |]. split; [reflexivity |]. split; [reflexivity |].
  split; [| reflexivity]. unfold sound_state. simpl.
  apply (sound_same_units _ (handles s)); [exact Hs |].
  intros c w.
  assert (Hv : <[this := oh]> (handles s) !! other = Some oh).
  { destruct (decide (this = other)) as [-> | Hne].
    - apply lookup_insert_eq.
    - rewrite lookup_insert_ne by done. exact Ho. }
  rewrite (units_insert c w _ other me oh Hv).
  rewrite (units_insert c w (handles s) this oh me Hk). lia.
Qed.

Lemma release_kept s this v :
  sound_state s -> Z.of_nat (size (handles s)) < 2 ^ 64 ->
  handles s !! this = Some v ->
  exists s', release this s = Ok tt s' /\
             handles s' = handles s /\
             sound (blocks s') (delete this (handles s)) /\
             ledger s' ≡ₚ ledger s.
Proof.
  intros Hs Hbound Hk. pose proof Hs as [Hacc Hok].
  unfold RC.release, release_with. unfold bind at 1. unfold load_handle.
  rewrite Hk. destruct (ctrl_ v) as [c |] eqn:Hc.
  - destruct (acc_live _ _ Hacc this v c Hk Hc) as [cb Hcb].
    pose proof (units_lookup c (handles s) this v Hk Hc) as Hpos.
    destruct (release_count_ledger (is_weak_ v) s c cb Hcb (Hok c cb Hcb))
      as (tr & Hrun & Hled).
    { rewrite (acc_count _ _ Hacc c cb (is_weak_ v) Hcb). lia. }
    { apply (acc_mutex _ _ Hacc c cb Hcb). }
    exists (mkState (released (is_weak_ v) c cb (blocks s)) (handles s) (trace s ++ tr)).
    split; [destruct (is_weak_ v); exact Hrun |]. split; [reflexivity |]. simpl.
    split.
    + apply (sound_drop_unit _ (handles s) _ c cb (is_weak_ v) Hs Hcb);
        [| exact Hpos | exact Hbound].
      intros c' w'. rewrite (units_delete c' w' (handles s) this v Hk).
      destruct v as [vc vw]; simpl in *; subst vc. reflexivity.
    + unfold ledger. simpl. rewrite deletions_app, <- app_assoc, Hled. reflexivity.
  - exists s. split; [reflexivity |]. split; [reflexivity |]. split; [| reflexivity].
    apply (sound_same_units _ (handles s)); [exact Hs |].
    intros c w. rewrite (units_delete c w (handles s) this v Hk).
    rewrite unit_of_null by exact Hc. lia.
Qed.

Lemma VSharedPtr_delete_kept s this v :
  sound_state s -> Z.of_nat (size (handles s)) < 2 ^ 64 ->
  handles s !! this = Some v ->
  exists s', VSharedPtr_delete this s = Ok tt s' /\
             handles s' = delete this (handles s) /\
             kept [] s s'.
Proof.
  intros Hs Hbound Hk.
  destruct (release_kept s this v Hs Hbound Hk) as (s1 & Hrel & Hh & Hs1 & Hled).
  unfold RC.VSharedPtr_delete. unfold bind. rewrite Hrel. unfold free_handle.
  eexists. split; [reflexivity |]. simpl. rewrite Hh. split; [reflexivity |].
  split; [exact Hs1 | exact Hled].
Qed.

Lemma reset_kept s this v :
  sound_state s -> Z.of_nat (size (handles s)) < 2 ^ 64 ->
  handles s !! this = Some v ->
  exists s', reset this s = Ok tt s' /\
             handles s' = <[this := null_handle]> (handles s) /\
             kept [] s s'.
Proof.
  intros Hs Hbound Hk.
  destruct (release_kept s this v Hs Hbound Hk) as (s1 & Hrel & Hh & Hs1 & Hled).
  unfold RC.reset. unfold bind. rewrite Hrel. unfold store_handle.
  eexists. split; [reflexivity |]. simpl. rewrite Hh. split; [reflexivity |].
  split; [| exact Hled].
  unfold sound_state. simpl. rewrite <- insert_delete_eq.
  apply sound_null_fresh; [exact Hs1 | apply lookup_delete_eq | reflexivity].
Qed.

Lemma assign_move_kept s this o v oh :
  sound_state s -> Z.of_nat (size (handles s)) < 2 ^ 64 ->
  handles s !! this = Some v -> handles s !! o = Some oh ->
  exists s', assign_move this o s = Ok tt s' /\ kept [] s s'.
Proof.
  intros Hs Hbound Hk Ho. unfold RC.assign_move.
  destruct (Z.eqb_spec this o) as [-> | Hne]; [exists s; done |].
  destruct (release_kept s this v Hs Hbound Hk) as (s1 & Hrel & Hh & Hs1 & Hled).
  unfold bind at 1. rewrite Hrel. unfold_monad. rewrite Hh, Ho. simpl.
  eexists. split; [reflexivity |]. split; [| exact Hled].
  unfold sound_state. simpl. rewrite Hh.
  rewrite <- insert_delete_eq, delete_insert_ne by done.
  apply (sound_same_units _ (delete this (handles s))); [exact Hs1 |].
  intros c w.
  rewrite units_insert_fresh
    by (rewrite lookup_insert_ne by done; apply lookup_delete_eq).
  rewrite (units_insert c w _ o null_handle oh)
    by (rewrite lookup_delete_ne by done; exact Ho).
  rewrite (unit_of_null c w null_handle) by reflexivity.
  destruct oh; simpl. lia.
Qed.

Lemma make_weak_kept s dest strong_ref sh :
  sound_state s -> Z.of_nat (size (handles s)) + 1 < 2 ^ 64 ->
  handles s !! dest = None -> handles s !! strong_ref = Some sh ->
  exists s', make_weak dest strong_ref s = Ok tt s' /\ kept [] s s'.
Proof.
  intros Hs Hbound Hk Hsr. pose proof Hs as [Hacc Hok].
  destruct (ctrl_ sh) as [c |] eqn:Hc; [destruct (is_weak_ sh) eqn:Hw |].
  - unfold RC.make_weak. unfold_monad. rewrite Hsr, Hc, Hw.
    eexists. split; [reflexivity |]. split; [| reflexivity].
    apply sound_null_fresh; done.
  - destruct (acc_live _ _ Hacc strong_ref sh c Hsr Hc) as [cb Hcb].
    rewrite (make_weak_run s dest strong_ref sh c cb Hsr Hc Hw Hcb
               (acc_intact _ _ Hacc c cb Hcb)).
    eexists. split; [reflexivity |]. split.
    + unfold sound_state. simpl.
      apply (sound_add_unit _ (handles s) _ c cb true Hs Hcb).
      * intros c' w'. apply units_insert_fresh. exact Hk.
      * pose proof (units_range c true (handles s)). lia.
      * discriminate.
    + unfold ledger. simpl.
      rewrite (managed_insert_same _ c cb); [reflexivity | exact Hcb | reflexivity].
  - unfold RC.make_weak. unfold_monad. rewrite Hsr, Hc.
    eexists. split; [reflexivity |]. split; [| reflexivity].
    apply sound_null_fresh; done.
Qed.

Lemma lock_kept s dest this h :
  sound_state s -> Z.of_nat (size (handles s)) + 1 < 2 ^ 64 ->
  handles s !! dest = None -> handles s !! this = Some h ->
  exists s', lock dest this s = Ok tt s' /\ kept [] s s'.
Proof.
  intros Hs Hbound Hk Hh. pose proof Hs as [Hacc Hok]. destruct (is_weak_ h) eqn:Hw.
  - destruct (ctrl_ h) as [c |] eqn:Hc.
    + destruct (acc_live _ _ Hacc this h c Hh Hc) as [cb Hcb].
      rewrite (lock_weak_run s dest this h c cb Hh Hc Hw Hcb).
      destruct (Z.ltb_spec 0 (gc_strong_count_ cb)) as [Hpos | Hpos].
      * eexists. split; [reflexivity |]. split.
        -- unfold sound_state. simpl.
           apply (sound_add_unit _ (handles s) _ c cb false Hs Hcb).
           ++ intros c' w'. apply units_insert_fresh. exact Hk.
           ++ pose proof (units_range c false (handles s)). lia.
           ++ intros _. exact Hpos.
        -- unfold ledger. simpl.
           rewrite (managed_insert_same _ c cb); [reflexivity | exact Hcb | reflexivity].
      * eexists. split; [reflexivity |]. split; [| reflexivity].
        apply sound_null_fresh; done.
    + unfold RC.lock. unfold_monad. rewrite Hh, Hw, Hc.
      eexists. split; [reflexivity |]. split; [| reflexivity].
      apply sound_null_fresh; done.
  - unfold RC.lock. unfold bind at 1. unfold load_handle. rewrite Hh, Hw. simpl.
    destruct (VSharedPtr_copy_kept s dest this h Hs Hbound Hk Hh) as (s' & Hrun & _ & Hkept).
    eauto.
Qed.

Lemma weak_kept s this other v oh :
  sound_state s -> Z.of_nat (size (handles s)) < 2 ^ 64 ->
  handles s !! this = Some v -> handles s !! other = Some oh ->
  exists s', weak this other s = Ok tt s' /\ kept [] s s'.
Proof.
  intros Hs Hbound Hk Ho. unfold RC.weak.
  destruct (Z.eqb_spec this other) as [-> | Hne]; [exists s; done |].
  destruct (release_kept s this v Hs Hbound Hk) as (s1 & Hrel & Hh & Hs1 & Hled).
  pose proof Hs1 as [Hacc1 Hok1].
  unfold bind at 1. rewrite Hrel. unfold bind at 1. unfold load_handle.
  rewrite Hh, Ho.
  assert (Hnull : sound (blocks s1) (<[this := null_handle]> (handles s1))).
  { rewrite Hh, <- insert_delete_eq.
    apply sound_null_fresh; [exact Hs1 | apply lookup_delete_eq | reflexivity]. }
  destruct (ctrl_ oh) as [c |] eqn:Hc; [destruct (is_weak_ oh) eqn:Hw |].
  - eexists. split; [reflexivity |]. split; [exact Hnull | exact Hled].
  - assert (Ho1 : delete this (handles s) !! other = Some oh)
      by (rewrite lookup_delete_ne by done; exact Ho).
    destruct (acc_live _ _ Hacc1 other oh c Ho1 Hc) as [cb Hcb].
    unfold bind at 1. unfold RC.add_weak.
    rewrite (add_count_run Weak s1 c cb Hcb (acc_intact _ _ Hacc1 c cb Hcb)).
    eexists. split; [reflexivity |]. split.
    + unfold sound_state. simpl.
      rewrite Hh, <- (insert_delete_eq (handles s)).
      apply (sound_add_unit _ (delete this (handles s)) _ c cb true Hs1 Hcb).
      * intros c' w'. apply units_insert_fresh, lookup_delete_eq.
      * pose proof (units_range c true (delete this (handles s))).
        pose proof (map_size_delete this (handles s)) as Hsz. rewrite Hk in Hsz.
        simpl in Hsz. lia.
      * discriminate.
    + unfold ledger. simpl.
      rewrite (managed_insert_same _ c cb); [exact Hled | exact Hcb | reflexivity].
  - eexists. split; [reflexivity |]. split; [exact Hnull | exact Hled].
Qed.

Lemma kept_trans new1 new2 s1 s2 s3 :
  kept new1 s1 s2 -> kept new2 s2 s3 -> kept (new2 ++ new1) s1 s3.
Proof.
  intros [_ H1] [Hs H2]. split; [exact Hs |].
  rewrite H2, H1, app_assoc. reflexivity.
Qed.

Lemma assign_copy_kept s tmp this o v oh :
  sound_state s -> Z.of_nat (size (handles s)) + 1 < 2 ^ 64 ->
  handles s !! tmp = None ->
  handles s !! this = Some v -> handles s !! o = Some oh ->
  exists s', assign_copy tmp this o s = Ok tt s' /\ kept [] s s'.
Proof.
  intros Hs Hbound Ht Hk Ho. unfold RC.assign_copy.
  destruct (Z.eqb_spec this o) as [-> | Hne]; [exists s; done |].
  assert (Hnt : this <> tmp) by congruence.
  destruct (VSharedPtr_copy_kept s tmp o oh Hs Hbound Ht Ho) as (s1 & Hrun1 & Hh1 & Hk1).
  unfold bind at 1. rewrite Hrun1.
  assert (Hk1' : handles s1 !! this = Some v)
    by (rewrite Hh1, lookup_insert_ne by done; exact Hk).
  assert (Ht1 : handles s1 !! tmp = Some oh) by (rewrite Hh1; apply lookup_insert_eq).
  destruct (swap_kept s1 this tmp v oh (proj1 Hk1) Hk1' Ht1)
    as (s2 & Hrun2 & Hh2 & _ & Hk2).
  unfold bind at 1. rewrite Hrun2.
  assert (Ht2 : handles s2 !! tmp = Some v) by (rewrite Hh2; apply lookup_insert_eq).
  assert (Hb2 : Z.of_nat (size (handles s2)) < 2 ^ 64).
  { rewrite Hh2, !map_size_insert_Some, Hh1.
    - pose proof (size_insert_le (handles s) tmp oh). lia.
    - eauto.
    - rewrite lookup_insert_ne by done. eauto. }
  destruct (VSharedPtr_delete_kept s2 tmp v (proj1 Hk2) Hb2 Ht2) as (s3 & Hrun3 & _ & Hk3).
  exists s3. split; [exact Hrun3 |].
  apply (kept_trans [] [] s s2 s3); [| exact Hk3].
  apply (kept_trans [] [] s s1 s2); assumption.
Qed.

Lemma reset_raw_kept arr s tmp this ptr cb_addr v :
  sound_state s -> Z.of_nat (size (handles s)) + 1 < 2 ^ 64 ->
  handles s !! tmp = None -> handles s !! this = Some v ->
  (forall a, cb_addr = Some a -> blocks s !! a = None) ->
  exists s',
    (reset_raw arr tmp this ptr cb_addr s = Ok tt s' \/
     reset_raw arr tmp this ptr cb_addr s = Fail bad_alloc s') /\
    kept (match ptr with Some p => [(p, arr)] | None => [] end) s s'.
Proof.
  intros Hs Hbound Ht Hk Hfresh.
  assert (Hnt : this <> tmp) by congruence.
  destruct (VSharedPtr_from_raw_kept arr s tmp ptr cb_addr Hs Ht Hfresh)
    as (s1 & [[Hrun1 [tv Hh1]] | [Hrun1 Hh1]] & Hk1).
  - assert (Hk1' : handles s1 !! this = Some v)
      by (rewrite Hh1, lookup_insert_ne by done; exact Hk).
    assert (Ht1 : handles s1 !! tmp = Some tv) by (rewrite Hh1; apply lookup_insert_eq).
    destruct (swap_kept s1 this tmp v tv (proj1 Hk1) Hk1' Ht1)
      as (s2 & Hrun2 & Hh2 & _ & Hk2).
    assert (Ht2 : handles s2 !! tmp = Some v) by (rewrite Hh2; apply lookup_insert_eq).
    assert (Hb2 : Z.of_nat (size (handles s2)) < 2 ^ 64).
    { rewrite Hh2, !map_size_insert_Some, Hh1.
      - pose proof (size_insert_le (handles s) tmp tv). lia.
      - eauto.
      - rewrite lookup_insert_ne by done. eauto. }
    destruct (VSharedPtr_delete_kept s2 tmp v (proj1 Hk2) Hb2 Ht2)
      as (s3 & Hrun3 & _ & Hk3).
    exists s3. split.
    + left. unfold RC.reset_raw, bind. rewrite Hrun1, Hrun2. exact Hrun3.
    + pose proof (kept_trans _ _ _ _ _ (kept_trans _ _ _ _ _ Hk1 Hk2) Hk3) as Hall.
      simpl in Hall. exact Hall.
  - exists s1. split; [right | exact Hk1].
    unfold RC.reset_raw, bind. rewrite Hrun1. reflexivity.
Qed.

(** The objects that an operation is given to manage. *)
Definition adopted (o : operation) : list (Z * bool) :=
  match o with
  | op_from_raw arr _ (Some p) _ | op_reset_raw arr _ _ (Some p) _ => [(p, arr)]
  | _ => []
  end.

Lemma run_operation_kept (o : operation) (s : State) :
  sound_state s ->
  Z.of_nat (size (handles s)) + 1 < 2 ^ 64 ->
  well_formed_operation o s ->
  exists s',
    (run_operation o s = Ok tt s' \/ run_operation o s = Fail bad_alloc s') /\
    kept (adopted o) s s'.
Proof.
  intros Hs Hbound Hwf.
  assert (Hb : Z.of_nat (size (handles s)) < 2 ^ 64) by lia.
  destruct o; simpl in *; unfold live, free in *.
  - destruct (VSharedPtr_default_kept s this Hs Hwf) as (s' & ? & _ & ?). eauto.
  - destruct Hwf as [Hf Hu].
    destruct (VSharedPtr_from_raw_kept arr s this ptr cb_addr Hs Hf Hu)
      as (s' & [[? _] | [? _]] & ?); destruct ptr; eauto.
  - destruct Hwf as [Hf [oh Ho]].
    destruct (VSharedPtr_copy_kept s this o oh Hs Hbound Hf Ho) as (s' & ? & _ & ?). eauto.
  - destruct Hwf as [Hf [oh Ho]].
    destruct (VSharedPtr_move_kept s this o oh Hs Hf Ho) as (s' & ? & _ & _ & ?). eauto.
  - destruct Hwf as (Hf & [v Hk] & [oh Ho]).
    destruct (assign_copy_kept s tmp this o v oh Hs Hbound Hf Hk Ho) as (s' & ? & ?). eauto.
  - destruct Hwf as ([v Hk] & [oh Ho]).
    destruct (assign_move_kept s this o v oh Hs Hb Hk Ho) as (s' & ? & ?). eauto.
  - destruct Hwf as [v Hk].
    destruct (reset_kept s this v Hs Hb Hk) as (s' & ? & _ & ?). eauto.
  - destruct Hwf as [v Hk].
    destruct (reset_kept s this v Hs Hb Hk) as (s' & ? & _ & ?). eauto.
  - destruct Hwf as (Hf & [v Hk] & Hu).
    destruct (reset_raw_kept arr s tmp this ptr cb_addr v Hs Hbound Hf Hk Hu)
      as (s' & ? & ?). destruct ptr; eauto.
  - destruct Hwf as [Hf [sh Hsr]].
    destruct (make_weak_kept s dest strong_ref sh Hs Hbound Hf Hsr) as (s' & ? & ?). eauto.
  - destruct Hwf as [Hf [h Hh]].
    destruct (lock_kept s dest this h Hs Hbound Hf Hh) as (s' & ? & ?). eauto.
  - destruct Hwf as ([v Hk] & [oh Ho]).
    destruct (weak_kept s this other v oh Hs Hb Hk Ho) as (s' & ? & ?). eauto.
  - destruct Hwf as ([v Hk] & [oh Ho]).
    destruct (swap_kept s this other v oh Hs Hk Ho) as (s' & ? & _ & _ & ?). eauto.
  - destruct Hwf as [v Hk].
    destruct (VSharedPtr_delete_kept s this v Hs Hb Hk) as (s' & ? & _ & ?). eauto.
Qed.

End plain_payloads.

(** *** No public operation runs out of depth

    The depth of [destroy_object_n] is a device of the embedding; no run of
    a public operation ends for want of it. *)

Definition bounded {A} (m : M A) : Prop := forall s s', m s <> Fail OutOfFuel s'.

Lemma bounded_ret {A} (a : A) : bounded (ret a : M A).
Proof. intros s s'. discriminate. Qed.

Lemma bounded_throw {A} e : e <> OutOfFuel -> bounded (throw e : M A).
Proof. intros He s s' [= ? _]. contradiction. Qed.

Lemma bounded_bind {A B} (m : M A) (k : A -> M B) :
  bounded m -> (forall a, bounded (k a)) -> bounded (bind m k).
Proof.
  intros Hm Hk s s'. unfold bind. destruct (m s) as [a s1 | e s1] eqn:Hrun.
  - apply Hk.
  - intros [= -> ->]. exact (Hm s s' Hrun).
Qed.

Lemma bounded_load_block c : bounded (load_block c).
Proof. intros s s'. unfold load_block. destruct (blocks s !! c); discriminate. Qed.

Lemma bounded_load_handle h : bounded (load_handle h).
Proof. intros s s'. unfold load_handle. destruct (handles s !! h); discriminate. Qed.

Lemma bounded_store_block c cb : bounded (store_block c cb).
Proof. intros s s'. discriminate. Qed.

Lemma bounded_store_handle h v : bounded (store_handle h v).
Proof. intros s s'. discriminate. Qed.

Lemma bounded_free_handle h : bounded (free_handle h).
Proof. intros s s'. discriminate. Qed.

Lemma bounded_emit e : bounded (emit e).
Proof. intros s s'. discriminate. Qed.

Lemma bounded_noexcept {A} (m : M A) : bounded m -> bounded (noexcept m).
Proof.
  intros Hm s s'. unfold noexcept. destruct (m s) as [a s1 | e s1] eqn:Hrun; [discriminate |].
  destruct e; simpl; try discriminate. intros [= ->]. exact (Hm s s' Hrun).
Qed.

Lemma bounded_try_catch_rethrow {A} (m : M A) (h : M unit) :
  bounded m -> bounded h -> bounded (try_catch_rethrow m h).
Proof.
  intros Hm Hh s s'. unfold try_catch_rethrow, catch_rethrow.
  destruct (m s) as [a s1 | e s1] eqn:Hrun; [discriminate |].
  destruct (is_exception e) eqn:He.
  - destruct (h s1) as [[] s2 | e2 s2] eqn:Hrun2.
    + intros [= -> _]. discriminate.
    + intros [= -> ->]. exact (Hh s1 s' Hrun2).
  - intros [= -> ->]. exact (Hm s s' Hrun).
Qed.

Lemma bounded_release this : bounded (release this).
Proof. intros s s'. apply release_bounded. Qed.

Lemma bounded_VSharedPtr_delete this : bounded (VSharedPtr_delete this).
Proof.
  unfold RC.VSharedPtr_delete.
  apply bounded_bind; [apply bounded_release | intros _; apply bounded_free_handle].
Qed.

Lemma bounded_destroy_members (del : Z -> M unit) l :
  (forall h, bounded (del h)) -> bounded (destroy_members del l).
Proof.
  intros Hdel. induction l as [| h l IH]; simpl; [apply bounded_ret |].
  apply bounded_bind; [apply Hdel | intros _; exact IH].
Qed.

Lemma bounded_add_count which c : bounded (add_count which c).
Proof.
  unfold RC.add_count, RC.verify_integrity.
  apply bounded_bind.
  - apply bounded_bind; [apply bounded_load_block | intros cb].
    repeat match goal with
           | |- bounded (if ?b then _ else _) => destruct b
           end;
      first [apply bounded_ret | apply bounded_throw; discriminate].
  - intros _. apply bounded_bind; [apply bounded_load_block | intros cb].
    apply bounded_store_block.
Qed.

Lemma bounded_VSharedPtr_copy this o : bounded (VSharedPtr_copy this o).
Proof.
  unfold RC.VSharedPtr_copy. apply bounded_noexcept.
  apply bounded_bind; [apply bounded_store_handle | intros _].
  apply bounded_bind; [apply bounded_load_handle | intros oh].
  apply bounded_bind; [| intros _; apply bounded_store_handle].
  destruct (ctrl_ oh); [| apply bounded_ret].
  destruct (is_weak_ oh); apply bounded_add_count.
Qed.

Lemma bounded_swap this other : bounded (swap this other).
Proof.
  unfold swap. apply bounded_bind; [apply bounded_load_handle | intros me].
  apply bounded_bind; [apply bounded_load_handle | intros oh].
  apply bounded_bind; [apply bounded_store_handle | intros _; apply bounded_store_handle].
Qed.

Lemma bounded_VSharedPtr_from_raw arr this ptr cb_addr :
  bounded (VSharedPtr_from_raw arr this ptr cb_addr).
Proof.
  unfold RC.VSharedPtr_from_raw.
  apply bounded_bind; [apply bounded_store_handle | intros _].
  destruct ptr as [p |]; [| apply bounded_ret].
  destruct cb_addr as [a |].
  - apply bounded_bind; [apply bounded_store_block | intros _; apply bounded_store_handle].
  - apply bounded_bind.
    + unfold delete_object. apply bounded_bind; [apply bounded_emit | intros _].
      apply bounded_destroy_members. intros h. apply bounded_VSharedPtr_delete.
    + intros _. apply bounded_bind; [apply bounded_free_handle | intros _].
      apply bounded_throw. discriminate.
Qed.

Lemma run_operation_bounded (o : operation) :
  bounded (run_operation o).
Proof.
  destruct o; simpl.
  - apply bounded_store_handle.
  - apply bounded_VSharedPtr_from_raw.
  - apply bounded_VSharedPtr_copy.
  - unfold VSharedPtr_move. apply bounded_bind; [apply bounded_load_handle | intros oh].
    apply bounded_bind; [apply bounded_store_handle | intros _; apply bounded_store_handle].
  - unfold RC.assign_copy. destruct (this =? o); [apply bounded_ret |].
    apply bounded_bind; [apply bounded_VSharedPtr_copy | intros _].
    apply bounded_bind; [apply bounded_swap | intros _; apply bounded_VSharedPtr_delete].
  - unfold RC.assign_move. destruct (this =? o); [apply bounded_ret |].
    apply bounded_bind; [apply bounded_release | intros _].
    apply bounded_bind; [apply bounded_load_handle | intros oh].
    apply bounded_bind; [apply bounded_store_handle | intros _; apply bounded_store_handle].
  - unfold RC.assign_nullptr, RC.reset.
    apply bounded_bind; [apply bounded_release | intros _; apply bounded_store_handle].
  - unfold RC.reset.
    apply bounded_bind; [apply bounded_release | intros _; apply bounded_store_handle].
  - unfold RC.reset_raw.
    apply bounded_bind; [apply bounded_VSharedPtr_from_raw | intros _].
    apply bounded_bind; [apply bounded_swap | intros _; apply bounded_VSharedPtr_delete].
  - unfold RC.make_weak. apply bounded_bind; [apply bounded_load_handle | intros sh].
    destruct (ctrl_ sh) as [c |]; [| apply bounded_store_handle].
    destruct (is_weak_ sh); [apply bounded_store_handle |].
    apply bounded_bind; [apply bounded_store_handle | intros _].
    apply bounded_try_catch_rethrow; [apply bounded_add_count | apply bounded_VSharedPtr_delete].
  - unfold RC.lock. apply bounded_bind; [apply bounded_load_handle | intros h].
    destruct (negb (is_weak_ h)); [apply bounded_VSharedPtr_copy |].
    destruct (ctrl_ h) as [c |]; [| apply bounded_store_handle].
    apply bounded_bind.
    + unfold try_add_strong. apply bounded_bind; [apply bounded_load_block | intros cb].
      destruct (0 <? gc_strong_count_ cb); [| apply bounded_ret].
      apply bounded_bind; [apply bounded_store_block | intros _; apply bounded_ret].
    + intros ok. destruct ok; apply bounded_store_handle.
  - unfold RC.weak. destruct (this =? other); [apply bounded_ret |].
    apply bounded_bind; [apply bounded_release | intros _].
    apply bounded_bind; [apply bounded_load_handle | intros oh].
    destruct (ctrl_ oh) as [c |]; [| apply bounded_store_handle].
    destruct (is_weak_ oh); [apply bounded_store_handle |].
    apply bounded_bind; [apply bounded_add_count | intros _; apply bounded_store_handle].
  - apply bounded_swap.
  - apply bounded_VSharedPtr_delete.
Qed.

(** In a sound state a block is referred to by a handle, and it holds its
    object exactly when a strong handle refers to it. *)
Lemma sound_block_facts bl hs c cb :
  sound bl hs -> bl !! c = Some cb ->
  (exists h v, hs !! h = Some v /\ ctrl_ v = Some c) /\
  (is_Some (ptr_ cb) <-> exists h, hs !! h = Some (mkPtr (Some c) false)) /\
  (object_destroyed_ cb = false <-> is_Some (ptr_ cb)).
Proof.
  intros [Hacc Hok] Hc. destruct (Hok c cb Hc) as (Hheld & Halive & Hdead).
  pose proof (acc_count _ _ Hacc c cb false Hc) as Hs. simpl in Hs.
  pose proof (acc_count _ _ Hacc c cb true Hc) as Hw. simpl in Hw.
  pose proof (units_range c false hs) as Hrs.
  split; [| split].
  - destruct Hheld as [Hpos | Hpos].
    + destruct (units_pos_exists c false hs) as (k & v & Hk & Hr & _); [lia | eauto].
    + destruct (units_pos_exists c true hs) as (k & v & Hk & Hr & _); [lia | eauto].
  - split.
    + intros Hp. destruct (decide (0 < gc_strong_count_ cb)) as [Hpos | Hle].
      * destruct (units_pos_exists c false hs) as (k & [vc vw] & Hk & Hr1 & Hr2); [lia |].
        simpl in *. subst. eauto.
      * destruct (Hdead ltac:(lia)) as [_ Hn]. rewrite Hn in Hp. destruct Hp; discriminate.
    + intros [h Hh]. apply Halive.
      pose proof (units_lookup c hs h _ Hh eq_refl) as H1. simpl in H1. lia.
  - split.
    + intros Hd. destruct (decide (0 < gc_strong_count_ cb)) as [Hpos | Hle].
      * apply Halive, Hpos.
      * destruct (Hdead ltac:(lia)) as [Hd' _]. congruence.
    + intros Hp. destruct (decide (0 < gc_strong_count_ cb)) as [Hpos | Hle].
      * apply Halive, Hpos.
      * destruct (Hdead ltac:(lia)) as [_ Hn]. rewrite Hn in Hp. destruct Hp; discriminate.
Qed.


(** A run of public operations, each on live operands, whether it returns or
    throws [bad_alloc]. *)
Inductive runs : State -> list operation -> State -> Prop :=
| runs_nil s : runs s [] s
| runs_cons s o s1 os s2 :
    well_formed_operation o s ->
    Z.of_nat (size (handles s)) + 1 < 2 ^ 64 ->
    run_operation o s = Ok tt s1 \/ run_operation o s = Fail bad_alloc s1 ->
    runs s1 os s2 ->
    runs s (o :: os) s2.

(** X2: with payloads that hold no handle, no object is lost and none is
    deleted twice.  After any run of public operations from a sound state,
    the objects deleted so far together with the objects still held by
    control blocks are, counted with multiplicity, the ones of the start plus
    the ones that were handed over to [VSharedPtr(ptr)] and [reset(ptr)]
    during the run. *)
Theorem operations_conserve_objects (os : list operation) (s s' : State) :
  (forall p, members_of p = []) ->
  sound_state s -> runs s os s' ->
  sound_state s' /\
  deletions (trace s') ++ managed (blocks s') ≡ₚ
  concat (map adopted os) ++ deletions (trace s) ++ managed (blocks s).
Proof.
  intros Hplain Hs Hruns.
  induction Hruns as [s | s o s1 os s2 Hwf Hbound Hrun Hruns IH].
  - split; [exact Hs | reflexivity].
  - destruct (run_operation_kept Hplain o s Hs Hbound Hwf) as (s1' & Hrun' & Hs1 & Hled).
    assert (s1' = s1) as ->.
    { destruct Hrun as [Hrun | Hrun], Hrun' as [Hrun' | Hrun']; congruence. }
    destruct (IH Hs1) as [Hs2 Hled2]. split; [exact Hs2 |].
    rewrite Hled2. simpl. fold (ledger s1). rewrite Hled. unfold ledger.
    rewrite <- !app_assoc. apply Permutation_app_swap_app.
Qed.

Local Abbreviation operator_star := (RC.operator_star TM safety_checks_enabled).
Local Abbreviation operator_index := (RC.operator_index TM safety_checks_enabled).
Local Abbreviation lock_access := (RC.lock_access safety_checks_enabled).

Lemma get_run s this h c cb :
  handles s !! this = Some h -> ctrl_ h = Some c -> is_weak_ h = false ->
  blocks s !! c = Some cb -> get this s = Ok (ptr_ cb) s.
Proof.
  intros Hh Hc Hw Hb. unfold get, get_ptr. unfold_monad. rewrite Hh, Hc, Hw, Hb.
  reflexivity.
Qed.

(** X3: in a sound state a strong handle that is not null never dangles:
    [get] returns the managed pointer, which is not null and whose object
    has not been destroyed, [operator bool] is true, [expired] is false and
    [operator*] returns that pointer.  [ref_count] and [weak_count] of any
    handle on a block are the numbers of live strong and weak handles on it,
    and a handle is [expired] exactly when no live strong handle refers to
    its block. *)
Theorem strong_handle_never_dangles s this h c :
  sound_state s -> handles s !! this = Some h -> ctrl_ h = Some c ->
  exists cb,
    blocks s !! c = Some cb /\
    ref_count this s = Ok (units c false (handles s)) s /\
    weak_count this s = Ok (units c true (handles s)) s /\
    expired this s = Ok (bool_decide (units c false (handles s) = 0)) s /\
    (expired this s = Ok true s <->
     forall k v, handles s !! k = Some v -> ~ refers c false v) /\
    (is_weak_ h = false ->
     exists p, ptr_ cb = Some p /\ object_destroyed_ cb = false /\
               get this s = Ok (Some p) s /\
               operator_bool this s = Ok true s /\
               expired this s = Ok false s /\
               operator_star this s = Ok p s).
Proof.
  intros Hs Hh Hc. pose proof Hs as [Hacc Hok].
  destruct (acc_live _ _ Hacc this h c Hh Hc) as [cb Hcb]. exists cb.
  pose proof (acc_count _ _ Hacc c cb false Hcb) as Hcs. simpl in Hcs.
  pose proof (acc_count _ _ Hacc c cb true Hcb) as Hcw. simpl in Hcw.
  pose proof (units_range c false (handles s)) as Hrs.
  assert (Hexp : expired this s = Ok (bool_decide (units c false (handles s) = 0)) s).
  { unfold expired, is_alive, load_count. unfold_monad. rewrite Hh, Hc, Hcb. simpl.
    rewrite Hcs. f_equal. case_bool_decide as Hz.
    - rewrite Hz. reflexivity.
    - destruct (Z.ltb_spec 0 (units c false (handles s))); [reflexivity | lia]. }
  split; [exact Hcb |]. split; [| split; [| split; [| split]]].
  - unfold ref_count, strong_count, load_count. unfold_monad.
    rewrite Hh, Hc, Hcb. simpl. rewrite Hcs. reflexivity.
  - unfold weak_count, weak_count_cb, load_count. unfold_monad.
    rewrite Hh, Hc, Hcb. simpl. rewrite Hcw. reflexivity.
  - exact Hexp.
  - rewrite Hexp. split.
    + intros [= Hz]. apply bool_decide_eq_true in Hz.
      intros k v Hk. apply (units_zero c false (handles s) k v Hz Hk).
    + intros Hnone. f_equal. apply bool_decide_eq_true.
      destruct (decide (1 <= units c false (handles s))) as [Hpos | Hz]; [| lia].
      destruct (units_pos_exists c false (handles s) Hpos) as (k & v & Hk & Hr).
      destruct (Hnone k v Hk Hr).
  - intros Hw.
    pose proof (units_lookup c (handles s) this h Hh Hc) as Hpos. rewrite Hw in Hpos.
    destruct (Hok c cb Hcb) as (_ & Halive & _).
    destruct (Halive ltac:(lia)) as [Hd [p Hp]]. exists p.
    split; [exact Hp |]. split; [exact Hd |].
    assert (Hget : get this s = Ok (Some p) s).
    { rewrite (get_run s this h c cb Hh Hc Hw Hcb), Hp. reflexivity. }
    split; [exact Hget |]. split; [| split].
    + unfold operator_bool. unfold bind at 1. unfold load_handle. rewrite Hh, Hw.
      unfold bind. rewrite Hget. reflexivity.
    + rewrite Hexp. f_equal. apply bool_decide_eq_false. lia.
    + unfold RC.operator_star, deref_locked. unfold_monad. rewrite Hh, Hw, Hc, Hcb.
      rewrite (acc_mutex _ _ Hacc c cb Hcb), Hp. destruct TM; reflexivity.
Qed.

(** The destructors of the handles at [l], one after the other, as at the
    end of the scope that holds them. *)
Fixpoint destroy_handles (l : list Z) : M unit :=
  match l with
  | [] => ret tt
  | h :: l' => VSharedPtr_delete h ;; destroy_handles l'
  end.

(** X4: with payloads that hold no handle, nothing leaks.  When all the
    live handles of a sound state are destroyed, in whatever order, every
    destructor returns, no control block is left, and every object that the
    blocks held has been deleted, once. *)
Theorem destroying_all_handles_frees_everything (l : list Z) (s : State) :
  (forall p, members_of p = []) ->
  sound_state s -> Z.of_nat (size (handles s)) < 2 ^ 64 ->
  NoDup l -> (forall h, h ∈ l <-> is_Some (handles s !! h)) ->
  exists s',
    destroy_handles l s = Ok tt s' /\
    handles s' = ∅ /\ blocks s' = ∅ /\
    deletions (trace s') ≡ₚ deletions (trace s) ++ managed (blocks s).
Proof.
  intros Hplain.
  revert s. induction l as [| h l IH]; intros s Hs Hbound Hnd Hall; simpl.
  - assert (Hh : handles s = ∅).
    { apply map_empty. intros k. destruct (handles s !! k) eqn:Hk; [| reflexivity].
      assert (Hin : k ∈ @nil Z) by (apply Hall; eauto).
      apply elem_of_nil in Hin. contradiction. }
    assert (Hb : blocks s = ∅).
    { apply map_empty. intros c. destruct (blocks s !! c) as [cb |] eqn:Hc; [| reflexivity].
      destruct (sound_block_facts _ _ c cb Hs Hc) as ((k & v & Hk & _) & _).
      rewrite Hh, lookup_empty in Hk. discriminate. }
    exists s. split; [reflexivity |]. split; [exact Hh |]. split; [exact Hb |].
    rewrite Hb. unfold managed. rewrite map_to_list_empty. simpl.
    rewrite app_nil_r. reflexivity.
  - apply NoDup_cons in Hnd as [Hnin Hnd].
    destruct (proj1 (Hall h)) as [v Hv]; [left |].
    destruct (VSharedPtr_delete_kept Hplain s h v Hs Hbound Hv)
      as (s1 & Hrun & Hh1 & Hs1 & Hled).
    unfold bind. rewrite Hrun.
    destruct (IH s1 Hs1) as (s' & Hrun' & Hh' & Hb' & Hdel); [| exact Hnd | |].
    + rewrite Hh1. pose proof (map_size_delete h (handles s)) as Hsz.
      rewrite Hv in Hsz. simpl in Hsz. lia.
    + intros k. rewrite Hh1. split.
      * intros Hk. rewrite lookup_delete_ne by (intros ->; contradiction).
        apply Hall. right. exact Hk.
      * intros Hk. destruct (decide (k = h)) as [-> | Hne].
        { rewrite lookup_delete_eq in Hk. destruct Hk; discriminate. }
        rewrite lookup_delete_ne in Hk by done.
        apply Hall in Hk. apply elem_of_cons in Hk as [-> | Hk]; [contradiction | exact Hk].
    + exists s'. split; [exact Hrun' |]. split; [exact Hh' |]. split; [exact Hb' |].
      rewrite Hdel. exact Hled.
Qed.


(** *** Payloads that own payloads

    What the last strong release does when the payload has handles among its
    members, as long as the destructors of those handles leave the control
    block in place. *)

Lemma destroy_object_with_run (del : Z -> M unit) s c cb p s3 cb3 :
  blocks s !! c = Some cb ->
  object_destroyed_ cb = false -> object_mutex_ cb = Unlocked -> ptr_ cb = Some p ->
  destroy_members del (members_of p)
    (mkState (<[c := set_mutex LockedExclusive
                                (set_ptr None (set_object_destroyed true cb))]> (blocks s))
             (handles s)
             (trace s ++ [EvLockExclusive c; EvDeleteObject p (is_array_ cb)])) = Ok tt s3 ->
  blocks s3 !! c = Some cb3 ->
  destroy_object_with members_of del c s =
  Ok tt (mkState (<[c := set_mutex Unlocked cb3]> (blocks s3)) (handles s3)
                 (trace s3 ++ [EvUnlock c])).
Proof.
  intros Hc Hd Hm Hp Hrun Hc3. unfold destroy_object_with, delete_object.
  unfold bind at 1. unfold load_block. rewrite Hc, Hd.
  unfold bind at 1. unfold store_block at 1. rewrite Hm. simpl.
  unfold bind at 1. unfold emit at 1.
  unfold bind at 1. unfold store_block at 1. simpl.
  rewrite insert_insert_eq, Hp.
  unfold bind at 1. unfold bind at 1. unfold emit at 1. simpl.
  rewrite <- app_assoc. simpl. rewrite Hrun.
  unfold_monad. rewrite Hc3. reflexivity.
Qed.

Lemma release_strong_with_last_run (destroy : Z -> M unit) s c cb s3 cb3 :
  blocks s !! c = Some cb -> gc_strong_count_ cb = 1 ->
  destroy c (mkState (<[c := set_strong 0 cb]> (blocks s)) (handles s)
                     (trace s ++ [decrement_event Strong] ++ fence_trace (MO.acquire TM))) =
    Ok tt s3 ->
  blocks s3 !! c = Some cb3 ->
  release_strong_with TM destroy c s =
  Ok tt (mkState (if gc_weak_count_ cb3 =? 0 then delete c (blocks s3) else blocks s3)
                 (handles s3)
                 (trace s3 ++ [EvLoadCount Weak] ++
                  if gc_weak_count_ cb3 =? 0
                  then fence_trace (MO.acquire TM) ++ [EvDeleteThis c] else [])).
Proof.
  intros Hc H1 Hrun Hc3. unfold release_strong_with.
  unfold bind at 1. rewrite (fetch_sub_count_run Strong s c cb Hc). simpl.
  rewrite H1. simpl.
  unfold bind at 1. rewrite fence_run. simpl. rewrite <- app_assoc.
  change (wrap_size_t (1 - 1)) with 0.
  unfold bind at 1. rewrite Hrun.
  unfold load_count. unfold_monad. simpl. rewrite Hc3. simpl.
  destruct (gc_weak_count_ cb3 =? 0).
  - rewrite fence_run. simpl. unfold delete_this. unfold_monad. simpl.
    rewrite Hc3. simpl. rewrite <- !app_assoc. reflexivity.
  - destruct s3; reflexivity.
Qed.

(** A list of nodes: the control block of each, its payload, and the member
    of the payload that owns the next node.  The handle at [h] owns the list
    [l] when it is the one strong handle on the first node, whose payload has
    one member that owns the rest in the same way; the member of the last
    node is null. *)
Record node := mkNode { n_block : Z; n_payload : Z; n_member : Z }.

Definition sole_owner (cb : ControlBlock) (p : Z) : Prop :=
  gc_strong_count_ cb = 1 /\ gc_weak_count_ cb = 0 /\ ptr_ cb = Some p /\
  object_destroyed_ cb = false /\ is_array_ cb = false /\ object_mutex_ cb = Unlocked.

Fixpoint owns (s : State) (h : Z) (l : list node) : Prop :=
  match l with
  | [] => handles s !! h = Some null_handle
  | n :: l' =>
      handles s !! h = Some (mkPtr (Some (n_block n)) false) /\
      (exists cb, blocks s !! n_block n = Some cb /\ sole_owner cb (n_payload n)) /\
      members_of (n_payload n) = [n_member n] /\
      owns s (n_member n) l'
  end.

(** What the destruction of the owner is seen to do: each node is entered,
    its payload deleted, the rest of the list destroyed from inside that
    deletion, and its control block deleted on the way out. *)
Fixpoint chain_trace (l : list node) : list event :=
  match l with
  | [] => []
  | n :: l' =>
      [decrement_event Strong] ++ fence_trace (MO.acquire TM) ++
      [EvLockExclusive (n_block n); EvDeleteObject (n_payload n) false] ++
      chain_trace l' ++
      [EvUnlock (n_block n); EvLoadCount Weak] ++ fence_trace (MO.acquire TM) ++
      [EvDeleteThis (n_block n)]
  end.

Lemma owns_frame s s' l : forall h,
  handles s' = handles s ->
  (forall n, n ∈ l -> blocks s' !! n_block n = blocks s !! n_block n) ->
  owns s h l -> owns s' h l.
Proof.
  induction l as [| n l IH]; intros h Hh Hb; simpl.
  - rewrite Hh. exact id.
  - intros (Hhead & Hcb & Hmem & Hrest). rewrite Hh, Hb by (left).
    split; [exact Hhead |]. split; [exact Hcb |]. split; [exact Hmem |].
    apply IH; [exact Hh | | exact Hrest].
    intros n' Hin. apply Hb. right. exact Hin.
Qed.

Lemma foldr_delete_insert_ne {A} (m : gmap Z A) ks c x :
  c ∉ ks -> foldr delete (<[c := x]> m) ks = <[c := x]> (foldr delete m ks).
Proof.
  induction ks as [| k ks IH]; intros Hc; simpl; [reflexivity |].
  apply not_elem_of_cons in Hc as [Hne Hc].
  rewrite IH by exact Hc. apply delete_insert_ne. congruence.
Qed.

Lemma owned_list_delete_n l : forall n s h,
  (length l <= n)%nat -> owns s h l -> NoDup (map n_block l) ->
  VSharedPtr_delete_with TM (destroy_object_n TM members_of n) h s =
  Ok tt (mkState (foldr delete (blocks s) (map n_block l))
                 (delete h (foldr delete (handles s) (map n_member l)))
                 (trace s ++ chain_trace l)).
Proof.
  induction l as [| [c p m] l IH]; intros n s h Hlen Howns Hnd.
  - simpl in *. unfold VSharedPtr_delete_with, release_with. unfold_monad.
    rewrite Howns. simpl. rewrite app_nil_r. reflexivity.
  - simpl in Howns. destruct Howns as (Hh & (cb & Hc & Hsole) & Hmem & Hrest).
    destruct Hsole as (Hs & Hw & Hp & Hd & Harr & Hm).
    simpl in Hnd. apply NoDup_cons in Hnd as [Hnin Hnd].
    destruct n as [| n]; [simpl in Hlen; lia |].
    simpl in Hlen.
    pose (cb0 := set_strong 0 cb).
    pose (cbl := set_mutex LockedExclusive (set_ptr None (set_object_destroyed true cb0))).
    pose (s1 := mkState (<[c := cb0]> (blocks s)) (handles s)
                        (trace s ++ [decrement_event Strong] ++ fence_trace (MO.acquire TM))).
    pose (s2 := mkState (<[c := cbl]> (blocks s1)) (handles s1)
                        (trace s1 ++ [EvLockExclusive c; EvDeleteObject p (is_array_ cb0)])).
    pose (s3 := mkState (<[c := cbl]> (foldr delete (blocks s) (map n_block l)))
                        (delete m (foldr delete (handles s) (map n_member l)))
                        (trace s2 ++ chain_trace l)).
    assert (Hown2 : owns s2 m l).
    { apply (owns_frame s); [reflexivity | | exact Hrest].
      intros n' Hin. simpl.
      assert (Hne : c <> n_block n').
      { intros Heq. apply Hnin. rewrite Heq. apply list_elem_of_fmap. eauto. }
      rewrite !lookup_insert_ne by exact Hne. reflexivity. }
    assert (Hrun2 : VSharedPtr_delete_with TM (destroy_object_n TM members_of n) m s2 =
                    Ok tt s3).
    { rewrite (IH n s2 m ltac:(lia) Hown2 Hnd). unfold s3. f_equal. f_equal.
      simpl. rewrite insert_insert_eq. apply foldr_delete_insert_ne. exact Hnin. }
    assert (Hdestroy : destroy_object_n TM members_of (S n) c s1 =
              Ok tt (mkState (<[c := set_mutex Unlocked cbl]> (blocks s3)) (handles s3)
                             (trace s3 ++ [EvUnlock c]))).
    { simpl destroy_object_n.
      apply (destroy_object_with_run _ s1 c cb0 p s3 cbl).
      - apply lookup_insert_eq.
      - exact Hd.
      - exact Hm.
      - exact Hp.
      - rewrite Hmem.
        change (destroy_members
                  (VSharedPtr_delete_with TM (destroy_object_n TM members_of n)) [m] s2 =
                Ok tt s3).
        simpl destroy_members. unfold bind. rewrite Hrun2. reflexivity.
      - apply lookup_insert_eq. }
    unfold VSharedPtr_delete_with, release_with.
    unfold bind at 1. unfold bind at 1. unfold load_handle. rewrite Hh.
    cbn [ctrl_ is_weak_].
    rewrite (release_strong_with_last_run _ s c cb _ (set_mutex Unlocked cbl)
               Hc Hs Hdestroy (lookup_insert_eq _ _ _)).
    simpl. rewrite Hw, Harr. simpl. unfold free_handle. simpl.
    rewrite !delete_insert_eq, <- !app_assoc. reflexivity.
Qed.

(** X27: a list of nodes is destroyed from its head.  When the handle at
    [h] owns a list of nodes, each the sole owner of the next through a
    member of its payload, the destructor of [h] returns; it has deleted the
    payloads first to last, each from inside the deletion of the one
    before, and the control blocks last to first; the handles and the
    control blocks of the list are gone, and nothing else has changed. *)
Theorem owned_list_is_destroyed_from_the_head (l : list node) (s : State) (h : Z) :
  owns s h l -> NoDup (map n_block l) ->
  RC.VSharedPtr_delete TM members_of h s =
  Ok tt (mkState (foldr delete (blocks s) (map n_block l))
                 (delete h (foldr delete (handles s) (map n_member l)))
                 (trace s ++ chain_trace l)) /\
  deletions (chain_trace l) = map (fun n => (n_payload n, false)) l.
Proof.
  intros Howns Hnd. split.
  - rewrite (refines_VSharedPtr_delete (length l) h s).
    + apply owned_list_delete_n; [lia | exact Howns | exact Hnd].
    + intros s'. rewrite (owned_list_delete_n l (length l) s h); [discriminate | lia | |];
        assumption.
  - clear. induction l as [| n l IH]; [reflexivity |].
    cbn [chain_trace map].
    rewrite !deletions_app, deletions_decrement, !deletions_fence, IH.
    simpl. rewrite app_nil_r. reflexivity.
Qed.

(** X28: the last strong release of a payload that holds the last weak
    handle on its own control block.  [release_strong] lowers the strong
    counter to 0 and deletes the payload; the destructor of the member
    lowers the weak counter to 0, reads the strong counter, and deletes the
    control block.  The run ends there: what [destroy_object] and
    [release_strong] do next, they do on the block that is gone.  The weak
    counter has not been read by [release_strong] when the block is
    deleted. *)
Theorem last_strong_release_with_weak_member s c cb p m :
  blocks s !! c = Some cb ->
  gc_strong_count_ cb = 1 -> gc_weak_count_ cb = 1 ->
  ptr_ cb = Some p -> object_destroyed_ cb = false -> object_mutex_ cb = Unlocked ->
  members_of p = [m] -> handles s !! m = Some (mkPtr (Some c) true) ->
  release_strong c s =
  Fail Undefined
    (mkState (delete c (blocks s)) (delete m (handles s))
       (trace s ++
        [decrement_event Strong] ++ fence_trace (MO.acquire TM) ++
        [EvLockExclusive c; EvDeleteObject p (is_array_ cb)] ++
        [decrement_event Weak] ++ fence_trace (MO.acquire TM) ++
        [EvLoadCount Strong] ++ fence_trace (MO.acquire TM) ++ [EvDeleteThis c])).
Proof.
  intros Hc Hs Hw Hp Hd Hm Hmem Hh.
  unfold RC.release_strong, release_strong_with.
  unfold bind at 1. rewrite (fetch_sub_count_run Strong s c cb Hc). simpl.
  rewrite Hs. simpl.
  unfold bind at 1. rewrite fence_run. simpl.
  unfold bind at 1. unfold RC.destroy_object. simpl destroy_object_n.
  unfold destroy_object_with, delete_object.
  unfold bind at 1. unfold load_block. simpl. rewrite lookup_insert_eq. simpl. rewrite Hd.
  unfold bind at 1. unfold store_block at 1. simpl. rewrite Hm. simpl.
  unfold bind at 1. unfold emit at 1.
  unfold bind at 1. unfold store_block at 1. simpl.
  rewrite !insert_insert_eq, Hp.
  unfold bind at 1. unfold bind at 1. unfold emit at 1. simpl.
  rewrite Hmem. simpl destroy_members.
  unfold bind at 1. unfold VSharedPtr_delete_with, release_with.
  unfold bind at 1. unfold bind at 1. unfold load_handle. simpl. rewrite Hh.
  cbn [ctrl_ is_weak_].
  erewrite release_weak_last_run; [| simpl; apply lookup_insert_eq | simpl; exact Hw].
  simpl. unfold free_handle. unfold ret. unfold load_block.
  unfold bind at 1. simpl.
  rewrite delete_insert_eq, lookup_delete_eq.
  unfold release_weak_trace. simpl. rewrite <- !app_assoc. simpl.
  reflexivity.
Qed.

(** X5: [release_weak] never destroys the managed object, whatever the
    counters are.  When the weak counter was 1 it reads the strong counter
    after the decrement and the fence, and deletes the control block exactly
    when that read gave 0; otherwise it only lowers the counter (which wraps
    around when it was 0). *)
Theorem release_weak_reads_strong_before_delete s c cb :
  blocks s !! c = Some cb ->
  deletions (trace (final_state (release_weak c s))) = deletions (trace s) /\
  (gc_weak_count_ cb = 1 ->
   exists s',
     release_weak c s = Ok tt s' /\
     trace s' =
       trace s ++
       [decrement_event Weak] ++ fence_trace (MO.acquire TM) ++ [EvLoadCount Strong] ++
       (if gc_strong_count_ cb =? 0
        then fence_trace (MO.acquire TM) ++ [EvDeleteThis c] else []) /\
     (blocks s' !! c = None <-> gc_strong_count_ cb = 0) /\
     (gc_strong_count_ cb <> 0 -> blocks s' !! c = Some (set_weak 0 cb))) /\
  (gc_weak_count_ cb <> 1 ->
   release_weak c s =
   Ok tt (mkState (<[c := set_weak (wrap_size_t (gc_weak_count_ cb - 1)) cb]> (blocks s))
                  (handles s) (trace s ++ [decrement_event Weak]))).
Proof.
  intros Hc.
  assert (Hmany : gc_weak_count_ cb <> 1 ->
            release_weak c s =
            Ok tt (mkState (<[c := set_weak (wrap_size_t (gc_weak_count_ cb - 1)) cb]>
                              (blocks s))
                           (handles s) (trace s ++ [decrement_event Weak]))).
  { intros H1. destruct (decide (gc_weak_count_ cb = 0)) as [H0 | H0].
    - rewrite (release_weak_zero_run s c cb Hc H0), H0. reflexivity.
    - apply (release_weak_many_run s c cb Hc H0 H1). }
  split; [| split].
  - destruct (decide (gc_weak_count_ cb = 1)) as [H1 | H1].
    + rewrite (release_weak_last_run s c cb Hc H1). simpl.
      rewrite deletions_app, deletions_release_weak. apply app_nil_r.
    + rewrite (Hmany H1). simpl.
      rewrite deletions_app, deletions_decrement. apply app_nil_r.
  - intros H1. eexists. split; [apply (release_weak_last_run s c cb Hc H1) |].
    simpl. split; [reflexivity |].
    destruct (Z.eqb_spec (gc_strong_count_ cb) 0) as [Hz | Hnz].
    + split; [| intros; contradiction].
      split; [intros _; exact Hz | intros _; apply lookup_delete_eq].
    + split; [| intros _; apply lookup_insert_eq].
      rewrite lookup_insert_eq. split; [discriminate | contradiction].
  - exact Hmany.
Qed.

(** X6: construction from a raw pointer fails cleanly.  A null pointer gives
    a null handle and allocates nothing.  When the control block cannot be
    allocated, [VSharedPtr(ptr)], [VMakeShared] and [reset(ptr)] delete the
    object they were given, with [delete[]] for an array and [delete]
    otherwise, and throw [bad_alloc]; no handle is built, and, the object
    holding no handle among its members, [reset] leaves its handle and every
    control block as they were. *)
Theorem raw_construction_fails_cleanly arr s this tmp p cb_addr :
  handles s !! this = None -> handles s !! tmp = None ->
  members_of p = [] ->
  VSharedPtr_from_raw arr this None cb_addr s =
    Ok tt (mkState (blocks s) (<[this := null_handle]> (handles s)) (trace s)) /\
  VSharedPtr_from_raw arr this (Some p) None s =
    Fail bad_alloc (mkState (blocks s) (handles s) (trace s ++ [EvDeleteObject p arr])) /\
  RC.VMakeShared TM members_of arr this p None s =
    Fail bad_alloc (mkState (blocks s) (handles s) (trace s ++ [EvDeleteObject p arr])) /\
  (forall h, reset_raw arr tmp h (Some p) None s =
    Fail bad_alloc (mkState (blocks s) (handles s) (trace s ++ [EvDeleteObject p arr]))).
Proof.
  intros Hthis Htmp Hplain.
  assert (Hfail : forall k, handles s !! k = None ->
            VSharedPtr_from_raw arr k (Some p) None s =
            Fail bad_alloc (mkState (blocks s) (handles s)
                                    (trace s ++ [EvDeleteObject p arr]))).
  { intros k Hk. unfold RC.VSharedPtr_from_raw. unfold_monad. simpl.
    rewrite delete_object_plain by exact Hplain. simpl.
    rewrite delete_insert_eq, delete_id by exact Hk. reflexivity. }
  split; [| split; [| split]].
  - unfold RC.VSharedPtr_from_raw. unfold_monad. simpl. reflexivity.
  - apply Hfail, Hthis.
  - unfold RC.VMakeShared. apply Hfail, Hthis.
  - intros h. unfold RC.reset_raw. unfold bind at 1. rewrite (Hfail tmp Htmp). reflexivity.
Qed.

(** X7: the view that [operator->] returns in thread-safe mode shuts out
    every other access to the object, the holder's own included.  While the
    view lives, [operator->], [lock_access], [operator*] and [operator[]] on
    any strong handle of the same block wait for the mutex, and so does the
    release of the last strong handle, after it has lowered the counter;
    [ThreadMode::False] takes no lock, so there nothing waits.  Destroying
    the view gives the state from before the call back. *)
Theorem view_shuts_out_other_access s this h c cb p :
  handles s !! this = Some h -> is_weak_ h = false -> ctrl_ h = Some c ->
  blocks s !! c = Some cb -> ptr_ cb = Some p -> object_mutex_ cb = Unlocked ->
  exists v s1,
    RC.operator_arrow TM_True safety_checks_enabled this s = Ok (View v) s1 /\
    handles s1 = handles s /\
    (forall o oh i,
       handles s !! o = Some oh -> is_weak_ oh = false -> ctrl_ oh = Some c ->
       RC.operator_arrow TM_True safety_checks_enabled o s1 = Fail Blocked s1 /\
       lock_access o s1 = Fail Blocked s1 /\
       RC.operator_star TM_True safety_checks_enabled o s1 = Fail Blocked s1 /\
       RC.operator_index TM_True safety_checks_enabled o i s1 = Fail Blocked s1 /\
       RC.operator_star TM_False safety_checks_enabled o s1 = Ok p s1) /\
    (gc_strong_count_ cb = 1 -> object_destroyed_ cb = false ->
     exists s2, RC.release_strong TM_True members_of c s1 = Fail Blocked s2 /\
                trace s2 = trace s ++ [EvFetchSub Strong memory_order_release;
                                       EvFence memory_order_acquire]) /\
    LockedProxy_delete v s1 = Ok tt s.
Proof.
  intros Hh Hw Hc Hb Hp Hm.
  exists (mkProxy (Some p) (Some c)),
         (mkState (<[c := set_mutex LockedExclusive cb]> (blocks s)) (handles s) (trace s)).
  split; [| split; [reflexivity |]; split; [| split]].
  - unfold RC.operator_arrow, get_ptr, RC.LockedProxy_new. unfold_monad.
    rewrite Hh, Hw, Hc, Hb, Hp. simpl. rewrite Hb, Hm. reflexivity.
  - intros o oh i Ho Hwo Hco.
    split; [| split; [| split; [| split]]].
    + unfold RC.operator_arrow, get_ptr, RC.LockedProxy_new. unfold_monad.
      repeat (progress (simpl; rewrite ?Ho, ?Hwo, ?Hco, ?lookup_insert_eq)).
      reflexivity.
    + unfold RC.lock_access, get_ptr, RC.LockedProxy_new. unfold_monad.
      repeat (progress (simpl; rewrite ?Ho, ?Hwo, ?Hco, ?lookup_insert_eq)).
      reflexivity.
    + unfold RC.operator_star, deref_locked. unfold_monad.
      repeat (progress (simpl; rewrite ?Ho, ?Hwo, ?Hco, ?lookup_insert_eq)).
      reflexivity.
    + unfold RC.operator_index, deref_locked. unfold_monad.
      repeat (progress (simpl; rewrite ?Ho, ?Hwo, ?Hco, ?lookup_insert_eq)).
      reflexivity.
    + unfold RC.operator_star, deref_locked. unfold_monad.
      repeat (progress (simpl; rewrite ?Ho, ?Hwo, ?Hco, ?lookup_insert_eq, ?Hp)).
      reflexivity.
  - intros H1 Hd.
    unfold RC.release_strong, release_strong_with, RC.fetch_sub_count, RC.fence,
      RC.destroy_object.
    simpl. unfold destroy_object_with.
    unfold_monad. simpl. rewrite !lookup_insert_eq. simpl. rewrite H1. simpl.
    rewrite !lookup_insert_eq. simpl. rewrite Hd. simpl.
    eexists. split; [reflexivity |]. simpl. rewrite <- app_assoc. reflexivity.
  - unfold LockedProxy_delete. unfold_monad. simpl.
    rewrite lookup_insert_eq. simpl. rewrite insert_insert_eq.
    replace (set_mutex (unlock LockedExclusive) (set_mutex LockedExclusive cb))
      with cb by (destruct cb; simpl in *; subst; reflexivity).
    rewrite insert_id by assumption. destruct s; reflexivity.
Qed.

(** X8: [operator*], [operator[]] and [lock_access] refuse a weak and a null
    handle like [operator->] does, each with its own message, and change
    nothing.  On a strong handle [operator*] and [operator[]] return the
    managed pointer (with the index) and leave no lock behind: the state is
    the one before the call.  When the object of the block is gone,
    [operator->] reports a null pointer: a checked build throws and gives
    the mutex back, an unchecked build aborts while it holds the mutex. *)
Theorem star_and_index_leave_no_lock s this h i :
  handles s !! this = Some h ->
  (is_weak_ h = true ->
   operator_star this s =
     Fail (if safety_checks_enabled
           then MemorySafety "operator*: cannot dereference weak pointer" else Abort) s /\
   operator_index this i s =
     Fail (if safety_checks_enabled
           then MemorySafety "operator[]: cannot access weak pointer" else Abort) s /\
   lock_access this s =
     Fail (if safety_checks_enabled
           then MemorySafety "lock_access: called on weak pointer" else Abort) s) /\
  (is_weak_ h = false -> ctrl_ h = None ->
   operator_star this s =
     Fail (if safety_checks_enabled
           then MemorySafety "operator*: null pointer dereference" else Abort) s /\
   operator_index this i s =
     Fail (if safety_checks_enabled
           then MemorySafety "operator[]: null pointer access" else Abort) s /\
   lock_access this s =
     Fail (if safety_checks_enabled
           then MemorySafety "lock_access: called on null pointer" else Abort) s) /\
  (forall c cb,
     is_weak_ h = false -> ctrl_ h = Some c -> blocks s !! c = Some cb ->
     object_mutex_ cb <> LockedExclusive ->
     (forall p, ptr_ cb = Some p ->
        operator_star this s = Ok p s /\ operator_index this i s = Ok (p, i) s) /\
     (ptr_ cb = None -> object_mutex_ cb = Unlocked ->
        RC.operator_arrow TM_True true this s =
          Fail (MemorySafety "LockedProxy: null pointer") s /\
        RC.operator_arrow TM_True false this s =
          Fail Abort (mkState (<[c := set_mutex LockedExclusive cb]> (blocks s))
                              (handles s) (trace s)))).
Proof.
  intros Hh. split; [| split].
  - intros Hw. unfold RC.operator_star, RC.operator_index, RC.lock_access, RC.throw_or_abort.
    unfold_monad. rewrite Hh, Hw. destruct safety_checks_enabled; done.
  - intros Hw Hc.
    unfold RC.operator_star, RC.operator_index, RC.lock_access, RC.throw_or_abort.
    unfold_monad. rewrite Hh, Hw, Hc. destruct safety_checks_enabled; done.
  - intros c cb Hw Hc Hb Hm. split.
    + intros p Hp. unfold RC.operator_star, RC.operator_index, deref_locked.
      unfold_monad. rewrite Hh, Hw, Hc, Hb, Hp.
      destruct TM; [| done]. destruct (object_mutex_ cb); done.
    + intros Hp Hfree. split.
      * unfold RC.operator_arrow, get_ptr, RC.LockedProxy_new, try_catch_rethrow,
          catch_rethrow, RC.throw_or_abort.
        unfold_monad. rewrite Hh, Hw, Hc, Hb, Hp. simpl. rewrite Hb, Hfree. simpl.
        rewrite insert_insert_eq.
        replace (set_mutex (unlock LockedExclusive) cb) with cb
          by (destruct cb; simpl in *; subst; reflexivity).
        rewrite insert_id by assumption. destruct s; reflexivity.
      * unfold RC.operator_arrow, get_ptr, RC.LockedProxy_new, try_catch_rethrow,
          catch_rethrow, RC.throw_or_abort.
        unfold_monad. rewrite Hh, Hw, Hc, Hb, Hp. simpl. rewrite Hb, Hfree. simpl.
        reflexivity.
Qed.

(** X9: [swap] exchanges the two handles and nothing else: no control block
    and no counter is touched, the order of the operands does not matter,
    and a second swap gives the first state back. *)
Theorem swap_is_an_involution s a b x y :
  handles s !! a = Some x -> handles s !! b = Some y ->
  exists s1,
    swap a b s = Ok tt s1 /\ swap b a s = Ok tt s1 /\
    blocks s1 = blocks s /\ trace s1 = trace s /\
    handles s1 !! a = Some y /\ handles s1 !! b = Some x /\
    (forall k, k <> a -> k <> b -> handles s1 !! k = handles s !! k) /\
    swap a b s1 = Ok tt s.
Proof.
  intros Ha Hb.
  exists (mkState (blocks s) (<[b := x]> (<[a := y]> (handles s))) (trace s)).
  assert (Hxy : a = b -> x = y) by (intros ->; congruence).
  split; [| split; [| split; [| split; [| split; [| split; [| split]]]]]]; simpl.
  - unfold swap. unfold_monad. rewrite Ha, Hb. reflexivity.
  - unfold swap. unfold_monad. rewrite Hb. simpl. rewrite Ha. simpl. do 2 f_equal.
    destruct (decide (a = b)) as [-> | Hne].
    + rewrite (Hxy eq_refl). reflexivity.
    + apply insert_insert_ne. done.
  - reflexivity.
  - reflexivity.
  - destruct (decide (a = b)) as [-> | Hne].
    + rewrite lookup_insert_eq, (Hxy eq_refl). reflexivity.
    + rewrite lookup_insert_ne by done. apply lookup_insert_eq.
  - apply lookup_insert_eq.
  - intros k Hka Hkb. rewrite !lookup_insert_ne by done. reflexivity.
  - unfold swap. unfold_monad. simpl.
    destruct (decide (a = b)) as [-> | Hne].
    + rewrite lookup_insert_eq. simpl. rewrite lookup_insert_eq. simpl.
      rewrite !insert_insert_eq.
      rewrite insert_id by exact Ha. destruct s; reflexivity.
    + rewrite lookup_insert_ne, lookup_insert_eq by done. simpl.
      rewrite lookup_insert_eq. simpl.
      replace (<[b:=y]> (<[a:=x]> (<[b:=x]> (<[a:=y]> (handles s))))) with (handles s);
        [destruct s; reflexivity |].
      apply map_eq. intros k.
      destruct (decide (k = b)) as [-> | Hkb]; [rewrite lookup_insert_eq; exact Hb |].
      rewrite lookup_insert_ne by done.
      destruct (decide (k = a)) as [-> | Hka]; [rewrite lookup_insert_eq; exact Ha |].
      rewrite !lookup_insert_ne by done. reflexivity.
Qed.

Lemma set_count_set_count which v cb :
  set_count which (count_of which cb) (set_count which v cb) = cb.
Proof. destruct which, cb; reflexivity. Qed.

(** X10: a copy that is destroyed again leaves no mark: after the copy
    constructor and the destructor of the copy, the control blocks, their
    counters and the handles are what they were, and no object has been
    deleted. *)
Theorem copy_then_destroy_restores_counters s tmp o oh :
  accounted_state s -> Z.of_nat (size (handles s)) + 1 < 2 ^ 64 ->
  handles s !! tmp = None -> handles s !! o = Some oh ->
  exists s',
    (VSharedPtr_copy tmp o ;; VSharedPtr_delete tmp) s = Ok tt s' /\
    blocks s' = blocks s /\ handles s' = handles s /\
    trace s' = trace s ++
               match ctrl_ oh with
               | Some _ => [decrement_event (counter_of (is_weak_ oh))]
               | None => []
               end.
Proof.
  intros Hacc Hbound Ht Ho.
  assert (Hne : tmp <> o) by congruence.
  destruct (ctrl_ oh) as [c |] eqn:Hc.
  - destruct (acc_live _ _ Hacc o oh c Ho Hc) as [cb Hcb].
    pose proof (units_lookup c (handles s) o oh Ho Hc) as Hpos.
    pose proof (units_range c (is_weak_ oh) (handles s)) as Hr.
    pose proof (acc_count _ _ Hacc c cb (is_weak_ oh) Hcb) as Hcnt.
    unfold bind.
    rewrite (VSharedPtr_copy_run s tmp o oh c cb Ho Hc Hne Hcb
               (acc_intact _ _ Hacc c cb Hcb)).
    unfold RC.VSharedPtr_delete, RC.release, release_with. unfold bind at 1. unfold bind at 1.
    unfold load_handle. simpl. rewrite lookup_insert_eq, Hc.
    assert (Hsmall : wrap_size_t (count_of (counter_of (is_weak_ oh)) cb + 1) =
                     count_of (counter_of (is_weak_ oh)) cb + 1)
      by (apply wrap_size_t_small; lia).
    assert (Hback : wrap_size_t (count_of (counter_of (is_weak_ oh)) cb + 1 - 1) =
                    count_of (counter_of (is_weak_ oh)) cb)
      by (rewrite wrap_size_t_small by lia; lia).
    destruct (is_weak_ oh) eqn:Hw; simpl in Hsmall, Hback, Hcnt, Hpos; simpl.
    + erewrite release_weak_many_run;
        [| apply lookup_insert_eq | simpl; lia | simpl; lia].
      simpl. unfold free_handle. simpl. rewrite Hsmall, Hback.
      change (set_weak (gc_weak_count_ cb) (set_weak (gc_weak_count_ cb + 1) cb))
        with (set_count Weak (count_of Weak cb) (set_count Weak (gc_weak_count_ cb + 1) cb)).
      rewrite set_count_set_count.
      rewrite insert_insert_eq, insert_id by exact Hcb.
      rewrite delete_insert_eq, delete_id by exact Ht.
      eexists. split; [reflexivity |]. done.
    + fold (RC.release_strong TM members_of).
      erewrite release_strong_many_run;
        [| apply lookup_insert_eq | simpl; lia | simpl; lia].
      simpl. unfold free_handle. simpl. rewrite Hsmall, Hback.
      change (set_strong (gc_strong_count_ cb) (set_strong (gc_strong_count_ cb + 1) cb))
        with (set_count Strong (count_of Strong cb)
                (set_count Strong (gc_strong_count_ cb + 1) cb)).
      rewrite set_count_set_count.
      rewrite insert_insert_eq, insert_id by exact Hcb.
      rewrite delete_insert_eq, delete_id by exact Ht.
      eexists. split; [reflexivity |]. done.
  - unfold bind. rewrite (VSharedPtr_copy_null_run s tmp o oh Ho Hc Hne).
    unfold RC.VSharedPtr_delete, RC.release, release_with. unfold_monad. simpl.
    rewrite lookup_insert_eq, Hc. simpl.
    rewrite delete_insert_eq, delete_id by exact Ht.
    eexists. split; [reflexivity |]. simpl. rewrite app_nil_r. done.
Qed.

Lemma verify_integrity_fails s c cb :
  blocks s !! c = Some cb -> ~ intact cb ->
  exists msg, RC.verify_integrity true c s = Fail (MemorySafety msg) s.
Proof.
  intros Hc Hbad. unfold RC.verify_integrity. unfold_monad. rewrite Hc. simpl.
  destruct (Z.eqb_spec (magic_header_ cb) magic.alive) as [Hh | Hh]; simpl; [| eauto].
  destruct (Z.eqb_spec (magic_footer_ cb) magic.alive) as [Hf | Hf]; simpl; [| eauto].
  destruct (control_block_destroyed_ cb) eqn:Hd; [eauto |].
  destruct Hbad. done.
Qed.

(** X11: the integrity check and what follows when it fails.  An unchecked
    build never looks at the sentinels: a copy counts as usual.  In a
    checked build a control block with a damaged sentinel or with its
    destroyed flag set makes the copy constructor end the process (it is
    [noexcept]) with every counter unchanged, while [make_weak] and
    [weak] throw [MemorySafety].  [weak] has then released the unit of its
    handle but not reset the handle: it ends in the state that [release]
    alone leaves (the other handle being still there, that is, not a member
    of a payload that the release destroyed). *)
Theorem integrity_failure_paths s this o oh c cb :
  handles s !! this = None -> handles s !! o = Some oh -> ctrl_ oh = Some c ->
  blocks s !! c = Some cb -> ~ intact cb ->
  RC.VSharedPtr_copy false this o s =
    Ok tt (mkState
             (<[c := set_count (counter_of (is_weak_ oh))
                       (wrap_size_t (count_of (counter_of (is_weak_ oh)) cb + 1)) cb]>
                (blocks s))
             (<[this := oh]> (handles s)) (trace s)) /\
  (exists s1, RC.VSharedPtr_copy true this o s = Fail Terminate s1 /\
              blocks s1 = blocks s /\ trace s1 = trace s) /\
  (is_weak_ oh = false ->
   exists msg s1, RC.make_weak TM true members_of this o s = Fail (MemorySafety msg) s1 /\
                  handles s1 = handles s) /\
  (forall h v s1,
     h <> o -> handles s !! h = Some v -> is_weak_ oh = false ->
     release h s = Ok tt s1 -> blocks s1 !! c = Some cb ->
     handles s1 !! o = Some oh ->
     exists msg, RC.weak TM true members_of h o s = Fail (MemorySafety msg) s1).
Proof.
  intros Hthis Ho Hc Hb Hbad.
  assert (Hne : this <> o) by congruence.
  split; [| split; [| split]].
  - unfold RC.VSharedPtr_copy, noexcept, RC.add_weak, RC.add_strong, RC.add_count,
      RC.verify_integrity.
    unfold_monad. simpl. rewrite lookup_insert_ne by exact Hne. rewrite Ho, Hc.
    destruct oh as [oc ow]; simpl in *. subst oc.
    destruct ow; simpl; rewrite Hb; simpl; rewrite Hb; simpl;
      rewrite insert_insert_eq; reflexivity.
  - destruct (verify_integrity_fails
                (mkState (blocks s) (<[this := null_handle]> (handles s)) (trace s))
                c cb Hb Hbad) as [msg Hv].
    unfold RC.VSharedPtr_copy, noexcept, RC.add_weak, RC.add_strong, RC.add_count.
    unfold bind at 1. unfold store_handle at 1. unfold bind at 1. unfold load_handle.
    simpl. rewrite lookup_insert_ne by exact Hne. rewrite Ho, Hc.
    unfold bind at 1.
    destruct (is_weak_ oh); unfold bind at 1; rewrite Hv; simpl; eauto.
  - intros Hw.
    destruct (verify_integrity_fails
                (mkState (blocks s) (<[this := mkPtr (Some c) true]> (handles s)) (trace s))
                c cb Hb Hbad) as [msg Hv].
    unfold RC.make_weak, try_catch_rethrow, catch_rethrow, RC.add_weak, RC.add_count.
    unfold bind at 1. unfold load_handle. rewrite Ho, Hc, Hw.
    unfold bind at 1. unfold store_handle at 1.
    unfold bind at 1. rewrite Hv. simpl.
    unfold RC.VSharedPtr_delete, RC.release, release_with. unfold bind at 1. unfold bind at 1.
    unfold load_handle. simpl. rewrite lookup_insert_eq. simpl.
    destruct (RC.release_weak TM c _) as [[] s2 | e s2] eqn:Hrel.
    + unfold free_handle. exists msg. eexists. split; [reflexivity |]. simpl.
      assert (Hh2 : handles s2 = <[this := mkPtr (Some c) true]> (handles s)).
      { revert Hrel. unfold RC.release_weak, RC.fetch_sub_count, RC.fence, load_count,
          delete_this.
        unfold_monad. simpl. rewrite Hb. simpl.
        destruct (gc_weak_count_ cb =? 0); [intros [= <-]; reflexivity |].
        destruct (gc_weak_count_ cb =? 1); [| intros [= <-]; reflexivity].
        destruct TM; simpl; rewrite lookup_insert_eq; simpl;
          (destruct (gc_strong_count_ cb =? 0); simpl;
           [rewrite lookup_insert_eq; simpl |]); intros [= <-]; reflexivity. }
      rewrite Hh2, delete_insert_eq. apply delete_id, Hthis.
    + exfalso. revert Hrel. unfold RC.release_weak, RC.fetch_sub_count, RC.fence, load_count,
        delete_this.
      unfold_monad. simpl. rewrite Hb. simpl.
      destruct (gc_weak_count_ cb =? 0); [discriminate |].
      destruct (gc_weak_count_ cb =? 1); [| discriminate].
      destruct TM; simpl; rewrite lookup_insert_eq; simpl;
        (destruct (gc_strong_count_ cb =? 0); simpl;
         [rewrite lookup_insert_eq; simpl |]); discriminate.
  - intros h v s1 Hho Hh Hw Hrel Hb1 Ho1.
    destruct (verify_integrity_fails s1 c cb Hb1 Hbad) as [msg Hv]. exists msg.
    unfold RC.weak. destruct (Z.eqb_spec h o) as [-> | _]; [contradiction |].
    unfold bind at 1. rewrite Hrel. unfold bind at 1. unfold load_handle.
    rewrite Ho1, Hc, Hw. unfold bind at 1. unfold RC.add_weak, RC.add_count.
    unfold bind at 1. rewrite Hv. reflexivity.
Qed.

End RC_facts.

(** The layout of payloads that hold no handle. *)
Definition plain_layout : Z -> list Z := fun _ => [].

(** A strong handle at address 1 on a block at address 100 that manages the
    object at address 500. *)
Definition rc_one_strong : RC.State :=
  RC.mkState {[ 100 := RC.ControlBlock_new 500 false ]}
             {[ 1 := RC.mkPtr (Some 100) false ]} [].

Example run_make_weak_lock :
  (RC.make_weak RC.TM_True true plain_layout 2 1 ;; RC.lock true 3 2) rc_one_strong =
  Ok tt (RC.mkState
           {[ 100 := RC.mkCB 2 1 (Some 500) false false RC.Unlocked
                             RC.magic.alive RC.magic.alive false ]}
           (<[3 := RC.mkPtr (Some 100) false]>
              (<[2 := RC.mkPtr (Some 100) true]> {[ 1 := RC.mkPtr (Some 100) false ]}))
           []).
Proof. vm_compute. reflexivity. Qed.

(** C6 as stated fails: the view that [operator->] returns holds the mutex
    exclusively, not shared. *)
Lemma operator_arrow_lock_is_not_shared :
  exists v s' cb',
    RC.operator_arrow RC.TM_True true 1 rc_one_strong = Ok (RC.View v) s' /\
    RC.blocks s' !! 100 = Some cb' /\
    RC.object_mutex_ cb' = RC.LockedExclusive /\
    (forall n, RC.object_mutex_ cb' <> RC.LockedShared n).
Proof.
  eexists _, _, _. split; [vm_compute; reflexivity |].
  split; [vm_compute; reflexivity |]. split; [reflexivity | discriminate].
Qed.

(** After [make_weak]: a strong handle at 1 and a weak handle at 2. *)
Definition rc_strong_and_weak : RC.State :=
  RC.mkState
    {[ 100 := RC.mkCB 1 1 (Some 500) false false RC.Unlocked
                      RC.magic.alive RC.magic.alive false ]}
    (<[2 := RC.mkPtr (Some 100) true]> {[ 1 := RC.mkPtr (Some 100) false ]}) [].

(** After the strong handle has gone: the object is destroyed, the weak
    handle at 2 keeps the block. *)
Definition rc_expired_block : RC.ControlBlock :=
  RC.mkCB 0 1 None true false RC.Unlocked RC.magic.alive RC.magic.alive false.

Definition rc_expired : RC.State :=
  RC.mkState {[ 100 := rc_expired_block ]} {[ 2 := RC.mkPtr (Some 100) true ]} [].

Example run_expired_lock :
  (RC.VSharedPtr_delete RC.TM_True plain_layout 1 ;; RC.lock true 3 2) rc_strong_and_weak =
  Ok tt (RC.mkState {[ 100 := rc_expired_block ]}
           (<[3 := RC.null_handle]> {[ 2 := RC.mkPtr (Some 100) true ]})
           [RC.EvFetchSub RC.Strong RC.memory_order_release;
            RC.EvFence RC.memory_order_acquire;
            RC.EvLockExclusive 100; RC.EvDeleteObject 500 false; RC.EvUnlock 100;
            RC.EvLoadCount RC.Weak]).
Proof. vm_compute. reflexivity. Qed.

Lemma release_strong_of_plain_payload_witness :
  exists s',
    RC.release_strong RC.TM_True plain_layout 100 rc_one_strong = Ok tt s' /\
    RC.trace s' =
      [RC.EvFetchSub RC.Strong RC.memory_order_release;
       RC.EvFence RC.memory_order_acquire;
       RC.EvLockExclusive 100; RC.EvDeleteObject 500 false; RC.EvUnlock 100;
       RC.EvLoadCount RC.Weak;
       RC.EvFence RC.memory_order_acquire; RC.EvDeleteThis 100] /\
    RC.blocks s' !! 100 = None.
Proof.
  destruct (release_strong_of_plain_payload RC.TM_True plain_layout rc_one_strong 100
              (RC.ControlBlock_new 500 false) eq_refl (or_intror eq_refl)
              (fun _ _ => eq_refl))
    as (_ & _ & H).
  destruct (H eq_refl) as (s' & Hrun & Htr & Hdel & _).
  exists s'. split; [exact Hrun |]. split; [exact Htr |]. apply Hdel. reflexivity.
Defined.

Lemma release_at_zero_destroys_nothing_witness :
  RC.release_strong RC.TM_True plain_layout 100 rc_expired =
  Ok tt (RC.mkState (<[100 := RC.set_strong SIZE_MAX rc_expired_block]> (RC.blocks rc_expired))
           (RC.handles rc_expired)
           (RC.trace rc_expired ++ [RC.decrement_event RC.TM_True RC.Strong])).
Proof.
  exact (proj1 (release_at_zero_destroys_nothing RC.TM_True plain_layout rc_expired 100
                  rc_expired_block eq_refl) eq_refl).
Defined.


Lemma weak_handle_get_is_null_witness :
  RC.get 2 rc_strong_and_weak = Ok None rc_strong_and_weak /\
  RC.operator_eq_nullptr 2 rc_strong_and_weak = Ok true rc_strong_and_weak /\
  RC.operator_bool 2 rc_strong_and_weak = Ok true rc_strong_and_weak.
Proof.
  destruct (weak_handle_get_is_null rc_strong_and_weak 2 (RC.mkPtr (Some 100) true)
              eq_refl eq_refl) as (Hget & Heq & _ & _ & H).
  destruct (H 100 (RC.mkCB 1 1 (Some 500) false false RC.Unlocked
                           RC.magic.alive RC.magic.alive false) eq_refl eq_refl)
    as [_ Hbool].
  split; [exact Hget |]. split; [exact Heq | exact Hbool].
Defined.

Lemma operator_arrow_view_holds_exclusive_lock_witness :
  RC.operator_arrow RC.TM_True true 1 rc_one_strong =
  Ok (RC.View (RC.mkProxy (Some 500) (Some 100)))
     (RC.mkState
        (<[100 := RC.set_mutex RC.LockedExclusive (RC.ControlBlock_new 500 false)]>
           (RC.blocks rc_one_strong))
        (RC.handles rc_one_strong) (RC.trace rc_one_strong)).
Proof.
  destruct (operator_arrow_view_holds_exclusive_lock RC.TM_True true rc_one_strong 1
              (RC.mkPtr (Some 100) false) eq_refl) as (_ & _ & H).
  exact (proj1 (H 100 (RC.ControlBlock_new 500 false) 500
                  eq_refl eq_refl eq_refl eq_refl eq_refl)).
Defined.

Lemma rc_one_strong_accounted : accounted_state rc_one_strong.
Proof.
  split; simpl.
  - intros h v c Hh Hc. apply lookup_singleton_Some in Hh as [<- <-].
    injection Hc as <-. rewrite lookup_singleton_eq. eauto.
  - intros c cb w Hc. apply lookup_singleton_Some in Hc as [<- <-].
    destruct w; vm_compute; reflexivity.
  - intros c cb Hc. apply lookup_singleton_Some in Hc as [<- <-]. done.
  - intros c cb Hc. apply lookup_singleton_Some in Hc as [<- <-]. done.
Qed.


Lemma rc_one_strong_sound : sound_state rc_one_strong.
Proof.
  split; [exact rc_one_strong_accounted |].
  intros c cb Hc. simpl in Hc. apply lookup_singleton_Some in Hc as [<- <-].
  unfold block_ok. simpl. split; [left; lia |]. split; [eauto | lia].
Qed.


(** The handle at 1 takes over the object at 600, by [reset(ptr)] with the
    temporary at 2 and the new control block at 200. *)
Lemma operations_conserve_objects_witness :
  exists s',
    runs RC.TM_True true plain_layout rc_one_strong [op_reset_raw false 2 1 (Some 600) (Some 200)] s' /\
    deletions (RC.trace s') ++ managed (RC.blocks s') ≡ₚ [(600, false); (500, false)].
Proof.
  eexists. split.
  - eapply runs_cons; [| | left; vm_compute; reflexivity | apply runs_nil].
    + split; [reflexivity |]. split; [eexists; reflexivity | intros a [= <-]; reflexivity].
    + vm_compute. reflexivity.
  - eapply (fun s' H => proj2 (operations_conserve_objects RC.TM_True true plain_layout
                                 [op_reset_raw false 2 1 (Some 600) (Some 200)]
                                 rc_one_strong s' (fun _ => eq_refl)
                                 rc_one_strong_sound H)).
    eapply runs_cons; [| | left; vm_compute; reflexivity | apply runs_nil].
    + split; [reflexivity |]. split; [eexists; reflexivity | intros a [= <-]; reflexivity].
    + vm_compute. reflexivity.
Defined.

Lemma strong_handle_never_dangles_witness :
  RC.get 1 rc_one_strong = Ok (Some 500) rc_one_strong /\
  RC.operator_star RC.TM_True true 1 rc_one_strong = Ok 500 rc_one_strong.
Proof.
  destruct (strong_handle_never_dangles RC.TM_True true rc_one_strong 1
              (RC.mkPtr (Some 100) false) 100 rc_one_strong_sound eq_refl eq_refl)
    as (cb & Hcb & _ & _ & _ & _ & H).
  destruct (H eq_refl) as (p & Hp & _ & Hget & _ & _ & Hstar).
  assert (p = 500) as ->.
  { simpl in Hcb. apply lookup_singleton_Some in Hcb as [_ <-]. simpl in Hp. congruence. }
  split; assumption.
Defined.

Lemma rc_strong_and_weak_sound : sound_state rc_strong_and_weak.
Proof.
  split; [split |]; simpl.
  - intros h v c Hh Hc.
    apply lookup_insert_Some in Hh as [[<- <-] | [_ Hh]];
      [injection Hc as <-; rewrite lookup_singleton_eq; eauto |].
    apply lookup_singleton_Some in Hh as [<- <-].
    injection Hc as <-. rewrite lookup_singleton_eq. eauto.
  - intros c cb w Hc. apply lookup_singleton_Some in Hc as [<- <-].
    destruct w; vm_compute; reflexivity.
  - intros c cb Hc. apply lookup_singleton_Some in Hc as [<- <-]. done.
  - intros c cb Hc. apply lookup_singleton_Some in Hc as [<- <-]. done.
  - intros c cb Hc. apply lookup_singleton_Some in Hc as [<- <-].
    unfold block_ok. simpl. split; [left; lia |]. split; [eauto | lia].
Qed.

Lemma rc_strong_and_weak_handles l :
  l ≡ₚ [1; 2] -> forall h, h ∈ l <-> is_Some (RC.handles rc_strong_and_weak !! h).
Proof.
  intros Hl h. rewrite Hl. simpl. split.
  - intros Hin. apply elem_of_cons in Hin as [-> | Hin]; [eexists; reflexivity |].
    apply list_elem_of_singleton in Hin as ->. eexists; reflexivity.
  - intros [v Hv]. apply lookup_insert_Some in Hv as [[<- _] | [_ Hv]]; [set_solver |].
    apply lookup_singleton_Some in Hv as [<- _]. set_solver.
Qed.

(** The strong handle first, or the weak handle first. *)
Lemma destroying_all_handles_frees_everything_witness :
  (exists s',
     destroy_handles RC.TM_True plain_layout [1; 2] rc_strong_and_weak = Ok tt s' /\
     RC.handles s' = ∅ /\ RC.blocks s' = ∅ /\
     deletions (RC.trace s') ≡ₚ [(500, false)]) /\
  (exists s',
     destroy_handles RC.TM_True plain_layout [2; 1] rc_strong_and_weak = Ok tt s' /\
     RC.handles s' = ∅ /\ RC.blocks s' = ∅ /\
     deletions (RC.trace s') ≡ₚ [(500, false)]).
Proof.
  split.
  - apply (destroying_all_handles_frees_everything RC.TM_True plain_layout [1; 2]
             rc_strong_and_weak).
    + reflexivity.
    + exact rc_strong_and_weak_sound.
    + vm_compute. reflexivity.
    + apply NoDup_cons. split; [| apply NoDup_singleton].
      rewrite list_elem_of_singleton. discriminate.
    + apply rc_strong_and_weak_handles. reflexivity.
  - apply (destroying_all_handles_frees_everything RC.TM_True plain_layout [2; 1]
             rc_strong_and_weak).
    + reflexivity.
    + exact rc_strong_and_weak_sound.
    + vm_compute. reflexivity.
    + apply NoDup_cons. split; [| apply NoDup_singleton].
      rewrite list_elem_of_singleton. discriminate.
    + apply rc_strong_and_weak_handles. apply Permutation_swap.
Defined.

Lemma release_weak_reads_strong_before_delete_witness :
  exists s',
    RC.release_weak RC.TM_True 100 rc_expired = Ok tt s' /\
    RC.trace s' =
      [RC.EvFetchSub RC.Weak RC.memory_order_release; RC.EvFence RC.memory_order_acquire;
       RC.EvLoadCount RC.Strong;
       RC.EvFence RC.memory_order_acquire; RC.EvDeleteThis 100] /\
    RC.blocks s' !! 100 = None.
Proof.
  destruct (release_weak_reads_strong_before_delete RC.TM_True rc_expired 100
              rc_expired_block eq_refl) as (_ & H & _).
  destruct (H eq_refl) as (s' & Hrun & Htr & Hdel & _).
  exists s'. split; [exact Hrun |]. split; [exact Htr |]. apply Hdel. reflexivity.
Defined.

Lemma raw_construction_fails_cleanly_witness :
  RC.reset_raw RC.TM_True plain_layout false 3 1 (Some 600) None rc_one_strong =
  Fail RC.bad_alloc
    (RC.mkState (RC.blocks rc_one_strong) (RC.handles rc_one_strong)
                (RC.trace rc_one_strong ++ [RC.EvDeleteObject 600 false])).
Proof.
  destruct (raw_construction_fails_cleanly RC.TM_True plain_layout false rc_one_strong 2 3
              600 None eq_refl eq_refl eq_refl) as (_ & _ & _ & H).
  exact (H 1).
Defined.

Lemma view_shuts_out_other_access_witness :
  exists v s1,
    RC.operator_arrow RC.TM_True true 1 rc_one_strong = Ok (RC.View v) s1 /\
    RC.operator_star RC.TM_True true 1 s1 = Fail RC.Blocked s1 /\
    (exists s2, RC.release_strong RC.TM_True plain_layout 100 s1 = Fail RC.Blocked s2).
Proof.
  destruct (view_shuts_out_other_access true plain_layout rc_one_strong 1
              (RC.mkPtr (Some 100) false)
              100 (RC.ControlBlock_new 500 false) 500
              eq_refl eq_refl eq_refl eq_refl eq_refl eq_refl)
    as (v & s1 & Hrun & _ & Hother & Hlast & _).
  exists v, s1. split; [exact Hrun |]. split.
  - destruct (Hother 1 (RC.mkPtr (Some 100) false) 0 eq_refl eq_refl eq_refl)
      as (_ & _ & Hstar & _). exact Hstar.
  - destruct (Hlast eq_refl eq_refl) as (s2 & Hrel & _). eauto.
Defined.

Lemma star_and_index_leave_no_lock_witness :
  RC.operator_star RC.TM_True true 2 rc_strong_and_weak =
    Fail (RC.MemorySafety "operator*: cannot dereference weak pointer") rc_strong_and_weak /\
  RC.operator_index RC.TM_True true 1 7 rc_strong_and_weak = Ok (500, 7) rc_strong_and_weak.
Proof.
  split.
  - destruct (star_and_index_leave_no_lock RC.TM_True true rc_strong_and_weak 2
                (RC.mkPtr (Some 100) true) 7 eq_refl) as (H & _ & _).
    exact (proj1 (H eq_refl)).
  - destruct (star_and_index_leave_no_lock RC.TM_True true rc_strong_and_weak 1
                (RC.mkPtr (Some 100) false) 7 eq_refl) as (_ & _ & H).
    destruct (H 100 (RC.mkCB 1 1 (Some 500) false false RC.Unlocked
                             RC.magic.alive RC.magic.alive false)
                eq_refl eq_refl eq_refl ltac:(discriminate)) as [Hp _].
    exact (proj2 (Hp 500 eq_refl)).
Defined.

Lemma swap_is_an_involution_witness :
  exists s1,
    RC.swap 1 2 rc_strong_and_weak = Ok tt s1 /\
    RC.handles s1 !! 1 = Some (RC.mkPtr (Some 100) true) /\
    RC.swap 1 2 s1 = Ok tt rc_strong_and_weak.
Proof.
  destruct (swap_is_an_involution rc_strong_and_weak 1 2
              (RC.mkPtr (Some 100) false) (RC.mkPtr (Some 100) true) eq_refl eq_refl)
    as (s1 & Hrun & _ & _ & _ & Ha & _ & _ & Hback).
  exists s1. split; [exact Hrun |]. split; [exact Ha | exact Hback].
Defined.

Lemma copy_then_destroy_restores_counters_witness :
  exists s',
    (RC.VSharedPtr_copy true 2 1 ;; RC.VSharedPtr_delete RC.TM_True plain_layout 2) rc_one_strong =
    Ok tt s' /\
    RC.blocks s' = RC.blocks rc_one_strong /\ RC.handles s' = RC.handles rc_one_strong.
Proof.
  destruct (copy_then_destroy_restores_counters RC.TM_True true plain_layout rc_one_strong 2 1
              (RC.mkPtr (Some 100) false) rc_one_strong_accounted)
    as (s' & Hrun & Hb & Hh & _).
  - vm_compute. reflexivity.
  - reflexivity.
  - reflexivity.
  - exists s'. split; [exact Hrun |]. split; assumption.
Defined.

(** A block whose header sentinel has been overwritten. *)
Definition rc_corrupted_block : RC.ControlBlock :=
  RC.mkCB 1 0 (Some 500) false false RC.Unlocked 0 RC.magic.alive false.

Definition rc_corrupted : RC.State :=
  RC.mkState {[ 100 := rc_corrupted_block ]} {[ 1 := RC.mkPtr (Some 100) false ]} [].

Lemma integrity_failure_paths_witness :
  (exists s1, RC.VSharedPtr_copy true 2 1 rc_corrupted = Fail RC.Terminate s1 /\
              RC.blocks s1 = RC.blocks rc_corrupted) /\
  (exists msg s1, RC.make_weak RC.TM_True true plain_layout 2 1 rc_corrupted =
                  Fail (RC.MemorySafety msg) s1).
Proof.
  destruct (integrity_failure_paths RC.TM_True plain_layout rc_corrupted 2 1
              (RC.mkPtr (Some 100) false)
              100 rc_corrupted_block eq_refl eq_refl eq_refl eq_refl)
    as (_ & Hcopy & Hweak & _).
  - intros (Hh & _). vm_compute in Hh. discriminate.
  - split.
    + destruct Hcopy as (s1 & Hrun & Hb & _). eauto.
    + destruct (Hweak eq_refl) as (msg & s1 & Hrun & _). eauto.
Defined.

(** ** Payloads that hold handles

    [Node] of the tests has a member [prev] of type [VSharedPtr<Node>]; it
    is taken to lie 32 bytes into the node, behind the member [next]. *)
Definition node_layout : Z -> list Z := fun p => [p + 32].

(** [auto n = VMakeShared<Node>(); WEAK_ASSIGN(n, prev, n);]: the node is at
    500 with its member [prev] at 532, its control block at 100, the handle
    [n] at 1.  [n] is the only strong handle on the block and [n->prev] the
    only weak one. *)
Definition rc_self_weak : RC.State :=
  RC.mkState
    {[ 100 := RC.mkCB 1 1 (Some 500) false false RC.Unlocked
                      RC.magic.alive RC.magic.alive false ]}
    (<[532 := RC.mkPtr (Some 100) true]> {[ 1 := RC.mkPtr (Some 100) false ]}) [].

Example run_weak_assign_self :
  (RC.VSharedPtr_default 532 ;;
   RC.VMakeShared RC.TM_True node_layout false 1 500 (Some 100) ;;
   do view <- RC.operator_arrow RC.TM_True true 1;
   RC.weak RC.TM_True true node_layout 532 1 ;;
   match view with
   | RC.View v => RC.LockedProxy_delete v
   | RC.Raw _ => ret tt
   end) (RC.mkState ∅ ∅ []) =
  Ok tt rc_self_weak.
Proof. vm_compute. reflexivity. Qed.

(** C3 fails on this input, in both thread modes.  The last strong release
    of the block at 100 deletes the node, whose destructor destroys
    [n->prev]: the last weak release finds the strong counter at 0 and
    deletes the control block.  [release_strong] has not yet read the weak
    counter at that point (the trace has [EvDeleteThis 100] and no
    [EvLoadCount Weak]), and what it does next, unlocking the mutex of the
    block and reading its weak counter, it does on freed storage. *)
Theorem release_strong_deletes_block_before_weak_read :
  RC.release_strong RC.TM_True node_layout 100 rc_self_weak =
    Fail RC.Undefined
      (RC.mkState ∅ {[ 1 := RC.mkPtr (Some 100) false ]}
         [RC.EvFetchSub RC.Strong RC.memory_order_release;
          RC.EvFence RC.memory_order_acquire;
          RC.EvLockExclusive 100; RC.EvDeleteObject 500 false;
          RC.EvFetchSub RC.Weak RC.memory_order_release;
          RC.EvFence RC.memory_order_acquire;
          RC.EvLoadCount RC.Strong;
          RC.EvFence RC.memory_order_acquire; RC.EvDeleteThis 100]) /\
  RC.release_strong RC.TM_False node_layout 100 rc_self_weak =
    Fail RC.Undefined
      (RC.mkState ∅ {[ 1 := RC.mkPtr (Some 100) false ]}
         [RC.EvPostDecrement RC.Strong;
          RC.EvLockExclusive 100; RC.EvDeleteObject 500 false;
          RC.EvPostDecrement RC.Weak;
          RC.EvLoadCount RC.Strong; RC.EvDeleteThis 100]).
Proof. split; vm_compute; reflexivity. Qed.

Lemma last_strong_release_with_weak_member_witness :
  RC.release_strong RC.TM_False node_layout 100 rc_self_weak =
  Fail RC.Undefined
    (RC.mkState ∅ {[ 1 := RC.mkPtr (Some 100) false ]}
       [RC.EvPostDecrement RC.Strong;
        RC.EvLockExclusive 100; RC.EvDeleteObject 500 false;
        RC.EvPostDecrement RC.Weak; RC.EvLoadCount RC.Strong;
        RC.EvDeleteThis 100]).
Proof.
  exact (last_strong_release_with_weak_member RC.TM_False node_layout
           rc_self_weak 100
           (RC.mkCB 1 1 (Some 500) false false RC.Unlocked
                    RC.magic.alive RC.magic.alive false)
           500 532 eq_refl eq_refl eq_refl eq_refl eq_refl eq_refl eq_refl eq_refl).
Defined.

(** Two nodes: [a] at 500 (control block 100) owns [b] at 600 (control
    block 200) through [a->prev], and [b->prev] is the weak pointer back to
    [a].  The handle at 1 is the only one outside the nodes. *)
Definition rc_family : RC.State :=
  RC.mkState
    (<[200 := RC.mkCB 1 0 (Some 600) false false RC.Unlocked
                      RC.magic.alive RC.magic.alive false]>
       {[ 100 := RC.mkCB 1 1 (Some 500) false false RC.Unlocked
                         RC.magic.alive RC.magic.alive false ]})
    (<[632 := RC.mkPtr (Some 100) true]>
       (<[532 := RC.mkPtr (Some 200) false]> {[ 1 := RC.mkPtr (Some 100) false ]})) [].

Example run_family :
  (RC.VSharedPtr_default 532 ;;
   RC.VMakeShared RC.TM_True node_layout false 1 500 (Some 100) ;;
   RC.VSharedPtr_default 632 ;;
   RC.VMakeShared RC.TM_True node_layout false 2 600 (Some 200) ;;
   RC.assign_move RC.TM_True node_layout 532 2 ;;
   RC.weak RC.TM_True true node_layout 632 1 ;;
   RC.VSharedPtr_delete RC.TM_True node_layout 2) (RC.mkState ∅ ∅ []) =
  Ok tt rc_family.
Proof. vm_compute. reflexivity. Qed.

Lemma rc_family_accounted : accounted_state rc_family.
Proof.
  split; simpl.
  - intros h v c Hh Hc.
    repeat (apply lookup_insert_Some in Hh as [[<- <-] | [_ Hh]];
            [injection Hc as <-; vm_compute; eauto |]).
    apply lookup_singleton_Some in Hh as [<- <-].
    injection Hc as <-. vm_compute. eauto.
  - intros c cb w Hc.
    apply lookup_insert_Some in Hc as [[<- <-] | [_ Hc]];
      [destruct w; vm_compute; reflexivity |].
    apply lookup_singleton_Some in Hc as [<- <-]. destruct w; vm_compute; reflexivity.
  - intros c cb Hc.
    apply lookup_insert_Some in Hc as [[<- <-] | [_ Hc]]; [done |].
    apply lookup_singleton_Some in Hc as [<- <-]. done.
  - intros c cb Hc.
    apply lookup_insert_Some in Hc as [[<- <-] | [_ Hc]]; [done |].
    apply lookup_singleton_Some in Hc as [<- <-]. done.
Qed.

(** C7 fails on this input.  Every handle holds its unit, and the handle at
    1 is live; its destructor does not end in a state of that kind.  The
    release destroys [a], the destructor of [a->prev] destroys [b], and the
    destructor of [b->prev] gives back the last unit of the block at 100,
    which is deleted while [destroy_object] of that very block is at work:
    the run ends on freed storage, with the handle at 1 not yet gone. *)
Theorem last_strong_handle_frees_block_in_use :
  accounted_state rc_family /\
  well_formed_operation (op_delete 1) rc_family /\
  run_operation RC.TM_True true node_layout (op_delete 1) rc_family =
    Fail RC.Undefined
      (RC.mkState ∅ {[ 1 := RC.mkPtr (Some 100) false ]}
         [RC.EvFetchSub RC.Strong RC.memory_order_release;
          RC.EvFence RC.memory_order_acquire;
          RC.EvLockExclusive 100; RC.EvDeleteObject 500 false;
          RC.EvFetchSub RC.Strong RC.memory_order_release;
          RC.EvFence RC.memory_order_acquire;
          RC.EvLockExclusive 200; RC.EvDeleteObject 600 false;
          RC.EvFetchSub RC.Weak RC.memory_order_release;
          RC.EvFence RC.memory_order_acquire;
          RC.EvLoadCount RC.Strong;
          RC.EvFence RC.memory_order_acquire; RC.EvDeleteThis 100;
          RC.EvUnlock 200;
          RC.EvLoadCount RC.Weak;
          RC.EvFence RC.memory_order_acquire; RC.EvDeleteThis 200]).
Proof.
  split; [exact rc_family_accounted |].
  split; [eexists; reflexivity |]. vm_compute. reflexivity.
Qed.

(** A node at 600 that was never given to a control block, while its member
    [prev], at 632, is a weak handle on the block at 100.  When the control
    block for it cannot be allocated, [VSharedPtr(ptr)] deletes the node,
    and the destructor of [prev] gives its unit back: the weak counter of
    the block at 100 goes from 1 to 0. *)
Example run_failed_construction_releases_member :
  RC.VSharedPtr_from_raw RC.TM_True node_layout false 9 (Some 600) None
    (RC.mkState
       {[ 100 := RC.mkCB 1 1 (Some 500) false false RC.Unlocked
                         RC.magic.alive RC.magic.alive false ]}
       (<[632 := RC.mkPtr (Some 100) true]>
          (<[532 := RC.null_handle]> {[ 1 := RC.mkPtr (Some 100) false ]})) []) =
  Fail RC.bad_alloc
    (RC.mkState
       {[ 100 := RC.mkCB 1 0 (Some 500) false false RC.Unlocked
                         RC.magic.alive RC.magic.alive false ]}
       (<[532 := RC.null_handle]> {[ 1 := RC.mkPtr (Some 100) false ]})
       [RC.EvDeleteObject 600 false;
        RC.EvFetchSub RC.Weak RC.memory_order_release;
        RC.EvFence RC.memory_order_acquire;
        RC.EvLoadCount RC.Strong]).
Proof. vm_compute. reflexivity. Qed.

(** A list of two nodes: the handle at 1 owns the node at 500 (control
    block 100), whose member [prev] at 532 owns the node at 600 (control
    block 200); the member [prev] of that one, at 632, is null. *)
Definition rc_list : RC.State :=
  RC.mkState
    (<[200 := RC.ControlBlock_new 600 false]> {[ 100 := RC.ControlBlock_new 500 false ]})
    (<[632 := RC.null_handle]>
       (<[532 := RC.mkPtr (Some 200) false]> {[ 1 := RC.mkPtr (Some 100) false ]})) [].

Example run_list :
  (RC.VSharedPtr_default 532 ;;
   RC.VMakeShared RC.TM_True node_layout false 1 500 (Some 100) ;;
   RC.VSharedPtr_default 632 ;;
   RC.VMakeShared RC.TM_True node_layout false 2 600 (Some 200) ;;
   RC.assign_move RC.TM_True node_layout 532 2 ;;
   RC.VSharedPtr_delete RC.TM_True node_layout 2) (RC.mkState ∅ ∅ []) =
  Ok tt rc_list.
Proof. vm_compute. reflexivity. Qed.

Example run_list_destroyed :
  RC.VSharedPtr_delete RC.TM_True node_layout 1 rc_list =
  Ok tt (RC.mkState ∅ ∅
           [RC.EvFetchSub RC.Strong RC.memory_order_release;
            RC.EvFence RC.memory_order_acquire;
            RC.EvLockExclusive 100; RC.EvDeleteObject 500 false;
            RC.EvFetchSub RC.Strong RC.memory_order_release;
            RC.EvFence RC.memory_order_acquire;
            RC.EvLockExclusive 200; RC.EvDeleteObject 600 false;
            RC.EvUnlock 200; RC.EvLoadCount RC.Weak;
            RC.EvFence RC.memory_order_acquire; RC.EvDeleteThis 200;
            RC.EvUnlock 100; RC.EvLoadCount RC.Weak;
            RC.EvFence RC.memory_order_acquire; RC.EvDeleteThis 100]).
Proof. vm_compute. reflexivity. Qed.

Lemma owned_list_is_destroyed_from_the_head_witness :
  RC.VSharedPtr_delete RC.TM_True node_layout 1 rc_list =
  Ok tt (RC.mkState
           (foldr delete (RC.blocks rc_list) [100; 200])
           (delete 1 (foldr delete (RC.handles rc_list) [532; 632]))
           (RC.trace rc_list ++
            chain_trace RC.TM_True [mkNode 100 500 532; mkNode 200 600 632])).
Proof.
  refine (proj1 (owned_list_is_destroyed_from_the_head RC.TM_True node_layout
                   [mkNode 100 500 532; mkNode 200 600 632] rc_list 1 _ _)).
  - simpl. split; [reflexivity |].
    split; [eexists; split; [reflexivity | repeat split] |].
    split; [reflexivity |]. split; [reflexivity |].
    split; [eexists; split; [reflexivity | repeat split] |].
    split; reflexivity.
  - simpl. apply NoDup_cons. split; [| apply NoDup_singleton].
    rewrite list_elem_of_singleton. discriminate.
Defined.

(** * Properties of the tracing collector *)

Section TC_facts.
Import TC.

Ltac unfold_tc :=
  unfold bind, ret, throw, get_state, modify, emit, load_obj, store_obj,
    load_ptr, store_ptr, lift in *.

(** *** Moves between ROOT handles *)


(** *** Allocation and the countdown *)

(** What the constructors do once the countdown has been dealt with: register
    the header, then build the payload with the hint set. *)
Definition commit_single (sizeof_T : Z) (ctor : Z -> M unit) (this mem : Z) : M unit :=
  register_object this mem (mem + sizeof_gc_object + sizeof_T) destroy_single ;;
  do s <- get_state;
  let parent := current s in
  modify (set_current (Some mem)) ;;
  store_display this (Some (start mem)) ;;
  catch_rethrow is_exception (ctor (start mem))
                (constructor_failed this mem parent) ;;
  modify (set_current parent).

Definition commit_array (sizeof_T : Z) (ctor : Z -> M unit) (this mem : Z)
    (size : nat) : M unit :=
  register_object this mem (mem + sizeof_gc_object + Z.of_nat size * sizeof_T)
                  (destroy_reverse sizeof_T) ;;
  do s <- get_state;
  let parent := current s in
  modify (set_current (Some mem)) ;;
  store_display this (Some (start mem)) ;;
  construct_elements ctor (elements (start mem) sizeof_T size) []
                     (constructor_failed this mem parent) ;;
  modify (set_current parent).

(** The fields that the last two phases of a collection leave alone. *)
Definition same_registry (s s' : State) : Prop :=
  all_objects s' = all_objects s /\ gc_counter s' = gc_counter s /\
  current s' = current s.

Lemma same_registry_refl s : same_registry s s.
Proof. done. Qed.

Lemma same_registry_trans s1 s2 s3 :
  same_registry s1 s2 -> same_registry s2 s3 -> same_registry s1 s3.
Proof. unfold same_registry. intros (? & ? & ?) (? & ? & ?). repeat split; congruence. Qed.

Lemma for_each_same_registry {A} (f : A -> M unit) l :
  (forall x s s', f x s = Ok tt s' -> same_registry s s') ->
  forall s s', for_each l f s = Ok tt s' -> same_registry s s'.
Proof.
  intros Hf. induction l as [| x l IH]; intros s s' Hrun; simpl in Hrun.
  - injection Hrun as <-. apply same_registry_refl.
  - unfold bind in Hrun. destruct (f x s) as [[] s1 | e s1] eqn:Hx; [| discriminate].
    eapply same_registry_trans; [apply (Hf x s s1 Hx) | apply (IH s1 s' Hrun)].
Qed.

Lemma gc_object_delete_same_registry o s s' :
  gc_object_delete o s = Ok tt s' -> same_registry s s'.
Proof.
  unfold gc_object_delete. unfold_tc. destruct (objs s !! o); [| discriminate].
  intros [= <-]. done.
Qed.

Lemma operator_delete_same_registry o s s' :
  operator_delete o s = Ok tt s' -> same_registry s s'.
Proof.
  unfold operator_delete. unfold_tc. destruct (objs s !! o); [| discriminate].
  intros [= <-]. done.
Qed.

(** A collection of a registry that is not empty sets the countdown to
    [max(2 * live, 1024)]; of an empty registry, it returns at once. *)
Lemma gc_collect_recalibrates s s' :
  gc_collect s = Ok tt s' ->
  (all_objects s = [] -> s' = s) /\
  (all_objects s <> [] ->
   gc_counter s' = Z.max (Z.of_nat (length (all_objects s')) * 2) 1024).
Proof.
  unfold gc_collect. unfold bind at 1. unfold get_state.
  case_bool_decide as Hnil.
  - intros [= <-]. split; [reflexivity | contradiction].
  - intros Hrun. split; [contradiction | intros _].
    unfold bind at 1 in Hrun. unfold lift at 1 in Hrun.
    destruct (phase1 _ _ _ _) as [e | seeded]; [discriminate |].
    unfold bind at 1 in Hrun. unfold lift at 1 in Hrun.
    destruct (phase2 _ _ _ _) as [e | marked]; [discriminate |].
    unfold bind at 1 in Hrun. unfold lift at 1 in Hrun.
    destruct (partition_marked _ _) as [e | parts]; [discriminate |].
    unfold bind at 1 2 3 in Hrun. unfold modify at 1 2 3 in Hrun.
    unfold bind in Hrun.
    match type of Hrun with
    | match for_each ?l ?f ?s0 with _ => _ end = _ =>
        destruct (for_each l f s0) as [[] s1 | e s1] eqn:H4; [| discriminate];
        apply (for_each_same_registry _ _ gc_object_delete_same_registry) in H4
    end.
    apply (for_each_same_registry _ _ operator_delete_same_registry) in Hrun.
    destruct H4 as (Ha1 & Hc1 & _), Hrun as (Ha2 & Hc2 & _).
    rewrite Hc2, Hc1, Ha2, Ha1. reflexivity.
Qed.

Lemma register_object_appends this mem e d s s' :
  register_object this mem e d s = Ok tt s' ->
  all_objects s' = all_objects s ++ [mem] /\ gc_counter s' = gc_counter s.
Proof.
  unfold register_object. unfold_tc. simpl.
  destruct (ptrs s !! this) as [p |]; [| discriminate]. simpl.
  destruct (type p); intros [= <-]; done.
Qed.

Lemma Ptr_default_run this s :
  Ptr_default this s =
  match current s with
  | None => Ok tt (set_ptrs (insert this (mkPtr ROOT None None None)) s)
  | Some cur =>
      match objs s !! cur with
      | None => Fail Undefined s
      | Some cob =>
          if (start cur <=? this) && (this <? end_ cob)
          then Ok tt (set_objs (insert cur (set_first (Some this) cob))
                        (set_ptrs (insert this (mkPtr GC_HEAP (first cob) None None)) s))
          else Ok tt (set_ptrs (insert this (mkPtr ROOT None None None)) s)
      end
  end.
Proof.
  unfold Ptr_default, gc_base_ptr_new, classify, link_heap_ptr.
  cbv [bind ret throw get_state modify load_obj store_obj store_ptr].
  destruct (current s) as [cur |] eqn:Hcur; [| reflexivity].
  destruct (objs s !! cur) as [cob |] eqn:Hcob; [| reflexivity].
  destruct (_ && _); [| reflexivity].
  rewrite Hcur. simpl. rewrite ?Hcob. reflexivity.
Qed.

(** C5, as the code has it: an allocation lowers the countdown by one.  A
    collection runs exactly when the lowered countdown is negative, that is,
    when the countdown was zero or less before; it runs on the state with
    the lowered countdown and before the new header is registered
    ([commit_single] and [commit_array] start with the registration).  The
    collection sets the countdown to [max(2 * live, 1024)] unless the
    registry is empty, in which case it changes nothing. *)
Theorem allocation_countdown sizeof_T ctor this mem size s s0 :
  Ptr_default this s = Ok tt s0 ->
  - 2 ^ 63 < gc_counter s0 < 2 ^ 63 ->
  let s1 := set_gc_counter (gc_counter s0 - 1) s0 in
  gc_counter s0 = gc_counter s /\
  New_single sizeof_T ctor this mem s =
    (if gc_counter s0 - 1 <? 0
     then (gc_collect ;; commit_single sizeof_T ctor this mem) s1
     else commit_single sizeof_T ctor this mem s1) /\
  New_array sizeof_T ctor this mem size s =
    (if gc_counter s0 - 1 <? 0
     then (gc_collect ;; commit_array sizeof_T ctor this mem size) s1
     else commit_array sizeof_T ctor this mem size s1) /\
  (forall s2, gc_collect s1 = Ok tt s2 ->
     (all_objects s1 = [] -> s2 = s1) /\
     (all_objects s1 <> [] ->
      gc_counter s2 = Z.max (Z.of_nat (length (all_objects s2)) * 2) 1024)) /\
  (forall sa sb e d, register_object this mem e d sa = Ok tt sb ->
     all_objects sb = all_objects sa ++ [mem] /\ gc_counter sb = gc_counter sa).
Proof.
  intros Hdef Hrange s1. split; [| split; [| split; [| split]]].
  - rewrite Ptr_default_run in Hdef.
    destruct (current s) as [cur |]; [destruct (objs s !! cur) as [cob |] |];
      [destruct (_ && _) | |]; try discriminate; injection Hdef as <-; reflexivity.
  - unfold New_single. unfold bind at 1. rewrite Hdef.
    unfold bind at 1. unfold fetch_sub_gc_counter. unfold_tc. simpl.
    rewrite wrap_long_small by lia. fold s1.
    destruct (gc_counter s0 <=? 0); simpl;
      destruct (gc_counter s0 - 1 <? 0); reflexivity.
  - unfold New_array. unfold bind at 1. rewrite Hdef.
    unfold bind at 1. unfold fetch_sub_gc_counter. unfold_tc. simpl.
    rewrite wrap_long_small by lia. fold s1.
    destruct (Z.leb_spec (gc_counter s0) 0); destruct (Z.ltb_spec (gc_counter s0 - 1) 0);
      try lia; reflexivity.
  - intros s2. apply gc_collect_recalibrates.
  - intros sa sb e d. apply register_object_appends.
Qed.

(** *** A constructor that throws *)

(** [New<T[]>::New] up to the loop over the elements; the answer is the hint
    that was saved. *)
Definition allocate_array (sizeof_T : Z) (this mem : Z) (size : nat) : M (option Z) :=
  Ptr_default this ;;
  do old <- fetch_sub_gc_counter;
  (if old <=? 0 then gc_collect else ret tt) ;;
  register_object this mem (mem + sizeof_gc_object + Z.of_nat size * sizeof_T)
                  (destroy_reverse sizeof_T) ;;
  do s <- get_state;
  let parent := current s in
  modify (set_current (Some mem)) ;;
  store_display this (Some (start mem)) ;;
  ret parent.

Lemma New_array_allocate sizeof_T ctor this mem size s :
  New_array sizeof_T ctor this mem size s =
  (do parent <- allocate_array sizeof_T this mem size;
   construct_elements ctor (elements (start mem) sizeof_T size) []
                      (constructor_failed this mem parent) ;;
   modify (set_current parent)) s.
Proof.
  unfold New_array, allocate_array. unfold bind.
  destruct (Ptr_default this s) as [[] s0 | e s0]; [| reflexivity].
  destruct (fetch_sub_gc_counter s0) as [old sa | e sa]; [| reflexivity].
  destruct ((if old <=? 0 then gc_collect else ret ()) sa) as [[] sb | e sb]; [| reflexivity].
  destruct (register_object _ _ _ _ sb) as [[] sc | e sc]; [| reflexivity].
  unfold get_state.
  destruct (modify (set_current (Some mem)) sc) as [[] sd | e sd]; [| reflexivity].
  destruct (store_display this (Some (start mem)) sd) as [[] se | e se]; reflexivity.
Qed.

Lemma construct_elements_fails ctor failed prefix :
  forall done a rest s1 s2 s3,
    for_each prefix ctor s1 = Ok tt s2 ->
    ctor a s2 = Fail constructor_exception s3 ->
    construct_elements ctor (prefix ++ a :: rest) done failed s1 =
    match (emit (map EvDestroy (done ++ prefix)) ;; failed) s3 with
    | Ok _ s4 => Fail constructor_exception s4
    | Fail e s4 => Fail e s4
    end.
Proof.
  induction prefix as [| x prefix IH]; intros done a rest s1 s2 s3 Hpre Hthrow; simpl in *.
  - injection Hpre as <-. rewrite app_nil_r.
    unfold bind at 1. unfold catch_rethrow. rewrite Hthrow. simpl.
    destruct ((emit (map EvDestroy done) ;; failed) s3); reflexivity.
  - unfold bind in Hpre. destruct (ctor x s1) as [[] sx | e sx] eqn:Hx; [| discriminate].
    unfold bind at 1. unfold catch_rethrow. rewrite Hx.
    rewrite (IH (done ++ [x]) a rest sx s2 s3 Hpre Hthrow).
    rewrite <- app_assoc. reflexivity.
Qed.

Lemma constructor_failed_run this mem parent s p ob :
  ptrs s !! this = Some p -> objs s !! mem = Some ob ->
  constructor_failed this mem parent s =
  Ok tt (mkState
           (match type p with
            | ROOT => <[mem := set_root_ref_cnt (wrap_int (root_ref_cnt ob - 1)) ob]> (objs s)
            | GC_HEAP => objs s
            end)
           (<[this := set_ptr None (set_object None p)]> (ptrs s))
           (all_objects s) (gc_counter s) parent (trace s)).
Proof.
  intros Hp Hob. unfold constructor_failed, dec_root.
  cbv [bind ret modify load_ptr load_obj store_obj store_ptr].
  rewrite Hp. destruct (type p); simpl; rewrite ?Hob; reflexivity.
Qed.

Lemma gc_collect_same_hint s s' :
  gc_collect s = Ok tt s' -> current s' = current s.
Proof.
  unfold gc_collect. unfold bind at 1. unfold get_state.
  case_bool_decide as Hnil.
  - intros [= <-]. done.
  - intros Hrun.
    unfold bind at 1 in Hrun. unfold lift at 1 in Hrun.
    destruct (phase1 _ _ _ _) as [e | seeded]; [discriminate |].
    unfold bind at 1 in Hrun. unfold lift at 1 in Hrun.
    destruct (phase2 _ _ _ _) as [e | marked]; [discriminate |].
    unfold bind at 1 in Hrun. unfold lift at 1 in Hrun.
    destruct (partition_marked _ _) as [e | parts]; [discriminate |].
    unfold bind at 1 2 3 in Hrun. unfold modify at 1 2 3 in Hrun.
    unfold bind in Hrun.
    match type of Hrun with
    | match for_each ?l ?f ?s0 with _ => _ end = _ =>
        destruct (for_each l f s0) as [[] s1 | e s1] eqn:H4; [| discriminate];
        apply (for_each_same_registry _ _ gc_object_delete_same_registry) in H4
    end.
    apply (for_each_same_registry _ _ operator_delete_same_registry) in Hrun.
    destruct H4 as (_ & _ & Hc1), Hrun as (_ & _ & Hc2).
    rewrite Hc2, Hc1. done.
Qed.

Lemma bind_Ok_inv {S E A B} (m : computation S E A) (k : A -> computation S E B) s b s' :
  bind m k s = Ok b s' -> exists a s1, m s = Ok a s1 /\ k a s1 = Ok b s'.
Proof. unfold bind. destruct (m s) as [a s1 | e s1]; [eauto | discriminate]. Qed.

Lemma Ptr_default_same_hint this s s' :
  Ptr_default this s = Ok tt s' -> current s' = current s.
Proof.
  rewrite Ptr_default_run.
  destruct (current s) as [cur |] eqn:Hcur; [destruct (objs s !! cur) as [cob |] |];
    [destruct (_ && _) | |]; try discriminate; intros [= <-]; simpl; congruence.
Qed.

Lemma register_object_same_hint this mem e d s s' :
  register_object this mem e d s = Ok tt s' -> current s' = current s.
Proof.
  unfold register_object.
  cbv [bind ret get_state modify load_ptr store_obj store_ptr]. simpl.
  destruct (ptrs s !! this) as [p |]; [| discriminate]. simpl.
  destruct (type p); intros [= <-]; reflexivity.
Qed.

Lemma store_display_same_registry this d s s' :
  store_display this d s = Ok tt s' ->
  all_objects s' = all_objects s /\ current s' = current s.
Proof.
  unfold store_display. cbv [bind load_ptr store_ptr modify].
  destruct (ptrs s !! this) as [p |]; [| discriminate]. intros [= <-]. done.
Qed.

(** Where [allocate_array] leaves the state: the header is in the registry,
    the hint is the new header, and the saved hint is the one from before. *)
Lemma allocate_array_registers sizeof_T this mem size s parent s1 :
  allocate_array sizeof_T this mem size s = Ok parent s1 ->
  mem ∈ all_objects s1 /\ current s1 = Some mem /\ parent = current s.
Proof.
  unfold allocate_array. intros Hrun.
  apply bind_Ok_inv in Hrun as ([] & s0 & Hdef & Hrun).
  apply Ptr_default_same_hint in Hdef.
  apply bind_Ok_inv in Hrun as (old & sa & Hdec & Hrun).
  assert (Hcura : current sa = current s0).
  { revert Hdec. unfold fetch_sub_gc_counter. cbv [bind get_state modify ret].
    intros [= _ <-]. reflexivity. }
  apply bind_Ok_inv in Hrun as ([] & sb & Hgc & Hrun).
  assert (Hcurb : current sb = current sa).
  { destruct (old <=? 0).
    - apply gc_collect_same_hint in Hgc as ->. reflexivity.
    - injection Hgc as <-. reflexivity. }
  apply bind_Ok_inv in Hrun as ([] & sc & Hreg & Hrun).
  pose proof (register_object_same_hint _ _ _ _ _ _ Hreg) as Hcurc.
  apply register_object_appends in Hreg as [Hall _].
  apply bind_Ok_inv in Hrun as (sc' & sc'' & Hget & Hrun).
  injection Hget as <- <-.
  apply bind_Ok_inv in Hrun as ([] & sd & Hmod & Hrun).
  injection Hmod as <-.
  apply bind_Ok_inv in Hrun as ([] & se & Hdisp & Hrun).
  apply store_display_same_registry in Hdisp as [Halle Hcure].
  injection Hrun as <- <-.
  rewrite Halle, Hcure. simpl. rewrite Hall.
  split; [set_solver |]. split; [reflexivity | congruence].
Qed.

(** *** The collector keeps what is reachable *)

Fixpoint referents (hs : list Ptr) : list Z :=
  match hs with
  | [] => []
  | p :: hs' =>
      match object p with
      | Some o => o :: referents hs'
      | None => referents hs'
      end
  end.

(** The objects that the embedded handles of [ob] refer to. *)
Definition children (ps : gmap Z Ptr) (ob : gc_object) : list Z :=
  match embedded ps ob with
  | inr hs => referents hs
  | inl _ => []
  end.

Definition points_to (s : State) (a b : Z) : Prop :=
  exists ob, objs s !! a = Some ob /\ b ∈ children (ptrs s) ob.

Definition is_root (s : State) (a : Z) : Prop :=
  exists ob, objs s !! a = Some ob /\ 0 < root_ref_cnt ob.

(** Reachable from the root set along embedded-handle edges. *)
Inductive reachable (s : State) : Z -> Prop :=
| reachable_root a : is_root s a -> reachable s a
| reachable_step a b : reachable s a -> points_to s a b -> reachable s b.

(** A null-terminated list of live handles, each with its address. *)
Inductive handle_list (ps : gmap Z Ptr) : option Z -> list (Z * Ptr) -> Prop :=
| handle_list_nil : handle_list ps None []
| handle_list_cons a p l :
    ps !! a = Some p -> handle_list ps (next p) l ->
    handle_list ps (Some a) ((a, p) :: l).

Lemma handle_list_det ps j l1 :
  handle_list ps j l1 -> forall l2, handle_list ps j l2 -> l1 = l2.
Proof.
  induction 1 as [| a p l Hp Hl IH]; intros l2 H2; inversion H2; subst.
  - reflexivity.
  - assert (p0 = p) as -> by congruence. f_equal. apply IH. assumption.
Qed.

Lemma handle_list_suffix ps l1 : forall j a p l2,
  handle_list ps j (l1 ++ (a, p) :: l2) ->
  handle_list ps (Some a) ((a, p) :: l2).
Proof.
  induction l1 as [| x l1 IH]; intros j a p l2 H; simpl in H.
  - inversion H; subst. constructor; assumption.
  - inversion H; subst. eapply IH. eassumption.
Qed.

Lemma handle_list_nodup ps j l : handle_list ps j l -> NoDup (map fst l).
Proof.
  induction 1 as [| a p l Hp Hl IH]; simpl; constructor; [| exact IH].
  intros Hin. apply list_elem_of_fmap in Hin as ([a' p'] & Ha & Hin). simpl in Ha. subst a'.
  apply list_elem_of_split in Hin as (l1 & l2 & ->).
  pose proof (handle_list_suffix ps ((a, p) :: l1) (Some a) a p' l2) as Hsuf.
  simpl in Hsuf. specialize (Hsuf (handle_list_cons ps a p _ Hp Hl)).
  pose proof (handle_list_det ps _ _ Hsuf _ (handle_list_cons ps a p _ Hp Hl)) as Heq.
  apply (f_equal length) in Heq. simpl in Heq. rewrite length_app in Heq. simpl in Heq. lia.
Qed.

Lemma handle_list_live ps j l a p :
  handle_list ps j l -> (a, p) ∈ l -> ps !! a = Some p.
Proof.
  induction 1 as [| a' p' l Hp Hl IH]; intros Hin.
  - apply elem_of_nil in Hin. contradiction.
  - apply elem_of_cons in Hin as [[= -> ->] | Hin]; [exact Hp | apply IH, Hin].
Qed.

(** A list without a cycle is no longer than the map of handles is large. *)
Lemma handle_list_length ps j l : handle_list ps j l -> (length l <= size ps)%nat.
Proof.
  intros Hl. pose proof (handle_list_nodup ps j l Hl) as Hnd.
  rewrite <- (length_map fst l), <- (size_list_to_set (C := gset Z)) by exact Hnd.
  rewrite <- size_dom. apply subseteq_size.
  intros a Ha. apply elem_of_list_to_set, list_elem_of_fmap in Ha as ([a' p] & -> & Hin).
  apply elem_of_dom. exists p. apply (handle_list_live ps j l a' p Hl Hin).
Qed.

Lemma handle_list_walk ps j l :
  handle_list ps j l ->
  forall fuel, (length l <= fuel)%nat -> walk fuel ps j = inr (map snd l).
Proof.
  induction 1 as [| a p l Hp Hl IH]; intros fuel Hfuel.
  - destruct fuel; reflexivity.
  - destruct fuel as [| fuel]; [simpl in Hfuel; lia |].
    simpl. rewrite Hp, IH by (simpl in Hfuel; lia). reflexivity.
Qed.

(** The loop of the source over such a list visits its handles and ends. *)
Lemma handle_list_embedded ps ob l :
  handle_list ps (first ob) l -> embedded ps ob = inr (map snd l).
Proof.
  intros Hl. unfold embedded. apply (handle_list_walk ps _ l Hl).
  pose proof (handle_list_length ps _ l Hl). lia.
Qed.

Lemma walk_handle_list ps : forall fuel j hs,
  walk fuel ps j = inr hs -> exists l, handle_list ps j l /\ map snd l = hs.
Proof.
  induction fuel as [| fuel IH]; intros j hs; destruct j as [a |]; simpl.
  - discriminate.
  - intros [= <-]. exists []. split; [constructor | reflexivity].
  - destruct (ps !! a) as [p |] eqn:Hp; [| discriminate].
    destruct (walk fuel ps (next p)) as [e | l'] eqn:Hw; [discriminate |].
    intros [= <-]. destruct (IH _ _ Hw) as (l & Hl & <-).
    exists ((a, p) :: l). split; [constructor; assumption | reflexivity].
  - intros [= <-]. exists []. split; [constructor | reflexivity].
Qed.

(** The invariants of the data model: every live object is in the registry
    exactly once, the list of embedded handles of each object is
    null-terminated and made of live handles, a handle refers to a live
    object, and a root count is the number of ROOT handles, so not
    negative. *)
Record well_formed (s : State) : Prop := {
  wf_nodup : NoDup (all_objects s);
  wf_registered : forall o, o ∈ all_objects s <-> is_Some (objs s !! o);
  wf_lists : forall o ob, objs s !! o = Some ob ->
                          exists l, handle_list (ptrs s) (first ob) l;
  wf_closed : forall a b, points_to s a b -> is_Some (objs s !! b);
  wf_counts : forall o ob, objs s !! o = Some ob -> 0 <= root_ref_cnt ob
}.

(** The destructor callbacks that a trace shows, in order. *)
Definition destructor_calls (tr : list event) : list Z :=
  omap (fun e => match e with EvDestructor o => Some o | _ => None end) tr.

Lemma reachable_live s b : well_formed s -> reachable s b -> is_Some (objs s !! b).
Proof.
  intros Hwf Hr. destruct Hr as [a (ob & Hob & _) | a b Ha Hab].
  - eauto.
  - apply (wf_closed s Hwf a b Hab).
Qed.

Lemma elem_of_rev_iff {A} (x : A) (l : list A) : x ∈ rev l <-> x ∈ l.
Proof. rewrite !list_elem_of_In. symmetry. apply in_rev. Qed.

Lemma push_referents_spec hs : forall pending,
  push_referents hs pending = rev (referents hs) ++ pending.
Proof.
  induction hs as [| p hs IH]; intros pending; simpl; [reflexivity |].
  destruct (object p) as [o |]; rewrite IH.
  - simpl. rewrite <- app_assoc. reflexivity.
  - reflexivity.
Qed.

Lemma walk_length ps : forall fuel j hs,
  walk fuel ps j = inr hs -> (length hs <= fuel)%nat.
Proof.
  induction fuel as [| f IH]; intros j hs; destruct j as [a |]; simpl;
    try (intros [= <-]; simpl; lia); try discriminate.
  destruct (ps !! a) as [p |]; [| discriminate].
  destruct (walk f ps (next p)) as [e | l] eqn:Hw; [discriminate |].
  intros [= <-]. simpl. apply IH in Hw. lia.
Qed.

Lemma referents_length hs : (length (referents hs) <= length hs)%nat.
Proof.
  induction hs as [| p hs IH]; simpl; [lia |].
  destruct (object p); simpl; lia.
Qed.

(** Maps of headers that differ in the mark bits only. *)
Definition agree (os0 os : gmap Z gc_object) : Prop :=
  forall o, set_mark false <$> os !! o = set_mark false <$> os0 !! o.

Lemma agree_refl os : agree os os.
Proof. intros o. reflexivity. Qed.

Lemma agree_set_mark os0 os c ob b :
  agree os0 os -> os !! c = Some ob -> agree os0 (<[c := set_mark b ob]> os).
Proof.
  intros Hag Hc o. destruct (decide (o = c)) as [-> | Hne].
  - rewrite lookup_insert_eq. rewrite <- Hag, Hc. reflexivity.
  - rewrite lookup_insert_ne by done. apply Hag.
Qed.

Lemma agree_lookup os0 os c ob :
  agree os0 os -> os !! c = Some ob ->
  exists ob0, os0 !! c = Some ob0 /\ first ob0 = first ob /\
              root_ref_cnt ob0 = root_ref_cnt ob.
Proof.
  intros Hag Hc. specialize (Hag c). rewrite Hc in Hag.
  destruct (os0 !! c) as [ob0 |]; [| discriminate].
  exists ob0. split; [reflexivity |]. injection Hag as _ _ ? ?. done.
Qed.

Lemma agree_lookup_inv os0 os c ob0 :
  agree os0 os -> os0 !! c = Some ob0 ->
  exists ob, os !! c = Some ob /\ first ob = first ob0 /\
             root_ref_cnt ob = root_ref_cnt ob0.
Proof.
  intros Hag Hc. specialize (Hag c). rewrite Hc in Hag.
  destruct (os !! c) as [ob |]; [| discriminate].
  exists ob. split; [reflexivity |]. injection Hag as _ _ ? ?. done.
Qed.

Lemma children_first ps ob ob0 :
  first ob = first ob0 ->
  embedded ps ob = embedded ps ob0 /\ children ps ob = children ps ob0.
Proof. unfold children, embedded. intros ->. done. Qed.

Definition marked (os : gmap Z gc_object) (c : Z) : Prop :=
  exists ob, os !! c = Some ob /\ mark ob = true.

(** The number of headers that are not marked. *)
Definition unmarked_count (os : gmap Z gc_object) : nat :=
  count_values (fun ob => mark ob = false) os.

Lemma unmarked_count_mark os c ob :
  os !! c = Some ob -> mark ob = false ->
  (unmarked_count (<[c := set_mark true ob]> os) + 1 = unmarked_count os)%nat.
Proof.
  intros Hc Hm. unfold unmarked_count.
  pose proof (count_values_insert (fun ob => mark ob = false) os c
                (set_mark true ob) ob Hc) as Hcount.
  unfold indicator in Hcount. rewrite decide_True in Hcount by exact Hm.
  rewrite decide_False in Hcount by (simpl; discriminate). lia.
Qed.

Lemma unmarked_count_le_size os : (unmarked_count os <= size os)%nat.
Proof. apply count_values_le_size. Qed.

Lemma push_unmarked_spec os hs : forall pending,
  (forall b, b ∈ referents hs -> is_Some (os !! b)) ->
  exists l, push_unmarked os hs pending = inr (l ++ pending) /\
            (forall b, b ∈ l -> b ∈ referents hs) /\
            (forall b, b ∈ referents hs -> marked os b \/ b ∈ l) /\
            (length l <= length hs)%nat.
Proof.
  induction hs as [| p hs IH]; intros pending Hlive; simpl in *.
  - exists []. split; [reflexivity |]. split; [set_solver |].
    split; [set_solver | simpl; lia].
  - destruct (object p) as [o |] eqn:Ho.
    + destruct (Hlive o) as [ob Hob]; [set_solver |]. rewrite Hob.
      destruct (mark ob) eqn:Hm.
      * destruct (IH pending) as (l & Hrun & Hsub & Hcov & Hlen); [set_solver |].
        exists l. split; [exact Hrun |]. split; [set_solver |]. split; [| lia].
        intros b Hb. apply elem_of_cons in Hb as [-> | Hb]; [| auto].
        left. exists ob. done.
      * destruct (IH (o :: pending)) as (l & Hrun & Hsub & Hcov & Hlen); [set_solver |].
        exists (l ++ [o]). rewrite <- app_assoc. split; [exact Hrun |].
        split; [| split; [| rewrite length_app; simpl; lia]].
        { intros b Hb. apply elem_of_app in Hb as [Hb | Hb].
          - right. apply Hsub, Hb.
          - apply list_elem_of_singleton in Hb as ->. left. }
        intros b Hb. apply elem_of_cons in Hb as [-> | Hb]; [set_solver |].
        destruct (Hcov b Hb); [auto | set_solver].
    + destruct (IH pending) as (l & Hrun & Hsub & Hcov & Hlen); [set_solver |].
      exists l. split; [exact Hrun |]. split; [set_solver |]. split; [set_solver | lia].
Qed.

Section collect.

Context (s : State) (Hwf : well_formed s).

Lemma agree_children os c ob :
  agree (objs s) os -> os !! c = Some ob ->
  exists hs, embedded (ptrs s) ob = inr hs /\
             (length hs <= S (size (ptrs s)))%nat /\
             (forall b, b ∈ referents hs <-> points_to s c b).
Proof.
  intros Hag Hc. destruct (agree_lookup _ _ c ob Hag Hc) as (ob0 & Hob0 & Hf & _).
  destruct (wf_lists s Hwf c ob0 Hob0) as [l Hl].
  apply handle_list_embedded in Hl. revert Hl. generalize (map snd l). intros hs Hhs.
  destruct (children_first (ptrs s) ob0 ob Hf) as [Hemb Hch].
  exists hs. rewrite <- Hemb. split; [exact Hhs |]. split.
  - apply (walk_length _ _ _ _ Hhs).
  - intros b. unfold points_to. split.
    + intros Hb. exists ob0. split; [exact Hob0 |]. unfold children. rewrite Hhs. exact Hb.
    + intros (ob1 & Hob1 & Hb). assert (ob1 = ob0) as -> by congruence.
      unfold children in Hb. rewrite Hhs in Hb. exact Hb.
Qed.

(** Phase 1 sets the mark of every object of the list to "has a root
    reference" and pushes the referents of those that have one. *)
Lemma phase1_spec l : forall os pending,
  agree (objs s) os ->
  (forall c, c ∈ l -> is_Some (objs s !! c)) ->
  exists os' pending',
    phase1 (ptrs s) l os pending = inr (os', pending') /\
    agree (objs s) os' /\
    (forall c ob, c ∈ l -> os' !! c = Some ob ->
                  mark ob = negb (root_ref_cnt ob =? 0)) /\
    (forall b, b ∈ pending' ->
               b ∈ pending \/
               exists c ob, c ∈ l /\ objs s !! c = Some ob /\
                            root_ref_cnt ob <> 0 /\ points_to s c b) /\
    (forall b, b ∈ pending -> b ∈ pending') /\
    (forall c ob b, c ∈ l -> objs s !! c = Some ob -> root_ref_cnt ob <> 0 ->
                    points_to s c b -> b ∈ pending').
Proof.
  induction l as [| c l IH]; intros os pending Hag Hlive; simpl.
  - exists os, pending. split; [reflexivity |]. split; [exact Hag |].
    repeat split; try set_solver.
  - destruct (Hlive c) as [ob0 Hob0]; [set_solver |].
    destruct (agree_lookup_inv _ _ c ob0 Hag Hob0) as (ob & Hob & Hf & Hcnt).
    rewrite Hob.
    assert (Hkeep : forall os1 pending1,
              agree (objs s) os1 ->
              os1 !! c = Some (set_mark (negb (root_ref_cnt ob =? 0)) ob) ->
              (forall b, b ∈ pending -> b ∈ pending1) ->
              (forall b, b ∈ pending1 ->
                         b ∈ pending \/ (root_ref_cnt ob0 <> 0 /\ points_to s c b)) ->
              (root_ref_cnt ob0 <> 0 -> forall b, points_to s c b -> b ∈ pending1) ->
              exists os' pending',
                phase1 (ptrs s) l os1 pending1 = inr (os', pending') /\
                agree (objs s) os' /\
                (forall c0 ob1, c0 ∈ c :: l -> os' !! c0 = Some ob1 ->
                                mark ob1 = negb (root_ref_cnt ob1 =? 0)) /\
                (forall b, b ∈ pending' ->
                           b ∈ pending \/
                           exists c0 ob1, c0 ∈ c :: l /\ objs s !! c0 = Some ob1 /\
                                          root_ref_cnt ob1 <> 0 /\ points_to s c0 b) /\
                (forall b, b ∈ pending -> b ∈ pending') /\
                (forall c0 ob1 b, c0 ∈ c :: l -> objs s !! c0 = Some ob1 ->
                                  root_ref_cnt ob1 <> 0 ->
                                  points_to s c0 b -> b ∈ pending')).
    { intros os1 pending1 Hag1 Hc1 Hsub1 Hnew1 Hcov1.
      destruct (IH os1 pending1 Hag1) as
        (os' & pending' & Hrun & Hag' & Hmarks & Hfrom & Hsub & Hcov); [set_solver |].
      exists os', pending'. split; [exact Hrun |]. split; [exact Hag' |].
      assert (Hother : c ∉ l -> os' !! c = os1 !! c).
      { clear - Hrun. revert os1 pending1 os' pending' Hrun.
        induction l as [| d l IHl]; intros os1 pending1 os' pending' Hrun Hnin; simpl in Hrun.
        - injection Hrun as <- <-. reflexivity.
        - destruct (os1 !! d) as [obd |] eqn:Hd; [| discriminate].
          assert (Hne : d <> c) by set_solver.
          destruct (negb (root_ref_cnt obd =? 0)).
          + destruct (embedded (ptrs s) obd) as [e | hs]; [discriminate |].
            rewrite (IHl _ _ _ _ Hrun) by set_solver. apply lookup_insert_ne. done.
          + rewrite (IHl _ _ _ _ Hrun) by set_solver. apply lookup_insert_ne. done. }
      split; [| split; [| split]].
      - intros c0 ob1 Hin Hlook.
        destruct (decide (c0 ∈ l)) as [Hinl | Hninl]; [apply (Hmarks c0 ob1 Hinl Hlook) |].
        assert (c0 = c) as ->
          by (apply elem_of_cons in Hin as [? | ?]; [assumption | contradiction]).
        rewrite (Hother Hninl), Hc1 in Hlook. injection Hlook as <-. reflexivity.
      - intros b Hb. destruct (Hfrom b Hb) as [Hb1 | (c0 & ob1 & ? & ? & ? & ?)].
        + destruct (Hnew1 b Hb1) as [? | [? ?]]; [auto |].
          right. exists c, ob0. split; [set_solver |]. done.
        + right. exists c0, ob1. split; [set_solver |]. done.
      - intros b Hb. apply Hsub, Hsub1, Hb.
      - intros c0 ob1 b Hin Hlook Hroot Hpt.
        apply elem_of_cons in Hin as [-> | Hin].
        + assert (ob1 = ob0) as -> by congruence. apply Hsub, (Hcov1 Hroot b Hpt).
        + apply (Hcov c0 ob1 b Hin Hlook Hroot Hpt). }
    destruct (Z.eqb_spec (root_ref_cnt ob) 0) as [Hz | Hnz]; simpl.
    + apply Hkeep.
      * apply agree_set_mark; assumption.
      * apply lookup_insert_eq.
      * auto.
      * auto.
      * intros Hroot. congruence.
    + destruct (agree_children os c ob Hag Hob) as (hs & Hhs & _ & Hpts).
      rewrite Hhs. apply Hkeep.
      * apply agree_set_mark; assumption.
      * apply lookup_insert_eq.
      * intros b Hb. rewrite push_referents_spec. apply elem_of_app. right. exact Hb.
      * intros b Hb. rewrite push_referents_spec in Hb.
        apply elem_of_app in Hb as [Hb | Hb]; [| auto].
        right. split; [congruence |]. apply Hpts, elem_of_rev_iff, Hb.
      * intros _ b Hpt. rewrite push_referents_spec. apply Hpts in Hpt.
        apply elem_of_app. left. apply elem_of_rev_iff, Hpt.
Qed.

(** The invariant of the marking loop. *)
Record mark_inv (os : gmap Z gc_object) (pending : list Z) : Prop := {
  mi_agree : agree (objs s) os;
  mi_sound : forall c, marked os c -> reachable s c;
  mi_pending : forall b, b ∈ pending -> reachable s b;
  mi_roots : forall c, is_root s c -> marked os c;
  mi_closed : forall a b, marked os a -> points_to s a b -> marked os b \/ b ∈ pending
}.

Lemma marked_set_mark os c ob a :
  os !! c = Some ob -> marked os a -> marked (<[c := set_mark true ob]> os) a.
Proof.
  intros Hc (oa & Ha & Hm). destruct (decide (a = c)) as [-> | Hne].
  - exists (set_mark true ob). rewrite lookup_insert_eq. done.
  - exists oa. rewrite lookup_insert_ne by done. done.
Qed.

Lemma marked_set_mark_inv os c ob a :
  marked (<[c := set_mark true ob]> os) a -> a = c \/ marked os a.
Proof.
  intros (oa & Ha & Hm). destruct (decide (a = c)) as [-> | Hne]; [auto |].
  rewrite lookup_insert_ne in Ha by done. right. exists oa. done.
Qed.

Lemma phase1_establishes :
  exists os pending,
    phase1 (ptrs s) (all_objects s) (objs s) [] = inr (os, pending) /\
    mark_inv os pending.
Proof.
  destruct (phase1_spec (all_objects s) (objs s) [] (agree_refl _))
    as (os & pending & Hrun & Hag & Hmarks & Hfrom & _ & Hcov).
  { intros c Hc. apply (wf_registered s Hwf), Hc. }
  exists os, pending. split; [exact Hrun |].
  assert (Hroot : forall c, marked os c -> is_root s c).
  { intros c (ob & Hob & Hm).
    destruct (agree_lookup _ _ c ob Hag Hob) as (ob0 & Hob0 & _ & Hcnt).
    assert (Hin : c ∈ all_objects s) by (apply (wf_registered s Hwf); eauto).
    rewrite (Hmarks c ob Hin Hob) in Hm.
    pose proof (wf_counts s Hwf c ob0 Hob0).
    exists ob0. split; [exact Hob0 |].
    destruct (Z.eqb_spec (root_ref_cnt ob) 0); [discriminate | lia]. }
  split.
  - exact Hag.
  - intros c Hm. apply reachable_root, Hroot, Hm.
  - intros b Hb. destruct (Hfrom b Hb) as [Hnil | (c & ob & Hin & Hob & Hnz & Hpt)].
    + apply elem_of_nil in Hnil. contradiction.
    + apply (reachable_step s c b); [| exact Hpt].
      apply reachable_root. exists ob. split; [exact Hob |].
      pose proof (wf_counts s Hwf c ob Hob). lia.
  - intros c (ob0 & Hob0 & Hpos).
    destruct (agree_lookup_inv _ _ c ob0 Hag Hob0) as (ob & Hob & _ & Hcnt).
    exists ob. split; [exact Hob |].
    assert (Hin : c ∈ all_objects s) by (apply (wf_registered s Hwf); eauto).
    rewrite (Hmarks c ob Hin Hob).
    destruct (Z.eqb_spec (root_ref_cnt ob) 0); [lia | reflexivity].
  - intros a b Hm Hpt. right.
    destruct (Hroot a Hm) as (ob0 & Hob0 & Hpos).
    apply (Hcov a ob0 b); [| exact Hob0 | lia | exact Hpt].
    apply (wf_registered s Hwf). eauto.
Qed.

(** Phase 2 ends, within the fuel that [gc_collect] gives it, with the
    invariant and an empty work list. *)
Lemma phase2_spec : forall fuel os pending,
  mark_inv os pending ->
  (length pending + unmarked_count os * S (size (ptrs s)) <= fuel)%nat ->
  exists os', phase2 fuel (ptrs s) os pending = inr os' /\ mark_inv os' [].
Proof.
  induction fuel as [| fuel IH]; intros os pending Hinv Hfuel.
  - destruct pending as [| c rest]; [| simpl in Hfuel; lia].
    exists os. split; [reflexivity | exact Hinv].
  - destruct pending as [| c rest]; [exists os; split; [reflexivity | exact Hinv] |].
    simpl.
    assert (Hreach : reachable s c) by (apply (mi_pending _ _ Hinv); left).
    destruct (reachable_live s c Hwf Hreach) as [ob0 Hob0].
    destruct (agree_lookup_inv _ _ c ob0 (mi_agree _ _ Hinv) Hob0) as (ob & Hob & _).
    rewrite Hob. destruct (mark ob) eqn:Hm.
    + (* already marked: skip *)
      apply IH; [| simpl in Hfuel; lia].
      split.
      * apply (mi_agree _ _ Hinv).
      * apply (mi_sound _ _ Hinv).
      * intros b Hb. apply (mi_pending _ _ Hinv). right. exact Hb.
      * apply (mi_roots _ _ Hinv).
      * intros a b Ha Hpt. destruct (mi_closed _ _ Hinv a b Ha Hpt) as [? | Hb]; [auto |].
        apply elem_of_cons in Hb as [-> | Hb]; [| auto].
        left. exists ob. done.
    + (* mark it and push its referents *)
      destruct (agree_children os c ob (mi_agree _ _ Hinv) Hob) as (hs & Hhs & Hlen & Hpts).
      rewrite Hhs.
      assert (Hag' : agree (objs s) (<[c := set_mark true ob]> os))
        by (apply agree_set_mark; [apply (mi_agree _ _ Hinv) | exact Hob]).
      destruct (push_unmarked_spec (<[c := set_mark true ob]> os) hs rest)
        as (l & Hpush & Hsub & Hcov & Hll).
      { intros b Hb. apply Hpts in Hb.
        destruct (wf_closed s Hwf c b Hb) as [obb Hobb].
        destruct (agree_lookup_inv _ _ b obb Hag' Hobb) as (ob' & Hob' & _). eauto. }
      rewrite Hpush. apply IH.
      * split.
        -- exact Hag'.
        -- intros a Ha. apply marked_set_mark_inv in Ha as [-> | Ha];
             [exact Hreach | apply (mi_sound _ _ Hinv a Ha)].
        -- intros b Hb. apply elem_of_app in Hb as [Hb | Hb].
           ++ apply (reachable_step s c b Hreach). apply Hpts, Hsub, Hb.
           ++ apply (mi_pending _ _ Hinv). right. exact Hb.
        -- intros a Ha. apply marked_set_mark; [exact Hob |]. apply (mi_roots _ _ Hinv a Ha).
        -- intros a b Ha Hpt. apply marked_set_mark_inv in Ha as [-> | Ha].
           ++ apply Hpts in Hpt. destruct (Hcov b Hpt) as [? | Hb]; [auto |].
              right. apply elem_of_app. left. exact Hb.
           ++ destruct (mi_closed _ _ Hinv a b Ha Hpt) as [Hb | Hb].
              ** left. apply marked_set_mark; assumption.
              ** apply elem_of_cons in Hb as [-> | Hb].
                 --- left. exists (set_mark true ob). rewrite lookup_insert_eq. done.
                 --- right. apply elem_of_app. right. exact Hb.
      * pose proof (unmarked_count_mark os c ob Hob Hm) as Hcount.
        rewrite length_app. simpl in Hfuel.
        assert (unmarked_count os * S (size (ptrs s)) =
                unmarked_count (<[c := set_mark true ob]> os) * S (size (ptrs s))
                + S (size (ptrs s)))%nat by (rewrite <- Hcount; lia).
        lia.
Qed.

(** After the marking, the marked objects are the reachable ones. *)
Lemma mark_inv_done os c :
  mark_inv os [] -> (marked os c <-> reachable s c).
Proof.
  intros Hinv. split; [apply (mi_sound _ _ Hinv) |].
  induction 1 as [a Ha | a b Ha IH Hpt].
  - apply (mi_roots _ _ Hinv a Ha).
  - destruct (mi_closed _ _ Hinv a b IH Hpt) as [? | Hb]; [assumption |].
    apply elem_of_nil in Hb. contradiction.
Qed.

End collect.

Lemma partition_marked_spec os l :
  (forall o, o ∈ l -> is_Some (os !! o)) ->
  exists live garbage,
    partition_marked os l = inr (live, garbage) /\
    (forall o, o ∈ live <-> o ∈ l /\ marked os o) /\
    (forall o, o ∈ garbage <-> o ∈ l /\ ~ marked os o) /\
    (NoDup l -> NoDup live /\ NoDup garbage).
Proof.
  induction l as [| c l IH]; intros Hlive; simpl.
  - exists [], []. split; [reflexivity |].
    split; [intros o; rewrite !elem_of_nil; tauto |].
    split; [intros o; rewrite !elem_of_nil; tauto |]. intros _. split; constructor.
  - destruct (Hlive c) as [ob Hob]; [left |]. rewrite Hob.
    destruct IH as (live & garbage & Hrun & Hl & Hg & Hnd).
    { intros o Ho. apply Hlive. right. exact Ho. }
    rewrite Hrun. destruct (mark ob) eqn:Hm.
    + exists (c :: live), garbage. split; [reflexivity |].
      assert (Hc : marked os c) by (exists ob; done).
      split; [| split].
      * intros o. rewrite !elem_of_cons, Hl. split.
        -- intros [-> | [? ?]]; auto.
        -- intros [[-> | ?] ?]; auto.
      * intros o. rewrite elem_of_cons, Hg. split.
        -- intros [? ?]; auto.
        -- intros [[-> | ?] ?]; [contradiction | auto].
      * intros Hnodup. apply NoDup_cons in Hnodup as [Hnin Hnodup].
        destruct (Hnd Hnodup) as [? ?]. split; [| assumption].
        apply NoDup_cons. split; [| assumption]. rewrite Hl. tauto.
    + exists live, (c :: garbage). split; [reflexivity |].
      assert (Hc : ~ marked os c).
      { intros (ob' & Hob' & Hm'). congruence. }
      split; [| split].
      * intros o. rewrite elem_of_cons, Hl. split.
        -- intros [? ?]; auto.
        -- intros [[-> | ?] ?]; [contradiction | auto].
      * intros o. rewrite !elem_of_cons, Hg. split.
        -- intros [-> | [? ?]]; auto.
        -- intros [[-> | ?] ?]; auto.
      * intros Hnodup. apply NoDup_cons in Hnodup as [Hnin Hnodup].
        destruct (Hnd Hnodup) as [? ?]. split; [assumption |].
        apply NoDup_cons. split; [| assumption]. rewrite Hg. tauto.
Qed.

Lemma destructor_calls_app tr1 tr2 :
  destructor_calls (tr1 ++ tr2) = destructor_calls tr1 ++ destructor_calls tr2.
Proof. apply omap_app. Qed.

Lemma destructor_calls_destroy l : destructor_calls (map EvDestroy l) = [].
Proof. induction l as [| a l IH]; [reflexivity | exact IH]. Qed.

Lemma destructor_calls_delete l : destructor_calls (map EvDelete l) = [].
Proof. induction l as [| a l IH]; [reflexivity | exact IH]. Qed.

Lemma destructor_calls_thunk d b e : destructor_calls (run_destructor d b e) = [].
Proof.
  destruct d; simpl; [reflexivity | reflexivity | apply destructor_calls_destroy].
Qed.

Lemma gc_object_delete_run o s0 ob :
  objs s0 !! o = Some ob ->
  gc_object_delete o s0 =
  Ok tt (add_trace (EvDestructor o :: run_destructor (destructor ob) (start o) (end_ ob)) s0).
Proof.
  intros Hob. unfold gc_object_delete. cbv [bind load_obj emit modify].
  rewrite Hob. reflexivity.
Qed.

Lemma operator_delete_run o s0 ob :
  objs s0 !! o = Some ob ->
  operator_delete o s0 = Ok tt (release_storage o ob (add_trace [EvDelete o] s0)).
Proof.
  intros Hob. unfold operator_delete. cbv [bind load_obj emit modify].
  rewrite Hob. reflexivity.
Qed.

(** Phase 4: the destructor callback of each garbage object, once, in the
    order of the list. *)
Lemma finalise_run l : forall s0,
  (forall o, o ∈ l -> is_Some (objs s0 !! o)) ->
  exists tr, for_each l gc_object_delete s0 = Ok tt (add_trace tr s0) /\
             destructor_calls tr = l.
Proof.
  induction l as [| c l IH]; intros s0 Hlive; simpl.
  - exists []. split; [| reflexivity]. unfold ret, add_trace. rewrite app_nil_r.
    destruct s0; reflexivity.
  - destruct (Hlive c) as [ob Hob]; [left |].
    unfold bind at 1. rewrite (gc_object_delete_run c s0 ob Hob).
    destruct (IH (add_trace (EvDestructor c ::
                  run_destructor (destructor ob) (start c) (end_ ob)) s0))
      as (tr & Hrun & Hcalls).
    { intros o Ho. simpl. apply Hlive. right. exact Ho. }
    rewrite Hrun.
    exists ((EvDestructor c :: run_destructor (destructor ob) (start c) (end_ ob)) ++ tr).
    split.
    + unfold add_trace. simpl. rewrite <- app_assoc. reflexivity.
    + rewrite destructor_calls_app. simpl.
      change (c :: destructor_calls (run_destructor (destructor ob) (start c) (end_ ob))
                ++ destructor_calls tr = c :: l).
      rewrite destructor_calls_thunk, Hcalls. reflexivity.
Qed.

(** Phase 5: the storage of each garbage object is given back, once. *)
Lemma free_run l : forall s0,
  NoDup l ->
  (forall o, o ∈ l -> is_Some (objs s0 !! o)) ->
  exists s1, for_each l operator_delete s0 = Ok tt s1 /\
             all_objects s1 = all_objects s0 /\
             trace s1 = trace s0 ++ map EvDelete l /\
             (forall o, o ∈ l -> objs s1 !! o = None) /\
             (forall o, o ∉ l -> objs s1 !! o = objs s0 !! o).
Proof.
  induction l as [| c l IH]; intros s0 Hnd Hlive; simpl.
  - exists s0. split; [reflexivity |]. split; [reflexivity |].
    split; [rewrite app_nil_r; reflexivity |]. split; [| reflexivity].
    intros o Ho. apply elem_of_nil in Ho. contradiction.
  - apply NoDup_cons in Hnd as [Hnin Hnd].
    destruct (Hlive c) as [ob Hob]; [left |].
    unfold bind at 1. rewrite (operator_delete_run c s0 ob Hob).
    destruct (IH (release_storage c ob (add_trace [EvDelete c] s0)) Hnd)
      as (s1 & Hrun & Hall & Htr & Hgone & Hkept).
    { intros o Ho. simpl. rewrite lookup_delete_ne by (intros ->; contradiction).
      apply Hlive. right. exact Ho. }
    exists s1. split; [exact Hrun |]. split; [exact Hall |]. split; [| split].
    + rewrite Htr. simpl. rewrite <- app_assoc. reflexivity.
    + intros o Ho. apply elem_of_cons in Ho as [-> | Ho]; [| apply (Hgone o Ho)].
      rewrite (Hkept c Hnin). simpl. apply lookup_delete_eq.
    + intros o Ho. apply not_elem_of_cons in Ho as [Hne Ho].
      rewrite (Hkept o Ho). simpl. apply lookup_delete_ne. congruence.
Qed.

(** C1: in a well-formed state [gc_collect] returns; the objects that remain
    in the registry are exactly the registered objects reachable from the
    objects with [root_ref_cnt > 0] along embedded-handle edges; every other
    registered object, cycles included, has left the registry, its storage
    is freed, and its destructor callback has been invoked exactly once (the
    new destructor calls are the list [garbage], which has no duplicates). *)
Theorem gc_collect_keeps_exactly_reachable (s : State) :
  well_formed s ->
  exists s' garbage,
    gc_collect s = Ok tt s' /\
    (forall o, o ∈ all_objects s' <-> o ∈ all_objects s /\ reachable s o) /\
    (forall o, o ∈ garbage <-> o ∈ all_objects s /\ ~ reachable s o) /\
    NoDup garbage /\
    destructor_calls (trace s') = destructor_calls (trace s) ++ garbage /\
    (forall o, o ∈ garbage -> objs s' !! o = None).
Proof.
  intros Hwf. unfold gc_collect. unfold bind at 1. unfold get_state.
  case_bool_decide as Hnil.
  - exists s, []. split; [reflexivity |]. rewrite Hnil.
    split; [intros o; rewrite elem_of_nil; tauto |].
    split; [intros o; rewrite elem_of_nil; tauto |].
    split; [constructor |]. split; [rewrite app_nil_r; reflexivity |].
    intros o Ho. apply elem_of_nil in Ho. contradiction.
  - destruct (phase1_establishes s Hwf) as (os1 & pending & Hp1 & Hinv1).
    unfold bind at 1. rewrite Hp1. unfold lift at 1. simpl.
    destruct (phase2_spec s Hwf (phase2_fuel (ptrs s) os1 pending) os1 pending Hinv1)
      as (os2 & Hp2 & Hinv2).
    { unfold phase2_fuel. pose proof (unmarked_count_le_size os1).
      apply Nat.add_le_mono_l, Nat.mul_le_mono_r. assumption. }
    unfold bind at 1. rewrite Hp2. unfold lift at 1.
    assert (Hreg2 : forall o, o ∈ all_objects s -> is_Some (os2 !! o)).
    { intros o Ho. apply (wf_registered s Hwf) in Ho as [ob0 Hob0].
      destruct (agree_lookup_inv _ _ o ob0 (mi_agree s _ _ Hinv2) Hob0) as (ob & Hob & _).
      eauto. }
    destruct (partition_marked_spec os2 (all_objects s) Hreg2)
      as (live & garbage & Hp3 & Hlive & Hgarbage & Hnodup).
    unfold bind at 1. rewrite Hp3. unfold lift at 1. simpl.
    unfold bind at 1 2 3. unfold modify at 1 2 3.
    set (sm := set_gc_counter _ _).
    destruct (finalise_run garbage sm) as (tr & Hp4 & Hcalls).
    { intros o Ho. simpl. apply Hreg2, Hgarbage, Ho. }
    destruct (free_run garbage (add_trace tr sm)) as (s' & Hp5 & Hall & Htr & Hgone & _).
    { apply (Hnodup (wf_nodup s Hwf)). }
    { intros o Ho. simpl. apply Hreg2, Hgarbage, Ho. }
    exists s', garbage. split; [unfold bind; rewrite Hp4; exact Hp5 |].
    split; [| split; [| split; [| split]]].
    + intros o. rewrite Hall. simpl. rewrite Hlive, (mark_inv_done s os2 o Hinv2). tauto.
    + intros o. rewrite Hgarbage, (mark_inv_done s os2 o Hinv2). tauto.
    + apply (Hnodup (wf_nodup s Hwf)).
    + rewrite Htr. simpl. rewrite !destructor_calls_app, Hcalls, destructor_calls_delete.
      rewrite app_nil_r. reflexivity.
    + exact Hgone.
Qed.

(** *** A checkable form of well-formedness *)

Definition header_ok (s : State) (ob : gc_object) : Prop :=
  match embedded (ptrs s) ob with
  | inr hs => Forall (fun b => is_Some (objs s !! b)) (referents hs)
  | inl _ => False
  end /\ 0 <= root_ref_cnt ob.

#[global] Instance header_ok_dec s ob : Decision (header_ok s ob).
Proof. unfold header_ok. destruct (embedded (ptrs s) ob); apply _. Defined.

Lemma well_formed_intro s :
  NoDup (all_objects s) ->
  list_to_set (all_objects s) =@{gset Z} dom (objs s) ->
  map_Forall (fun _ ob => header_ok s ob) (objs s) ->
  well_formed s.
Proof.
  intros Hnd Hdom Hok. split.
  - exact Hnd.
  - intros o. rewrite <- elem_of_dom, <- Hdom, elem_of_list_to_set. reflexivity.
  - intros o ob Hob. destruct (Hok o ob Hob) as [Hlist _].
    destruct (embedded (ptrs s) ob) as [e | hs] eqn:Hemb; [contradiction |].
    destruct (walk_handle_list _ _ _ _ Hemb) as (l & Hl & _). eauto.
  - intros a b (ob & Hob & Hb). destruct (Hok a ob Hob) as [Hlist _].
    unfold children in Hb. destruct (embedded (ptrs s) ob) as [e | hs]; [contradiction |].
    rewrite Forall_forall in Hlist. apply Hlist, Hb.
  - intros o ob Hob. apply (Hok o ob Hob).
Qed.

(** *** A collection in full *)

(** What phase 4 adds to the trace: for each garbage object its destructor
    callback and what the callback destroys. *)
Definition finalise_trace (os : gmap Z gc_object) (l : list Z) : list event :=
  flat_map (fun o => match os !! o with
                     | Some ob => EvDestructor o ::
                                  run_destructor (destructor ob) (start o) (end_ ob)
                     | None => []
                     end) l.

Lemma finalise_trace_run l : forall s0,
  (forall o, o ∈ l -> is_Some (objs s0 !! o)) ->
  for_each l gc_object_delete s0 = Ok tt (add_trace (finalise_trace (objs s0) l) s0).
Proof.
  induction l as [| c l IH]; intros s0 Hlive; simpl.
  - unfold ret, add_trace. rewrite app_nil_r. destruct s0; reflexivity.
  - destruct (Hlive c) as [ob Hob]; [left |]. rewrite Hob.
    unfold bind at 1. rewrite (gc_object_delete_run c s0 ob Hob).
    rewrite IH by (intros o Ho; simpl; apply Hlive; right; exact Ho).
    unfold add_trace. simpl. rewrite <- app_assoc. reflexivity.
Qed.

Lemma finalise_trace_calls os l :
  (forall o, o ∈ l -> is_Some (os !! o)) ->
  destructor_calls (finalise_trace os l) = l.
Proof.
  induction l as [| c l IH]; intros Hlive; simpl; [reflexivity |].
  destruct (Hlive c) as [ob Hob]; [left |]. rewrite Hob.
  rewrite destructor_calls_app. simpl.
  change (c :: destructor_calls (run_destructor (destructor ob) (start c) (end_ ob))
            ++ destructor_calls (finalise_trace os l) = c :: l).
  rewrite destructor_calls_thunk, IH by (intros o Ho; apply Hlive; right; exact Ho).
  reflexivity.
Qed.

(** No storage is given back during phase 4. *)
Definition is_delete (e : event) : Prop :=
  match e with EvDelete _ => True | _ => False end.

Lemma run_destructor_no_delete d b e : Forall (fun ev => ~ is_delete ev) (run_destructor d b e).
Proof.
  destruct d; simpl.
  - constructor.
  - constructor; [exact id | constructor].
  - apply Forall_fmap, Forall_forall. intros x _. exact id.
Qed.

Lemma finalise_trace_no_delete os l : Forall (fun ev => ~ is_delete ev) (finalise_trace os l).
Proof.
  induction l as [| c l IH]; simpl; [constructor |].
  apply Forall_app. split; [| exact IH].
  destruct (os !! c) as [ob |]; [| constructor].
  constructor; [exact id | apply run_destructor_no_delete].
Qed.

(** Phase 5 and the handles: a handle is gone exactly when it lay in the
    block of a garbage object. *)
Lemma free_run_ptrs l : forall s0,
  NoDup l ->
  (forall o, o ∈ l -> is_Some (objs s0 !! o)) ->
  exists s1, for_each l operator_delete s0 = Ok tt s1 /\
             current s1 = current s0 /\ gc_counter s1 = gc_counter s0 /\
             (forall a p, ptrs s1 !! a = Some p <->
                ptrs s0 !! a = Some p /\
                forall g ob, g ∈ l -> objs s0 !! g = Some ob -> ~ (g <= a < end_ ob)).
Proof.
  induction l as [| c l IH]; intros s0 Hnd Hlive; simpl.
  - exists s0. split; [reflexivity |]. split; [reflexivity |]. split; [reflexivity |].
    intros a p. split; [| tauto]. intros Hp. split; [exact Hp |].
    intros g ob Hg. apply elem_of_nil in Hg. contradiction.
  - apply NoDup_cons in Hnd as [Hnin Hnd].
    destruct (Hlive c) as [ob Hob]; [left |].
    unfold bind at 1. rewrite (operator_delete_run c s0 ob Hob).
    destruct (IH (release_storage c ob (add_trace [EvDelete c] s0)) Hnd)
      as (s1 & Hrun & Hcur & Hcnt & Hptrs).
    { intros o Ho. simpl. rewrite lookup_delete_ne by (intros ->; contradiction).
      apply Hlive. right. exact Ho. }
    exists s1. split; [exact Hrun |]. split; [exact Hcur |]. split; [exact Hcnt |].
    intros a p. rewrite Hptrs. simpl. rewrite map_lookup_filter_Some. simpl. split.
    + intros [[Hp Hout] Hrest]. split; [exact Hp |].
      intros g ob' Hg Hob'. apply elem_of_cons in Hg as [-> | Hg].
      * assert (ob' = ob) as -> by congruence. exact Hout.
      * apply (Hrest g ob' Hg). rewrite lookup_delete_ne by (intros ->; contradiction).
        exact Hob'.
    + intros [Hp Hall]. split; [split; [exact Hp |] |].
      * apply (Hall c ob); [left | exact Hob].
      * intros g ob' Hg Hob'. apply lookup_delete_Some in Hob' as [Hne Hob'].
        apply (Hall g ob'); [right; exact Hg | exact Hob'].
Qed.

(** The partition keeps the order of the registry. *)
Lemma partition_marked_sublist os l live garbage :
  partition_marked os l = inr (live, garbage) ->
  sublist live l /\ sublist garbage l /\ live ++ garbage ≡ₚ l.
Proof.
  revert live garbage. induction l as [| c l IH]; intros live garbage; simpl.
  - intros [= <- <-]. split; [constructor |]. split; [constructor | reflexivity].
  - destruct (os !! c) as [ob |]; [| discriminate].
    destruct (partition_marked os l) as [e | [live0 garbage0]]; [discriminate |].
    destruct (IH live0 garbage0 eq_refl) as (Hl & Hg & Hperm).
    destruct (mark ob); intros [= <- <-].
    + split; [apply sublist_skip; exact Hl |]. split; [apply sublist_cons; exact Hg |].
      simpl. rewrite Hperm. reflexivity.
    + split; [apply sublist_cons; exact Hl |]. split; [apply sublist_skip; exact Hg |].
      rewrite <- Permutation_middle, Hperm. reflexivity.
Qed.

Lemma partition_marked_all os l :
  (forall o, o ∈ l -> marked os o) -> partition_marked os l = inr (l, []).
Proof.
  induction l as [| c l IH]; intros Hall; simpl; [reflexivity |].
  destruct (Hall c) as (ob & Hob & Hm); [left |]. rewrite Hob, Hm.
  rewrite IH by (intros o Ho; apply Hall; right; exact Ho). reflexivity.
Qed.

Lemma agree_lookup_end os0 os c ob :
  agree os0 os -> os !! c = Some ob ->
  exists ob0, os0 !! c = Some ob0 /\ set_mark false ob0 = set_mark false ob.
Proof.
  intros Hag Hc. specialize (Hag c). rewrite Hc in Hag.
  destruct (os0 !! c) as [ob0 |]; [| discriminate].
  exists ob0. split; [reflexivity |]. simpl in Hag. congruence.
Qed.

(** A collection of a registry that is not empty, phase by phase. *)
Lemma gc_collect_run s :
  well_formed s -> all_objects s <> [] ->
  exists os2 live garbage s',
    gc_collect s = Ok tt s' /\
    agree (objs s) os2 /\
    (forall o, marked os2 o <-> reachable s o) /\
    partition_marked os2 (all_objects s) = inr (live, garbage) /\
    (forall o, o ∈ live <-> o ∈ all_objects s /\ reachable s o) /\
    (forall o, o ∈ garbage <-> o ∈ all_objects s /\ ~ reachable s o) /\
    NoDup live /\ NoDup garbage /\
    all_objects s' = live /\
    gc_counter s' = Z.max (Z.of_nat (length live) * 2) 1024 /\
    current s' = current s /\
    trace s' = trace s ++ finalise_trace os2 garbage ++ map EvDelete garbage /\
    (forall o, o ∈ garbage -> objs s' !! o = None) /\
    (forall o, o ∉ garbage -> objs s' !! o = os2 !! o) /\
    (forall a p, ptrs s' !! a = Some p <->
       ptrs s !! a = Some p /\
       forall g ob, g ∈ garbage -> os2 !! g = Some ob -> ~ (g <= a < end_ ob)).
Proof.
  intros Hwf Hne. unfold gc_collect. unfold bind at 1. unfold get_state.
  rewrite bool_decide_eq_false_2 by exact Hne.
  destruct (phase1_establishes s Hwf) as (os1 & pending & Hp1 & Hinv1).
  unfold bind at 1. rewrite Hp1. unfold lift at 1. simpl.
  destruct (phase2_spec s Hwf (phase2_fuel (ptrs s) os1 pending) os1 pending Hinv1)
    as (os2 & Hp2 & Hinv2).
  { unfold phase2_fuel. pose proof (unmarked_count_le_size os1).
    apply Nat.add_le_mono_l, Nat.mul_le_mono_r. assumption. }
  unfold bind at 1. rewrite Hp2. unfold lift at 1.
  assert (Hreg2 : forall o, o ∈ all_objects s -> is_Some (os2 !! o)).
  { intros o Ho. apply (wf_registered s Hwf) in Ho as [ob0 Hob0].
    destruct (agree_lookup_inv _ _ o ob0 (mi_agree s _ _ Hinv2) Hob0) as (ob & Hob & _).
    eauto. }
  destruct (partition_marked_spec os2 (all_objects s) Hreg2)
    as (live & garbage & Hp3 & Hlive & Hgarbage & Hnodup).
  destruct (Hnodup (wf_nodup s Hwf)) as [Hndl Hndg].
  unfold bind at 1. rewrite Hp3. unfold lift at 1. simpl.
  unfold bind at 1 2 3. unfold modify at 1 2 3.
  set (sm := set_gc_counter _ _).
  assert (Hgl : forall o, o ∈ garbage -> is_Some (objs sm !! o)).
  { intros o Ho. simpl. apply Hreg2, Hgarbage, Ho. }
  unfold bind at 1. rewrite (finalise_trace_run garbage sm Hgl).
  destruct (free_run garbage (add_trace (finalise_trace (objs sm) garbage) sm) Hndg Hgl)
    as (s' & Hp5 & Hall & Htr & Hgone & Hkept).
  destruct (free_run_ptrs garbage (add_trace (finalise_trace (objs sm) garbage) sm)
              Hndg Hgl) as (s'' & Hp5' & Hcur & Hcnt & Hptrs).
  assert (s'' = s') as -> by congruence.
  exists os2, live, garbage, s'. split; [exact Hp5 |].
  split; [exact (mi_agree s _ _ Hinv2) |].
  split; [intros o; apply (mark_inv_done s os2 o Hinv2) |].
  split; [exact Hp3 |].
  split; [intros o; rewrite Hlive, (mark_inv_done s os2 o Hinv2); tauto |].
  split; [intros o; rewrite Hgarbage, (mark_inv_done s os2 o Hinv2); tauto |].
  split; [exact Hndl |]. split; [exact Hndg |].
  split; [rewrite Hall; reflexivity |].
  split; [rewrite Hcnt; reflexivity |].
  split; [rewrite Hcur; reflexivity |].
  split; [rewrite Htr; simpl; rewrite <- app_assoc; reflexivity |].
  split; [exact Hgone |]. split; [exact Hkept |]. exact Hptrs.
Qed.

(** *** The heap after a collection *)

(** The layout that the constructors establish: the handles in the list of
    an object lie in its payload (that is what makes them heap handles), and
    the blocks of two objects do not overlap. *)
Record laid_out (s : State) : Prop := {
  lo_embedded : forall o ob l a p,
    objs s !! o = Some ob -> handle_list (ptrs s) (first ob) l -> (a, p) ∈ l ->
    start o <= a < end_ ob;
  lo_disjoint : forall o1 ob1 o2 ob2,
    objs s !! o1 = Some ob1 -> objs s !! o2 = Some ob2 -> o1 <> o2 ->
    end_ ob1 <= o2 \/ end_ ob2 <= o1
}.

Lemma handle_list_transfer ps ps' j l :
  handle_list ps j l -> (forall a p, (a, p) ∈ l -> ps' !! a = Some p) ->
  handle_list ps' j l.
Proof.
  induction 1 as [| a p l Hp Hl IH]; intros Hsame; constructor.
  - apply Hsame. left.
  - apply IH. intros a' p' Hin. apply Hsame. right. exact Hin.
Qed.

Lemma handle_list_children ps ob l :
  handle_list ps (first ob) l -> children ps ob = referents (map snd l).
Proof. intros Hl. unfold children. rewrite (handle_list_embedded ps ob l Hl). reflexivity. Qed.

Section survivors.

(** The state [s'] that a collection of [s] ends in, as [gc_collect_run]
    describes it. *)
Context (s s' : State) (os2 : gmap Z gc_object) (live garbage : list Z).
Context (Hwf : well_formed s) (Hlo : laid_out s).
Context (Hagree : agree (objs s) os2).
Context (Hmarked : forall o, marked os2 o <-> reachable s o).
Context (Hlive : forall o, o ∈ live <-> o ∈ all_objects s /\ reachable s o).
Context (Hgarbage : forall o, o ∈ garbage <-> o ∈ all_objects s /\ ~ reachable s o).
Context (Hndl : NoDup live).
Context (Hall : all_objects s' = live).
Context (Hgone : forall o, o ∈ garbage -> objs s' !! o = None).
Context (Hkept : forall o, o ∉ garbage -> objs s' !! o = os2 !! o).
Context (Hptrs : forall a p, ptrs s' !! a = Some p <->
                   ptrs s !! a = Some p /\
                   forall g ob, g ∈ garbage -> os2 !! g = Some ob -> ~ (g <= a < end_ ob)).

Lemma survivor_header o ob :
  objs s' !! o = Some ob ->
  o ∈ live /\ reachable s o /\ mark ob = true /\ os2 !! o = Some ob /\
  exists ob0, objs s !! o = Some ob0 /\ set_mark false ob0 = set_mark false ob.
Proof.
  intros Hob.
  assert (Hng : o ∉ garbage).
  { intros Hg. rewrite (Hgone o Hg) in Hob. discriminate. }
  rewrite (Hkept o Hng) in Hob.
  destruct (agree_lookup_end _ _ o ob Hagree Hob) as (ob0 & Hob0 & Heq).
  assert (Hin : o ∈ all_objects s) by (apply (wf_registered s Hwf); eauto).
  assert (Hm : mark ob = true).
  { destruct (mark ob) eqn:Hm; [reflexivity |]. exfalso. apply Hng, Hgarbage.
    split; [exact Hin |]. intros Hr. apply Hmarked in Hr as (ob' & Hob' & Hm').
    congruence. }
  assert (Hr : reachable s o) by (apply Hmarked; exists ob; done).
  split; [apply Hlive; done |]. split; [exact Hr |]. split; [exact Hm |].
  split; [exact Hob | eauto].
Qed.

Lemma live_header o :
  o ∈ live -> exists ob, objs s' !! o = Some ob.
Proof.
  intros Ho. apply Hlive in Ho as [Hin Hr].
  assert (Hng : o ∉ garbage) by (intros Hg; apply Hgarbage in Hg as [_ Hn]; contradiction).
  rewrite (Hkept o Hng).
  apply (wf_registered s Hwf) in Hin as [ob0 Hob0].
  destruct (agree_lookup_inv _ _ o ob0 Hagree Hob0) as (ob & Hob & _). eauto.
Qed.

Lemma survivor_list o ob ob0 l :
  objs s' !! o = Some ob -> objs s !! o = Some ob0 ->
  handle_list (ptrs s) (first ob0) l -> handle_list (ptrs s') (first ob0) l.
Proof.
  intros Hob Hob0 Hl. apply (handle_list_transfer (ptrs s)); [exact Hl |].
  intros a p Hin. apply Hptrs. split; [apply (handle_list_live _ _ _ a p Hl Hin) |].
  intros g obg Hg Hobg.
  pose proof (lo_embedded s Hlo o ob0 l a p Hob0 Hl Hin) as Hrange.
  destruct (agree_lookup_end _ _ g obg Hagree Hobg) as (obg0 & Hobg0 & Heq).
  assert (Hend : end_ obg0 = end_ obg) by (injection Heq; done).
  assert (Hne : o <> g).
  { intros ->. rewrite (Hgone g Hg) in Hob. discriminate. }
  destruct (lo_disjoint s Hlo o ob0 g obg0 Hob0 Hobg0 Hne) as [Hd | Hd];
    unfold start, sizeof_gc_object in Hrange; lia.
Qed.

Lemma survivor_children o ob :
  objs s' !! o = Some ob ->
  exists ob0 l, objs s !! o = Some ob0 /\ set_mark false ob0 = set_mark false ob /\
                handle_list (ptrs s) (first ob0) l /\
                handle_list (ptrs s') (first ob) l /\
                children (ptrs s') ob = children (ptrs s) ob0.
Proof.
  intros Hob. destruct (survivor_header o ob Hob) as (_ & _ & _ & _ & ob0 & Hob0 & Heq).
  destruct (wf_lists s Hwf o ob0 Hob0) as [l Hl].
  assert (Hfirst : first ob = first ob0) by (injection Heq; done).
  pose proof (survivor_list o ob ob0 l Hob Hob0 Hl) as Hl'.
  exists ob0, l. split; [exact Hob0 |]. split; [exact Heq |]. split; [exact Hl |].
  rewrite Hfirst. split; [exact Hl' |].
  rewrite (handle_list_children (ptrs s) ob0 l Hl).
  unfold children, embedded. rewrite Hfirst.
  change (walk (S (size (ptrs s'))) (ptrs s') (first ob0))
    with (embedded (ptrs s') ob0).
  rewrite (handle_list_embedded (ptrs s') ob0 l Hl'). reflexivity.
Qed.

Lemma survivors_reachable o : reachable s o -> reachable s' o.
Proof.
  induction 1 as [a (ob0 & Hob0 & Hpos) | a b Ha IH (ob0 & Hob0 & Hb)].
  - assert (Hr : reachable s a) by (apply reachable_root; exists ob0; done).
    destruct (live_header a) as [ob Hob].
    { apply Hlive. split; [apply (wf_registered s Hwf); eauto | exact Hr]. }
    destruct (survivor_header a ob Hob) as (_ & _ & _ & _ & ob0' & Hob0' & Heq).
    assert (ob0' = ob0) as -> by congruence.
    apply reachable_root. exists ob. split; [exact Hob |].
    replace (root_ref_cnt ob) with (root_ref_cnt ob0) by (injection Heq; done).
    exact Hpos.
  - destruct (live_header a) as [ob Hob].
    { apply Hlive. split; [apply (wf_registered s Hwf); eauto | exact Ha]. }
    destruct (survivor_children a ob Hob) as (ob0' & l & Hob0' & _ & _ & _ & Hch).
    assert (ob0' = ob0) as -> by congruence.
    apply (reachable_step s' a b IH). exists ob. split; [exact Hob |].
    rewrite Hch. exact Hb.
Qed.

Lemma survivors_well_formed : well_formed s'.
Proof.
  split.
  - rewrite Hall. exact Hndl.
  - intros o. rewrite Hall. split.
    + intros Ho. destruct (live_header o Ho) as [ob Hob]. eauto.
    + intros [ob Hob]. apply (survivor_header o ob Hob).
  - intros o ob Hob.
    destruct (survivor_children o ob Hob) as (ob0 & l & _ & _ & _ & Hl' & _). eauto.
  - intros a b (ob & Hob & Hb).
    destruct (survivor_header a ob Hob) as (_ & Hra & _).
    destruct (survivor_children a ob Hob) as (ob0 & l & Hob0 & _ & _ & _ & Hch).
    rewrite Hch in Hb.
    assert (Hrb : reachable s b).
    { apply (reachable_step s a b Hra). exists ob0. done. }
    destruct (live_header b) as [obb Hobb]; [| eauto].
    apply Hlive. split; [| exact Hrb].
    apply (wf_registered s Hwf), (reachable_live s b Hwf Hrb).
  - intros o ob Hob.
    destruct (survivor_header o ob Hob) as (_ & _ & _ & _ & ob0 & Hob0 & Heq).
    replace (root_ref_cnt ob) with (root_ref_cnt ob0) by (injection Heq; done).
    apply (wf_counts s Hwf o ob0 Hob0).
Qed.

Lemma survivors_laid_out : laid_out s'.
Proof.
  split.
  - intros o ob l' a p Hob Hl' Hin.
    destruct (survivor_children o ob Hob) as (ob0 & l & Hob0 & Heq & Hl & Hl0 & _).
    assert (l' = l) as -> by (apply (handle_list_det _ _ _ Hl' _ Hl0)).
    replace (end_ ob) with (end_ ob0) by (injection Heq; done).
    apply (lo_embedded s Hlo o ob0 l a p Hob0 Hl Hin).
  - intros o1 ob1 o2 ob2 H1 H2 Hne.
    destruct (survivor_header o1 ob1 H1) as (_ & _ & _ & _ & ob10 & H10 & Heq1).
    destruct (survivor_header o2 ob2 H2) as (_ & _ & _ & _ & ob20 & H20 & Heq2).
    replace (end_ ob1) with (end_ ob10) by (injection Heq1; done).
    replace (end_ ob2) with (end_ ob20) by (injection Heq2; done).
    apply (lo_disjoint s Hlo o1 ob10 o2 ob20 H10 H20 Hne).
Qed.

End survivors.

(** X14: a collection leaves the heap in order.  In a well-formed and
    well laid out state [gc_collect] returns, and the state it ends in is
    well-formed and well laid out again: the registry holds exactly the live
    headers, the handle lists of the survivors are intact, no handle in the
    list of a survivor refers to a freed object, and (when the registry was
    not empty) every survivor is still reachable from the roots. *)
Theorem gc_collect_preserves_well_formed s :
  well_formed s -> laid_out s ->
  exists s',
    gc_collect s = Ok tt s' /\ well_formed s' /\ laid_out s' /\
    (all_objects s <> [] -> forall o, is_Some (objs s' !! o) -> reachable s' o).
Proof.
  intros Hwf Hlo. destruct (decide (all_objects s = [])) as [Hnil | Hne].
  - exists s. split; [| split; [exact Hwf | split; [exact Hlo | contradiction]]].
    unfold gc_collect. unfold bind at 1. unfold get_state.
    rewrite bool_decide_eq_true_2 by exact Hnil. reflexivity.
  - destruct (gc_collect_run s Hwf Hne)
      as (os2 & live & garbage & s' & Hrun & Hag & Hm & _ & Hlive & Hgarbage & Hndl & _ &
          Hall & _ & _ & _ & Hgone & Hkept & Hptrs).
    exists s'. split; [exact Hrun |].
    split; [apply (survivors_well_formed s s' os2 live garbage); assumption |].
    split; [apply (survivors_laid_out s s' os2 live garbage); assumption |].
    intros _ o [ob Hob].
    apply (survivors_reachable s s' os2 live garbage); try assumption.
    apply (survivor_header s s' os2 live garbage Hwf Hag Hm Hlive Hgarbage Hgone Hkept
             o ob Hob).
Qed.

(** X15: a second collection right after a first one changes nothing: it
    runs no destructor, frees nothing, and ends in the very state it started
    in. *)
Theorem gc_collect_twice_changes_nothing s s' :
  well_formed s -> laid_out s ->
  gc_collect s = Ok tt s' -> gc_collect s' = Ok tt s'.
Proof.
  intros Hwf Hlo Hrun. destruct (decide (all_objects s = [])) as [Hnil | Hne].
  { assert (s' = s) as ->; [| exact Hrun].
    revert Hrun. unfold gc_collect. unfold bind at 1. unfold get_state.
    rewrite bool_decide_eq_true_2 by exact Hnil. intros [= <-]. reflexivity. }
  destruct (gc_collect_run s Hwf Hne)
    as (os2 & live & garbage & s1 & Hrun1 & Hag & Hm & _ & Hlive & Hgarbage & Hndl & _ &
        Hall & Hcnt & _ & _ & Hgone & Hkept & Hptrs).
  assert (s1 = s') as -> by congruence.
  pose proof (survivors_well_formed s s' os2 live garbage Hwf Hlo Hag Hm Hlive Hgarbage
                Hndl Hall Hgone Hkept Hptrs) as Hwf'.
  destruct (decide (all_objects s' = [])) as [Hnil' | Hne'].
  { unfold gc_collect. unfold bind at 1. unfold get_state.
    rewrite bool_decide_eq_true_2 by exact Hnil'. reflexivity. }
  destruct (gc_collect_run s' Hwf' Hne')
    as (os3 & live' & garbage' & s'' & Hrun2 & Hag' & Hm' & Hpart' & _ & Hgarbage' & _ & _ &
        Hall' & Hcnt' & Hcur' & Htr' & _ & Hkept' & Hptrs').
  rewrite Hrun2. f_equal.
  assert (Hreach : forall o, o ∈ all_objects s' -> reachable s' o).
  { intros o Ho. rewrite Hall in Ho. apply Hlive in Ho as [_ Hr].
    apply (survivors_reachable s s' os2 live garbage); assumption. }
  rewrite (partition_marked_all os3 (all_objects s')) in Hpart'
    by (intros o Ho; apply Hm', Hreach, Ho).
  injection Hpart' as <- <-.
  assert (Hobjs : objs s'' = objs s').
  { apply map_eq. intros o. rewrite (Hkept' o) by apply not_elem_of_nil.
    destruct (objs s' !! o) as [ob |] eqn:Hob.
    - destruct (agree_lookup_inv _ _ o ob Hag' Hob) as (ob' & Hob' & _).
      rewrite Hob'. f_equal.
      pose proof (Hag' o) as Heq. rewrite Hob, Hob' in Heq. simpl in Heq.
      destruct (survivor_header s s' os2 live garbage Hwf Hag Hm Hlive Hgarbage Hgone Hkept
                  o ob Hob) as (Hin & _ & Hmark & _).
      assert (Hmark' : mark ob' = true).
      { destruct (proj2 (Hm' o)) as (ob'' & Hob'' & Hm'').
        - apply Hreach. rewrite Hall. exact Hin.
        - congruence. }
      injection Heq as Heq. destruct ob, ob'. unfold set_mark in Heq. simpl in *.
      congruence.
    - pose proof (Hag' o) as Heq. rewrite Hob in Heq.
      destruct (os3 !! o); [discriminate | reflexivity]. }
  assert (Hps : ptrs s'' = ptrs s').
  { apply map_eq. intros a. destruct (ptrs s' !! a) as [p |] eqn:Hp.
    - apply Hptrs'. split; [exact Hp |]. intros g ob Hg. apply elem_of_nil in Hg. contradiction.
    - destruct (ptrs s'' !! a) as [p |] eqn:Hp'; [| reflexivity].
      apply Hptrs' in Hp' as [Hp' _]. congruence. }
  assert (Htrace : trace s'' = trace s').
  { rewrite Htr'. simpl. apply app_nil_r. }
  assert (Hcounter : gc_counter s'' = gc_counter s').
  { rewrite Hcnt', Hcnt, Hall. reflexivity. }
  destruct s', s''. simpl in *. congruence.
Qed.

(** X16: the order of a collection.  The survivors stay in the registry in
    the order they had, the garbage is finalised in registry order, and every
    destructor callback has run before the storage of any garbage object is
    given back: the trace grows by the callbacks with what they destroy,
    which contain no [operator delete], followed by the deletions. *)
Theorem gc_collect_finalises_before_freeing s :
  well_formed s ->
  exists s' garbage callbacks,
    gc_collect s = Ok tt s' /\
    sublist (all_objects s') (all_objects s) /\
    sublist garbage (all_objects s) /\
    all_objects s' ++ garbage ≡ₚ all_objects s /\
    trace s' = trace s ++ callbacks ++ map EvDelete garbage /\
    destructor_calls callbacks = garbage /\
    Forall (fun ev => ~ is_delete ev) callbacks.
Proof.
  intros Hwf. destruct (decide (all_objects s = [])) as [Hnil | Hne].
  - exists s, [], []. split; [| split; [| split; [| split; [| split; [| split]]]]].
    + unfold gc_collect. unfold bind at 1. unfold get_state.
      rewrite bool_decide_eq_true_2 by exact Hnil. reflexivity.
    + reflexivity.
    + apply sublist_nil_l.
    + rewrite app_nil_r. reflexivity.
    + simpl. rewrite app_nil_r. reflexivity.
    + reflexivity.
    + constructor.
  - destruct (gc_collect_run s Hwf Hne)
      as (os2 & live & garbage & s' & Hrun & Hag & _ & Hpart & _ & Hgarbage & _ & _ &
          Hall & _ & _ & Htr & _).
    destruct (partition_marked_sublist _ _ _ _ Hpart) as (Hsl & Hsg & Hperm).
    exists s', garbage, (finalise_trace os2 garbage).
    split; [exact Hrun |]. rewrite Hall.
    split; [exact Hsl |]. split; [exact Hsg |]. split; [exact Hperm |].
    split; [exact Htr |]. split; [| apply finalise_trace_no_delete].
    apply finalise_trace_calls. intros o Ho. apply Hgarbage in Ho as [Hin _].
    apply (wf_registered s Hwf) in Hin as [ob0 Hob0].
    destruct (agree_lookup_inv _ _ o ob0 Hag Hob0) as (ob & Hob & _). eauto.
Qed.

(** *** Root references are counted *)

#[local] Instance PtrType_eq_dec : EqDecision PtrType.
Proof. solve_decision. Defined.

(** A ROOT handle that refers to [o]. *)
Definition root_refers (o : Z) (p : Ptr) : Prop := type p = ROOT /\ object p = Some o.

#[local] Instance root_refers_dec o p : Decision (root_refers o p).
Proof. unfold root_refers. apply _. Defined.

(** The number of live ROOT handles that refer to [o]. *)
Definition root_units (o : Z) (ps : gmap Z Ptr) : Z :=
  Z.of_nat (count_values (root_refers o) ps).

Definition root_unit (o : Z) (p : Ptr) : Z :=
  match type p, object p with
  | ROOT, Some a => if decide (a = o) then 1 else 0
  | _, _ => 0
  end.

Lemma root_unit_indicator o p : Z.of_nat (indicator (root_refers o) p) = root_unit o p.
Proof.
  unfold indicator, root_unit. case_decide as H; unfold root_refers in H.
  - destruct H as [-> ->]. rewrite decide_True by reflexivity. reflexivity.
  - destruct (type p) eqn:Ht; [| reflexivity].
    destruct (object p) as [a |] eqn:Ho; [| reflexivity].
    case_decide as Ha; [| reflexivity]. subst a. destruct H. done.
Qed.

Lemma root_units_insert_fresh o (ps : gmap Z Ptr) k v :
  ps !! k = None -> root_units o (<[k:=v]> ps) = root_units o ps + root_unit o v.
Proof.
  intros Hk. unfold root_units. rewrite <- root_unit_indicator.
  rewrite (count_values_insert_fresh _ ps k v Hk). lia.
Qed.

Lemma root_units_insert o (ps : gmap Z Ptr) k v old :
  ps !! k = Some old ->
  root_units o (<[k:=v]> ps) = root_units o ps - root_unit o old + root_unit o v.
Proof.
  intros Hk. unfold root_units. rewrite <- !root_unit_indicator.
  pose proof (count_values_insert (root_refers o) ps k v old Hk). lia.
Qed.

Lemma root_units_delete o (ps : gmap Z Ptr) k v :
  ps !! k = Some v -> root_units o (delete k ps) = root_units o ps - root_unit o v.
Proof.
  intros Hk. unfold root_units. rewrite <- root_unit_indicator.
  rewrite (count_values_delete _ ps k v Hk). lia.
Qed.

Lemma root_units_range o (ps : gmap Z Ptr) : 0 <= root_units o ps <= Z.of_nat (size ps).
Proof. unfold root_units. pose proof (count_values_le_size (root_refers o) ps). lia. Qed.

Lemma root_unit_range o p : 0 <= root_unit o p <= 1.
Proof. unfold root_unit. destruct (type p), (object p); try case_decide; lia. Qed.

Lemma root_units_lookup o (ps : gmap Z Ptr) k p :
  ps !! k = Some p -> root_unit o p <= root_units o ps.
Proof.
  intros Hk. pose proof (root_units_delete o ps k p Hk).
  pose proof (root_units_range o (delete k ps)). lia.
Qed.

(** Every handle refers to a live header, and the [root_ref_cnt] of every
    header is the number of live ROOT handles that refer to it. *)
Record counted (os : gmap Z gc_object) (ps : gmap Z Ptr) : Prop := {
  ct_live : forall h p o, ps !! h = Some p -> object p = Some o -> is_Some (os !! o);
  ct_count : forall o ob, os !! o = Some ob -> root_ref_cnt ob = root_units o ps
}.

(** The same for a state, whose object under construction is live. *)
Record root_counted (s : State) : Prop := {
  rc_counted : counted (objs s) (ptrs s);
  rc_current : forall cur, current s = Some cur -> is_Some (objs s !! cur)
}.

Lemma counted_same os ps ps' :
  counted os ps ->
  (forall o, root_units o ps' = root_units o ps) ->
  (forall h p o, ps' !! h = Some p -> object p = Some o -> is_Some (os !! o)) ->
  counted os ps'.
Proof.
  intros Hc Hu Hl. split; [exact Hl |].
  intros o ob Hob. rewrite Hu. apply (ct_count _ _ Hc o ob Hob).
Qed.

Lemma counted_first os ps c cob f :
  counted os ps -> os !! c = Some cob -> counted (<[c := set_first f cob]> os) ps.
Proof.
  intros Hc Hcob. split.
  - intros h p o Hh Ho. destruct (decide (o = c)) as [-> | Hne].
    + rewrite lookup_insert_eq. eauto.
    + rewrite lookup_insert_ne by done. apply (ct_live _ _ Hc h p o Hh Ho).
  - intros o ob Hob. destruct (decide (o = c)) as [-> | Hne].
    + rewrite lookup_insert_eq in Hob. injection Hob as <-. simpl.
      apply (ct_count _ _ Hc c cob Hcob).
    + rewrite lookup_insert_ne in Hob by done. apply (ct_count _ _ Hc o ob Hob).
Qed.

(** A handle that starts or stops referring to [a] as a ROOT, with the
    count of [a] moved by [d], which is 1 or -1. *)
Lemma counted_shift os ps ps' a ob d :
  counted os ps -> os !! a = Some ob ->
  (forall o, root_units o ps' = root_units o ps + (if decide (o = a) then d else 0)) ->
  (forall h p o, ps' !! h = Some p -> object p = Some o -> is_Some (os !! o)) ->
  0 <= root_units a ps + d < 2 ^ 31 ->
  counted (<[a := set_root_ref_cnt (wrap_int (root_ref_cnt ob + d)) ob]> os) ps'.
Proof.
  intros Hc Hob Hu Hl Hbound. split.
  - intros h p o Hh Ho. destruct (decide (o = a)) as [-> | Hne].
    + rewrite lookup_insert_eq. eauto.
    + rewrite lookup_insert_ne by done. apply (Hl h p o Hh Ho).
  - intros o ob' Hob'. rewrite Hu. case_decide as Ho.
    + subst o. rewrite lookup_insert_eq in Hob'. injection Hob' as <-. simpl.
      rewrite (ct_count _ _ Hc a ob Hob). apply wrap_int_small. lia.
    + rewrite lookup_insert_ne in Hob' by done.
      rewrite (ct_count _ _ Hc o ob' Hob'). lia.
Qed.

Lemma inc_root_run a ob s :
  objs s !! a = Some ob ->
  inc_root a s =
  Ok tt (set_objs (insert a (set_root_ref_cnt (wrap_int (root_ref_cnt ob + 1)) ob)) s).
Proof. intros Hob. unfold inc_root. unfold_tc. rewrite Hob. reflexivity. Qed.

Lemma dec_root_run a ob s :
  objs s !! a = Some ob ->
  dec_root a s =
  Ok tt (set_objs (insert a (set_root_ref_cnt (wrap_int (root_ref_cnt ob - 1)) ob)) s).
Proof. intros Hob. unfold dec_root. unfold_tc. rewrite Hob. reflexivity. Qed.

(** Where a new handle is classified, in a state whose object under
    construction is live. *)
Lemma classify_cases this s :
  root_counted s ->
  classify this s = Ok ROOT s \/
  (classify this s = Ok GC_HEAP s /\
   exists cur cob, current s = Some cur /\ objs s !! cur = Some cob /\
                   start cur <= this < end_ cob).
Proof.
  intros Hrc. unfold classify. unfold_tc.
  destruct (current s) as [cur |] eqn:Hcur; [| left; reflexivity].
  destruct (rc_current s Hrc cur Hcur) as [cob Hcob]. rewrite Hcob.
  destruct (Z.leb_spec (start cur) this); simpl; [| left; reflexivity].
  destruct (Z.ltb_spec this (end_ cob)); [| left; reflexivity].
  right. split; [reflexivity |]. exists cur, cob. done.
Qed.

(** The base constructor, at a free address. *)
Lemma gc_base_ptr_new_counted this x s :
  root_counted s -> Z.of_nat (size (ptrs s)) + 1 < 2 ^ 31 ->
  ptrs s !! this = None ->
  (forall a, x = Some a -> is_Some (objs s !! a)) ->
  exists s' p,
    gc_base_ptr_new this x s = Ok tt s' /\ root_counted s' /\
    ptrs s' = <[this := p]> (ptrs s) /\ object p = x /\ ptr p = None /\
    current s' = current s /\ dom (objs s') = dom (objs s).
Proof.
  intros Hrc Hbound Hfree Hx. pose proof (rc_counted s Hrc) as Hc.
  unfold gc_base_ptr_new. unfold bind at 1.
  destruct (classify_cases this s Hrc) as [Hcl | (Hcl & cur & cob & Hcur & Hcob & _)];
    rewrite Hcl.
  - (* a ROOT *)
    destruct x as [a |].
    + destruct (Hx a eq_refl) as [ob Hob].
      unfold bind. unfold store_ptr, modify.
      rewrite (inc_root_run a ob) by exact Hob.
      eexists _, _. split; [reflexivity |]. simpl.
      split; [| split; [reflexivity |]; split; [reflexivity |]; split; [reflexivity |];
                split; [reflexivity |]].
      * split; simpl.
        -- apply (counted_shift _ (ptrs s)); [exact Hc | exact Hob | | |].
           ++ intros o. rewrite root_units_insert_fresh by exact Hfree.
              unfold root_unit. simpl. repeat case_decide; congruence || lia.
           ++ intros h p o Hh Ho. destruct (decide (h = this)) as [-> | Hne].
              ** rewrite lookup_insert_eq in Hh. injection Hh as <-. simpl in Ho.
                 injection Ho as <-. eauto.
              ** rewrite lookup_insert_ne in Hh by done. apply (ct_live _ _ Hc h p o Hh Ho).
           ++ pose proof (root_units_range a (ptrs s)). lia.
        -- intros c Hcur. destruct (decide (c = a)) as [-> | Hne].
           ++ rewrite lookup_insert_eq. eauto.
           ++ rewrite lookup_insert_ne by done. apply (rc_current s Hrc c Hcur).
      * apply set_eq. intros o. rewrite !elem_of_dom.
        destruct (decide (o = a)) as [-> | Hne].
        -- rewrite lookup_insert_eq. split; eauto.
        -- rewrite lookup_insert_ne by done. reflexivity.
    + unfold_tc. eexists _, _. split; [reflexivity |]. simpl.
      split; [| done]. split; simpl; [| apply (rc_current s Hrc)].
      apply (counted_same _ (ptrs s)); [exact Hc | |].
      * intros o. rewrite root_units_insert_fresh by exact Hfree. unfold root_unit. simpl. lia.
      * intros h p o Hh Ho. destruct (decide (h = this)) as [-> | Hne].
        -- rewrite lookup_insert_eq in Hh. injection Hh as <-. discriminate.
        -- rewrite lookup_insert_ne in Hh by done. apply (ct_live _ _ Hc h p o Hh Ho).
  - (* a heap handle, pushed on the list of the object under construction *)
    unfold link_heap_ptr. unfold_tc. rewrite Hcur. simpl. rewrite Hcob. simpl.
    eexists _, _. split; [reflexivity |]. simpl.
    split; [| split; [reflexivity |]; split; [reflexivity |]; split; [reflexivity |];
              split; [congruence |]].
    + split; simpl.
      * apply counted_first; [| exact Hcob].
        apply (counted_same _ (ptrs s)); [exact Hc | |].
        -- intros o. rewrite root_units_insert_fresh by exact Hfree.
           unfold root_unit. simpl. lia.
        -- intros h p o Hh Ho. destruct (decide (h = this)) as [-> | Hne].
           ++ rewrite lookup_insert_eq in Hh. injection Hh as <-. simpl in Ho.
              apply Hx, Ho.
           ++ rewrite lookup_insert_ne in Hh by done. apply (ct_live _ _ Hc h p o Hh Ho).
      * intros c Hc'. destruct (decide (c = cur)) as [-> | Hne].
        -- rewrite lookup_insert_eq. eauto.
        -- rewrite lookup_insert_ne by done. apply (rc_current s Hrc c Hc').
    + apply set_eq. intros o. rewrite !elem_of_dom.
      destruct (decide (o = cur)) as [-> | Hne].
      * rewrite lookup_insert_eq. split; eauto.
      * rewrite lookup_insert_ne by done. reflexivity.
Qed.

(** The count of the referent [x] of a ROOT handle moved by [d]. *)
Definition shift_root (d : Z) (x : option Z) (os : gmap Z gc_object) : gmap Z gc_object :=
  match x with
  | Some a =>
      match os !! a with
      | Some ob => <[a := set_root_ref_cnt (wrap_int (root_ref_cnt ob + d)) ob]> os
      | None => os
      end
  | None => os
  end.

Lemma shift_root_dom d x os o : is_Some (shift_root d x os !! o) <-> is_Some (os !! o).
Proof.
  unfold shift_root. destruct x as [a |]; [| reflexivity].
  destruct (os !! a) as [ob |] eqn:Hob; [| reflexivity].
  destruct (decide (o = a)) as [-> | Hne].
  - rewrite lookup_insert_eq, Hob. split; eauto.
  - rewrite lookup_insert_ne by done. reflexivity.
Qed.

(** A ROOT handle that turns from its referent to [x]. *)
Lemma counted_retarget os ps this p x :
  counted os ps -> ps !! this = Some p -> type p = ROOT ->
  (forall a, x = Some a -> is_Some (os !! a)) ->
  Z.of_nat (size ps) + 1 < 2 ^ 31 ->
  counted (shift_root 1 x (shift_root (-1) (object p) os)) (<[this := set_object x p]> ps).
Proof.
  intros Hc Hp Hty Hx Hbound.
  assert (Hsz : Z.of_nat (size (<[this := set_object None p]> ps)) = Z.of_nat (size ps)).
  { rewrite map_size_insert_Some by eauto. reflexivity. }
  assert (H1 : counted (shift_root (-1) (object p) os) (<[this := set_object None p]> ps)).
  { unfold shift_root. destruct (object p) as [a |] eqn:Hobj.
    - destruct (ct_live _ _ Hc this p a Hp Hobj) as [ob Hob]. rewrite Hob.
      apply (counted_shift _ ps); [exact Hc | exact Hob | | |].
      + intros o. rewrite (root_units_insert o ps this _ p Hp).
        unfold root_unit. simpl. rewrite Hty, Hobj. repeat case_decide; congruence || lia.
      + intros h q o Hh Ho. destruct (decide (h = this)) as [-> | Hne].
        * rewrite lookup_insert_eq in Hh. injection Hh as <-. discriminate.
        * rewrite lookup_insert_ne in Hh by done. apply (ct_live _ _ Hc h q o Hh Ho).
      + pose proof (root_units_lookup a ps this p Hp) as Hle.
        unfold root_unit in Hle. rewrite Hty, Hobj, decide_True in Hle by reflexivity.
        pose proof (root_units_range a ps). lia.
    - replace (<[this := set_object None p]> ps) with ps; [exact Hc |].
      symmetry. apply insert_id. rewrite Hp. f_equal.
      destruct p; simpl in *; subst; reflexivity. }
  replace (<[this := set_object x p]> ps)
    with (<[this := set_object x p]> (<[this := set_object None p]> ps))
    by apply insert_insert_eq.
  set (os1 := shift_root (-1) (object p) os) in *.
  set (ps1 := <[this := set_object None p]> ps) in *.
  assert (Hp1 : ps1 !! this = Some (set_object None p)) by apply lookup_insert_eq.
  unfold shift_root at 1. destruct x as [a |].
  - assert (Ha : is_Some (os1 !! a)) by (apply shift_root_dom, Hx; reflexivity).
    destruct Ha as [ob Hob]. rewrite Hob.
    apply (counted_shift _ ps1); [exact H1 | exact Hob | | |].
    + intros o. rewrite (root_units_insert o ps1 this _ _ Hp1).
      unfold root_unit. simpl. rewrite Hty. repeat case_decide; congruence || lia.
    + intros h q o Hh Ho. destruct (decide (h = this)) as [-> | Hne].
      * rewrite lookup_insert_eq in Hh. injection Hh as <-. simpl in Ho. injection Ho as <-.
        apply shift_root_dom, Hx. reflexivity.
      * rewrite lookup_insert_ne in Hh by done.
        apply (ct_live _ _ H1 h q o Hh Ho).
    + pose proof (root_units_range a ps1). lia.
  - replace (<[this := set_object None p]> ps1) with ps1; [exact H1 |].
    symmetry. apply insert_id. exact Hp1.
Qed.

(** A handle that holds no root reference may point anywhere. *)
Lemma counted_store_plain os ps this p' :
  counted os ps ->
  (forall o, root_unit o p' = 0) ->
  (forall old o, ps !! this = Some old -> root_unit o old = 0) ->
  (forall a, object p' = Some a -> is_Some (os !! a)) ->
  counted os (<[this := p']> ps).
Proof.
  intros Hc Hnew Hold Hx. apply (counted_same _ ps); [exact Hc | |].
  - intros o. destruct (ps !! this) as [old |] eqn:Hp.
    + rewrite (root_units_insert o ps this p' old Hp), Hnew, (Hold old o eq_refl). lia.
    + rewrite (root_units_insert_fresh o ps this p' Hp), Hnew. lia.
  - intros h q o Hh Ho. destruct (decide (h = this)) as [-> | Hne].
    + rewrite lookup_insert_eq in Hh. injection Hh as <-. apply Hx, Ho.
    + rewrite lookup_insert_ne in Hh by done. apply (ct_live _ _ Hc h q o Hh Ho).
Qed.

(** The pointer that a handle shows does not count. *)
Lemma counted_display os ps this p d :
  counted os ps -> ps !! this = Some p -> counted os (<[this := set_ptr d p]> ps).
Proof.
  intros Hc Hp. apply (counted_same _ ps); [exact Hc | |].
  - intros o. rewrite (root_units_insert o ps this _ p Hp). unfold root_unit. simpl. lia.
  - intros h q o Hh Ho. destruct (decide (h = this)) as [-> | Hne].
    + rewrite lookup_insert_eq in Hh. injection Hh as <-. simpl in Ho.
      apply (ct_live _ _ Hc this p o Hp Ho).
    + rewrite lookup_insert_ne in Hh by done. apply (ct_live _ _ Hc h q o Hh Ho).
Qed.

Lemma store_display_counted this d s p :
  root_counted s -> ptrs s !! this = Some p ->
  exists s', store_display this d s = Ok tt s' /\ root_counted s' /\
             ptrs s' = <[this := set_ptr d p]> (ptrs s) /\ objs s' = objs s /\
             current s' = current s.
Proof.
  intros Hrc Hp. unfold store_display. unfold_tc. rewrite Hp.
  eexists. split; [reflexivity |]. simpl. split; [| done]. split; simpl.
  - apply counted_display; [apply (rc_counted s Hrc) | exact Hp].
  - apply (rc_current s Hrc).
Qed.

Lemma root_counted_intro s s' os ps :
  root_counted s -> counted os ps -> objs s' = os -> ptrs s' = ps ->
  current s' = current s ->
  (forall o, is_Some (objs s !! o) -> is_Some (os !! o)) ->
  root_counted s'.
Proof.
  intros Hrc Hc Ho Hp Hcur Hdom. split.
  - rewrite Ho, Hp. exact Hc.
  - intros cur Hc'. rewrite Ho. apply Hdom. apply (rc_current s Hrc cur). congruence.
Qed.

(** [reset], and with it the assignment of [nullptr]. *)
Lemma gc_base_ptr_reset_counted this s p :
  root_counted s -> Z.of_nat (size (ptrs s)) + 1 < 2 ^ 31 ->
  ptrs s !! this = Some p ->
  exists s', gc_base_ptr_reset this s = Ok tt s' /\ root_counted s' /\
             ptrs s' = <[this := set_object None p]> (ptrs s) /\
             current s' = current s.
Proof.
  intros Hrc Hbound Hp. pose proof (rc_counted s Hrc) as Hc.
  unfold gc_base_ptr_reset. unfold bind at 1. unfold load_ptr. rewrite Hp.
  destruct (type p) eqn:Hty.
  - pose proof (counted_retarget _ _ this p None Hc Hp Hty ltac:(discriminate) Hbound) as Hc'.
    simpl in Hc'. unfold shift_root in Hc'.
    destruct (object p) as [a |] eqn:Hobj.
    + destruct (ct_live _ _ Hc this p a Hp Hobj) as [ob Hob]. rewrite Hob in Hc'.
      unfold bind. unfold store_ptr, modify. rewrite (dec_root_run a ob) by exact Hob.
      eexists. split; [reflexivity |]. simpl. split; [| done].
      apply (root_counted_intro s _ _ _ Hrc Hc'); try reflexivity.
      intros o Ho. destruct (decide (o = a)) as [-> | Hne].
      * rewrite lookup_insert_eq. eauto.
      * rewrite lookup_insert_ne by done. exact Ho.
    + unfold_tc. eexists. split; [reflexivity |]. simpl. split; [| done].
      apply (root_counted_intro s _ _ _ Hrc Hc'); try reflexivity. auto.
  - unfold_tc. eexists. split; [reflexivity |]. simpl. split; [| done].
    eapply (root_counted_intro s _ _ _ Hrc); try reflexivity; [| auto].
    apply counted_store_plain; [exact Hc | | |].
    + intros o. unfold root_unit. simpl. rewrite Hty. reflexivity.
    + intros old o Hold. assert (old = p) as -> by congruence.
      unfold root_unit. rewrite Hty. reflexivity.
    + discriminate.
Qed.

(** The destructor. *)
Lemma gc_base_ptr_delete_counted this s p :
  root_counted s -> Z.of_nat (size (ptrs s)) + 1 < 2 ^ 31 ->
  ptrs s !! this = Some p ->
  exists s', gc_base_ptr_delete this s = Ok tt s' /\ root_counted s'.
Proof.
  intros Hrc Hbound Hp. pose proof (rc_counted s Hrc) as Hc.
  unfold gc_base_ptr_delete. unfold bind at 1. unfold load_ptr. rewrite Hp.
  destruct (type p) eqn:Hty; [| exists s; done].
  pose proof (counted_retarget _ _ this p None Hc Hp Hty ltac:(discriminate) Hbound) as Hc'.
  simpl in Hc'.
  assert (Hdel : forall os, counted os (<[this := set_object None p]> (ptrs s)) ->
                            counted os (delete this (ptrs s))).
  { intros os Hos. apply (counted_same _ _ _ Hos).
    - intros o. rewrite (root_units_delete o (ptrs s) this p Hp).
      rewrite (root_units_insert o (ptrs s) this _ p Hp). unfold root_unit at 3. simpl.
      rewrite Hty. lia.
    - intros h q o Hh Ho. apply lookup_delete_Some in Hh as [Hne Hh].
      apply (ct_live _ _ Hos h q o); [| exact Ho]. rewrite lookup_insert_ne by done. exact Hh. }
  apply Hdel in Hc'. unfold shift_root in Hc'.
  destruct (object p) as [a |] eqn:Hobj.
  - destruct (ct_live _ _ Hc this p a Hp Hobj) as [ob Hob]. rewrite Hob in Hc'.
    unfold bind. rewrite (dec_root_run a ob) by exact Hob. unfold modify.
    eexists. split; [reflexivity |].
    apply (root_counted_intro s _ _ _ Hrc Hc'); try reflexivity.
    intros o Ho. simpl. destruct (decide (o = a)) as [-> | Hne].
    + rewrite lookup_insert_eq. eauto.
    + rewrite lookup_insert_ne by done. exact Ho.
  - unfold_tc. eexists. split; [reflexivity |].
    apply (root_counted_intro s _ _ _ Hrc Hc'); try reflexivity. auto.
Qed.

(** A ROOT handle gives up its reference, turns to [x] and takes a
    reference there: the three steps of the assignments. *)
Lemma retarget_run this p x s :
  (forall a, object p = Some a -> is_Some (objs s !! a)) ->
  (forall a, x = Some a -> is_Some (objs s !! a)) ->
  (match object p with Some a => dec_root a | None => ret tt end ;;
   store_ptr this (set_object x p) ;;
   match x with Some a => inc_root a | None => ret tt end) s =
  Ok tt (mkState (shift_root 1 x (shift_root (-1) (object p) (objs s)))
                 (<[this := set_object x p]> (ptrs s))
                 (all_objects s) (gc_counter s) (current s) (trace s)).
Proof.
  intros Hold Hnew.
  assert (Hx : forall a, x = Some a ->
            is_Some (shift_root (-1) (object p) (objs s) !! a)).
  { intros a Ha. apply shift_root_dom, Hnew, Ha. }
  unfold shift_root at 1. unfold shift_root in Hx |- *.
  destruct (object p) as [a1 |].
  - destruct (Hold a1 eq_refl) as [ob1 Hob1]. rewrite Hob1 in Hx |- *.
    unfold bind at 1. rewrite (dec_root_run a1 ob1) by exact Hob1.
    unfold bind at 1. unfold store_ptr, modify. destruct x as [a2 |].
    + destruct (Hx a2 eq_refl) as [ob2 Hob2]. rewrite Hob2.
      rewrite (inc_root_run a2 ob2) by exact Hob2. reflexivity.
    + reflexivity.
  - unfold bind at 1. unfold ret at 1. unfold bind at 1. unfold store_ptr, modify.
    destruct x as [a2 |].
    + destruct (Hx a2 eq_refl) as [ob2 Hob2]. rewrite Hob2.
      rewrite (inc_root_run a2 ob2) by exact Hob2. reflexivity.
    + destruct s; reflexivity.
Qed.

Lemma retarget_counted this p x s s' :
  root_counted s -> Z.of_nat (size (ptrs s)) + 1 < 2 ^ 31 ->
  ptrs s !! this = Some p -> type p = ROOT ->
  (forall a, x = Some a -> is_Some (objs s !! a)) ->
  s' = mkState (shift_root 1 x (shift_root (-1) (object p) (objs s)))
               (<[this := set_object x p]> (ptrs s))
               (all_objects s) (gc_counter s) (current s) (trace s) ->
  root_counted s'.
Proof.
  intros Hrc Hbound Hp Hty Hx ->.
  apply (root_counted_intro s _ _ _ Hrc
           (counted_retarget _ _ this p x (rc_counted s Hrc) Hp Hty Hx Hbound));
    try reflexivity.
  intros o Ho. apply shift_root_dom, shift_root_dom, Ho.
Qed.

(** Copy assignment. *)
Lemma gc_base_ptr_assign_counted this o s p op :
  root_counted s -> Z.of_nat (size (ptrs s)) + 1 < 2 ^ 31 ->
  ptrs s !! this = Some p -> ptrs s !! o = Some op ->
  exists s', gc_base_ptr_assign this o s = Ok tt s' /\ root_counted s' /\
             (forall h, is_Some (ptrs s !! h) -> is_Some (ptrs s' !! h)).
Proof.
  intros Hrc Hbound Hp Ho. pose proof (rc_counted s Hrc) as Hc.
  unfold gc_base_ptr_assign. unfold bind at 1. unfold load_ptr at 1. rewrite Hp.
  unfold bind at 1. unfold load_ptr at 1. rewrite Ho.
  case_bool_decide as Heq; [exists s; done |].
  assert (Hkeep : forall h, is_Some (ptrs s !! h) ->
            is_Some (<[this := set_object (object op) p]> (ptrs s) !! h)).
  { intros h Hh. destruct (decide (h = this)) as [-> | Hne].
    - rewrite lookup_insert_eq. eauto.
    - rewrite lookup_insert_ne by done. exact Hh. }
  destruct (type p) eqn:Hty.
  - rewrite retarget_run.
    + eexists. split; [reflexivity |]. split; [| exact Hkeep].
      eapply (retarget_counted this p (object op) s); try eassumption; [| reflexivity].
      intros a Ha. apply (ct_live _ _ Hc o op a Ho Ha).
    + intros a Ha. apply (ct_live _ _ Hc this p a Hp Ha).
    + intros a Ha. apply (ct_live _ _ Hc o op a Ho Ha).
  - unfold_tc. eexists. split; [reflexivity |]. split; [| exact Hkeep].
    eapply (root_counted_intro s _ _ _ Hrc); try reflexivity; [| auto].
    apply counted_store_plain; [exact Hc | | |].
    + intros a. unfold root_unit. simpl. rewrite Hty. reflexivity.
    + intros old a Hold. assert (old = p) as -> by congruence.
      unfold root_unit. rewrite Hty. reflexivity.
    + simpl. intros a Ha. apply (ct_live _ _ Hc o op a Ho Ha).
Qed.

(** Move assignment. *)
Lemma gc_base_ptr_assign_move_counted this o s p op :
  root_counted s -> Z.of_nat (size (ptrs s)) + 1 < 2 ^ 31 ->
  ptrs s !! this = Some p -> ptrs s !! o = Some op ->
  exists s', gc_base_ptr_assign_move this o s = Ok tt s' /\ root_counted s' /\
             (forall h, is_Some (ptrs s !! h) -> is_Some (ptrs s' !! h)).
Proof.
  intros Hrc Hbound Hp Ho. pose proof (rc_counted s Hrc) as Hc.
  unfold gc_base_ptr_assign_move. unfold bind at 1. unfold load_ptr at 1. rewrite Hp.
  unfold bind at 1. unfold load_ptr at 1. rewrite Ho.
  case_bool_decide as Heq; [exists s; done |].
  assert (Hkeep : forall h, is_Some (ptrs s !! h) ->
            is_Some (<[this := set_object (object op) p]> (ptrs s) !! h)).
  { intros h Hh. destruct (decide (h = this)) as [-> | Hne].
    - rewrite lookup_insert_eq. eauto.
    - rewrite lookup_insert_ne by done. exact Hh. }
  destruct (type p) eqn:Hty; [destruct (type op) eqn:Hto |].
  - (* both ROOT: the referents are exchanged *)
    assert (Hne : this <> o) by (intros ->; congruence).
    unfold_tc. eexists. split; [reflexivity |]. simpl. split.
    + eapply (root_counted_intro s _ _ _ Hrc); try reflexivity; [| auto].
      apply (counted_same _ (ptrs s)); [exact Hc | |].
      * intros a. simpl.
        rewrite (root_units_insert a _ o _ op) by (rewrite lookup_insert_ne by done; exact Ho).
        rewrite (root_units_insert a (ptrs s) this _ p Hp).
        unfold root_unit. simpl. rewrite Hty, Hto. lia.
      * simpl. intros h q a Hh Ha. destruct (decide (h = o)) as [-> | Hno].
        -- rewrite lookup_insert_eq in Hh. injection Hh as <-. simpl in Ha.
           apply (ct_live _ _ Hc this p a Hp Ha).
        -- rewrite lookup_insert_ne in Hh by done.
           destruct (decide (h = this)) as [-> | Hnt].
           ++ rewrite lookup_insert_eq in Hh. injection Hh as <-. simpl in Ha.
              apply (ct_live _ _ Hc o op a Ho Ha).
           ++ rewrite lookup_insert_ne in Hh by done. apply (ct_live _ _ Hc h q a Hh Ha).
    + intros h Hh. destruct (decide (h = o)) as [-> | Hno].
      * rewrite lookup_insert_eq. eauto.
      * rewrite lookup_insert_ne by done. apply Hkeep, Hh.
  - rewrite retarget_run.
    + eexists. split; [reflexivity |]. split; [| exact Hkeep].
      eapply (retarget_counted this p (object op) s); try eassumption; [| reflexivity].
      intros a Ha. apply (ct_live _ _ Hc o op a Ho Ha).
    + intros a Ha. apply (ct_live _ _ Hc this p a Hp Ha).
    + intros a Ha. apply (ct_live _ _ Hc o op a Ho Ha).
  - unfold_tc. eexists. split; [reflexivity |]. split; [| exact Hkeep].
    eapply (root_counted_intro s _ _ _ Hrc); try reflexivity; [| auto].
    apply counted_store_plain; [exact Hc | | |].
    + intros a. unfold root_unit. simpl. rewrite Hty. reflexivity.
    + intros old a Hold. assert (old = p) as -> by congruence.
      unfold root_unit. rewrite Hty. reflexivity.
    + simpl. intros a Ha. apply (ct_live _ _ Hc o op a Ho Ha).
Qed.

(** The move constructor, at a free address. *)
Lemma gc_base_ptr_move_counted this o s op :
  root_counted s -> Z.of_nat (size (ptrs s)) + 1 < 2 ^ 31 ->
  ptrs s !! this = None -> ptrs s !! o = Some op ->
  exists s', gc_base_ptr_move this o s = Ok tt s' /\ root_counted s' /\
             is_Some (ptrs s' !! this) /\
             (forall h, is_Some (ptrs s !! h) -> is_Some (ptrs s' !! h)).
Proof.
  intros Hrc Hbound Hfree Ho. pose proof (rc_counted s Hrc) as Hc.
  assert (Hne : this <> o) by congruence.
  assert (Hlive : forall a, object op = Some a -> is_Some (objs s !! a)).
  { intros a Ha. apply (ct_live _ _ Hc o op a Ho Ha). }
  destruct (gc_base_ptr_new_counted this (object op) s Hrc Hbound Hfree Hlive)
    as (s1 & p1 & Hnew & Hrc1 & Hps1 & _).
  assert (Hkeep1 : is_Some (ptrs s1 !! this) /\
                   forall h, is_Some (ptrs s !! h) -> is_Some (ptrs s1 !! h)).
  { rewrite Hps1. split; [rewrite lookup_insert_eq; eauto |].
    intros h Hh. destruct (decide (h = this)) as [-> | Hnh].
    - rewrite lookup_insert_eq. eauto.
    - rewrite lookup_insert_ne by done. exact Hh. }
  destruct (classify_cases this s Hrc) as [Hcl | (Hcl & _)].
  - destruct (object op) as [a |] eqn:Hobj; [destruct (type op) eqn:Hto |].
    + (* ROOT from ROOT: the reference is taken over *)
      unfold gc_base_ptr_move. unfold bind at 1. rewrite Hcl.
      unfold_tc. rewrite Ho, Hobj, Hto. simpl.
      eexists. split; [reflexivity |]. simpl. split; [| split].
      * eapply (root_counted_intro s _ _ _ Hrc); try reflexivity; [| auto].
        apply (counted_same _ (ptrs s)); [exact Hc | |].
        -- intros b. simpl.
           rewrite (root_units_insert b _ o _ op)
             by (rewrite lookup_insert_ne by done; exact Ho).
           rewrite (root_units_insert_fresh b (ptrs s) this _ Hfree).
           unfold root_unit. simpl. rewrite Hto, Hobj. lia.
        -- simpl. intros h q b Hh Hb. destruct (decide (h = o)) as [-> | Hno].
           ++ rewrite lookup_insert_eq in Hh. injection Hh as <-. discriminate.
           ++ rewrite lookup_insert_ne in Hh by done.
              destruct (decide (h = this)) as [-> | Hnt].
              ** rewrite lookup_insert_eq in Hh. injection Hh as <-. simpl in Hb.
                 injection Hb as <-. apply Hlive. reflexivity.
              ** rewrite lookup_insert_ne in Hh by done.
                 apply (ct_live _ _ Hc h q b Hh Hb).
      * rewrite lookup_insert_ne, lookup_insert_eq by done. eauto.
      * intros h Hh. destruct (decide (h = o)) as [-> | Hno].
        -- rewrite lookup_insert_eq. eauto.
        -- rewrite lookup_insert_ne by done.
           destruct (decide (h = this)) as [-> | Hnt].
           ++ rewrite lookup_insert_eq. eauto.
           ++ rewrite lookup_insert_ne by done. exact Hh.
    + exists s1. split; [| split; [exact Hrc1 | exact Hkeep1]].
      rewrite <- Hnew. unfold gc_base_ptr_move, gc_base_ptr_new, bind. rewrite Hcl.
      unfold load_ptr. rewrite Ho. simpl. rewrite Hobj, Hto. reflexivity.
    + exists s1. split; [| split; [exact Hrc1 | exact Hkeep1]].
      rewrite <- Hnew. unfold gc_base_ptr_move, gc_base_ptr_new, bind. rewrite Hcl.
      unfold load_ptr. rewrite Ho. simpl. rewrite Hobj. reflexivity.
  - exists s1. split; [| split; [exact Hrc1 | exact Hkeep1]].
    rewrite <- Hnew. unfold gc_base_ptr_move, gc_base_ptr_new, bind. rewrite Hcl.
    unfold load_ptr. rewrite Ho. reflexivity.
Qed.

(** The operations of a handle [Ptr<T>]. *)
Inductive handle_operation :=
| hop_default (this : Z)
| hop_copy (this o : Z)
| hop_alias (this o : Z) (d : option Z)
| hop_move (this o : Z)
| hop_assign (this o : Z)
| hop_assign_move (this o : Z)
| hop_assign_nullptr (this : Z)
| hop_reset (this : Z)
| hop_delete (this : Z).

Definition run_handle_operation (op : handle_operation) : M unit :=
  match op with
  | hop_default this => Ptr_default this
  | hop_copy this o => Ptr_copy this o
  | hop_alias this o d => Ptr_alias this o d
  | hop_move this o => Ptr_move this o
  | hop_assign this o => Ptr_assign this o
  | hop_assign_move this o => Ptr_assign_move this o
  | hop_assign_nullptr this => Ptr_assign_nullptr this
  | hop_reset this => Ptr_reset this
  | hop_delete this => gc_base_ptr_delete this
  end.

(** A handle is built where none lives; the operands are live handles. *)
Definition well_formed_handle_operation (op : handle_operation) (s : State) : Prop :=
  match op with
  | hop_default this => ptrs s !! this = None
  | hop_copy this o | hop_alias this o _ | hop_move this o =>
      ptrs s !! this = None /\ is_Some (ptrs s !! o)
  | hop_assign this o | hop_assign_move this o =>
      is_Some (ptrs s !! this) /\ is_Some (ptrs s !! o)
  | hop_assign_nullptr this | hop_reset this | hop_delete this => is_Some (ptrs s !! this)
  end.

Lemma then_display s s1 this o (m : M unit) :
  m s = Ok tt s1 -> root_counted s1 ->
  is_Some (ptrs s1 !! this) -> is_Some (ptrs s1 !! o) ->
  exists s', (m ;; do op <- load_ptr o; store_display this (ptr op)) s = Ok tt s' /\
             root_counted s'.
Proof.
  intros Hm Hrc1 [p1 Hp1] [op1 Ho1]. unfold bind at 1. rewrite Hm.
  unfold bind at 1. unfold load_ptr at 1. rewrite Ho1.
  destruct (store_display_counted this (ptr op1) s1 p1 Hrc1 Hp1) as (s' & Hrun & Hrc' & _).
  eauto.
Qed.

(** X12: the root references are counted.  In a state where every handle
    refers to a live header and the [root_ref_cnt] of every header is the
    number of live ROOT handles that refer to it, every operation of a
    handle (the constructors, among them the aliasing constructor behind
    pointer arithmetic and the casts, the two assignments, the assignment
    of [nullptr], [reset] and the destructor), wherever the handle is
    classified, returns and ends in a state of that kind. *)
Theorem handle_operations_preserve_root_counts (op : handle_operation) (s : State) :
  root_counted s ->
  Z.of_nat (size (ptrs s)) + 1 < 2 ^ 31 ->
  well_formed_handle_operation op s ->
  exists s', run_handle_operation op s = Ok tt s' /\ root_counted s'.
Proof.
  intros Hrc Hbound Hwf. destruct op; simpl in *.
  - destruct (gc_base_ptr_new_counted this None s Hrc Hbound Hwf ltac:(discriminate))
      as (s' & p & Hrun & Hrc' & _). eauto.
  - destruct Hwf as [Hfree [op Ho]]. unfold Ptr_copy.
    assert (Hlive : forall a, object op = Some a -> is_Some (objs s !! a)).
    { intros a Ha. apply (ct_live _ _ (rc_counted s Hrc) o op a Ho Ha). }
    destruct (gc_base_ptr_new_counted this (object op) s Hrc Hbound Hfree Hlive)
      as (s1 & p1 & Hnew & Hrc1 & Hps1 & _).
    apply (then_display s s1); [| exact Hrc1 | |].
    + unfold gc_base_ptr_copy. unfold bind. unfold load_ptr. rewrite Ho. exact Hnew.
    + rewrite Hps1, lookup_insert_eq. eauto.
    + rewrite Hps1, lookup_insert_ne by congruence. eauto.
  - destruct Hwf as [Hfree [op Ho]]. unfold Ptr_alias.
    assert (Hlive : forall a, object op = Some a -> is_Some (objs s !! a)).
    { intros a Ha. apply (ct_live _ _ (rc_counted s Hrc) o op a Ho Ha). }
    destruct (gc_base_ptr_new_counted this (object op) s Hrc Hbound Hfree Hlive)
      as (s1 & p1 & Hnew & Hrc1 & Hps1 & _).
    assert (Hcopy : gc_base_ptr_copy this o s = Ok tt s1).
    { unfold gc_base_ptr_copy. unfold bind. unfold load_ptr. rewrite Ho. exact Hnew. }
    unfold bind. rewrite Hcopy.
    destruct (store_display_counted this d s1 p1 Hrc1) as (s' & Hrun & Hrc' & _);
      [rewrite Hps1; apply lookup_insert_eq | eauto].
  - destruct Hwf as [Hfree [op Ho]]. unfold Ptr_move.
    destruct (gc_base_ptr_move_counted this o s op Hrc Hbound Hfree Ho)
      as (s1 & Hrun & Hrc1 & Hthis & Hkeep).
    apply (then_display s s1); [exact Hrun | exact Hrc1 | exact Hthis |].
    apply Hkeep. eauto.
  - destruct Hwf as [[p Hp] [op Ho]]. unfold Ptr_assign.
    destruct (gc_base_ptr_assign_counted this o s p op Hrc Hbound Hp Ho)
      as (s1 & Hrun & Hrc1 & Hkeep).
    apply (then_display s s1); [exact Hrun | exact Hrc1 | |]; apply Hkeep; eauto.
  - destruct Hwf as [[p Hp] [op Ho]]. unfold Ptr_assign_move.
    destruct (gc_base_ptr_assign_move_counted this o s p op Hrc Hbound Hp Ho)
      as (s1 & Hrun & Hrc1 & Hkeep).
    apply (then_display s s1); [exact Hrun | exact Hrc1 | |]; apply Hkeep; eauto.
  - destruct Hwf as [p Hp]. unfold Ptr_assign_nullptr, gc_base_ptr_assign_nullptr.
    destruct (gc_base_ptr_reset_counted this s p Hrc Hbound Hp)
      as (s1 & Hrun & Hrc1 & Hps1 & _).
    unfold bind. rewrite Hrun.
    destruct (store_display_counted this None s1 (set_object None p) Hrc1)
      as (s' & Hrun' & Hrc' & _); [rewrite Hps1; apply lookup_insert_eq | eauto].
  - destruct Hwf as [p Hp]. unfold Ptr_reset.
    destruct (store_display_counted this None s p Hrc Hp) as (s1 & Hrun & Hrc1 & Hps1 & _).
    unfold bind. rewrite Hrun.
    destruct (gc_base_ptr_reset_counted this s1 (set_ptr None p) Hrc1)
      as (s' & Hrun' & Hrc' & _); [| rewrite Hps1; apply lookup_insert_eq | eauto].
    rewrite Hps1, map_size_insert_Some by eauto. exact Hbound.
  - destruct Hwf as [p Hp].
    apply (gc_base_ptr_delete_counted this s p Hrc Hbound Hp).
Qed.

Lemma reachable_along s a b : reachable s a -> rtc (points_to s) a b -> reachable s b.
Proof.
  intros Ha Hab. induction Hab as [| x y z Hxy _ IH]; [exact Ha |].
  apply IH. apply (reachable_step s x y Ha Hxy).
Qed.

Lemma root_handle_is_root s h p o :
  root_counted s -> ptrs s !! h = Some p -> type p = ROOT -> object p = Some o ->
  is_root s o.
Proof.
  intros Hrc Hp Hty Hobj. pose proof (rc_counted s Hrc) as Hc.
  destruct (ct_live _ _ Hc h p o Hp Hobj) as [ob Hob].
  exists ob. split; [exact Hob |].
  rewrite (ct_count _ _ Hc o ob Hob).
  pose proof (root_units_lookup o (ptrs s) h p Hp) as Hle.
  unfold root_unit in Hle. rewrite Hty, Hobj in Hle.
  rewrite decide_True in Hle by reflexivity. lia.
Qed.

(** X13: what a root handle holds survives a collection.  In a well-formed
    state with counted root references, the object that a live ROOT handle
    refers to, and every object reached from it along embedded handles, is
    still registered and has its header after [gc_collect]; the collection
    runs no destructor callback for it and does not free it. *)
Theorem rooted_objects_survive_collection (s : State) (h : Z) (p : Ptr) (o b : Z) :
  well_formed s -> root_counted s ->
  ptrs s !! h = Some p -> type p = ROOT -> object p = Some o ->
  rtc (points_to s) o b ->
  exists s' tr,
    gc_collect s = Ok tt s' /\ trace s' = trace s ++ tr /\
    b ∈ all_objects s' /\ is_Some (objs s' !! b) /\
    (b ∉ destructor_calls tr) /\ (EvDelete b ∉ tr).
Proof.
  intros Hwf Hrc Hp Hty Hobj Hpath.
  pose proof (root_handle_is_root s h p o Hrc Hp Hty Hobj) as Hroot.
  assert (Hreach : reachable s b).
  { apply (reachable_along s o b); [apply reachable_root, Hroot | exact Hpath]. }
  assert (Hne : all_objects s <> []).
  { destruct Hroot as (ob & Hob & _).
    assert (Hin : o ∈ all_objects s) by (apply (wf_registered s Hwf); eauto).
    intros Hnil. rewrite Hnil in Hin. inversion Hin. }
  destruct (gc_collect_run s Hwf Hne)
    as (os2 & live & garbage & s' & Hrun & Hagree & _ & _ & Hlive & Hgarbage & _ & _ &
        Hall & _ & _ & Htrace & _ & Hkept & _).
  assert (Hb : b ∈ all_objects s).
  { apply (wf_registered s Hwf), (reachable_live s b Hwf Hreach). }
  assert (Hng : b ∉ garbage).
  { intros Hg. apply Hgarbage in Hg. destruct Hg as [_ Hg]. exact (Hg Hreach). }
  assert (Hcalls : forall g, g ∈ garbage -> is_Some (os2 !! g)).
  { intros g Hg. apply Hgarbage in Hg. destruct Hg as [Hg _].
    apply (wf_registered s Hwf) in Hg. destruct Hg as [ob Hob].
    specialize (Hagree g). rewrite Hob in Hagree.
    destruct (os2 !! g); [eauto | discriminate]. }
  exists s', (finalise_trace os2 garbage ++ map EvDelete garbage).
  split; [exact Hrun |]. split; [exact Htrace |]. split; [| split; [| split]].
  - rewrite Hall. apply Hlive. split; [exact Hb | exact Hreach].
  - rewrite (Hkept b Hng). destruct (reachable_live s b Hwf Hreach) as [ob Hob].
    specialize (Hagree b). rewrite Hob in Hagree.
    destruct (os2 !! b); [eauto | discriminate].
  - rewrite destructor_calls_app, destructor_calls_delete, app_nil_r.
    rewrite (finalise_trace_calls os2 garbage Hcalls). exact Hng.
  - intros Hin. apply elem_of_app in Hin. destruct Hin as [Hin | Hin].
    + pose proof (finalise_trace_no_delete os2 garbage) as Hnd.
      rewrite Forall_forall in Hnd. apply (Hnd (EvDelete b) Hin). exact I.
    + apply list_elem_of_fmap in Hin. destruct Hin as (g & Heq & Hg).
      injection Heq as ->. exact (Hng Hg).
Qed.

(** *** Handles across a collection *)

(** Where the handles live: a heap handle is linked in the list of a live
    header, and a ROOT handle lies outside every block of the heap (it is on
    the stack or in static storage). *)
Record housed (s : State) : Prop := {
  hs_heap : forall h p, ptrs s !! h = Some p -> type p = GC_HEAP ->
    exists c ob l, objs s !! c = Some ob /\ handle_list (ptrs s) (first ob) l /\
                   (h, p) ∈ l;
  hs_root : forall h p c ob, ptrs s !! h = Some p -> type p = ROOT ->
    objs s !! c = Some ob -> ~ (c <= h < end_ ob)
}.

Lemma root_units_kept o (ps ps' : gmap Z Ptr) :
  (forall h p, ps' !! h = Some p -> ps !! h = Some p) ->
  (forall h p, ps !! h = Some p -> root_refers o p -> ps' !! h = Some p) ->
  root_units o ps' = root_units o ps.
Proof.
  intros Hsub Hkeep. unfold root_units, count_values. do 2 f_equal.
  apply map_eq. intros h. apply option_eq. intros p.
  rewrite !map_lookup_filter_Some. simpl. split; intros [H1 H2]; split; auto.
Qed.

Lemma referents_elem (l : list (Z * Ptr)) (h : Z) (p : Ptr) (o : Z) :
  (h, p) ∈ l -> object p = Some o -> o ∈ referents (map snd l).
Proof.
  induction l as [| [a q] l IH]; intros Hin Ho.
  - apply elem_of_nil in Hin. contradiction.
  - simpl. apply elem_of_cons in Hin as [[= <- <-] | Hin].
    + rewrite Ho. left.
    + destruct (object q); [right |]; apply IH; assumption.
Qed.

Section survivors_counted.

Context (s s' : State) (os2 : gmap Z gc_object) (live garbage : list Z).
Context (Hwf : well_formed s) (Hlo : laid_out s).
Context (Hrc : root_counted s) (Hho : housed s).
Context (Hagree : agree (objs s) os2).
Context (Hmarked : forall o, marked os2 o <-> reachable s o).
Context (Hlive : forall o, o ∈ live <-> o ∈ all_objects s /\ reachable s o).
Context (Hgarbage : forall o, o ∈ garbage <-> o ∈ all_objects s /\ ~ reachable s o).
Context (Hndl : NoDup live).
Context (Hall : all_objects s' = live).
Context (Hgone : forall o, o ∈ garbage -> objs s' !! o = None).
Context (Hkept : forall o, o ∉ garbage -> objs s' !! o = os2 !! o).
Context (Hptrs : forall a p, ptrs s' !! a = Some p <->
                   ptrs s !! a = Some p /\
                   forall g ob, g ∈ garbage -> os2 !! g = Some ob -> ~ (g <= a < end_ ob)).

Lemma reachable_header o : reachable s o -> is_Some (objs s' !! o).
Proof.
  intros Hr. destruct (live_header s s' os2 live garbage Hwf Hagree Hlive Hgarbage Hkept o)
    as [ob Hob]; [| eauto].
  apply Hlive. split; [| exact Hr].
  apply (wf_registered s Hwf), (reachable_live s o Hwf Hr).
Qed.

Lemma root_handle_survives h p :
  ptrs s !! h = Some p -> type p = ROOT -> ptrs s' !! h = Some p.
Proof.
  intros Hp Hty. apply Hptrs. split; [exact Hp |]. intros g ob Hg Hob.
  destruct (agree_lookup_end _ _ g ob Hagree Hob) as (ob0 & Hob0 & Heq).
  replace (end_ ob) with (end_ ob0) by (injection Heq; done).
  apply (hs_root s Hho h p g ob0 Hp Hty Hob0).
Qed.

(** The owner of a surviving heap handle is reachable. *)
Lemma heap_handle_owner h p :
  ptrs s' !! h = Some p -> type p = GC_HEAP ->
  exists c ob l, objs s !! c = Some ob /\ handle_list (ptrs s) (first ob) l /\
                 (h, p) ∈ l /\ reachable s c.
Proof.
  intros Hp' Hty. apply Hptrs in Hp' as [Hp Hout].
  destruct (hs_heap s Hho h p Hp Hty) as (c & ob & l & Hob & Hl & Hin).
  exists c, ob, l. split; [exact Hob |]. split; [exact Hl |]. split; [exact Hin |].
  destruct (decide (c ∈ garbage)) as [Hg | Hng].
  - exfalso. destruct (agree_lookup_inv _ _ c ob Hagree Hob) as (ob2 & Hob2 & _).
    destruct (agree_lookup_end _ _ c ob2 Hagree Hob2) as (ob0 & Hob0 & Heq).
    assert (ob0 = ob) as -> by congruence.
    assert (Hend : end_ ob = end_ ob2) by (injection Heq; done).
    pose proof (lo_embedded s Hlo c ob l h p Hob Hl Hin) as Hrange.
    apply (Hout c ob2 Hg Hob2). unfold start, sizeof_gc_object in Hrange. lia.
  - assert (Hin' : c ∈ all_objects s) by (apply (wf_registered s Hwf); eauto).
    destruct (agree_lookup_inv _ _ c ob Hagree Hob) as (ob2 & Hob2 & _).
    destruct (mark ob2) eqn:Hm; [apply Hmarked; exists ob2; done |].
    exfalso. apply Hng, Hgarbage. split; [exact Hin' |].
    intros Hr. apply Hmarked in Hr as (ob' & Hob' & Hm'). congruence.
Qed.

Lemma survivors_counted : counted (objs s') (ptrs s').
Proof.
  split.
  - intros h p o Hp' Hobj. apply reachable_header.
    destruct (type p) eqn:Hty.
    + apply reachable_root. apply Hptrs in Hp' as [Hp _].
      apply (root_handle_is_root s h p o Hrc Hp Hty Hobj).
    + destruct (heap_handle_owner h p Hp' Hty) as (c & ob & l & Hob & Hl & Hin & Hr).
      apply (reachable_step s c o Hr). exists ob. split; [exact Hob |].
      rewrite (handle_list_children (ptrs s) ob l Hl).
      apply (referents_elem l h p o Hin Hobj).
  - intros o ob Hob.
    destruct (survivor_header s s' os2 live garbage Hwf Hagree Hmarked Hlive Hgarbage
                Hgone Hkept o ob Hob) as (_ & _ & _ & _ & ob0 & Hob0 & Heq).
    replace (root_ref_cnt ob) with (root_ref_cnt ob0) by (injection Heq; done).
    rewrite (ct_count _ _ (rc_counted s Hrc) o ob0 Hob0). symmetry.
    apply root_units_kept.
    + intros h p Hp'. apply Hptrs in Hp' as [Hp _]. exact Hp.
    + intros h p Hp [Hty _]. apply (root_handle_survives h p Hp Hty).
Qed.

Lemma survivors_housed : housed s'.
Proof.
  split.
  - intros h p Hp' Hty.
    destruct (heap_handle_owner h p Hp' Hty) as (c & ob & l & Hob & Hl & Hin & Hr).
    destruct (reachable_header c Hr) as [ob' Hob'].
    destruct (survivor_children s s' os2 live garbage Hwf Hlo Hagree Hmarked Hlive Hgarbage
                Hgone Hkept Hptrs c ob' Hob') as (ob0 & l0 & Hob0 & _ & Hl0 & Hl' & _).
    assert (ob0 = ob) as -> by congruence.
    assert (l0 = l) as -> by (apply (handle_list_det _ _ _ Hl0 _ Hl)).
    exists c, ob', l. done.
  - intros h p c ob Hp' Hty Hob.
    destruct (survivor_header s s' os2 live garbage Hwf Hagree Hmarked Hlive Hgarbage
                Hgone Hkept c ob Hob) as (_ & _ & _ & _ & ob0 & Hob0 & Heq).
    replace (end_ ob) with (end_ ob0) by (injection Heq; done).
    apply Hptrs in Hp' as [Hp _].
    apply (hs_root s Hho h p c ob0 Hp Hty Hob0).
Qed.

End survivors_counted.

(** X17: a collection leaves no handle dangling.  In a state that is
    well-formed and well laid out, whose root references are counted, whose
    heap handles are all linked in the list of a live header and whose ROOT
    handles lie outside the heap, with a reachable object under construction
    if there is one, [gc_collect] returns and ends in a state of that kind:
    every ROOT handle is still there with the referent it had, every handle
    that is left refers to a live header, and the [root_ref_cnt] of every
    survivor is still the number of ROOT handles that refer to it. *)
Theorem gc_collect_leaves_no_dangling_handle (s : State) :
  well_formed s -> laid_out s -> root_counted s -> housed s ->
  (forall cur, current s = Some cur -> reachable s cur) ->
  exists s',
    gc_collect s = Ok tt s' /\ root_counted s' /\ housed s' /\
    (forall h p, ptrs s !! h = Some p -> type p = ROOT -> ptrs s' !! h = Some p) /\
    (forall h p o, ptrs s' !! h = Some p -> object p = Some o ->
                   o ∈ all_objects s' /\ is_Some (objs s' !! o)) /\
    (forall cur, current s' = Some cur -> reachable s' cur).
Proof.
  intros Hwf Hlo Hrc Hho Hcur.
  destruct (decide (all_objects s = [])) as [Hnil | Hne].
  - exists s. split; [| split; [exact Hrc | split; [exact Hho | split; [auto | split]]]].
    + unfold gc_collect. unfold bind at 1. unfold get_state.
      rewrite bool_decide_eq_true_2 by exact Hnil. reflexivity.
    + intros h p o Hp Hobj.
      pose proof (ct_live _ _ (rc_counted s Hrc) h p o Hp Hobj) as Hl.
      split; [apply (wf_registered s Hwf) |]; exact Hl.
    + exact Hcur.
  - destruct (gc_collect_run s Hwf Hne)
      as (os2 & live & garbage & s' & Hrun & Hag & Hm & _ & Hlive & Hgarbage & Hndl & _ &
          Hall & _ & Hcur' & _ & Hgone & Hkept & Hptrs).
    pose proof (survivors_counted s s' os2 live garbage Hwf Hlo Hrc Hho Hag Hm Hlive
                  Hgarbage Hgone Hkept Hptrs) as Hct.
    pose proof (survivors_well_formed s s' os2 live garbage Hwf Hlo Hag Hm Hlive Hgarbage
                  Hndl Hall Hgone Hkept Hptrs) as Hwf'.
    exists s'. split; [exact Hrun |]. split; [| split; [| split; [| split]]].
    + split; [exact Hct |]. intros cur Hc. rewrite Hcur' in Hc.
      apply (reachable_header s s' os2 live garbage Hwf Hag Hlive Hgarbage Hkept cur).
      apply Hcur, Hc.
    + apply (survivors_housed s s' os2 live garbage); assumption.
    + intros h p Hp Hty.
      apply (root_handle_survives s s' os2 garbage Hho Hag Hptrs h p Hp Hty).
    + intros h p o Hp Hobj. pose proof (ct_live _ _ Hct h p o Hp Hobj) as Hl.
      split; [apply (wf_registered s' Hwf') |]; exact Hl.
    + intros cur Hc. rewrite Hcur' in Hc.
      apply (survivors_reachable s s' os2 live garbage); try assumption.
      apply Hcur, Hc.
Qed.

(** *** Checkable forms of the layout and of the counts *)

(** The handle list of a header with the addresses of its handles. *)
Fixpoint chain (fuel : nat) (ps : gmap Z Ptr) (j : option Z) : option (list (Z * Ptr)) :=
  match j with
  | None => Some []
  | Some a =>
      match fuel with
      | O => None
      | S f =>
          match ps !! a with
          | None => None
          | Some p =>
              match chain f ps (next p) with
              | Some l => Some ((a, p) :: l)
              | None => None
              end
          end
      end
  end.

Lemma chain_handle_list f ps : forall j l, chain f ps j = Some l -> handle_list ps j l.
Proof.
  induction f as [| f IH]; intros [a |] l Hc; simpl in Hc; try discriminate.
  - injection Hc as <-. constructor.
  - destruct (ps !! a) as [p |] eqn:Hp; [| discriminate].
    destruct (chain f ps (next p)) as [l' |] eqn:Hl; [| discriminate].
    injection Hc as <-. constructor; [exact Hp | apply IH, Hl].
  - injection Hc as <-. constructor.
Qed.

Definition listed (s : State) (ob : gc_object) : option (list (Z * Ptr)) :=
  chain (S (size (ptrs s))) (ptrs s) (first ob).

Definition layout_ok (s : State) (o : Z) (ob : gc_object) : Prop :=
  match listed s ob with
  | Some l => Forall (fun ap => start o <= ap.1 < end_ ob) l
  | None => False
  end /\
  map_Forall (fun o2 ob2 => o = o2 \/ end_ ob <= o2 \/ end_ ob2 <= o) (objs s).

#[global] Instance layout_ok_dec s o ob : Decision (layout_ok s o ob).
Proof. unfold layout_ok. destruct (listed s ob); apply _. Defined.

Lemma laid_out_intro s :
  map_Forall (fun o ob => layout_ok s o ob) (objs s) -> laid_out s.
Proof.
  intros Hok. split.
  - intros o ob l a p Hob Hl Hin. destruct (Hok o ob Hob) as [Hlist _].
    destruct (listed s ob) as [l' |] eqn:Hl'; [| contradiction].
    apply chain_handle_list in Hl'.
    assert (l' = l) as -> by (apply (handle_list_det _ _ _ Hl' _ Hl)).
    rewrite Forall_forall in Hlist. apply (Hlist (a, p) Hin).
  - intros o1 ob1 o2 ob2 H1 H2 Hne. destruct (Hok o1 ob1 H1) as [_ Hdis].
    destruct (Hdis o2 ob2 H2) as [-> | Hd]; [contradiction | exact Hd].
Qed.

#[global] Instance Ptr_eq_dec : EqDecision Ptr.
Proof. solve_decision. Defined.

Definition handle_housed (s : State) (h : Z) (p : Ptr) : Prop :=
  match type p with
  | GC_HEAP =>
      Exists (fun cob => match listed s cob.2 with
                         | Some l => (h, p) ∈ l
                         | None => False
                         end) (map_to_list (objs s))
  | ROOT => map_Forall (fun c ob => ~ (c <= h < end_ ob)) (objs s)
  end.

#[global] Instance handle_housed_dec s h p : Decision (handle_housed s h p).
Proof.
  unfold handle_housed. destruct (type p); [apply _ |].
  apply Exists_dec. intros cob. destruct (listed s cob.2); apply _.
Defined.

Lemma housed_intro s :
  map_Forall (fun h p => handle_housed s h p) (ptrs s) -> housed s.
Proof.
  intros Hok. split.
  - intros h p Hp Hty. pose proof (Hok h p Hp) as Hh. unfold handle_housed in Hh.
    rewrite Hty in Hh. apply Exists_exists in Hh as ([c ob] & Hin & Hl).
    apply elem_of_map_to_list in Hin. simpl in Hl.
    destruct (listed s ob) as [l |] eqn:Hl'; [| contradiction].
    exists c, ob, l. split; [exact Hin |]. split; [apply chain_handle_list in Hl'; exact Hl' |].
    exact Hl.
  - intros h p c ob Hp Hty Hob. pose proof (Hok h p Hp) as Hh. unfold handle_housed in Hh.
    rewrite Hty in Hh. apply (Hh c ob Hob).
Qed.

Definition refers_live (os : gmap Z gc_object) (p : Ptr) : Prop :=
  match object p with Some o => is_Some (os !! o) | None => True end.

#[global] Instance refers_live_dec os p : Decision (refers_live os p).
Proof. unfold refers_live. destruct (object p); apply _. Defined.

Lemma root_counted_check s :
  map_Forall (fun _ p => refers_live (objs s) p) (ptrs s) ->
  map_Forall (fun o ob => root_ref_cnt ob = root_units o (ptrs s)) (objs s) ->
  match current s with Some cur => is_Some (objs s !! cur) | None => True end ->
  root_counted s.
Proof.
  intros Hlive Hcount Hcur. split; [split |].
  - intros h p o Hp Ho. pose proof (Hlive h p Hp) as Hl. unfold refers_live in Hl.
    rewrite Ho in Hl. exact Hl.
  - exact Hcount.
  - intros cur Hc. rewrite Hc in Hcur. exact Hcur.
Qed.

(** *** The heap invariant under the operations of a handle *)

(** Everything the collector relies on, in one record. *)
Record heap_ok (s : State) : Prop := {
  ok_wf : well_formed s;
  ok_lo : laid_out s;
  ok_rc : root_counted s;
  ok_ho : housed s
}.

(** What an operation may do to the handle at [h]: change what it refers to
    and what it shows, build a ROOT handle outside the heap, or take a ROOT
    handle away. *)
Definition hstep (s : State) (h : Z) (old new : option Ptr) : Prop :=
  match old, new with
  | Some p, Some p' => type p' = type p /\ (type p = GC_HEAP -> next p' = next p)
  | Some p, None => type p = ROOT
  | None, Some p' =>
      type p' = ROOT /\ forall c ob, objs s !! c = Some ob -> ~ (c <= h < end_ ob)
  | None, None => True
  end.

(** A step that leaves the registry, the blocks and the handle lists as
    they are. *)
Record retargets (s s' : State) : Prop := {
  rt_objs : forall o,
    match objs s !! o, objs s' !! o with
    | Some ob, Some ob' => end_ ob' = end_ ob /\ first ob' = first ob
    | None, None => True
    | _, _ => False
    end;
  rt_registry : all_objects s' = all_objects s;
  rt_ptrs : forall h, hstep s h (ptrs s !! h) (ptrs s' !! h)
}.

Lemma retargets_refl s : retargets s s.
Proof.
  split; [| reflexivity |].
  - intros o. destruct (objs s !! o); done.
  - intros h. unfold hstep. destruct (ptrs s !! h); done.
Qed.

Lemma retargets_back s s' o ob' :
  retargets s s' -> objs s' !! o = Some ob' ->
  exists ob, objs s !! o = Some ob /\ end_ ob' = end_ ob /\ first ob' = first ob.
Proof.
  intros K Hob'. pose proof (rt_objs s s' K o) as H. rewrite Hob' in H.
  destruct (objs s !! o) as [ob |]; [eauto | contradiction].
Qed.

Lemma retargets_forth s s' o ob :
  retargets s s' -> objs s !! o = Some ob ->
  exists ob', objs s' !! o = Some ob' /\ end_ ob' = end_ ob /\ first ob' = first ob.
Proof.
  intros K Hob. pose proof (rt_objs s s' K o) as H. rewrite Hob in H.
  destruct (objs s' !! o) as [ob' |]; [eauto | contradiction].
Qed.

Lemma retargets_trans s1 s2 s3 : retargets s1 s2 -> retargets s2 s3 -> retargets s1 s3.
Proof.
  intros K1 K2. split.
  - intros o. pose proof (rt_objs _ _ K1 o) as H1. pose proof (rt_objs _ _ K2 o) as H2.
    destruct (objs s1 !! o), (objs s2 !! o), (objs s3 !! o); try done.
    destruct H1, H2. split; congruence.
  - rewrite (rt_registry _ _ K2). apply (rt_registry _ _ K1).
  - intros h. pose proof (rt_ptrs _ _ K1 h) as H1. pose proof (rt_ptrs _ _ K2 h) as H2.
    unfold hstep in *.
    destruct (ptrs s1 !! h) as [p1 |], (ptrs s2 !! h) as [p2 |], (ptrs s3 !! h) as [p3 |];
      try done.
    + destruct H1 as [Ht1 Hn1], H2 as [Ht2 Hn2]. split; [congruence |].
      intros Hg. rewrite Hn2, Hn1 by congruence. reflexivity.
    + destruct H1 as [Ht1 _]. congruence.
    + destruct H2 as [Ht2 _]. split; [congruence |]. intros Hg. congruence.
    + destruct H1 as [Ht1 Hout], H2 as [Ht2 _]. split; [congruence | exact Hout].
    + destruct H2 as [Ht2 Hout]. split; [exact Ht2 |]. intros c ob Hob.
      destruct (retargets_forth _ _ c ob K1 Hob) as (ob' & Hob' & Hend & _).
      rewrite <- Hend. apply (Hout c ob' Hob').
Qed.

Lemma handle_list_step (ps ps' : gmap Z Ptr) j l :
  handle_list ps j l ->
  (forall a p, (a, p) ∈ l -> exists p', ps' !! a = Some p' /\ next p' = next p) ->
  exists l', handle_list ps' j l' /\ l'.*1 = l.*1.
Proof.
  induction 1 as [| a p l Hp Hl IH]; intros Hstep.
  - exists []. split; [constructor | reflexivity].
  - destruct (Hstep a p) as (p' & Hp' & Hnext); [left |].
    destruct IH as (l' & Hl' & Hfst); [intros b q Hin; apply Hstep; right; exact Hin |].
    exists ((a, p') :: l'). split; [| rewrite !fmap_cons, Hfst; reflexivity].
    constructor; [exact Hp' | rewrite Hnext; exact Hl'].
Qed.

Lemma referents_elem_inv (l : list (Z * Ptr)) (o : Z) :
  o ∈ referents (map snd l) -> exists h p, (h, p) ∈ l /\ object p = Some o.
Proof.
  induction l as [| [a q] l IH]; simpl; intros Hin.
  - apply elem_of_nil in Hin. contradiction.
  - destruct (object q) as [b |] eqn:Hq.
    + apply elem_of_cons in Hin as [-> | Hin].
      * exists a, q. split; [left | exact Hq].
      * destruct (IH Hin) as (h & p & Hhp & Ho). exists h, p. split; [right |]; assumption.
    + destruct (IH Hin) as (h & p & Hhp & Ho). exists h, p. split; [right |]; assumption.
Qed.

(** Well-formedness from the lists and the counts. *)
Lemma well_formed_of_counted s :
  NoDup (all_objects s) ->
  (forall o, o ∈ all_objects s <-> is_Some (objs s !! o)) ->
  (forall o ob, objs s !! o = Some ob -> exists l, handle_list (ptrs s) (first ob) l) ->
  root_counted s -> well_formed s.
Proof.
  intros Hnd Hreg Hlists Hrc. pose proof (rc_counted s Hrc) as Hc. split.
  - exact Hnd.
  - exact Hreg.
  - exact Hlists.
  - intros a b (ob & Hob & Hb). destruct (Hlists a ob Hob) as [l Hl].
    rewrite (handle_list_children (ptrs s) ob l Hl) in Hb.
    apply referents_elem_inv in Hb as (h & p & Hin & Ho).
    apply (ct_live _ _ Hc h p b (handle_list_live _ _ _ h p Hl Hin) Ho).
  - intros o ob Hob. rewrite (ct_count _ _ Hc o ob Hob).
    apply (root_units_range o (ptrs s)).
Qed.

(** The handles in a list are heap handles. *)
Lemma listed_is_heap s o ob l a p :
  laid_out s -> housed s ->
  objs s !! o = Some ob -> handle_list (ptrs s) (first ob) l -> (a, p) ∈ l ->
  type p = GC_HEAP.
Proof.
  intros Hlo Hho Hob Hl Hin. destruct (type p) eqn:Hty; [| reflexivity]. exfalso.
  pose proof (lo_embedded s Hlo o ob l a p Hob Hl Hin) as Hrange.
  apply (hs_root s Hho a p o ob (handle_list_live _ _ _ a p Hl Hin) Hty Hob).
  unfold start, sizeof_gc_object in Hrange. lia.
Qed.

Lemma retargets_preserves s s' :
  heap_ok s -> retargets s s' -> root_counted s' -> heap_ok s'.
Proof.
  intros [Hwf Hlo Hrc Hho] K Hrc'.
  assert (Hlist : forall o ob l,
            objs s !! o = Some ob -> handle_list (ptrs s) (first ob) l ->
            exists l', handle_list (ptrs s') (first ob) l' /\ l'.*1 = l.*1).
  { intros o ob l Hob Hl. apply (handle_list_step (ptrs s)); [exact Hl |].
    intros a p Hin.
    pose proof (listed_is_heap s o ob l a p Hlo Hho Hob Hl Hin) as Hty.
    pose proof (rt_ptrs s s' K a) as Hs. unfold hstep in Hs.
    rewrite (handle_list_live _ _ _ a p Hl Hin) in Hs.
    destruct (ptrs s' !! a) as [p' |]; [| congruence].
    destruct Hs as [_ Hn]. eauto. }
  assert (Hlists' : forall o ob', objs s' !! o = Some ob' ->
            exists ob l l', objs s !! o = Some ob /\ end_ ob' = end_ ob /\
                            handle_list (ptrs s) (first ob) l /\
                            handle_list (ptrs s') (first ob') l' /\ l'.*1 = l.*1).
  { intros o ob' Hob'. destruct (retargets_back s s' o ob' K Hob') as (ob & Hob & Hend & Hf).
    destruct (wf_lists s Hwf o ob Hob) as [l Hl].
    destruct (Hlist o ob l Hob Hl) as (l' & Hl' & Hfst).
    exists ob, l, l'. rewrite Hf. done. }
  split; [| | exact Hrc' |].
  - apply well_formed_of_counted; [| | | exact Hrc'].
    + rewrite (rt_registry s s' K). apply (wf_nodup s Hwf).
    + intros o. rewrite (rt_registry s s' K), (wf_registered s Hwf o).
      pose proof (rt_objs s s' K o) as H.
      destruct (objs s !! o), (objs s' !! o); try contradiction; split; eauto.
    + intros o ob' Hob'. destruct (Hlists' o ob' Hob') as (_ & _ & l' & _ & _ & _ & Hl' & _).
      eauto.
  - split.
    + intros o ob' l1 a p' Hob' Hl1 Hin.
      destruct (Hlists' o ob' Hob') as (ob & l & l' & Hob & Hend & Hl & Hl' & Hfst).
      assert (l1 = l') as -> by (apply (handle_list_det _ _ _ Hl1 _ Hl')).
      assert (Ha : a ∈ l.*1).
      { rewrite <- Hfst. apply list_elem_of_fmap. exists (a, p'). done. }
      apply list_elem_of_fmap in Ha as ([a' p] & Heq & Hin0). simpl in Heq. subst a'.
      rewrite Hend. apply (lo_embedded s Hlo o ob l a p Hob Hl Hin0).
    + intros o1 ob1 o2 ob2 H1 H2 Hne.
      destruct (retargets_back s s' o1 ob1 K H1) as (ob10 & H10 & Hend1 & _).
      destruct (retargets_back s s' o2 ob2 K H2) as (ob20 & H20 & Hend2 & _).
      rewrite Hend1, Hend2. apply (lo_disjoint s Hlo o1 ob10 o2 ob20 H10 H20 Hne).
  - split.
    + intros h p' Hp' Hty.
      pose proof (rt_ptrs s s' K h) as Hs. unfold hstep in Hs. rewrite Hp' in Hs.
      destruct (ptrs s !! h) as [p |] eqn:Hp; [| destruct Hs; congruence].
      destruct Hs as [Ht _].
      destruct (hs_heap s Hho h p Hp ltac:(congruence)) as (c & ob & l & Hob & Hl & Hin).
      destruct (retargets_forth s s' c ob K Hob) as (ob' & Hob' & _ & Hf).
      destruct (Hlist c ob l Hob Hl) as (l' & Hl' & Hfst).
      assert (Ha : h ∈ l'.*1).
      { rewrite Hfst. apply list_elem_of_fmap. exists (h, p). done. }
      apply list_elem_of_fmap in Ha as ([h' q] & Heq & Hin'). simpl in Heq. subst h'.
      assert (q = p') as ->.
      { pose proof (handle_list_live _ _ _ h q Hl' Hin'). congruence. }
      exists c, ob', l'. rewrite Hf. done.
    + intros h p' c ob' Hp' Hty Hob'.
      destruct (retargets_back s s' c ob' K Hob') as (ob & Hob & Hend & _). rewrite Hend.
      pose proof (rt_ptrs s s' K h) as Hs. unfold hstep in Hs. rewrite Hp' in Hs.
      destruct (ptrs s !! h) as [p |] eqn:Hp.
      * destruct Hs as [Ht _]. apply (hs_root s Hho h p c ob Hp ltac:(congruence) Hob).
      * destruct Hs as [_ Hout]. apply (Hout c ob Hob).
Qed.

Lemma retargets_store_ptr s h p p' :
  ptrs s !! h = Some p -> type p' = type p -> next p' = next p ->
  retargets s (set_ptrs (insert h p') s).
Proof.
  intros Hp Hty Hn. split; [| reflexivity |]; simpl.
  - intros o. destruct (objs s !! o); done.
  - intros k. unfold hstep. destruct (decide (k = h)) as [-> | Hne].
    + rewrite lookup_insert_eq, Hp. done.
    + rewrite lookup_insert_ne by done. destruct (ptrs s !! k); done.
Qed.

Lemma retargets_new_root s h p' :
  ptrs s !! h = None -> type p' = ROOT ->
  (forall c ob, objs s !! c = Some ob -> ~ (c <= h < end_ ob)) ->
  retargets s (set_ptrs (insert h p') s).
Proof.
  intros Hp Hty Hout. split; [| reflexivity |]; simpl.
  - intros o. destruct (objs s !! o); done.
  - intros k. unfold hstep. destruct (decide (k = h)) as [-> | Hne].
    + rewrite lookup_insert_eq, Hp. done.
    + rewrite lookup_insert_ne by done. destruct (ptrs s !! k); done.
Qed.

Lemma retargets_delete_root s h p :
  ptrs s !! h = Some p -> type p = ROOT -> retargets s (set_ptrs (delete h) s).
Proof.
  intros Hp Hty. split; [| reflexivity |]; simpl.
  - intros o. destruct (objs s !! o); done.
  - intros k. unfold hstep. destruct (decide (k = h)) as [-> | Hne].
    + rewrite lookup_delete_eq, Hp. exact Hty.
    + rewrite lookup_delete_ne by done. destruct (ptrs s !! k); done.
Qed.

Lemma retargets_count s a ob n :
  objs s !! a = Some ob -> retargets s (set_objs (insert a (set_root_ref_cnt n ob)) s).
Proof.
  intros Hob. split; [| reflexivity |]; simpl.
  - intros o. destruct (decide (o = a)) as [-> | Hne].
    + rewrite lookup_insert_eq, Hob. done.
    + rewrite lookup_insert_ne by done. destruct (objs s !! o); done.
  - intros k. unfold hstep. destruct (ptrs s !! k); done.
Qed.

Lemma load_ptr_inv h s p s' : load_ptr h s = Ok p s' -> s' = s /\ ptrs s !! h = Some p.
Proof.
  unfold load_ptr. unfold_tc. destruct (ptrs s !! h); [| discriminate].
  intros [= <- <-]. done.
Qed.

Lemma store_ptr_inv h p s s' : store_ptr h p s = Ok tt s' -> s' = set_ptrs (insert h p) s.
Proof. unfold store_ptr, modify. intros [= <-]. reflexivity. Qed.

(** A change of a root count. *)
Lemma root_step_retargets (m : Z -> M unit) x s s' :
  m = inc_root \/ m = dec_root ->
  (match x with Some a => m a | None => ret tt end) s = Ok tt s' ->
  retargets s s' /\ ptrs s' = ptrs s.
Proof.
  intros Hm Hrun. destruct x as [a |].
  - destruct (objs s !! a) as [ob |] eqn:Hob.
    + destruct Hm as [-> | ->].
      * rewrite (inc_root_run a ob s Hob) in Hrun. injection Hrun as <-.
        split; [apply retargets_count, Hob | reflexivity].
      * rewrite (dec_root_run a ob s Hob) in Hrun. injection Hrun as <-.
        split; [apply retargets_count, Hob | reflexivity].
    + exfalso. destruct Hm as [-> | ->]; revert Hrun;
        unfold inc_root, dec_root; unfold_tc; rewrite Hob; discriminate.
  - injection Hrun as <-. split; [apply retargets_refl | reflexivity].
Qed.

Lemma store_display_retargets this d s s' :
  store_display this d s = Ok tt s' -> retargets s s'.
Proof.
  unfold store_display. intros Hrun.
  apply bind_Ok_inv in Hrun as (p & s1 & Hl & Hrun).
  apply load_ptr_inv in Hl as [-> Hp]. apply store_ptr_inv in Hrun as ->.
  apply (retargets_store_ptr s this p); [exact Hp | reflexivity | reflexivity].
Qed.

Lemma gc_base_ptr_reset_retargets this s s' :
  gc_base_ptr_reset this s = Ok tt s' -> retargets s s'.
Proof.
  unfold gc_base_ptr_reset. intros Hrun.
  apply bind_Ok_inv in Hrun as (p & s1 & Hl & Hrun).
  apply load_ptr_inv in Hl as [-> Hp]. destruct (type p) eqn:Hty.
  - apply bind_Ok_inv in Hrun as ([] & s1 & Hst & Hrun).
    apply store_ptr_inv in Hst as ->.
    apply (root_step_retargets dec_root) in Hrun as [K _]; [| right; reflexivity].
    apply (retargets_trans _ _ _
             (retargets_store_ptr s this p (set_object None p) Hp eq_refl eq_refl) K).
  - apply store_ptr_inv in Hrun as ->.
    apply (retargets_store_ptr s this p); [exact Hp | reflexivity | reflexivity].
Qed.

(** The three steps of an assignment to a ROOT handle. *)
Lemma retarget_retargets this p x s s' :
  ptrs s !! this = Some p ->
  (match object p with Some a => dec_root a | None => ret tt end ;;
   store_ptr this (set_object x p) ;;
   match x with Some a => inc_root a | None => ret tt end) s = Ok tt s' ->
  retargets s s'.
Proof.
  intros Hp Hrun.
  apply bind_Ok_inv in Hrun as ([] & s1 & Hdec & Hrun).
  apply (root_step_retargets dec_root) in Hdec as [K1 Hps1]; [| right; reflexivity].
  apply bind_Ok_inv in Hrun as ([] & s2 & Hst & Hrun).
  apply store_ptr_inv in Hst as ->.
  apply (root_step_retargets inc_root) in Hrun as [K3 _]; [| left; reflexivity].
  apply (retargets_trans _ _ _ K1). refine (retargets_trans _ _ _ _ K3).
  apply (retargets_store_ptr s1 this p); [congruence | reflexivity | reflexivity].
Qed.

Lemma gc_base_ptr_assign_retargets this o s s' :
  gc_base_ptr_assign this o s = Ok tt s' -> retargets s s'.
Proof.
  unfold gc_base_ptr_assign. intros Hrun.
  apply bind_Ok_inv in Hrun as (p & s1 & Hl & Hrun).
  apply load_ptr_inv in Hl as [-> Hp].
  apply bind_Ok_inv in Hrun as (op & s1 & Hl & Hrun).
  apply load_ptr_inv in Hl as [-> Ho].
  case_bool_decide; [injection Hrun as <-; apply retargets_refl |].
  destruct (type p) eqn:Hty.
  - apply (retarget_retargets this p (object op) s s' Hp Hrun).
  - apply store_ptr_inv in Hrun as ->.
    apply (retargets_store_ptr s this p); [exact Hp | reflexivity | reflexivity].
Qed.

Lemma gc_base_ptr_assign_move_retargets this o s s' :
  gc_base_ptr_assign_move this o s = Ok tt s' -> retargets s s'.
Proof.
  unfold gc_base_ptr_assign_move. intros Hrun.
  apply bind_Ok_inv in Hrun as (p & s1 & Hl & Hrun).
  apply load_ptr_inv in Hl as [-> Hp].
  apply bind_Ok_inv in Hrun as (op & s1 & Hl & Hrun).
  apply load_ptr_inv in Hl as [-> Ho].
  case_bool_decide as Hne; [injection Hrun as <-; apply retargets_refl |].
  destruct (type p) eqn:Hty; [destruct (type op) eqn:Hto |].
  - apply bind_Ok_inv in Hrun as ([] & s1 & Hst & Hrun).
    apply store_ptr_inv in Hst as ->. apply store_ptr_inv in Hrun as ->.
    assert (Hdiff : this <> o) by (intros ->; congruence).
    apply (retargets_trans _ _ _
             (retargets_store_ptr s this p (set_object (object op) p) Hp eq_refl eq_refl)).
    apply (retargets_store_ptr _ o op); [| reflexivity | reflexivity].
    simpl. rewrite lookup_insert_ne by done. exact Ho.
  - apply (retarget_retargets this p (object op) s s' Hp Hrun).
  - apply store_ptr_inv in Hrun as ->.
    apply (retargets_store_ptr s this p); [exact Hp | reflexivity | reflexivity].
Qed.

Lemma gc_base_ptr_delete_retargets this s s' :
  gc_base_ptr_delete this s = Ok tt s' -> retargets s s'.
Proof.
  unfold gc_base_ptr_delete. intros Hrun.
  apply bind_Ok_inv in Hrun as (p & s1 & Hl & Hrun).
  apply load_ptr_inv in Hl as [-> Hp]. destruct (type p) eqn:Hty.
  - apply bind_Ok_inv in Hrun as ([] & s1 & Hdec & Hrun).
    apply (root_step_retargets dec_root) in Hdec as [K1 Hps1]; [| right; reflexivity].
    unfold modify in Hrun. injection Hrun as <-.
    apply (retargets_trans _ _ _ K1).
    apply (retargets_delete_root s1 this p); [congruence | exact Hty].
  - injection Hrun as <-. apply retargets_refl.
Qed.

(** Where a handle may be built: inside a block only in the payload of the
    object under construction. *)
Definition placed (s : State) (this : Z) : Prop :=
  forall c ob, objs s !! c = Some ob -> c <= this < end_ ob ->
               current s = Some c /\ start c <= this.

Lemma classify_inv this s ty s' :
  classify this s = Ok ty s' ->
  s' = s /\
  match ty with
  | GC_HEAP => exists cur cob, current s = Some cur /\ objs s !! cur = Some cob /\
                               start cur <= this < end_ cob
  | ROOT => forall cur cob, current s = Some cur -> objs s !! cur = Some cob ->
                            ~ (start cur <= this < end_ cob)
  end.
Proof.
  unfold classify. unfold_tc. destruct (current s) as [cur |] eqn:Hcur.
  - destruct (objs s !! cur) as [cob |] eqn:Hcob; [| discriminate].
    destruct (Z.leb_spec (start cur) this); simpl.
    + destruct (Z.ltb_spec this (end_ cob)); intros [= <- <-]; (split; [reflexivity |]).
      * exists cur, cob. done.
      * intros cur' cob' [= <-] Hc'. assert (cob' = cob) as -> by congruence. lia.
    + intros [= <- <-]. split; [reflexivity |].
      intros cur' cob' [= <-] Hc'. lia.
  - intros [= <- <-]. split; [reflexivity |]. intros cur' cob' Hc'. discriminate.
Qed.

Lemma placed_root_outside s this :
  placed s this ->
  (forall cur cob, current s = Some cur -> objs s !! cur = Some cob ->
                   ~ (start cur <= this < end_ cob)) ->
  forall c ob, objs s !! c = Some ob -> ~ (c <= this < end_ ob).
Proof.
  intros Hpl Hroot c ob Hob Hin. destruct (Hpl c ob Hob Hin) as [Hcur Hstart].
  apply (Hroot c ob Hcur Hob). lia.
Qed.

(** A heap handle is linked in front of the list of the object under
    construction. *)
Lemma link_preserves s this x cur cob :
  heap_ok s -> objs s !! cur = Some cob -> start cur <= this < end_ cob ->
  ptrs s !! this = None ->
  let s' := set_objs (insert cur (set_first (Some this) cob))
                     (set_ptrs (insert this (mkPtr GC_HEAP (first cob) x None)) s) in
  root_counted s' -> heap_ok s'.
Proof.
  intros [Hwf Hlo Hrc Hho] Hcob Hrange Hfree s' Hrc'.
  set (pn := mkPtr GC_HEAP (first cob) x None) in *.
  assert (Hps' : ptrs s' = <[this := pn]> (ptrs s)) by reflexivity.
  assert (Hos' : objs s' = <[cur := set_first (Some this) cob]> (objs s)) by reflexivity.
  assert (Hall' : all_objects s' = all_objects s) by reflexivity.
  clearbody s'.
  assert (Htrans : forall j l, handle_list (ptrs s) j l -> handle_list (ptrs s') j l).
  { intros j l Hl. apply (handle_list_transfer (ptrs s)); [exact Hl |].
    intros a p Hin. pose proof (handle_list_live _ _ _ a p Hl Hin) as Ha.
    rewrite Hps', lookup_insert_ne by congruence. exact Ha. }
  assert (Hback : forall o ob', objs s' !! o = Some ob' ->
            exists ob l, objs s !! o = Some ob /\ end_ ob' = end_ ob /\
                         handle_list (ptrs s) (first ob) l /\
                         handle_list (ptrs s') (first ob')
                           (if decide (o = cur) then (this, pn) :: l else l)).
  { intros o ob' Hob'. rewrite Hos' in Hob'. destruct (decide (o = cur)) as [-> | Hne].
    - rewrite lookup_insert_eq in Hob'. injection Hob' as <-.
      destruct (wf_lists s Hwf cur cob Hcob) as [l Hl].
      exists cob, l. split; [exact Hcob |]. split; [reflexivity |]. split; [exact Hl |].
      simpl. constructor; [rewrite Hps'; apply lookup_insert_eq | apply Htrans, Hl].
    - rewrite lookup_insert_ne in Hob' by done.
      destruct (wf_lists s Hwf o ob' Hob') as [l Hl].
      exists ob', l. split; [exact Hob' |]. split; [reflexivity |]. split; [exact Hl |].
      apply Htrans, Hl. }
  assert (Hforth : forall o ob, objs s !! o = Some ob ->
            exists ob', objs s' !! o = Some ob').
  { intros o ob Hob. rewrite Hos'. destruct (decide (o = cur)) as [-> | Hne].
    - rewrite lookup_insert_eq. eauto.
    - rewrite lookup_insert_ne by done. eauto. }
  split; [| | exact Hrc' |].
  - apply well_formed_of_counted; [| | | exact Hrc'].
    + rewrite Hall'. apply (wf_nodup s Hwf).
    + intros o. rewrite Hall', (wf_registered s Hwf o). split.
      * intros [ob Hob]. apply (Hforth o ob Hob).
      * intros [ob' Hob']. destruct (Hback o ob' Hob') as (ob & _ & Hob & _). eauto.
    + intros o ob' Hob'. destruct (Hback o ob' Hob') as (ob & l & _ & _ & _ & Hl'). eauto.
  - split.
    + intros o ob' l1 a p Hob' Hl1 Hin.
      destruct (Hback o ob' Hob') as (ob & l & Hob & Hend & Hl & Hl').
      pose proof (handle_list_det _ _ _ Hl1 _ Hl') as ->. rewrite Hend.
      destruct (decide (o = cur)) as [-> | Hne].
      * assert (ob = cob) as -> by congruence.
        apply elem_of_cons in Hin as [[= -> ->] | Hin]; [exact Hrange |].
        apply (lo_embedded s Hlo cur cob l a p Hcob Hl Hin).
      * apply (lo_embedded s Hlo o ob l a p Hob Hl Hin).
    + intros o1 ob1 o2 ob2 H1 H2 Hne.
      destruct (Hback o1 ob1 H1) as (ob10 & _ & H10 & Hend1 & _).
      destruct (Hback o2 ob2 H2) as (ob20 & _ & H20 & Hend2 & _).
      rewrite Hend1, Hend2. apply (lo_disjoint s Hlo o1 ob10 o2 ob20 H10 H20 Hne).
  - split.
    + intros h p Hp Hty. rewrite Hps' in Hp. destruct (decide (h = this)) as [-> | Hne].
      * rewrite lookup_insert_eq in Hp. injection Hp as <-.
        destruct (Hforth cur cob Hcob) as [ob' Hob'].
        destruct (Hback cur ob' Hob') as (ob & l & _ & _ & _ & Hl').
        rewrite decide_True in Hl' by reflexivity.
        exists cur, ob', ((this, pn) :: l). split; [exact Hob' |]. split; [exact Hl' | left].
      * rewrite lookup_insert_ne in Hp by done.
        destruct (hs_heap s Hho h p Hp Hty) as (c & ob & l & Hob & Hl & Hin).
        destruct (Hforth c ob Hob) as [ob' Hob'].
        destruct (Hback c ob' Hob') as (ob0 & l0 & Hob0 & _ & Hl0 & Hl').
        assert (ob0 = ob) as -> by congruence.
        pose proof (handle_list_det _ _ _ Hl0 _ Hl) as ->.
        exists c, ob'. eexists. split; [exact Hob' |]. split; [exact Hl' |].
        destruct (decide (c = cur)); [right |]; exact Hin.
    + intros h p c ob' Hp Hty Hob'. rewrite Hps' in Hp.
      destruct (decide (h = this)) as [-> | Hne].
      * rewrite lookup_insert_eq in Hp. injection Hp as <-. discriminate.
      * rewrite lookup_insert_ne in Hp by done.
        destruct (Hback c ob' Hob') as (ob & _ & Hob & Hend & _). rewrite Hend.
        apply (hs_root s Hho h p c ob Hp Hty Hob).
Qed.

(** The constructor from a header. *)
Lemma gc_base_ptr_new_step this x s s' :
  heap_ok s -> placed s this -> ptrs s !! this = None ->
  gc_base_ptr_new this x s = Ok tt s' -> root_counted s' -> heap_ok s'.
Proof.
  intros Hok Hpl Hfree Hrun Hrc'. unfold gc_base_ptr_new in Hrun.
  apply bind_Ok_inv in Hrun as (ty & s1 & Hcl & Hrun).
  apply classify_inv in Hcl as [-> Hty]. destruct ty.
  - apply (retargets_preserves s s' Hok); [| exact Hrc'].
    apply bind_Ok_inv in Hrun as ([] & s1 & Hst & Hrun).
    apply store_ptr_inv in Hst as ->.
    apply (root_step_retargets inc_root) in Hrun as [K _]; [| left; reflexivity].
    refine (retargets_trans _ _ _ _ K).
    apply retargets_new_root; [exact Hfree | reflexivity |].
    apply (placed_root_outside s this Hpl Hty).
  - destruct Hty as (cur & cob & Hcur & Hcob & Hrange).
    unfold link_heap_ptr in Hrun. unfold_tc. rewrite Hcur, Hcob in Hrun.
    injection Hrun as <-.
    apply (link_preserves s this x cur cob Hok Hcob Hrange Hfree). exact Hrc'.
Qed.

(** The move constructor. *)
Lemma gc_base_ptr_move_step this o s s' :
  heap_ok s -> placed s this -> ptrs s !! this = None ->
  gc_base_ptr_move this o s = Ok tt s' -> root_counted s' -> heap_ok s'.
Proof.
  intros Hok Hpl Hfree Hrun Hrc'. unfold gc_base_ptr_move in Hrun.
  apply bind_Ok_inv in Hrun as (ty & s1 & Hcl & Hrun).
  apply classify_inv in Hcl as [-> Hty].
  apply bind_Ok_inv in Hrun as (op & s1 & Hl & Hrun).
  apply load_ptr_inv in Hl as [-> Ho].
  assert (Hdiff : this <> o) by congruence.
  destruct ty.
  - apply (retargets_preserves s s' Hok); [| exact Hrc'].
    apply bind_Ok_inv in Hrun as ([] & s1 & Hst & Hrun).
    apply store_ptr_inv in Hst as ->.
    assert (K0 : retargets s (set_ptrs (insert this (mkPtr ROOT None (object op) None)) s)).
    { apply retargets_new_root; [exact Hfree | reflexivity |].
      apply (placed_root_outside s this Hpl Hty). }
    apply (retargets_trans _ _ _ K0).
    destruct (object op) as [a |]; [destruct (type op) eqn:Hto |].
    + apply store_ptr_inv in Hrun as ->.
      apply (retargets_store_ptr _ o op); [| reflexivity | reflexivity].
      simpl. rewrite lookup_insert_ne by done. exact Ho.
    + apply (root_step_retargets inc_root (Some a)) in Hrun as [K _];
        [exact K | left; reflexivity].
    + injection Hrun as <-. apply retargets_refl.
  - destruct Hty as (cur & cob & Hcur & Hcob & Hrange).
    unfold link_heap_ptr in Hrun. unfold_tc. rewrite Hcur, Hcob in Hrun.
    injection Hrun as <-.
    apply (link_preserves s this (object op) cur cob Hok Hcob Hrange Hfree). exact Hrc'.
Qed.

Lemma then_display_ok s s1 this o (m : M unit) :
  m s = Ok tt s1 -> heap_ok s1 ->
  is_Some (ptrs s1 !! this) -> is_Some (ptrs s1 !! o) ->
  exists s', (m ;; do op <- load_ptr o; store_display this (ptr op)) s = Ok tt s' /\
             heap_ok s'.
Proof.
  intros Hm Hok1 [p1 Hp1] [op1 Ho1]. unfold bind at 1. rewrite Hm.
  unfold bind at 1. unfold load_ptr at 1. rewrite Ho1.
  destruct (store_display_counted this (ptr op1) s1 p1 (ok_rc s1 Hok1) Hp1)
    as (s' & Hrun & Hrc' & _).
  exists s'. split; [exact Hrun |].
  apply (retargets_preserves s1 s' Hok1 (store_display_retargets _ _ _ _ Hrun) Hrc').
Qed.

(** A constructor builds its handle at a place for a handle. *)
Definition well_placed_operation (op : handle_operation) (s : State) : Prop :=
  match op with
  | hop_default this | hop_copy this _ | hop_alias this _ _ | hop_move this _ =>
      placed s this
  | _ => True
  end.

(** X18: the operations of a handle keep the heap in order.  In a state
    that is well-formed and well laid out, with counted root references,
    heap handles linked in the list of a live header and ROOT handles
    outside the heap, every operation of a handle returns and ends in such a
    state, provided that a constructor builds its handle outside the heap or
    in the payload of the object under construction: the handle lists stay
    intact, a new heap handle is linked into the list of the object under
    construction, and no handle refers to a header that is not live. *)
Theorem handle_operations_preserve_heap (op : handle_operation) (s : State) :
  heap_ok s ->
  Z.of_nat (size (ptrs s)) + 1 < 2 ^ 31 ->
  well_formed_handle_operation op s ->
  well_placed_operation op s ->
  exists s', run_handle_operation op s = Ok tt s' /\ heap_ok s'.
Proof.
  intros Hok Hbound Hwf Hpl. pose proof (ok_rc s Hok) as Hrc.
  destruct op; simpl in *.
  - destruct (gc_base_ptr_new_counted this None s Hrc Hbound Hwf ltac:(discriminate))
      as (s' & p & Hrun & Hrc' & _).
    exists s'. split; [exact Hrun |].
    apply (gc_base_ptr_new_step this None s s' Hok Hpl Hwf Hrun Hrc').
  - destruct Hwf as [Hfree [op Ho]]. unfold Ptr_copy.
    assert (Hlive : forall a, object op = Some a -> is_Some (objs s !! a)).
    { intros a Ha. apply (ct_live _ _ (rc_counted s Hrc) o op a Ho Ha). }
    destruct (gc_base_ptr_new_counted this (object op) s Hrc Hbound Hfree Hlive)
      as (s1 & p1 & Hnew & Hrc1 & Hps1 & _).
    apply (then_display_ok s s1).
    + unfold gc_base_ptr_copy. unfold bind. unfold load_ptr. rewrite Ho. exact Hnew.
    + apply (gc_base_ptr_new_step this (object op) s s1 Hok Hpl Hfree Hnew Hrc1).
    + rewrite Hps1, lookup_insert_eq. eauto.
    + rewrite Hps1, lookup_insert_ne by congruence. eauto.
  - destruct Hwf as [Hfree [op Ho]]. unfold Ptr_alias.
    assert (Hlive : forall a, object op = Some a -> is_Some (objs s !! a)).
    { intros a Ha. apply (ct_live _ _ (rc_counted s Hrc) o op a Ho Ha). }
    destruct (gc_base_ptr_new_counted this (object op) s Hrc Hbound Hfree Hlive)
      as (s1 & p1 & Hnew & Hrc1 & Hps1 & _).
    pose proof (gc_base_ptr_new_step this (object op) s s1 Hok Hpl Hfree Hnew Hrc1) as Hok1.
    assert (Hcopy : gc_base_ptr_copy this o s = Ok tt s1).
    { unfold gc_base_ptr_copy. unfold bind. unfold load_ptr. rewrite Ho. exact Hnew. }
    unfold bind. rewrite Hcopy.
    destruct (store_display_counted this d s1 p1 Hrc1) as (s' & Hrun & Hrc' & _);
      [rewrite Hps1; apply lookup_insert_eq |].
    exists s'. split; [exact Hrun |].
    apply (retargets_preserves s1 s' Hok1 (store_display_retargets _ _ _ _ Hrun) Hrc').
  - destruct Hwf as [Hfree [op Ho]]. unfold Ptr_move.
    destruct (gc_base_ptr_move_counted this o s op Hrc Hbound Hfree Ho)
      as (s1 & Hrun & Hrc1 & Hthis & Hkeep).
    apply (then_display_ok s s1); [exact Hrun | | exact Hthis | apply Hkeep; eauto].
    apply (gc_base_ptr_move_step this o s s1 Hok Hpl Hfree Hrun Hrc1).
  - destruct Hwf as [[p Hp] [op Ho]]. unfold Ptr_assign.
    destruct (gc_base_ptr_assign_counted this o s p op Hrc Hbound Hp Ho)
      as (s1 & Hrun & Hrc1 & Hkeep).
    apply (then_display_ok s s1); [exact Hrun | | apply Hkeep; eauto | apply Hkeep; eauto].
    apply (retargets_preserves s s1 Hok (gc_base_ptr_assign_retargets _ _ _ _ Hrun) Hrc1).
  - destruct Hwf as [[p Hp] [op Ho]]. unfold Ptr_assign_move.
    destruct (gc_base_ptr_assign_move_counted this o s p op Hrc Hbound Hp Ho)
      as (s1 & Hrun & Hrc1 & Hkeep).
    apply (then_display_ok s s1); [exact Hrun | | apply Hkeep; eauto | apply Hkeep; eauto].
    apply (retargets_preserves s s1 Hok
             (gc_base_ptr_assign_move_retargets _ _ _ _ Hrun) Hrc1).
  - destruct Hwf as [p Hp]. unfold Ptr_assign_nullptr, gc_base_ptr_assign_nullptr.
    destruct (gc_base_ptr_reset_counted this s p Hrc Hbound Hp)
      as (s1 & Hrun & Hrc1 & Hps1 & _).
    pose proof (retargets_preserves s s1 Hok (gc_base_ptr_reset_retargets _ _ _ Hrun) Hrc1)
      as Hok1.
    unfold bind. rewrite Hrun.
    destruct (store_display_counted this None s1 (set_object None p) Hrc1)
      as (s' & Hrun' & Hrc' & _); [rewrite Hps1; apply lookup_insert_eq |].
    exists s'. split; [exact Hrun' |].
    apply (retargets_preserves s1 s' Hok1 (store_display_retargets _ _ _ _ Hrun') Hrc').
  - destruct Hwf as [p Hp]. unfold Ptr_reset.
    destruct (store_display_counted this None s p Hrc Hp) as (s1 & Hrun & Hrc1 & Hps1 & _).
    pose proof (retargets_preserves s s1 Hok (store_display_retargets _ _ _ _ Hrun) Hrc1)
      as Hok1.
    unfold bind. rewrite Hrun.
    destruct (gc_base_ptr_reset_counted this s1 (set_ptr None p) Hrc1)
      as (s' & Hrun' & Hrc' & _); [| rewrite Hps1; apply lookup_insert_eq |].
    { rewrite Hps1, map_size_insert_Some by eauto. exact Hbound. }
    exists s'. split; [exact Hrun' |].
    apply (retargets_preserves s1 s' Hok1 (gc_base_ptr_reset_retargets _ _ _ Hrun') Hrc').
  - destruct Hwf as [p Hp].
    destruct (gc_base_ptr_delete_counted this s p Hrc Hbound Hp) as (s' & Hrun & Hrc').
    exists s'. split; [exact Hrun |].
    apply (retargets_preserves s s' Hok (gc_base_ptr_delete_retargets _ _ _ Hrun) Hrc').
Qed.

(** *** Allocation *)

Lemma reachable_mono s s' o :
  (forall a, is_root s a -> is_root s' a) ->
  (forall a b, points_to s a b -> points_to s' a b) ->
  reachable s o -> reachable s' o.
Proof.
  intros Hroot Hedge. induction 1 as [a Ha | a b Ha IH Hab].
  - apply reachable_root, Hroot, Ha.
  - apply (reachable_step s' a b IH), Hedge, Hab.
Qed.

(** A state with the same heap: only the countdown, the hint or the trace
    differ. *)
Lemma heap_ok_same s s' :
  objs s' = objs s -> ptrs s' = ptrs s -> all_objects s' = all_objects s ->
  (forall cur, current s' = Some cur -> is_Some (objs s !! cur)) ->
  heap_ok s -> heap_ok s'.
Proof.
  intros Hos Hps Hall Hcur Hok. apply (retargets_preserves s s' Hok).
  - split; [| exact Hall |].
    + intros o. rewrite Hos. destruct (objs s !! o); done.
    + intros h. rewrite Hps. unfold hstep. destruct (ptrs s !! h); done.
  - split.
    + rewrite Hos, Hps. apply (rc_counted s (ok_rc s Hok)).
    + intros cur Hc. rewrite Hos. apply Hcur, Hc.
Qed.

Lemma reachable_same s s' o :
  objs s' = objs s -> ptrs s' = ptrs s -> reachable s o -> reachable s' o.
Proof.
  intros Hos Hps. apply reachable_mono.
  - intros a. unfold is_root. rewrite Hos. done.
  - intros a b. unfold points_to. rewrite Hos, Hps. done.
Qed.

(** The events of a collection: no constructor runs in it. *)
Definition no_construct (tr : list event) : Prop :=
  Forall (fun ev => forall a, ev <> EvConstruct a) tr.

Lemma run_destructor_no_construct d b e : no_construct (run_destructor d b e).
Proof.
  destruct d; simpl.
  - constructor.
  - constructor; [discriminate | constructor].
  - apply Forall_fmap, Forall_forall. intros x _ a. discriminate.
Qed.

Lemma finalise_trace_no_construct os l : no_construct (finalise_trace os l).
Proof.
  induction l as [| c l IH]; simpl; [constructor |].
  apply Forall_app. split; [| exact IH].
  destruct (os !! c) as [ob |]; [| constructor].
  constructor; [discriminate | apply run_destructor_no_construct].
Qed.

(** A collection in a state with the heap in order. *)
Lemma gc_collect_heap_ok s :
  heap_ok s -> (forall cur, current s = Some cur -> reachable s cur) ->
  exists s',
    gc_collect s = Ok tt s' /\ heap_ok s' /\ current s' = current s /\
    (forall o, reachable s o -> reachable s' o) /\
    (forall c ob', objs s' !! c = Some ob' ->
       exists ob, objs s !! c = Some ob /\ end_ ob' = end_ ob) /\
    (forall h p, ptrs s' !! h = Some p -> ptrs s !! h = Some p) /\
    (forall h p, ptrs s !! h = Some p -> type p = ROOT -> ptrs s' !! h = Some p) /\
    (forall h p c ob l, objs s !! c = Some ob -> handle_list (ptrs s) (first ob) l ->
                        (h, p) ∈ l -> reachable s c -> ptrs s' !! h = Some p) /\
    Z.of_nat (size (ptrs s')) <= Z.of_nat (size (ptrs s)) /\
    exists tr, trace s' = trace s ++ tr /\ no_construct tr.
Proof.
  intros [Hwf Hlo Hrc Hho] Hcur.
  destruct (decide (all_objects s = [])) as [Hnil | Hne].
  - exists s. split.
    { unfold gc_collect. unfold bind at 1. unfold get_state.
      rewrite bool_decide_eq_true_2 by exact Hnil. reflexivity. }
    split; [done |]. split; [reflexivity |]. split; [auto |]. split; [eauto |].
    split; [auto |]. split; [auto |]. split; [| split; [lia |]].
    + intros h p c ob l Hob Hl Hin _. apply (handle_list_live _ _ _ h p Hl Hin).
    + exists []. split; [rewrite app_nil_r; reflexivity | constructor].
  - destruct (gc_collect_run s Hwf Hne)
      as (os2 & live & garbage & s' & Hrun & Hag & Hm & _ & Hlive & Hgarbage & Hndl & _ &
          Hall & _ & Hcur' & Htrace & Hgone & Hkept & Hptrs).
    exists s'. split; [exact Hrun |]. split; [| split; [exact Hcur' |]].
    { split.
      - apply (survivors_well_formed s s' os2 live garbage); assumption.
      - apply (survivors_laid_out s s' os2 live garbage); assumption.
      - split; [apply (survivors_counted s s' os2 live garbage); assumption |].
        intros cur Hc. rewrite Hcur' in Hc.
        apply (reachable_header s s' os2 live garbage Hwf Hag Hlive Hgarbage Hkept cur).
        apply Hcur, Hc.
      - apply (survivors_housed s s' os2 live garbage); assumption. }
    split; [intros o; apply (survivors_reachable s s' os2 live garbage); assumption |].
    split.
    { intros c ob' Hob'.
      destruct (survivor_header s s' os2 live garbage Hwf Hag Hm Hlive Hgarbage Hgone Hkept
                  c ob' Hob') as (_ & _ & _ & _ & ob & Hob & Heq).
      exists ob. split; [exact Hob |]. injection Heq. done. }
    split; [intros h p Hp; apply Hptrs in Hp as [Hp _]; exact Hp |].
    split; [intros h p Hp Hty;
            apply (root_handle_survives s s' os2 garbage Hho Hag Hptrs h p Hp Hty) |].
    split.
    { intros h p c ob l Hob Hl Hin Hr.
      destruct (reachable_header s s' os2 live garbage Hwf Hag Hlive Hgarbage Hkept c Hr)
        as [ob' Hob'].
      pose proof (survivor_list s s' os2 garbage Hlo Hag Hgone Hptrs c ob' ob l Hob' Hob Hl)
        as Hl'.
      apply (handle_list_live _ _ _ h p Hl' Hin). }
    split.
    { apply inj_le, map_subseteq_size, map_subseteq_spec.
      intros h p Hp. apply Hptrs in Hp as [Hp _]. exact Hp. }
    exists (finalise_trace os2 garbage ++ map EvDelete garbage).
    split; [exact Htrace |]. apply Forall_app. split.
    + apply finalise_trace_no_construct.
    + apply Forall_fmap, Forall_forall. intros x _ a. discriminate.
Qed.

(** The list of a header after a step that leaves the lists as they are. *)
Lemma retargets_list s s' o ob l :
  laid_out s -> housed s -> retargets s s' ->
  objs s !! o = Some ob -> handle_list (ptrs s) (first ob) l ->
  exists l', handle_list (ptrs s') (first ob) l' /\ l'.*1 = l.*1.
Proof.
  intros Hlo Hho K Hob Hl. apply (handle_list_step (ptrs s)); [exact Hl |].
  intros a p Hin.
  pose proof (listed_is_heap s o ob l a p Hlo Hho Hob Hl Hin) as Hty.
  pose proof (rt_ptrs s s' K a) as Hs. unfold hstep in Hs.
  rewrite (handle_list_live _ _ _ a p Hl Hin) in Hs.
  destruct (ptrs s' !! a) as [p' |]; [| congruence].
  destruct Hs as [_ Hn]. eauto.
Qed.

(** Reachability grows with the roots and with the referents of the heap
    handles. *)
Lemma reachable_retargets s s' :
  heap_ok s -> retargets s s' ->
  (forall a, is_root s a -> is_root s' a) ->
  (forall h p o, ptrs s !! h = Some p -> type p = GC_HEAP -> object p = Some o ->
                 exists p', ptrs s' !! h = Some p' /\ object p' = Some o) ->
  forall o, reachable s o -> reachable s' o.
Proof.
  intros [Hwf Hlo Hrc Hho] K Hroot Hgrow o. apply reachable_mono; [exact Hroot |].
  intros a b (ob & Hob & Hb).
  destruct (wf_lists s Hwf a ob Hob) as [l Hl].
  rewrite (handle_list_children (ptrs s) ob l Hl) in Hb.
  apply referents_elem_inv in Hb as (h & p & Hin & Ho).
  destruct (retargets_forth s s' a ob K Hob) as (ob' & Hob' & _ & Hf).
  destruct (retargets_list s s' a ob l Hlo Hho K Hob Hl) as (l' & Hl' & Hfst).
  rewrite <- Hf in Hl'.
  exists ob'. split; [exact Hob' |].
  rewrite (handle_list_children (ptrs s') ob' l' Hl').
  pose proof (listed_is_heap s a ob l h p Hlo Hho Hob Hl Hin) as Hty.
  destruct (Hgrow h p b (handle_list_live _ _ _ h p Hl Hin) Hty Ho) as (p' & Hp' & Ho').
  assert (Ha : h ∈ l'.*1).
  { rewrite Hfst. apply list_elem_of_fmap. exists (h, p). done. }
  apply list_elem_of_fmap in Ha as ([h' q] & Heq & Hin'). simpl in Heq. subst h'.
  assert (q = p') as ->.
  { pose proof (handle_list_live _ _ _ h q Hl' Hin'). congruence. }
  apply (referents_elem l' h p' b Hin' Ho').
Qed.

Lemma root_units_none o (ps : gmap Z Ptr) :
  (forall h p, ps !! h = Some p -> object p <> Some o) -> root_units o ps = 0.
Proof.
  intros Hnone. rewrite <- (root_units_kept o ps ∅).
  - reflexivity.
  - intros h p Hp. rewrite lookup_empty in Hp. discriminate.
  - intros h p Hp [_ Ho]. destruct (Hnone h p Hp Ho).
Qed.

(** Storage for a new object: a block that no live block overlaps and in
    which no live handle lies. *)
Record fresh_block (s : State) (mem e : Z) : Prop := {
  fb_size : start mem <= e;
  fb_new : objs s !! mem = None;
  fb_blocks : forall c ob, objs s !! c = Some ob -> e <= c \/ end_ ob <= mem;
  fb_handles : forall h p, ptrs s !! h = Some p -> ~ (mem <= h < e)
}.

Lemma fresh_block_sub s s' mem e :
  fresh_block s mem e ->
  (forall c ob', objs s' !! c = Some ob' ->
     exists ob, objs s !! c = Some ob /\ end_ ob' = end_ ob) ->
  (forall h p, ptrs s' !! h = Some p -> ~ (mem <= h < e)) ->
  fresh_block s' mem e.
Proof.
  intros [Hsz Hnew Hbl Hhs] Hobjs Hptrs. split; [exact Hsz | | | exact Hptrs].
  - destruct (objs s' !! mem) as [ob' |] eqn:Hob'; [| reflexivity].
    destruct (Hobjs mem ob' Hob') as (ob & Hob & _). congruence.
  - intros c ob' Hob'. destruct (Hobjs c ob' Hob') as (ob & Hob & ->).
    apply (Hbl c ob Hob).
Qed.

(** The header of a new object enters the heap, with no reference yet. *)
Definition add_header (mem e : Z) (d : destructor_fn) (s : State) : State :=
  set_all_objects (all_objects s ++ [mem]) (set_objs (insert mem (gc_object_new e d)) s).

Lemma add_header_ok mem e d s :
  heap_ok s -> fresh_block s mem e ->
  heap_ok (add_header mem e d s) /\
  forall o, reachable s o -> reachable (add_header mem e d s) o.
Proof.
  intros [Hwf Hlo Hrc Hho] [Hsz Hnew Hbl Hhs].
  set (s' := add_header mem e d s).
  assert (Hps' : ptrs s' = ptrs s) by reflexivity.
  assert (Hos' : objs s' = <[mem := gc_object_new e d]> (objs s)) by reflexivity.
  assert (Hall' : all_objects s' = all_objects s ++ [mem]) by reflexivity.
  assert (Hcur' : current s' = current s) by reflexivity.
  clearbody s'.
  assert (Hold : forall o ob, objs s !! o = Some ob -> objs s' !! o = Some ob).
  { intros o ob Hob. rewrite Hos', lookup_insert_ne by congruence. exact Hob. }
  assert (Hback : forall o ob, objs s' !! o = Some ob ->
            (o = mem /\ ob = gc_object_new e d) \/ (o <> mem /\ objs s !! o = Some ob)).
  { intros o ob Hob. rewrite Hos' in Hob. destruct (decide (o = mem)) as [-> | Hne].
    - rewrite lookup_insert_eq in Hob. injection Hob as <-. left. done.
    - rewrite lookup_insert_ne in Hob by done. right. done. }
  assert (Hnoref : forall h p, ptrs s !! h = Some p -> object p <> Some mem).
  { intros h p Hp Ho. destruct (ct_live _ _ (rc_counted s Hrc) h p mem Hp Ho). congruence. }
  assert (Hrc' : root_counted s').
  { split; [split |].
    - intros h p o Hp Ho. rewrite Hps' in Hp.
      destruct (ct_live _ _ (rc_counted s Hrc) h p o Hp Ho) as [ob Hob]. eauto.
    - intros o ob Hob. rewrite Hps'. destruct (Hback o ob Hob) as [[-> ->] | [Hne Hob0]].
      + rewrite (root_units_none mem (ptrs s) Hnoref). reflexivity.
      + apply (ct_count _ _ (rc_counted s Hrc) o ob Hob0).
    - intros cur Hc. rewrite Hcur' in Hc.
      destruct (rc_current s Hrc cur Hc) as [ob Hob]. eauto. }
  assert (Hlists : forall o ob, objs s' !! o = Some ob ->
            exists l, handle_list (ptrs s') (first ob) l /\
                      ((o = mem /\ l = []) \/
                       (o <> mem /\ objs s !! o = Some ob /\
                        handle_list (ptrs s) (first ob) l))).
  { intros o ob Hob. rewrite Hps'. destruct (Hback o ob Hob) as [[-> ->] | [Hne Hob0]].
    - exists []. split; [constructor | left; done].
    - destruct (wf_lists s Hwf o ob Hob0) as [l Hl]. exists l. split; [exact Hl |].
      right. done. }
  split; [split; [| | exact Hrc' |] |].
  - apply well_formed_of_counted; [| | | exact Hrc'].
    + rewrite Hall'. apply NoDup_app. split; [apply (wf_nodup s Hwf) |].
      split; [| apply NoDup_singleton].
      intros o Ho Hin. apply list_elem_of_singleton in Hin as ->.
      apply (wf_registered s Hwf) in Ho as [ob Hob]. congruence.
    + intros o. rewrite Hall', elem_of_app, list_elem_of_singleton, (wf_registered s Hwf o).
      split.
      * intros [[ob Hob] | ->]; [eauto |]. rewrite Hos', lookup_insert_eq. eauto.
      * intros [ob Hob]. destruct (Hback o ob Hob) as [[-> _] | [_ Hob0]]; eauto.
    + intros o ob Hob. destruct (Hlists o ob Hob) as (l & Hl & _). eauto.
  - split.
    + intros o ob l1 a p Hob Hl1 Hin. destruct (Hlists o ob Hob) as (l & Hl & Hcase).
      pose proof (handle_list_det _ _ _ Hl1 _ Hl) as ->.
      destruct Hcase as [[_ ->] | (_ & Hob0 & Hl0)].
      * apply elem_of_nil in Hin. contradiction.
      * apply (lo_embedded s Hlo o ob l a p Hob0 Hl0 Hin).
    + intros o1 ob1 o2 ob2 H1 H2 Hne.
      destruct (Hback o1 ob1 H1) as [[-> ->] | [Hne1 H10]],
               (Hback o2 ob2 H2) as [[-> ->] | [Hne2 H20]].
      * contradiction.
      * simpl. destruct (Hbl o2 ob2 H20); [left | right]; assumption.
      * simpl. destruct (Hbl o1 ob1 H10); [right | left]; assumption.
      * apply (lo_disjoint s Hlo o1 ob1 o2 ob2 H10 H20 Hne).
  - split.
    + intros h p Hp Hty. rewrite Hps' in Hp |- *.
      destruct (hs_heap s Hho h p Hp Hty) as (c & ob & l & Hob & Hl & Hin).
      exists c, ob, l. split; [apply Hold, Hob | done].
    + intros h p c ob Hp Hty Hob. rewrite Hps' in Hp.
      destruct (Hback c ob Hob) as [[-> ->] | [_ Hob0]].
      * simpl. apply (Hhs h p Hp).
      * apply (hs_root s Hho h p c ob Hp Hty Hob0).
  - intros o. apply reachable_mono.
    + intros a (ob & Hob & Hpos). exists ob. split; [apply Hold, Hob | exact Hpos].
    + intros a b (ob & Hob & Hb). exists ob. split; [apply Hold, Hob |].
      rewrite Hps'. exact Hb.
Qed.

Lemma handle_list_fresh (ps : gmap Z Ptr) this p j l :
  ps !! this = None -> handle_list ps j l -> handle_list (<[this := p]> ps) j l.
Proof.
  intros Hfree Hl. apply (handle_list_transfer ps); [exact Hl |].
  intros a q Hin. pose proof (handle_list_live _ _ _ a q Hl Hin) as Ha.
  rewrite lookup_insert_ne by congruence. exact Ha.
Qed.

(** A new ROOT handle adds no edge and takes none away. *)
Lemma new_root_reachable s this p o :
  well_formed s -> ptrs s !! this = None ->
  reachable s o -> reachable (set_ptrs (insert this p) s) o.
Proof.
  intros Hwf Hfree. apply reachable_mono.
  - intros a Ha. exact Ha.
  - intros a b (ob & Hob & Hb). exists ob. split; [exact Hob |].
    destruct (wf_lists s Hwf a ob Hob) as [l Hl].
    rewrite (handle_list_children (ptrs s) ob l Hl) in Hb. simpl.
    rewrite (handle_list_children _ ob l (handle_list_fresh _ this p _ _ Hfree Hl)).
    exact Hb.
Qed.

(** A new heap handle adds an edge from the object under construction, if
    it refers to anything. *)
Lemma link_reachable s this x cur cob o :
  well_formed s -> objs s !! cur = Some cob -> ptrs s !! this = None ->
  reachable s o ->
  reachable (set_objs (insert cur (set_first (Some this) cob))
               (set_ptrs (insert this (mkPtr GC_HEAP (first cob) x None)) s)) o.
Proof.
  intros Hwf Hcob Hfree. apply reachable_mono.
  - intros a (ob & Hob & Hpos). unfold is_root. simpl.
    destruct (decide (a = cur)) as [-> | Hne].
    + rewrite lookup_insert_eq. assert (ob = cob) as -> by congruence.
      exists (set_first (Some this) cob). done.
    + rewrite lookup_insert_ne by done. eauto.
  - intros a b (ob & Hob & Hb). unfold points_to. simpl.
    destruct (wf_lists s Hwf a ob Hob) as [l Hl].
    rewrite (handle_list_children (ptrs s) ob l Hl) in Hb.
    pose proof (handle_list_fresh _ this (mkPtr GC_HEAP (first cob) x None) _ _ Hfree Hl)
      as Hl'.
    destruct (decide (a = cur)) as [-> | Hne].
    + rewrite lookup_insert_eq. assert (ob = cob) as -> by congruence.
      exists (set_first (Some this) cob). split; [reflexivity |].
      rewrite (handle_list_children _ (set_first (Some this) cob)
                 ((this, mkPtr GC_HEAP (first cob) x None) :: l)).
      * simpl. destruct x; [right |]; exact Hb.
      * simpl. constructor; [apply lookup_insert_eq | exact Hl'].
    + rewrite lookup_insert_ne by done. exists ob. split; [exact Hob |].
      rewrite (handle_list_children _ ob l Hl'). exact Hb.
Qed.

(** The default constructor of a handle, with what it leaves alone. *)
Lemma Ptr_default_ok this s :
  heap_ok s -> Z.of_nat (size (ptrs s)) + 1 < 2 ^ 31 ->
  ptrs s !! this = None -> placed s this ->
  exists s0 p0,
    Ptr_default this s = Ok tt s0 /\ heap_ok s0 /\
    ptrs s0 = <[this := p0]> (ptrs s) /\ object p0 = None /\ ptr p0 = None /\
    all_objects s0 = all_objects s /\ gc_counter s0 = gc_counter s /\
    current s0 = current s /\ trace s0 = trace s /\
    (forall o, reachable s o -> reachable s0 o) /\
    (forall c ob0, objs s0 !! c = Some ob0 ->
       exists ob, objs s !! c = Some ob /\ end_ ob0 = end_ ob) /\
    (type p0 = GC_HEAP ->
     exists cur ob0 l, current s = Some cur /\ objs s0 !! cur = Some ob0 /\
                       handle_list (ptrs s0) (first ob0) l /\ (this, p0) ∈ l).
Proof.
  intros Hok Hbound Hfree Hpl. pose proof (ok_wf s Hok) as Hwf.
  destruct (gc_base_ptr_new_counted this None s (ok_rc s Hok) Hbound Hfree
              ltac:(discriminate)) as (s0 & p0 & Hrun & Hrc0 & Hps0 & Hobj & Hptr & _).
  pose proof (gc_base_ptr_new_step this None s s0 Hok Hpl Hfree Hrun Hrc0) as Hok0.
  change (gc_base_ptr_new this None) with (Ptr_default this) in Hrun.
  exists s0, p0. split; [exact Hrun |]. split; [exact Hok0 |]. split; [exact Hps0 |].
  split; [exact Hobj |]. split; [exact Hptr |].
  assert (Hp0 : ptrs s0 !! this = Some p0) by (rewrite Hps0; apply lookup_insert_eq).
  clear Hps0 Hobj Hptr.
  rewrite Ptr_default_run in Hrun.
  assert (Hroot : forall s1, s1 = set_ptrs (insert this (mkPtr ROOT None None None)) s ->
            s0 = s1 ->
            all_objects s0 = all_objects s /\ gc_counter s0 = gc_counter s /\
            current s0 = current s /\ trace s0 = trace s /\
            (forall o, reachable s o -> reachable s0 o) /\
            (forall c ob0, objs s0 !! c = Some ob0 ->
               exists ob, objs s !! c = Some ob /\ end_ ob0 = end_ ob) /\
            (type p0 = GC_HEAP ->
             exists cur ob0 l, current s = Some cur /\ objs s0 !! cur = Some ob0 /\
                               handle_list (ptrs s0) (first ob0) l /\ (this, p0) ∈ l)).
  { intros s1 -> ->. simpl in Hp0. rewrite lookup_insert_eq in Hp0. injection Hp0 as <-.
    repeat (split; [reflexivity |]).
    split; [intros o; apply (new_root_reachable s this _ o Hwf Hfree) |].
    split; [intros c ob0 Hob0; simpl in Hob0; eauto | discriminate]. }
  destruct (current s) as [cur |] eqn:Hcur.
  - destruct (objs s !! cur) as [cob |] eqn:Hcob; [| discriminate].
    destruct (_ && _) eqn:Hin.
    + rewrite <- Hcur.
      injection Hrun as Hrun. subst s0. simpl in Hp0. rewrite lookup_insert_eq in Hp0.
      injection Hp0 as <-. repeat (split; [reflexivity |]).
      split; [intros o; apply (link_reachable s this None cur cob o Hwf Hcob Hfree) |].
      split.
      * intros c ob0 Hob0. simpl in Hob0. destruct (decide (c = cur)) as [-> | Hne].
        -- rewrite lookup_insert_eq in Hob0. injection Hob0 as <-. eauto.
        -- rewrite lookup_insert_ne in Hob0 by done. eauto.
      * intros _. destruct (wf_lists s Hwf cur cob Hcob) as [l Hl].
        exists cur, (set_first (Some this) cob),
               ((this, mkPtr GC_HEAP (first cob) None None) :: l).
        split; [exact Hcur |]. simpl. split; [apply lookup_insert_eq |].
        split; [| left].
        constructor; [apply lookup_insert_eq |].
        apply (handle_list_fresh _ this _ _ _ Hfree Hl).
    + injection Hrun as Hrun. apply (Hroot _ eq_refl). symmetry. exact Hrun.
  - injection Hrun as Hrun. apply (Hroot _ eq_refl). symmetry. exact Hrun.
Qed.

(** The block under the lock: the header is registered and the creating
    handle refers to it. *)
Lemma register_object_ok this mem e d s p0 :
  heap_ok s -> fresh_block s mem e -> Z.of_nat (size (ptrs s)) + 1 < 2 ^ 31 ->
  ptrs s !! this = Some p0 -> object p0 = None ->
  exists s',
    register_object this mem e d s = Ok tt s' /\ heap_ok s' /\
    ptrs s' = <[this := set_object (Some mem) p0]> (ptrs s) /\
    objs s' = <[mem := set_root_ref_cnt (match type p0 with ROOT => 1 | GC_HEAP => 0 end)
                         (gc_object_new e d)]> (objs s) /\
    all_objects s' = all_objects s ++ [mem] /\ current s' = current s /\
    gc_counter s' = gc_counter s /\ trace s' = trace s /\
    (forall o, reachable s o -> reachable s' o).
Proof.
  intros Hok Hfb Hbound Hp Hobj.
  destruct (add_header_ok mem e d s Hok Hfb) as [Hoka Hreach].
  set (sa := add_header mem e d s) in *.
  assert (Hpa : ptrs sa !! this = Some p0) by exact Hp.
  assert (Hma : objs sa !! mem = Some (gc_object_new e d)) by apply lookup_insert_eq.
  set (s' := mkState
               (<[mem := set_root_ref_cnt (match type p0 with ROOT => 1 | GC_HEAP => 0 end)
                           (gc_object_new e d)]> (objs s))
               (<[this := set_object (Some mem) p0]> (ptrs s))
               (all_objects s ++ [mem]) (gc_counter s) (current s) (trace s)).
  assert (Hrun : register_object this mem e d s = Ok tt s').
  { unfold register_object. unfold_tc. simpl. rewrite Hp. unfold s'.
    destruct (type p0); unfold modify, set_all_objects, set_objs, set_ptrs; simpl;
      [rewrite insert_insert_eq |]; reflexivity. }
  assert (K : retargets sa s').
  { split; [| reflexivity |].
    - intros o. simpl. destruct (decide (o = mem)) as [-> | Hne].
      + rewrite !lookup_insert_eq. done.
      + rewrite !lookup_insert_ne by done. destruct (objs s !! o); done.
    - intros h. simpl. unfold hstep. destruct (decide (h = this)) as [-> | Hne].
      + rewrite lookup_insert_eq, Hp. done.
      + rewrite lookup_insert_ne by done. destruct (ptrs s !! h); done. }
  assert (Hrc' : root_counted s').
  { pose proof (ok_rc sa Hoka) as Hrca. pose proof (rc_counted sa Hrca) as Hca.
    split.
    - destruct (type p0) eqn:Hty.
      + pose proof (counted_retarget _ _ this p0 (Some mem) Hca Hpa Hty
                      ltac:(intros a [= <-]; eauto) Hbound) as Hc'.
        rewrite Hobj in Hc'. unfold shift_root in Hc'. rewrite Hma in Hc'.
        simpl in Hc'. rewrite insert_insert_eq in Hc'. exact Hc'.
      + simpl. replace (<[mem := set_root_ref_cnt 0 (gc_object_new e d)]> (objs s))
          with (objs sa) by reflexivity.
        apply counted_store_plain; [exact Hca | | |].
        * intros a. unfold root_unit. simpl. rewrite Hty. reflexivity.
        * intros old a Hold. assert (old = p0) as -> by congruence.
          unfold root_unit. rewrite Hty. reflexivity.
        * simpl. intros a [= <-]. eauto.
    - intros cur Hc. simpl in Hc |- *. destruct (rc_current s (ok_rc s Hok) cur Hc) as [ob Hob].
      destruct (decide (cur = mem)) as [-> | Hne].
      + rewrite lookup_insert_eq. eauto.
      + rewrite lookup_insert_ne by done. eauto. }
  exists s'. split; [exact Hrun |].
  split; [apply (retargets_preserves sa s' Hoka K Hrc') |].
  repeat (split; [reflexivity |]).
  intros o Ho. apply (reachable_retargets sa s' Hoka K); [| | apply Hreach, Ho].
  - intros a (ob & Hob & Hpos). unfold is_root. simpl in Hob |- *.
    destruct (decide (a = mem)) as [-> | Hne].
    + rewrite lookup_insert_eq in Hob. injection Hob as <-. simpl in Hpos. lia.
    + rewrite lookup_insert_ne in Hob by done. rewrite lookup_insert_ne by done. eauto.
  - intros h p b Hh Hty Hb. simpl in Hh |- *. destruct (decide (h = this)) as [-> | Hne].
    + assert (p = p0) as -> by congruence. congruence.
    + rewrite lookup_insert_ne by done. eauto.
Qed.

(** An object that no root reference counts for and no handle refers to is
    not reachable. *)
Lemma unreferenced_unreachable s g ob :
  well_formed s -> objs s !! g = Some ob -> root_ref_cnt ob <= 0 ->
  (forall h p, ptrs s !! h = Some p -> object p <> Some g) ->
  ~ reachable s g.
Proof.
  intros Hwf Hob Hcnt Hnone Hr. inversion Hr as [a (ob' & Hob' & Hpos) | a b Ha Hab]; subst.
  - assert (ob' = ob) as -> by congruence. lia.
  - destruct Hab as (oba & Hoba & Hb). destruct (wf_lists s Hwf a oba Hoba) as [l Hl].
    rewrite (handle_list_children (ptrs s) oba l Hl) in Hb.
    apply referents_elem_inv in Hb as (h & p & Hin & Ho).
    apply (Hnone h p (handle_list_live _ _ _ h p Hl Hin) Ho).
Qed.

(** The common part of [New<T>] and [New<T[]>] up to the construction of
    the payload: the handle, the countdown, the collection if one is due,
    the registration, and the hint. *)
Lemma allocation_ok (collect : bool) this mem e d s :
  heap_ok s -> Z.of_nat (size (ptrs s)) + 2 < 2 ^ 31 ->
  ptrs s !! this = None -> placed s this ->
  fresh_block s mem e -> ~ (mem <= this < e) ->
  (forall cur, current s = Some cur -> reachable s cur) ->
  exists s0 sb sc se p0,
    Ptr_default this s = Ok tt s0 /\
    (if collect then gc_collect else ret tt)
      (set_gc_counter (wrap_long (gc_counter s0 - 1)) s0) = Ok tt sb /\
    register_object this mem e d sb = Ok tt sc /\
    store_display this (Some (start mem)) (set_current (Some mem) sc) = Ok tt se /\
    gc_counter s0 = gc_counter s /\ current sc = current s /\
    heap_ok sb /\ current sb = current s /\
    (forall o, reachable s o -> reachable sb o) /\
    ptrs sb !! this = Some p0 /\ object p0 = None /\ ptr p0 = None /\
    fresh_block sb mem e /\
    heap_ok se /\ current se = Some mem /\ all_objects se = all_objects sb ++ [mem] /\
    ptrs se = <[this := set_ptr (Some (start mem)) (set_object (Some mem) p0)]> (ptrs sb) /\
    objs se = <[mem := set_root_ref_cnt (match type p0 with ROOT => 1 | GC_HEAP => 0 end)
                         (gc_object_new e d)]> (objs sb) /\
    (forall o, reachable sb o -> reachable se o) /\
    Z.of_nat (size (ptrs sb)) <= Z.of_nat (size (ptrs s)) + 1 /\
    exists tr, trace se = trace s ++ tr /\ no_construct tr.
Proof.
  intros Hok Hbound Hfree Hpl Hfb Hout Hcur.
  destruct (Ptr_default_ok this s Hok ltac:(lia) Hfree Hpl)
    as (s0 & p0 & Hdef & Hok0 & Hps0 & Hobj & Hptr & Hall0 & Hcnt0 & Hcur0 & Htr0 & Hreach0 &
        Hblocks0 & Hlisted0).
  assert (Hp0 : ptrs s0 !! this = Some p0) by (rewrite Hps0; apply lookup_insert_eq).
  assert (Hsize0 : Z.of_nat (size (ptrs s0)) <= Z.of_nat (size (ptrs s)) + 1).
  { rewrite Hps0, map_size_insert_None by exact Hfree. lia. }
  assert (Hfb0 : fresh_block s0 mem e).
  { apply (fresh_block_sub s s0 mem e Hfb Hblocks0).
    intros h p Hp. rewrite Hps0 in Hp. destruct (decide (h = this)) as [-> | Hne].
    - exact Hout.
    - rewrite lookup_insert_ne in Hp by done. apply (fb_handles s mem e Hfb h p Hp). }
  set (sa := set_gc_counter (wrap_long (gc_counter s0 - 1)) s0).
  assert (Hoka : heap_ok sa).
  { apply (heap_ok_same s0 sa); try reflexivity; [| exact Hok0].
    intros cur Hc. apply (rc_current s0 (ok_rc s0 Hok0) cur Hc). }
  assert (Hfba : fresh_block sa mem e).
  { apply (fresh_block_sub s0 sa mem e Hfb0); [eauto |].
    apply (fb_handles s0 mem e Hfb0). }
  assert (Hsb : exists sb,
            (if collect then gc_collect else ret tt) sa = Ok tt sb /\
            heap_ok sb /\ current sb = current s /\
            (forall o, reachable s o -> reachable sb o) /\
            ptrs sb !! this = Some p0 /\ fresh_block sb mem e /\
            Z.of_nat (size (ptrs sb)) <= Z.of_nat (size (ptrs s)) + 1 /\
            exists tr, trace sb = trace s ++ tr /\ no_construct tr).
  { destruct collect.
    - destruct (gc_collect_heap_ok sa Hoka)
        as (sb & Hrun & Hokb & Hcurb & Hreachb & Hblocksb & Hsubb & Hrootb & Hlistb & Hsizeb &
            tr & Htrb & Hncb).
      { intros cur Hc. apply (reachable_same s0 sa cur eq_refl eq_refl).
        apply Hreach0, Hcur. rewrite <- Hcur0. exact Hc. }
      exists sb. split; [exact Hrun |]. split; [exact Hokb |].
      split; [rewrite Hcurb; exact Hcur0 |].
      split; [intros o Ho; apply Hreachb, (reachable_same s0 sa o eq_refl eq_refl),
                Hreach0, Ho |].
      split; [| split; [| split]].
      + destruct (type p0) eqn:Hty; [apply (Hrootb this p0 Hp0 Hty) |].
        destruct (Hlisted0 eq_refl) as (cur & ob0 & l & Hc & Hob0 & Hl & Hin).
        apply (Hlistb this p0 cur ob0 l Hob0 Hl Hin).
        apply (reachable_same s0 sa cur eq_refl eq_refl), Hreach0, Hcur, Hc.
      + apply (fresh_block_sub sa sb mem e); [exact Hfba | exact Hblocksb |].
        intros h p Hp. apply (fb_handles s0 mem e Hfb0 h p), Hsubb, Hp.
      + change (ptrs sa) with (ptrs s0) in Hsizeb. lia.
      + exists tr. split; [| exact Hncb]. rewrite Htrb. simpl. rewrite Htr0. reflexivity.
    - exists sa. split; [reflexivity |]. split; [exact Hoka |]. split; [exact Hcur0 |].
      split; [intros o Ho; apply (reachable_same s0 sa o eq_refl eq_refl), Hreach0, Ho |].
      split; [exact Hp0 |]. split; [exact Hfba |]. split; [exact Hsize0 |].
      exists []. split; [simpl; rewrite Htr0, app_nil_r; reflexivity | constructor]. }
  destruct Hsb as (sb & Hcollect & Hokb & Hcurb & Hreachb & Hpb & Hfbb & Hsizeb & Htrb).
  destruct (register_object_ok this mem e d sb p0 Hokb Hfbb ltac:(lia) Hpb Hobj)
    as (sc & Hreg & Hokc & Hpsc & Hosc & Hallc & Hcurc & _ & Htrc & Hreachc).
  set (sd := set_current (Some mem) sc).
  assert (Hokd : heap_ok sd).
  { apply (heap_ok_same sc sd); try reflexivity; [| exact Hokc].
    intros cur [= <-]. rewrite Hosc, lookup_insert_eq. eauto. }
  assert (Hpd : ptrs sd !! this = Some (set_object (Some mem) p0)).
  { change (ptrs sd) with (ptrs sc). rewrite Hpsc. apply lookup_insert_eq. }
  destruct (store_display_counted this (Some (start mem)) sd _ (ok_rc sd Hokd) Hpd)
    as (se & Hdisp & Hrce & Hpse & Hose & Hcure).
  pose proof (store_display_retargets _ _ _ _ Hdisp) as Kde.
  pose proof (store_display_same_registry _ _ _ _ Hdisp) as [Halle _].
  exists s0, sb, sc, se, p0.
  split; [exact Hdef |]. split; [exact Hcollect |]. split; [exact Hreg |].
  split; [exact Hdisp |]. split; [exact Hcnt0 |]. split; [congruence |].
  split; [exact Hokb |]. split; [exact Hcurb |]. split; [exact Hreachb |].
  split; [exact Hpb |]. split; [exact Hobj |]. split; [exact Hptr |].
  split; [exact Hfbb |].
  split; [apply (retargets_preserves sd se Hokd Kde Hrce) |].
  split; [rewrite Hcure; reflexivity |].
  split; [rewrite Halle; exact Hallc |].
  split; [rewrite Hpse; change (ptrs sd) with (ptrs sc); rewrite Hpsc;
          apply insert_insert_eq |].
  split; [rewrite Hose; exact Hosc |].
  split.
  { intros o Ho. apply (reachable_retargets sd se Hokd Kde).
    - intros a Ha. unfold is_root. rewrite Hose. exact Ha.
    - intros h p b Hh Hty Hb. rewrite Hpse. destruct (decide (h = this)) as [-> | Hne].
      + rewrite lookup_insert_eq. assert (p = set_object (Some mem) p0) as -> by congruence.
        eexists. split; [reflexivity | exact Hb].
      + rewrite lookup_insert_ne by done. eauto.
    - apply (reachable_same sc sd o eq_refl eq_refl), Hreachc, Ho. }
  split; [exact Hsizeb |].
  assert (Htre : trace se = trace sc).
  { revert Hdisp. unfold store_display. unfold_tc. simpl.
    destruct (ptrs sc !! this); [| discriminate]. intros [= <-]. reflexivity. }
  rewrite Htre, Htrc. exact Htrb.
Qed.

(** How the construction of the payload ends, from any state [sx] with the
    heap that the allocation left: the hint goes back to the parent; when
    the constructor threw, the handle is null again and the header stays
    behind, registered and without a reference. *)
Lemma construction_ends this mem e d sb se sx p0 parent :
  heap_ok sb -> fresh_block sb mem e ->
  ptrs sb !! this = Some p0 -> object p0 = None -> ptr p0 = None ->
  (forall cur, parent = Some cur -> is_Some (objs sb !! cur)) ->
  heap_ok se -> all_objects se = all_objects sb ++ [mem] ->
  ptrs se = <[this := set_ptr (Some (start mem)) (set_object (Some mem) p0)]> (ptrs sb) ->
  objs se = <[mem := set_root_ref_cnt (match type p0 with ROOT => 1 | GC_HEAP => 0 end)
                       (gc_object_new e d)]> (objs sb) ->
  objs sx = objs se -> ptrs sx = ptrs se -> all_objects sx = all_objects se ->
  (heap_ok (set_current parent sx) /\
   forall o, reachable se o -> reachable (set_current parent sx) o) /\
  exists sf,
    constructor_failed this mem parent sx = Ok tt sf /\
    heap_ok sf /\ current sf = parent /\ trace sf = trace sx /\
    gc_counter sf = gc_counter sx /\
    ptrs sf = ptrs sb /\ objs sf = <[mem := gc_object_new e d]> (objs sb) /\
    all_objects sf = all_objects sb ++ [mem] /\
    (forall o, reachable sb o -> reachable sf o) /\
    ~ reachable sf mem.
Proof.
  intros Hokb Hfbb Hpb Hobj Hptr Hparent Hoke Halle Hpse Hose Hosx Hpsx Hallx.
  assert (Hlive : forall cur, parent = Some cur -> is_Some (objs se !! cur)).
  { intros cur Hc. destruct (Hparent cur Hc) as [ob Hob]. rewrite Hose.
    destruct (decide (cur = mem)) as [-> | Hne].
    - rewrite lookup_insert_eq. eauto.
    - rewrite lookup_insert_ne by done. eauto. }
  split.
  { split.
    - apply (heap_ok_same se); [exact Hosx | exact Hpsx | exact Hallx | exact Hlive
                               | exact Hoke].
    - intros o. apply reachable_same; [exact Hosx | exact Hpsx]. }
  set (p := set_ptr (Some (start mem)) (set_object (Some mem) p0)).
  set (ob := set_root_ref_cnt (match type p0 with ROOT => 1 | GC_HEAP => 0 end)
               (gc_object_new e d)).
  assert (Hpx : ptrs sx !! this = Some p).
  { rewrite Hpsx, Hpse. apply lookup_insert_eq. }
  assert (Hox : objs sx !! mem = Some ob).
  { rewrite Hosx, Hose. apply lookup_insert_eq. }
  rewrite (constructor_failed_run this mem parent sx p ob Hpx Hox).
  eexists. split; [reflexivity |]. cbn [objs ptrs all_objects gc_counter current trace].
  assert (Hps : <[this := set_ptr None (set_object None p)]> (ptrs sx) = ptrs sb).
  { rewrite Hpsx, Hpse, insert_insert_eq.
    replace (set_ptr None (set_object None p)) with p0
      by (unfold p; destruct p0; simpl in *; subst; reflexivity).
    apply insert_id, Hpb. }
  assert (Hos : match type p0 with
                | ROOT => <[mem := set_root_ref_cnt (wrap_int (root_ref_cnt ob - 1)) ob]>
                            (objs sx)
                | GC_HEAP => objs sx
                end = <[mem := gc_object_new e d]> (objs sb)).
  { rewrite Hosx, Hose. unfold ob. destruct (type p0).
    - rewrite insert_insert_eq. reflexivity.
    - reflexivity. }
  change (type p) with (type p0). rewrite Hps, Hos, Hallx, Halle.
  destruct (add_header_ok mem e d sb Hokb Hfbb) as [Hoka Hreacha].
  set (sf := mkState (<[mem := gc_object_new e d]> (objs sb)) (ptrs sb)
                     (all_objects sb ++ [mem]) (gc_counter sx) parent (trace sx)).
  assert (Hokf : heap_ok sf).
  { apply (heap_ok_same (add_header mem e d sb)); try reflexivity; [| exact Hoka].
    intros cur Hc. simpl in Hc |- *. destruct (Hparent cur Hc) as [obc Hobc].
    destruct (decide (cur = mem)) as [-> | Hne].
    - rewrite lookup_insert_eq. eauto.
    - rewrite lookup_insert_ne by done. eauto. }
  split; [exact Hokf |]. repeat (split; [reflexivity |]).
  split.
  - intros o Ho. apply (reachable_same (add_header mem e d sb) sf o eq_refl eq_refl).
    apply Hreacha, Ho.
  - apply (unreferenced_unreachable sf mem (gc_object_new e d) (ok_wf sf Hokf)).
    + apply lookup_insert_eq.
    + simpl. lia.
    + intros h q Hq Hrefers. simpl in Hq.
      destruct (ct_live _ _ (rc_counted sb (ok_rc sb Hokb)) h q mem Hq Hrefers) as [x Hx].
      rewrite (fb_new sb mem e Hfbb) in Hx. discriminate.
Qed.

Lemma New_single_run sizeof_T ctor this mem s s0 sb sc se :
  Ptr_default this s = Ok tt s0 ->
  (if wrap_long (gc_counter s0 - 1) <? 0 then gc_collect else ret tt)
    (set_gc_counter (wrap_long (gc_counter s0 - 1)) s0) = Ok tt sb ->
  register_object this mem (mem + sizeof_gc_object + sizeof_T) destroy_single sb =
    Ok tt sc ->
  store_display this (Some (start mem)) (set_current (Some mem) sc) = Ok tt se ->
  New_single sizeof_T ctor this mem s =
  (catch_rethrow is_exception (ctor (start mem))
                 (constructor_failed this mem (current sc)) ;;
   modify (set_current (current sc))) se.
Proof.
  intros Hdef Hcollect Hreg Hdisp. unfold New_single.
  unfold bind at 1. rewrite Hdef.
  unfold bind at 1. unfold fetch_sub_gc_counter.
  unfold bind at 1. unfold get_state at 1.
  unfold bind at 1. unfold modify at 1. unfold ret at 1.
  unfold bind at 1.
  replace ((if gc_counter s0 <=? 0 then ret tt else ret tt)
             (set_gc_counter (wrap_long (gc_counter s0 - 1)) s0))
    with (Ok (E := error) tt (set_gc_counter (wrap_long (gc_counter s0 - 1)) s0))
    by (destruct (gc_counter s0 <=? 0); reflexivity).
  unfold bind at 1. unfold get_state at 1.
  unfold bind at 1.
  change (gc_counter (set_gc_counter (wrap_long (gc_counter s0 - 1)) s0))
    with (wrap_long (gc_counter s0 - 1)).
  rewrite Hcollect.
  unfold bind at 1. rewrite Hreg.
  unfold bind at 1. unfold get_state at 1.
  unfold bind at 1. unfold modify at 1.
  unfold bind at 1. rewrite Hdisp. reflexivity.
Qed.

(** The storage and the handle of an allocation. *)
Record allocation_site (s : State) (this mem e : Z) : Prop := {
  as_heap : heap_ok s;
  as_size : Z.of_nat (size (ptrs s)) + 2 < 2 ^ 31;
  as_handle : ptrs s !! this = None;
  as_placed : placed s this;
  as_block : fresh_block s mem e;
  as_apart : ~ (mem <= this < e);
  as_hint : forall cur, current s = Some cur -> reachable s cur
}.

(** What a collection does with an object that is not reachable. *)
Lemma garbage_is_finalised s g ob :
  well_formed s -> objs s !! g = Some ob -> ~ reachable s g ->
  exists s' tr,
    gc_collect s = Ok tt s' /\ trace s' = trace s ++ tr /\ no_construct tr /\
    EvDestructor g ∈ tr /\
    (forall ev, ev ∈ run_destructor (destructor ob) (start g) (end_ ob) -> ev ∈ tr) /\
    EvDelete g ∈ tr /\ objs s' !! g = None /\ g ∉ all_objects s'.
Proof.
  intros Hwf Hob Hnr.
  assert (Hin : g ∈ all_objects s) by (apply (wf_registered s Hwf); eauto).
  assert (Hne : all_objects s <> []).
  { intros Hnil. rewrite Hnil in Hin. inversion Hin. }
  destruct (gc_collect_run s Hwf Hne)
    as (os2 & live & garbage & s' & Hrun & Hag & _ & _ & Hlive & Hgarbage & _ & _ &
        Hall & _ & _ & Htrace & Hgone & _ & _).
  assert (Hg : g ∈ garbage) by (apply Hgarbage; done).
  destruct (agree_lookup_inv _ _ g ob Hag Hob) as (ob2 & Hob2 & _).
  destruct (agree_lookup_end _ _ g ob2 Hag Hob2) as (ob0 & Hob0 & Heq).
  assert (ob0 = ob) as -> by congruence.
  assert (Hd : destructor ob2 = destructor ob) by (injection Heq; done).
  assert (He : end_ ob2 = end_ ob) by (injection Heq; done).
  assert (Hfin : forall ev,
            ev ∈ EvDestructor g :: run_destructor (destructor ob) (start g) (end_ ob) ->
            ev ∈ finalise_trace os2 garbage).
  { intros ev Hev. unfold finalise_trace. apply list_elem_of_In, in_flat_map.
    exists g. split; [apply list_elem_of_In, Hg |].
    rewrite Hob2, Hd, He. apply list_elem_of_In, Hev. }
  exists s', (finalise_trace os2 garbage ++ map EvDelete garbage).
  split; [exact Hrun |]. split; [exact Htrace |]. split.
  { apply Forall_app. split; [apply finalise_trace_no_construct |].
    apply Forall_fmap, Forall_forall. intros x _ a. discriminate. }
  split; [apply elem_of_app; left; apply Hfin; left |].
  split; [intros ev Hev; apply elem_of_app; left; apply Hfin; right; exact Hev |].
  split; [apply elem_of_app; right; apply list_elem_of_fmap; exists g; done |].
  split; [apply Hgone, Hg |].
  rewrite Hall. intros Hl. apply Hlive in Hl as [_ Hr]. contradiction.
Qed.

(** *** Arrays *)

Lemma add_trace_app l1 l2 s : add_trace l2 (add_trace l1 s) = add_trace (l1 ++ l2) s.
Proof. unfold add_trace. simpl. rewrite <- app_assoc. reflexivity. Qed.

Lemma add_trace_nil s : add_trace [] s = s.
Proof. unfold add_trace. rewrite app_nil_r. destruct s; reflexivity. Qed.

Lemma for_each_plain (throws : Z -> bool) l : forall s,
  Forall (fun a => throws a = false) l ->
  for_each l (plain_ctor throws) s = Ok tt (add_trace (map EvConstruct l) s).
Proof.
  induction l as [| x l IH]; intros s Hl; simpl.
  - rewrite add_trace_nil. reflexivity.
  - apply Forall_cons in Hl as [Hx Hl]. unfold bind, plain_ctor. rewrite Hx.
    unfold emit, modify. rewrite (IH _ Hl), add_trace_app. reflexivity.
Qed.

Lemma construct_elements_plain (throws : Z -> bool) failed todo : forall done s,
  Forall (fun a => throws a = false) todo ->
  construct_elements (plain_ctor throws) todo done failed s =
  Ok tt (add_trace (map EvConstruct todo) s).
Proof.
  induction todo as [| x todo IH]; intros done s Hl; simpl.
  - rewrite add_trace_nil. reflexivity.
  - apply Forall_cons in Hl as [Hx Hl]. unfold bind at 1. unfold catch_rethrow, plain_ctor.
    rewrite Hx. unfold emit, modify. rewrite (IH _ _ Hl), add_trace_app. reflexivity.
Qed.

(** The first element whose constructor throws, if there is one. *)
Lemma first_throw (throws : Z -> bool) l :
  (existsb throws l = false /\ Forall (fun a => throws a = false) l) \/
  (existsb throws l = true /\
   exists prefix a rest, l = prefix ++ a :: rest /\
                         Forall (fun a => throws a = false) prefix /\ throws a = true).
Proof.
  induction l as [| x l IH]; simpl.
  - left. split; [reflexivity | constructor].
  - destruct (throws x) eqn:Hx; simpl.
    + right. split; [reflexivity |]. exists [], x, l. split; [reflexivity |].
      split; [constructor | exact Hx].
    + destruct IH as [[He Hl] | [He (prefix & a & rest & -> & Hp & Ha)]].
      * left. split; [exact He |]. constructor; assumption.
      * right. split; [exact He |]. exists (x :: prefix), a, rest.
        split; [reflexivity |]. split; [constructor; assumption | exact Ha].
Qed.

Lemma New_array_run sizeof_T ctor this mem size s s0 sb sc se :
  Ptr_default this s = Ok tt s0 ->
  (if gc_counter s0 <=? 0 then gc_collect else ret tt)
    (set_gc_counter (wrap_long (gc_counter s0 - 1)) s0) = Ok tt sb ->
  register_object this mem (mem + sizeof_gc_object + Z.of_nat size * sizeof_T)
                  (destroy_reverse sizeof_T) sb = Ok tt sc ->
  store_display this (Some (start mem)) (set_current (Some mem) sc) = Ok tt se ->
  New_array sizeof_T ctor this mem size s =
  (construct_elements ctor (elements (start mem) sizeof_T size) []
                      (constructor_failed this mem (current sc)) ;;
   modify (set_current (current sc))) se.
Proof.
  intros Hdef Hcollect Hreg Hdisp. unfold New_array.
  unfold bind at 1. rewrite Hdef.
  unfold bind at 1. unfold fetch_sub_gc_counter.
  unfold bind at 1. unfold get_state at 1.
  unfold bind at 1. unfold modify at 1. unfold ret at 1.
  unfold bind at 1. rewrite Hcollect.
  unfold bind at 1. rewrite Hreg.
  unfold bind at 1. unfold get_state at 1.
  unfold bind at 1. unfold modify at 1.
  unfold bind at 1. rewrite Hdisp. reflexivity.
Qed.

(** [New<T[]>] when the constructor of an element throws. *)
Lemma New_array_throws sizeof_T (throws : Z -> bool) this mem size s prefix a rest :
  allocation_site s this mem (mem + sizeof_gc_object + Z.of_nat size * sizeof_T) ->
  elements (start mem) sizeof_T size = prefix ++ a :: rest ->
  Forall (fun x => throws x = false) prefix -> throws a = true ->
  exists s' p l,
    New_array sizeof_T (plain_ctor throws) this mem size s =
      Fail constructor_exception s' /\
    heap_ok s' /\ current s' = current s /\
    (forall cur, current s' = Some cur -> reachable s' cur) /\
    ptrs s' !! this = Some p /\ object p = None /\ ptr p = None /\
    objs s' !! mem =
      Some (gc_object_new (mem + sizeof_gc_object + Z.of_nat size * sizeof_T)
              (destroy_reverse sizeof_T)) /\
    all_objects s' = l ++ [mem] /\ ~ reachable s' mem /\
    exists tr, trace s' = trace s ++ tr ++ map EvConstruct prefix ++ map EvDestroy prefix /\
               no_construct tr.
Proof.
  intros [Hok Hbound Hfree Hpl Hfb Hout Hcur] Hels Hprefix Hthrows.
  destruct (allocation_ok (gc_counter s <=? 0) this mem
              (mem + sizeof_gc_object + Z.of_nat size * sizeof_T)
              (destroy_reverse sizeof_T) s Hok Hbound Hfree Hpl Hfb Hout Hcur)
    as (s0 & sb & sc & se & p0 & Hdef & Hcollect & Hreg & Hdisp & Hcnt0 & Hcurc & Hokb &
        Hcurb & Hreachb & Hpb & Hobj & Hptr & Hfbb & Hoke & Hcure & Halle & Hpse & Hose &
        Hreache & _ & tr & Htrace & Hnc).
  rewrite <- Hcnt0 in Hcollect.
  rewrite (New_array_run sizeof_T _ this mem size s s0 sb sc se Hdef Hcollect Hreg Hdisp).
  rewrite Hcurc, Hels.
  assert (Hparent : forall cur, current s = Some cur -> is_Some (objs sb !! cur)).
  { intros cur Hc. apply (rc_current sb (ok_rc sb Hokb)). congruence. }
  set (s2 := add_trace (map EvConstruct prefix) se).
  set (sx := add_trace (map EvDestroy prefix) s2).
  destruct (construction_ends this mem _ (destroy_reverse sizeof_T) sb se sx p0 (current s)
              Hokb Hfbb Hpb Hobj Hptr Hparent Hoke Halle Hpse Hose eq_refl eq_refl eq_refl)
    as [_ (sf & Hfail & Hokf & Hcurf & Htrf & _ & Hpsf & Hosf & Hallf & Hreachf & Hnr)].
  exists sf, p0, (all_objects sb).
  split.
  { unfold bind at 1.
    rewrite (construct_elements_fails _ _ prefix [] a rest se s2 s2).
    - simpl. unfold bind at 1. unfold emit, modify. fold sx. rewrite Hfail. reflexivity.
    - apply for_each_plain, Hprefix.
    - unfold plain_ctor. rewrite Hthrows. reflexivity. }
  split; [exact Hokf |]. split; [exact Hcurf |].
  split; [intros cur Hc; apply Hreachf, Hreachb, Hcur; congruence |].
  split; [rewrite Hpsf; exact Hpb |]. split; [exact Hobj |]. split; [exact Hptr |].
  split; [rewrite Hosf; apply lookup_insert_eq |]. split; [exact Hallf |].
  split; [exact Hnr |]. exists tr. split; [| exact Hnc].
  rewrite Htrf. simpl. rewrite Htrace, <- !app_assoc. reflexivity.
Qed.

(** X21: [New<T[]>] keeps the heap in order, whether the constructors of
    the elements return or one of them throws.  For elements without
    handles, under the conditions of [New<T>]: [New<T[]>] returns exactly
    when no constructor throws, and either way ends with the heap in order,
    the hint as it was and still reachable, and the new header, which
    carries the callback that destroys all the elements in reverse, last in
    the registry.  After a return the handle refers to the array and shows
    its first element; after a throw it is null and the header is not
    reachable. *)
Theorem New_array_keeps_heap_in_order sizeof_T (throws : Z -> bool) (this mem : Z)
    (size : nat) (s : State) :
  allocation_site s this mem (mem + sizeof_gc_object + Z.of_nat size * sizeof_T) ->
  exists s' p ob l,
    New_array sizeof_T (plain_ctor throws) this mem size s =
      (if existsb throws (elements (start mem) sizeof_T size)
       then Fail constructor_exception s' else Ok tt s') /\
    heap_ok s' /\ current s' = current s /\
    (forall cur, current s' = Some cur -> reachable s' cur) /\
    ptrs s' !! this = Some p /\
    objs s' !! mem = Some ob /\
    end_ ob = mem + sizeof_gc_object + Z.of_nat size * sizeof_T /\
    destructor ob = destroy_reverse sizeof_T /\
    all_objects s' = l ++ [mem] /\
    if existsb throws (elements (start mem) sizeof_T size)
    then object p = None /\ ptr p = None /\ ~ reachable s' mem
    else object p = Some mem /\ ptr p = Some (start mem) /\
         (type p = ROOT -> is_root s' mem).
Proof.
  intros Hsite.
  destruct (first_throw throws (elements (start mem) sizeof_T size))
    as [[He Hall] | [He (prefix & a & rest & Hels & Hprefix & Ha)]]; rewrite He.
  2: { destruct (New_array_throws sizeof_T throws this mem size s prefix a rest
                   Hsite Hels Hprefix Ha)
         as (s' & p & l & Hrun & Hok' & Hcur' & Hreach' & Hp & Hobj & Hptr & Hob & Hl & Hnr & _).
       exists s', p, (gc_object_new (mem + sizeof_gc_object + Z.of_nat size * sizeof_T)
                        (destroy_reverse sizeof_T)), l.
       done. }
  destruct Hsite as [Hok Hbound Hfree Hpl Hfb Hout Hcur].
  destruct (allocation_ok (gc_counter s <=? 0) this mem
              (mem + sizeof_gc_object + Z.of_nat size * sizeof_T)
              (destroy_reverse sizeof_T) s Hok Hbound Hfree Hpl Hfb Hout Hcur)
    as (s0 & sb & sc & se & p0 & Hdef & Hcollect & Hreg & Hdisp & Hcnt0 & Hcurc & Hokb &
        Hcurb & Hreachb & Hpb & Hobj & Hptr & Hfbb & Hoke & Hcure & Halle & Hpse & Hose &
        Hreache & _).
  rewrite <- Hcnt0 in Hcollect.
  rewrite (New_array_run sizeof_T _ this mem size s s0 sb sc se Hdef Hcollect Hreg Hdisp).
  rewrite Hcurc.
  assert (Hparent : forall cur, current s = Some cur -> is_Some (objs sb !! cur)).
  { intros cur Hc. apply (rc_current sb (ok_rc sb Hokb)). congruence. }
  set (sx := add_trace (map EvConstruct (elements (start mem) sizeof_T size)) se).
  destruct (construction_ends this mem _ (destroy_reverse sizeof_T) sb se sx p0 (current s)
              Hokb Hfbb Hpb Hobj Hptr Hparent Hoke Halle Hpse Hose eq_refl eq_refl eq_refl)
    as [[Hok' Hreach'] _].
  exists (set_current (current s) sx),
         (set_ptr (Some (start mem)) (set_object (Some mem) p0)),
         (set_root_ref_cnt (match type p0 with ROOT => 1 | GC_HEAP => 0 end)
            (gc_object_new (mem + sizeof_gc_object + Z.of_nat size * sizeof_T)
               (destroy_reverse sizeof_T))),
         (all_objects sb).
  split.
  { unfold bind at 1. rewrite (construct_elements_plain throws _ _ [] se Hall). reflexivity. }
  split; [exact Hok' |]. split; [reflexivity |].
  split; [intros cur Hc; apply Hreach', Hreache, Hreachb, Hcur, Hc |].
  split; [simpl; rewrite Hpse; apply lookup_insert_eq |].
  split; [simpl; rewrite Hose; apply lookup_insert_eq |].
  split; [reflexivity |]. split; [reflexivity |]. split; [exact Halle |].
  split; [reflexivity |]. split; [reflexivity |].
  intros Hty. simpl in Hty. unfold is_root. simpl. eexists.
  split; [rewrite Hose; apply lookup_insert_eq |].
  rewrite Hty. simpl. lia.
Qed.

(** X22: the next collection destroys the elements again.  When the
    constructor of an element throws, [New<T[]>] destroys the elements that
    were built and leaves the header in the registry; the next collection
    finds it unreachable and calls its destructor callback, which destroys
    every element of the array: the ones that were built and destroyed
    already a second time, the others although no constructor has returned
    for them; then it frees the block. *)
Theorem failed_array_is_destroyed_again sizeof_T (throws : Z -> bool) (this mem : Z)
    (size : nat) (s : State) prefix a rest :
  allocation_site s this mem (mem + sizeof_gc_object + Z.of_nat size * sizeof_T) ->
  0 < sizeof_T ->
  elements (start mem) sizeof_T size = prefix ++ a :: rest ->
  Forall (fun x => throws x = false) prefix -> throws a = true ->
  exists s' s'' tr1 tr2,
    New_array sizeof_T (plain_ctor throws) this mem size s =
      Fail constructor_exception s' /\
    gc_collect s' = Ok tt s'' /\
    trace s' = trace s ++ tr1 ++ map EvConstruct prefix ++ map EvDestroy prefix /\
    trace s'' = trace s' ++ tr2 /\
    no_construct tr1 /\ no_construct tr2 /\
    EvDestructor mem ∈ tr2 /\
    (forall x, x ∈ prefix ++ a :: rest -> EvDestroy x ∈ tr2) /\
    EvDelete mem ∈ tr2 /\ objs s'' !! mem = None.
Proof.
  intros Hsite Hsz Hels Hprefix Ha.
  destruct (New_array_throws sizeof_T throws this mem size s prefix a rest
              Hsite Hels Hprefix Ha)
    as (s' & p & l & Hrun & Hok' & _ & _ & _ & _ & _ & Hob & _ & Hnr & tr1 & Htr1 & Hnc1).
  destruct (garbage_is_finalised s' mem _ (ok_wf s' Hok') Hob Hnr)
    as (s'' & tr2 & Hgc & Htr2 & Hnc2 & Hcall & Hdestroy & Hdelete & Hgone & _).
  exists s', s'', tr1, tr2.
  split; [exact Hrun |]. split; [exact Hgc |]. split; [exact Htr1 |].
  split; [exact Htr2 |]. split; [exact Hnc1 |]. split; [exact Hnc2 |].
  split; [exact Hcall |]. split; [| split; [exact Hdelete | exact Hgone]].
  intros x Hx. apply Hdestroy. simpl.
  replace (mem + sizeof_gc_object + Z.of_nat size * sizeof_T - start mem)
    with (Z.of_nat size * sizeof_T) by (unfold start; lia).
  rewrite Z.div_mul by lia. rewrite Nat2Z.id, Hels.
  apply list_elem_of_fmap. exists x. split; [reflexivity |].
  apply elem_of_rev_iff, Hx.
Qed.

Lemma placed_check s this :
  map_Forall (fun c ob => ~ (c <= this < end_ ob)) (objs s) -> placed s this.
Proof. intros Hout c ob Hob Hin. destruct (Hout c ob Hob Hin). Qed.

Lemma fresh_block_check s mem e :
  start mem <= e -> objs s !! mem = None ->
  map_Forall (fun c ob => e <= c \/ end_ ob <= mem) (objs s) ->
  map_Forall (fun h _ => ~ (mem <= h < e)) (ptrs s) ->
  fresh_block s mem e.
Proof. intros Hsz Hnew Hbl Hhs. split; [exact Hsz | exact Hnew | exact Hbl | exact Hhs]. Qed.

(** *** The collection at program exit *)

Lemma partition_marked_none os l :
  (forall o, o ∈ l -> exists ob, os !! o = Some ob /\ mark ob = false) ->
  partition_marked os l = inr ([], l).
Proof.
  induction l as [| c l IH]; intros Hnone; simpl; [reflexivity |].
  destruct (Hnone c) as (ob & Hob & Hm); [left |]. rewrite Hob, Hm.
  rewrite IH by (intros o Ho; apply Hnone; right; exact Ho). reflexivity.
Qed.

(** Without a ROOT handle nothing is reachable. *)
Lemma no_root_unreachable s o :
  root_counted s -> (forall h p, ptrs s !! h = Some p -> type p = GC_HEAP) ->
  ~ reachable s o.
Proof.
  intros Hrc Hheap Hr. induction Hr as [a (ob & Hob & Hpos) | a b Ha IH Hab]; [| exact IH].
  rewrite (ct_count _ _ (rc_counted s Hrc) a ob Hob) in Hpos.
  rewrite <- (root_units_kept a (ptrs s) ∅) in Hpos.
  - unfold root_units, count_values in Hpos. rewrite map_filter_empty, map_size_empty in Hpos.
    simpl in Hpos. lia.
  - intros h p Hp. rewrite lookup_empty in Hp. discriminate.
  - intros h p Hp [Hty _]. rewrite (Hheap h p Hp) in Hty. discriminate.
Qed.

(** X23: the collection at program exit frees everything that is left.
    When no ROOT handle is alive any more, the handler that [std::atexit]
    runs finalises every registered object, cycles included, once and in
    registry order, and then frees every block: the registry, the headers
    and the handles in the blocks are all gone. *)
Theorem exit_collection_frees_everything (s : State) :
  heap_ok s ->
  (forall h p, ptrs s !! h = Some p -> type p = GC_HEAP) ->
  exists s' callbacks,
    gc_atexit_handler s = Ok tt s' /\
    all_objects s' = [] /\ objs s' = ∅ /\ ptrs s' = ∅ /\
    trace s' = trace s ++ callbacks ++ map EvDelete (all_objects s) /\
    destructor_calls callbacks = all_objects s /\
    Forall (fun ev => ~ is_delete ev) callbacks.
Proof.
  intros [Hwf Hlo Hrc Hho] Hheap. unfold gc_atexit_handler.
  assert (Hnr : forall o, ~ reachable s o).
  { intros o. apply (no_root_unreachable s o Hrc Hheap). }
  destruct (decide (all_objects s = [])) as [Hnil | Hne].
  - assert (Hobjs : objs s = ∅).
    { apply map_empty. intros o. destruct (objs s !! o) as [ob |] eqn:Hob; [| reflexivity].
      assert (Hin : o ∈ all_objects s) by (apply (wf_registered s Hwf); eauto).
      rewrite Hnil in Hin. inversion Hin. }
    exists s, []. split.
    { unfold gc_collect. unfold bind at 1. unfold get_state.
      rewrite bool_decide_eq_true_2 by exact Hnil. reflexivity. }
    split; [exact Hnil |]. split; [exact Hobjs |]. split.
    { apply map_empty. intros h. destruct (ptrs s !! h) as [p |] eqn:Hp; [| reflexivity].
      destruct (hs_heap s Hho h p Hp (Hheap h p Hp)) as (c & ob & _ & Hob & _).
      rewrite Hobjs, lookup_empty in Hob. discriminate. }
    rewrite Hnil. simpl. rewrite app_nil_r. split; [reflexivity |].
    split; [reflexivity | constructor].
  - destruct (gc_collect_run s Hwf Hne)
      as (os2 & live & garbage & s' & Hrun & Hag & Hm & Hpart & Hlive & Hgarbage & _ & _ &
          Hall & _ & _ & Htrace & Hgone & Hkept & Hptrs).
    assert (Hsome : forall o, o ∈ all_objects s ->
              exists ob, os2 !! o = Some ob /\ mark ob = false).
    { intros o Ho. apply (wf_registered s Hwf) in Ho as [ob0 Hob0].
      destruct (agree_lookup_inv _ _ o ob0 Hag Hob0) as (ob & Hob & _).
      exists ob. split; [exact Hob |]. destruct (mark ob) eqn:Hmark; [| reflexivity].
      destruct (Hnr o). apply Hm. exists ob. done. }
    rewrite (partition_marked_none os2 (all_objects s) Hsome) in Hpart.
    injection Hpart as <- <-.
    exists s', (finalise_trace os2 (all_objects s)).
    split; [exact Hrun |]. split; [exact Hall |]. split; [| split].
    + apply map_empty. intros o. destruct (decide (o ∈ all_objects s)) as [Hin | Hout].
      * apply Hgone, Hin.
      * rewrite (Hkept o Hout). destruct (os2 !! o) as [ob |] eqn:Hob; [| reflexivity].
        destruct (agree_lookup_end _ _ o ob Hag Hob) as (ob0 & Hob0 & _).
        destruct Hout. apply (wf_registered s Hwf). eauto.
    + apply map_empty. intros h. destruct (ptrs s' !! h) as [p |] eqn:Hp; [| reflexivity].
      exfalso. apply Hptrs in Hp as [Hp Hout].
      destruct (hs_heap s Hho h p Hp (Hheap h p Hp)) as (c & ob & l & Hob & Hl & Hin).
      pose proof (lo_embedded s Hlo c ob l h p Hob Hl Hin) as Hrange.
      destruct (agree_lookup_inv _ _ c ob Hag Hob) as (ob2 & Hob2 & _).
      destruct (agree_lookup_end _ _ c ob2 Hag Hob2) as (ob0 & Hob0 & Heq).
      assert (ob0 = ob) as -> by congruence.
      assert (Hend : end_ ob = end_ ob2) by (injection Heq; done).
      apply (Hout c ob2); [apply (wf_registered s Hwf); eauto | exact Hob2 |].
      unfold start, sizeof_gc_object in Hrange. lia.
    + split; [exact Htrace |]. split; [| apply finalise_trace_no_delete].
      apply finalise_trace_calls. intros o Ho. destruct (Hsome o Ho) as (ob & Hob & _). eauto.
Qed.

(** *** A handle that was moved from *)

Lemma Ptr_reset_ok this s p :
  heap_ok s -> Z.of_nat (size (ptrs s)) + 1 < 2 ^ 31 -> ptrs s !! this = Some p ->
  exists s', Ptr_reset this s = Ok tt s' /\ heap_ok s' /\
             ptrs s' = <[this := set_object None (set_ptr None p)]> (ptrs s) /\
             current s' = current s /\
             forall o, o <> this -> ptrs s' !! o = ptrs s !! o.
Proof.
  intros Hok Hbound Hp. unfold Ptr_reset.
  destruct (store_display_counted this None s p (ok_rc s Hok) Hp)
    as (s1 & Hrun & Hrc1 & Hps1 & _ & Hcur1).
  pose proof (retargets_preserves s s1 Hok (store_display_retargets _ _ _ _ Hrun) Hrc1)
    as Hok1.
  destruct (gc_base_ptr_reset_counted this s1 (set_ptr None p) Hrc1)
    as (s' & Hrun' & Hrc' & Hps' & Hcur'); [| rewrite Hps1; apply lookup_insert_eq |].
  { rewrite Hps1, map_size_insert_Some by eauto. exact Hbound. }
  exists s'. split; [unfold bind; rewrite Hrun; exact Hrun' |].
  split; [apply (retargets_preserves s1 s' Hok1
                   (gc_base_ptr_reset_retargets _ _ _ Hrun') Hrc') |].
  split; [rewrite Hps', Hps1; apply insert_insert_eq |].
  split; [congruence |].
  intros o Hne. rewrite Hps', Hps1, !lookup_insert_ne by done. reflexivity.
Qed.

(** X24: a handle that was moved from still shows its pointer.  A move
    from a ROOT handle into a new ROOT handle takes the reference over: the
    source refers to nothing for the collector, but [Ptr(Ptr&&)] leaves its
    [ptr] alone, so [get] returns the old pointer and [operator bool] is
    true.  When the destination is then reset and nothing else reaches the
    object, the next collection frees it, and the source still shows the
    pointer into the freed block. *)
Theorem moved_from_handle_still_shows (s : State) (this o : Z) (op : Ptr) (a d : Z) :
  heap_ok s -> Z.of_nat (size (ptrs s)) + 2 < 2 ^ 31 -> current s = None ->
  ptrs s !! this = None -> placed s this ->
  ptrs s !! o = Some op -> type op = ROOT -> object op = Some a -> ptr op = Some d ->
  exists s1,
    Ptr_move this o s = Ok tt s1 /\ heap_ok s1 /\ objs s1 = objs s /\
    ptrs s1 !! this = Some (mkPtr ROOT None (Some a) (Some d)) /\
    ptrs s1 !! o = Some (set_object None op) /\
    Ptr_get o s1 = Ok (Some d) s1 /\ Ptr_operator_bool o s1 = Ok true s1 /\
    forall s2, Ptr_reset this s1 = Ok tt s2 -> ~ reachable s2 a ->
      exists s3, gc_collect s2 = Ok tt s3 /\ objs s3 !! a = None /\
                 (exists tr, trace s3 = trace s2 ++ tr /\ EvDelete a ∈ tr) /\
                 ptrs s3 !! o = Some (set_object None op) /\
                 Ptr_get o s3 = Ok (Some d) s3 /\ Ptr_operator_bool o s3 = Ok true s3.
Proof.
  intros Hok Hbound Hcur Hfree Hpl Ho Hty Hobj Hptr.
  assert (Hne : this <> o) by congruence.
  assert (Hshow : forall sx, ptrs sx !! o = Some (set_object None op) ->
            Ptr_get o sx = Ok (Some d) sx /\ Ptr_operator_bool o sx = Ok true sx).
  { intros sx Hx. unfold Ptr_get, Ptr_operator_bool. unfold_tc. rewrite Hx. simpl.
    rewrite Hptr. split; reflexivity. }
  destruct (gc_base_ptr_move_counted this o s op (ok_rc s Hok) ltac:(lia) Hfree Ho)
    as (sm & Hmove & Hrcm & Hthis & Hkeep).
  pose proof (gc_base_ptr_move_step this o s sm Hok Hpl Hfree Hmove Hrcm) as Hokm.
  assert (Hsm : sm = set_ptrs (insert o (set_object None op))
                       (set_ptrs (insert this (mkPtr ROOT None (Some a) None)) s)).
  { revert Hmove. unfold gc_base_ptr_move, classify. unfold_tc. rewrite Hcur, Ho. simpl.
    rewrite Hobj, Hty. intros [= <-]. reflexivity. }
  assert (Hpm : ptrs sm !! this = Some (mkPtr ROOT None (Some a) None)).
  { rewrite Hsm. simpl. rewrite lookup_insert_ne, lookup_insert_eq by done. reflexivity. }
  assert (Hom : ptrs sm !! o = Some (set_object None op)).
  { rewrite Hsm. simpl. apply lookup_insert_eq. }
  destruct (store_display_counted this (ptr (set_object None op)) sm _ Hrcm Hpm)
    as (s1 & Hdisp & Hrc1 & Hps1 & Hos1 & Hcur1).
  pose proof (retargets_preserves sm s1 Hokm (store_display_retargets _ _ _ _ Hdisp) Hrc1)
    as Hok1.
  assert (Hp1 : ptrs s1 !! this = Some (mkPtr ROOT None (Some a) (Some d))).
  { rewrite Hps1, lookup_insert_eq. simpl. rewrite Hptr. reflexivity. }
  assert (Ho1 : ptrs s1 !! o = Some (set_object None op)).
  { rewrite Hps1, lookup_insert_ne by done. exact Hom. }
  exists s1. split.
  { unfold Ptr_move. unfold bind at 1. rewrite Hmove.
    unfold bind at 1. unfold load_ptr at 1. rewrite Hom. exact Hdisp. }
  split; [exact Hok1 |]. split; [rewrite Hos1, Hsm; reflexivity |].
  split; [exact Hp1 |]. split; [exact Ho1 |].
  split; [apply (Hshow s1 Ho1) |]. split; [apply (Hshow s1 Ho1) |].
  intros s2 Hreset Hnr.
  assert (Hbound1 : Z.of_nat (size (ptrs s1)) + 1 < 2 ^ 31).
  { rewrite Hps1, map_size_insert_Some by eauto. rewrite Hsm. simpl.
    rewrite map_size_insert_Some
      by (rewrite lookup_insert_ne by done; eauto).
    rewrite map_size_insert_None by exact Hfree. lia. }
  destruct (Ptr_reset_ok this s1 _ Hok1 Hbound1 Hp1)
    as (s2' & Hreset' & Hok2 & Hps2 & Hcur2 & Hsame2).
  assert (s2' = s2) as -> by congruence.
  assert (Ho2 : ptrs s2 !! o = Some (set_object None op)).
  { rewrite (Hsame2 o) by congruence. exact Ho1. }
  destruct (ct_live _ _ (rc_counted s (ok_rc s Hok)) o op a Ho Hobj) as [ob0 Hob0].
  assert (Hlive2 : is_Some (objs s2 !! a)).
  { apply (wf_registered s2 (ok_wf s2 Hok2)).
    pose proof (Hreset') as Hr. unfold Ptr_reset in Hr.
    apply bind_Ok_inv in Hr as ([] & sx & Hd & Hr).
    pose proof (rt_registry _ _ (store_display_retargets _ _ _ _ Hd)) as Hall1.
    pose proof (rt_registry _ _ (gc_base_ptr_reset_retargets _ _ _ Hr)) as Hall2.
    rewrite Hall2, Hall1.
    apply (wf_registered s1 (ok_wf s1 Hok1)). rewrite Hos1, Hsm. simpl. eauto. }
  destruct Hlive2 as [ob2 Hob2].
  destruct (garbage_is_finalised s2 a ob2 (ok_wf s2 Hok2) Hob2 Hnr)
    as (s3 & tr & Hgc & Htr & _ & _ & _ & Hdel & Hgone & _).
  destruct (gc_collect_heap_ok s2 Hok2)
    as (s3' & Hgc' & _ & _ & _ & _ & _ & Hroots & _).
  { intros cur Hc. rewrite Hcur2, Hcur1 in Hc. rewrite Hsm in Hc. simpl in Hc. congruence. }
  assert (s3' = s3) as -> by congruence.
  assert (Ho3 : ptrs s3 !! o = Some (set_object None op)).
  { apply (Hroots o _ Ho2). exact Hty. }
  exists s3. split; [exact Hgc |]. split; [exact Hgone |].
  split; [exists tr; done |]. split; [exact Ho3 |].
  split; apply (Hshow s3 Ho3).
Qed.

(** *** Payloads with handle members *)

(** What the construction of the members changes. *)
Record grown (hs : list Z) (s s' : State) : Prop := {
  gr_current : current s' = current s;
  gr_registry : all_objects s' = all_objects s;
  gr_trace : trace s' = trace s;
  gr_objs : forall c,
    match objs s !! c, objs s' !! c with
    | Some ob0, Some ob' =>
        end_ ob' = end_ ob0 /\ root_ref_cnt ob' = root_ref_cnt ob0 /\
        destructor ob' = destructor ob0
    | None, None => True
    | _, _ => False
    end;
  gr_old : forall h p, ptrs s !! h = Some p -> ptrs s' !! h = Some p;
  gr_new : forall h p, ptrs s' !! h = Some p ->
    ptrs s !! h = Some p \/ (h ∈ hs /\ type p = GC_HEAP /\ object p = None);
  gr_members : forall h, h ∈ hs ->
    exists p, ptrs s' !! h = Some p /\ type p = GC_HEAP /\ object p = None;
  gr_reach : forall o, reachable s o -> reachable s' o;
  gr_size : size (ptrs s') = (size (ptrs s) + length hs)%nat
}.

Lemma grown_nil s : grown [] s s.
Proof.
  split; try reflexivity; try tauto.
  - intros c. destruct (objs s !! c); done.
  - intros h Hh. apply elem_of_nil in Hh. contradiction.
  - simpl. lia.
Qed.

Lemma grown_cons h hs s s1 s2 :
  grown [h] s s1 -> grown hs s1 s2 -> grown (h :: hs) s s2.
Proof.
  intros G1 G2. split.
  - rewrite (gr_current _ _ _ G2). apply (gr_current _ _ _ G1).
  - rewrite (gr_registry _ _ _ G2). apply (gr_registry _ _ _ G1).
  - rewrite (gr_trace _ _ _ G2). apply (gr_trace _ _ _ G1).
  - intros c. pose proof (gr_objs _ _ _ G1 c) as H1. pose proof (gr_objs _ _ _ G2 c) as H2.
    destruct (objs s !! c), (objs s1 !! c), (objs s2 !! c); try done.
    destruct H1 as (? & ? & ?), H2 as (? & ? & ?). repeat split; congruence.
  - intros k p Hp. apply (gr_old _ _ _ G2), (gr_old _ _ _ G1), Hp.
  - intros k p Hp. destruct (gr_new _ _ _ G2 k p Hp) as [Hp1 | (Hin & Hty & Hobj)].
    + destruct (gr_new _ _ _ G1 k p Hp1) as [Hp0 | (Hin & Hty & Hobj)]; [left; exact Hp0 |].
      right. apply list_elem_of_singleton in Hin as ->. split; [left | done].
    + right. split; [right; exact Hin | done].
  - intros k Hk. apply elem_of_cons in Hk as [-> | Hk].
    + destruct (gr_members _ _ _ G1 h) as (p & Hp & Hty & Hobj); [left |].
      exists p. split; [apply (gr_old _ _ _ G2), Hp | done].
    + apply (gr_members _ _ _ G2 k Hk).
  - intros o Ho. apply (gr_reach _ _ _ G2), (gr_reach _ _ _ G1), Ho.
  - rewrite (gr_size _ _ _ G2), (gr_size _ _ _ G1). simpl. lia.
Qed.

(** One member: a heap handle in the payload of the object under
    construction. *)
Lemma member_handle_ok mem ob h s :
  heap_ok s -> current s = Some mem -> objs s !! mem = Some ob ->
  start mem <= h < end_ ob -> ptrs s !! h = None ->
  Z.of_nat (size (ptrs s)) + 1 < 2 ^ 31 ->
  exists s', Ptr_default h s = Ok tt s' /\ heap_ok s' /\ grown [h] s s' /\
             exists ob', objs s' !! mem = Some ob' /\ end_ ob' = end_ ob.
Proof.
  intros Hok Hcur Hob Hrange Hfree Hbound.
  set (s' := set_objs (insert mem (set_first (Some h) ob))
               (set_ptrs (insert h (mkPtr GC_HEAP (first ob) None None)) s)).
  assert (Hrun : Ptr_default h s = Ok tt s').
  { rewrite Ptr_default_run, Hcur, Hob.
    destruct (Z.leb_spec (start mem) h); [| lia].
    destruct (Z.ltb_spec h (end_ ob)); [| lia]. reflexivity. }
  destruct (gc_base_ptr_new_counted h None s (ok_rc s Hok) Hbound Hfree
              ltac:(discriminate)) as (s0 & p0 & Hrun0 & Hrc0 & _).
  change (gc_base_ptr_new h None) with (Ptr_default h) in Hrun0.
  assert (s0 = s') as -> by congruence.
  exists s'. split; [exact Hrun |].
  split; [apply (link_preserves s h None mem ob Hok Hob Hrange Hfree Hrc0) |].
  split; [| exists (set_first (Some h) ob); split; [apply lookup_insert_eq | reflexivity]].
  split; try reflexivity.
  - intros c. simpl. destruct (decide (c = mem)) as [-> | Hne].
    + rewrite lookup_insert_eq, Hob. done.
    + rewrite lookup_insert_ne by done. destruct (objs s !! c); done.
  - intros k p Hp. simpl. rewrite lookup_insert_ne by congruence. exact Hp.
  - intros k p Hp. simpl in Hp. destruct (decide (k = h)) as [-> | Hne].
    + rewrite lookup_insert_eq in Hp. injection Hp as <-. right.
      split; [left | done].
    + rewrite lookup_insert_ne in Hp by done. left. exact Hp.
  - intros k Hk. apply list_elem_of_singleton in Hk as ->. simpl.
    rewrite lookup_insert_eq. eauto.
  - intros o. apply (link_reachable s h None mem ob o (ok_wf s Hok) Hob Hfree).
  - simpl. rewrite map_size_insert_None by exact Hfree. lia.
Qed.

(** All the members, in the order of their declaration. *)
Lemma member_handles_ok mem a offs : forall s ob,
  heap_ok s -> current s = Some mem -> objs s !! mem = Some ob ->
  NoDup offs ->
  (forall off, off ∈ offs -> start mem <= a + off < end_ ob) ->
  (forall off, off ∈ offs -> ptrs s !! (a + off) = None) ->
  Z.of_nat (size (ptrs s)) + Z.of_nat (length offs) < 2 ^ 31 ->
  exists s', for_each offs (fun off => Ptr_default (a + off)) s = Ok tt s' /\
             heap_ok s' /\ grown (map (Z.add a) offs) s s'.
Proof.
  induction offs as [| off offs IH]; intros s ob Hok Hcur Hob Hnd Hrange Hfree Hbound.
  - exists s. split; [reflexivity |]. split; [exact Hok | apply grown_nil].
  - apply NoDup_cons in Hnd as [Hnin Hnd]. simpl in Hbound.
    destruct (member_handle_ok mem ob (a + off) s Hok Hcur Hob)
      as (s1 & Hrun1 & Hok1 & G1 & ob1 & Hob1 & Hend1);
      [apply Hrange; left | apply Hfree; left | lia |].
    destruct (IH s1 ob1 Hok1) as (s' & Hrun & Hok' & G);
      [rewrite (gr_current _ _ _ G1); exact Hcur | exact Hob1 | exact Hnd | | | |].
    + intros k Hk. rewrite Hend1. apply Hrange. right. exact Hk.
    + intros k Hk. destruct (ptrs s1 !! (a + k)) as [p |] eqn:Hp; [| reflexivity].
      destruct (gr_new _ _ _ G1 _ p Hp) as [Hp0 | (Hin & _)].
      * rewrite (Hfree k) in Hp0 by (right; exact Hk). discriminate.
      * apply list_elem_of_singleton in Hin. assert (k = off) as -> by lia. contradiction.
    + rewrite (gr_size _ _ _ G1). simpl. lia.
    + exists s'. split; [simpl; unfold bind; rewrite Hrun1; exact Hrun |].
      split; [exact Hok' |]. simpl. apply (grown_cons _ _ s s1 s' G1 G).
Qed.

(** The destructors of the members do nothing: the members are heap
    handles. *)
Lemma member_handles_delete s a offs :
  (forall off, off ∈ offs ->
     exists p, ptrs s !! (a + off) = Some p /\ type p = GC_HEAP) ->
  for_each offs (fun off => gc_base_ptr_delete (a + off)) s = Ok tt s.
Proof.
  induction offs as [| off offs IH]; intros Hall; simpl; [reflexivity |].
  destruct (Hall off) as (p & Hp & Hty); [left |].
  unfold bind at 1. unfold gc_base_ptr_delete at 1. unfold bind at 1. unfold load_ptr at 1.
  rewrite Hp, Hty. unfold ret at 1.
  apply IH. intros k Hk. apply Hall. right. exact Hk.
Qed.

(** Reachability of everything but [g] when the references to [g] go and
    [g] has no handle of its own that refers to anything. *)
Lemma reachable_avoiding s s' g :
  heap_ok s -> retargets s s' ->
  (forall a, a <> g -> is_root s a -> is_root s' a) ->
  (forall h p b, ptrs s !! h = Some p -> type p = GC_HEAP -> object p = Some b -> b <> g ->
                 exists p', ptrs s' !! h = Some p' /\ object p' = Some b) ->
  (forall b, ~ points_to s g b) ->
  forall o, o <> g -> reachable s o -> reachable s' o.
Proof.
  intros [Hwf Hlo Hrc Hho] K Hroot Hgrow Hsink o Hne Hr. revert Hne.
  induction Hr as [a Ha | a b Ha IH Hab]; intros Hne.
  - apply reachable_root, Hroot; assumption.
  - assert (Hag : a <> g) by (intros ->; apply (Hsink b Hab)).
    apply (reachable_step s' a b (IH Hag)).
    destruct Hab as (ob & Hob & Hb).
    destruct (wf_lists s Hwf a ob Hob) as [l Hl].
    rewrite (handle_list_children (ptrs s) ob l Hl) in Hb.
    apply referents_elem_inv in Hb as (h & p & Hin & Ho).
    destruct (retargets_forth s s' a ob K Hob) as (ob' & Hob' & _ & Hf).
    destruct (retargets_list s s' a ob l Hlo Hho K Hob Hl) as (l' & Hl' & Hfst).
    rewrite <- Hf in Hl'.
    exists ob'. split; [exact Hob' |].
    rewrite (handle_list_children (ptrs s') ob' l' Hl').
    pose proof (listed_is_heap s a ob l h p Hlo Hho Hob Hl Hin) as Hty.
    destruct (Hgrow h p b (handle_list_live _ _ _ h p Hl Hin) Hty Ho Hne) as (p' & Hp' & Ho').
    assert (Hh : h ∈ l'.*1).
    { rewrite Hfst. apply list_elem_of_fmap. exists (h, p). done. }
    apply list_elem_of_fmap in Hh as ([h' q] & Heq & Hin'). simpl in Heq. subst h'.
    assert (q = p') as ->.
    { pose proof (handle_list_live _ _ _ h q Hl' Hin'). congruence. }
    apply (referents_elem l' h p' b Hin' Ho').
Qed.

(** The [catch] block of the constructors, in any state with the heap in
    order. *)
Lemma constructor_failed_ok this mem parent s p ob :
  heap_ok s -> Z.of_nat (size (ptrs s)) + 1 < 2 ^ 31 ->
  ptrs s !! this = Some p -> object p = Some mem -> objs s !! mem = Some ob ->
  root_ref_cnt ob = match type p with ROOT => 1 | GC_HEAP => 0 end ->
  (forall h q, ptrs s !! h = Some q -> object q = Some mem -> h = this) ->
  (forall b, ~ points_to s mem b) ->
  (forall cur, parent = Some cur -> is_Some (objs s !! cur)) ->
  exists sf,
    constructor_failed this mem parent s = Ok tt sf /\ heap_ok sf /\
    current sf = parent /\ trace sf = trace s /\ all_objects sf = all_objects s /\
    ptrs sf = <[this := set_ptr None (set_object None p)]> (ptrs s) /\
    (exists ob', objs sf !! mem = Some ob' /\ end_ ob' = end_ ob /\
                 destructor ob' = destructor ob) /\
    (forall o, o <> mem -> reachable s o -> reachable sf o) /\
    ~ reachable sf mem.
Proof.
  intros Hok Hbound Hp Hobj Hob Hcnt Honly Hsink Hparent.
  pose proof (rc_counted s (ok_rc s Hok)) as Hc.
  rewrite (constructor_failed_run this mem parent s p ob Hp Hob).
  set (os' := match type p with
              | ROOT => <[mem := set_root_ref_cnt (wrap_int (root_ref_cnt ob - 1)) ob]> (objs s)
              | GC_HEAP => objs s
              end).
  set (sf := mkState os' (<[this := set_ptr None (set_object None p)]> (ptrs s))
                     (all_objects s) (gc_counter s) parent (trace s)).
  assert (Hmem : exists ob', os' !! mem = Some ob' /\ end_ ob' = end_ ob /\
                             destructor ob' = destructor ob /\ root_ref_cnt ob' = 0 /\
                             first ob' = first ob).
  { unfold os'. destruct (type p).
    - rewrite lookup_insert_eq. eexists. split; [reflexivity |]. simpl.
      rewrite Hcnt. done.
    - exists ob. done. }
  assert (Hdom : forall o, is_Some (objs s !! o) -> is_Some (os' !! o)).
  { intros o Ho. unfold os'. destruct (type p); [| exact Ho].
    destruct (decide (o = mem)) as [-> | Hne].
    - rewrite lookup_insert_eq. eauto.
    - rewrite lookup_insert_ne by done. exact Ho. }
  assert (K : retargets s sf).
  { split; [| reflexivity |].
    - intros o. simpl. unfold os'. destruct (type p).
      + destruct (decide (o = mem)) as [-> | Hne].
        * rewrite lookup_insert_eq, Hob. done.
        * rewrite lookup_insert_ne by done. destruct (objs s !! o); done.
      + destruct (objs s !! o); done.
    - intros h. simpl. unfold hstep. destruct (decide (h = this)) as [-> | Hne].
      + rewrite lookup_insert_eq, Hp. done.
      + rewrite lookup_insert_ne by done. destruct (ptrs s !! h); done. }
  assert (Hrcf : root_counted sf).
  { split; [| intros cur Hcur; apply Hdom, Hparent, Hcur].
    simpl. unfold os'. destruct (type p) eqn:Hty.
    - pose proof (counted_retarget _ _ this p None Hc Hp Hty ltac:(discriminate)
                    Hbound) as Hc'.
      simpl in Hc'. rewrite Hobj in Hc'. unfold shift_root in Hc'. rewrite Hob in Hc'.
      pose proof (counted_display _ _ this (set_object None p) None Hc'
                    ltac:(apply lookup_insert_eq)) as Hc''.
      rewrite insert_insert_eq in Hc''. exact Hc''.
    - apply counted_store_plain; [exact Hc | | |].
      + intros a. unfold root_unit. simpl. rewrite Hty. reflexivity.
      + intros old a Hold. assert (old = p) as -> by congruence.
        unfold root_unit. rewrite Hty. reflexivity.
      + simpl. discriminate. }
  pose proof (retargets_preserves s sf Hok K Hrcf) as Hokf.
  exists sf. split; [reflexivity |]. split; [exact Hokf |].
  repeat (split; [reflexivity |]).
  destruct Hmem as (ob' & Hob' & Hend' & Hd' & Hcnt' & _).
  split; [exists ob'; done |]. split.
  - apply (reachable_avoiding s sf mem Hok K); [| | exact Hsink].
    + intros a Hne (oba & Hoba & Hpos). exists oba. split; [| exact Hpos].
      simpl. unfold os'. destruct (type p); [| exact Hoba].
      rewrite lookup_insert_ne by done. exact Hoba.
    + intros h q b Hq Hty Hb Hne. simpl. destruct (decide (h = this)) as [-> | Hnh].
      * assert (q = p) as -> by congruence. congruence.
      * rewrite lookup_insert_ne by done. eauto.
  - apply (unreferenced_unreachable sf mem ob' (ok_wf sf Hokf) Hob'); [lia |].
    intros h q Hq Hrefers. simpl in Hq. destruct (decide (h = this)) as [-> | Hnh].
    + rewrite lookup_insert_eq in Hq. injection Hq as <-. discriminate.
    + rewrite lookup_insert_ne in Hq by done. apply Hnh, (Honly h q Hq Hrefers).
Qed.

(** *** [New<T>] *)

(** The construction of the payload of [New<T>]: where the members leave
    the state, before the body of the constructor runs. *)
Lemma New_single_members sizeof_T offs (throws : Z -> bool) this mem s :
  allocation_site s this mem (mem + sizeof_gc_object + sizeof_T) ->
  NoDup offs -> (forall off, off ∈ offs -> 0 <= off < sizeof_T) ->
  Z.of_nat (size (ptrs s)) + Z.of_nat (length offs) + 2 < 2 ^ 31 ->
  exists sy p ob l,
    New_single sizeof_T (member_ctor offs throws) this mem s =
      (catch_rethrow is_exception
         (catch_rethrow is_exception (plain_ctor throws (start mem))
            (for_each (rev offs) (fun off => gc_base_ptr_delete (start mem + off))))
         (constructor_failed this mem (current s)) ;;
       modify (set_current (current s))) sy /\
    heap_ok sy /\ Z.of_nat (size (ptrs sy)) + 1 < 2 ^ 31 /\
    all_objects sy = l ++ [mem] /\
    ptrs sy !! this = Some p /\ object p = Some mem /\ ptr p = Some (start mem) /\
    objs sy !! mem = Some ob /\ end_ ob = mem + sizeof_gc_object + sizeof_T /\
    destructor ob = destroy_single /\
    root_ref_cnt ob = match type p with ROOT => 1 | GC_HEAP => 0 end /\
    (forall h q, ptrs sy !! h = Some q -> object q = Some mem -> h = this) /\
    (forall b, ~ points_to sy mem b) /\
    (forall off, off ∈ offs ->
       exists q, ptrs sy !! (start mem + off) = Some q /\ type q = GC_HEAP /\
                 object q = None) /\
    (forall cur, current s = Some cur ->
       cur <> mem /\ is_Some (objs sy !! cur) /\ reachable sy cur) /\
    exists tr, trace sy = trace s ++ tr /\ no_construct tr.
Proof.
  intros [Hok Hbound0 Hfree Hpl Hfb Hout Hcur] Hnd Hoffs Hbound.
  destruct (allocation_ok (wrap_long (gc_counter s - 1) <? 0) this mem
              (mem + sizeof_gc_object + sizeof_T) destroy_single s
              Hok Hbound0 Hfree Hpl Hfb Hout Hcur)
    as (s0 & sb & sc & se & p0 & Hdef & Hcollect & Hreg & Hdisp & Hcnt0 & Hcurc & Hokb &
        Hcurb & Hreachb & Hpb & Hobj & Hptr & Hfbb & Hoke & Hcure & Halle & Hpse & Hose &
        Hreache & Hsizeb & tr & Htrace & Hnc).
  rewrite <- Hcnt0 in Hcollect.
  set (e := mem + sizeof_gc_object + sizeof_T) in *.
  set (p := set_ptr (Some (start mem)) (set_object (Some mem) p0)).
  set (hdr := set_root_ref_cnt (match type p0 with ROOT => 1 | GC_HEAP => 0 end)
                (gc_object_new e destroy_single)).
  assert (Hme : objs se !! mem = Some hdr) by (rewrite Hose; apply lookup_insert_eq).
  assert (Hthis : ptrs se !! this = Some p) by (rewrite Hpse; apply lookup_insert_eq).
  assert (Hin : forall off, off ∈ offs -> mem <= start mem + off < e).
  { intros off Ho. specialize (Hoffs off Ho). unfold e, start, sizeof_gc_object. lia. }
  assert (Hfree_e : forall h, mem <= h < e -> ptrs se !! h = None).
  { intros h Hh. rewrite Hpse, lookup_insert_ne by (intros <-; apply Hout, Hh).
    destruct (ptrs sb !! h) as [q |] eqn:Hq; [| reflexivity].
    destruct (fb_handles sb mem e Hfbb h q Hq Hh). }
  assert (Hsize_e : size (ptrs se) = size (ptrs sb)).
  { rewrite Hpse. apply map_size_insert_Some. eauto. }
  destruct (member_handles_ok mem (start mem) offs se hdr Hoke Hcure Hme Hnd)
    as (sy & Hmembers & Hoky & G).
  { intros off Ho. specialize (Hoffs off Ho). simpl. fold e.
    unfold e, start, sizeof_gc_object. lia. }
  { intros off Ho. apply Hfree_e, Hin, Ho. }
  { rewrite Hsize_e. lia. }
  assert (Hmy : exists ob, objs sy !! mem = Some ob /\ end_ ob = e /\
                           destructor ob = destroy_single /\
                           root_ref_cnt ob = match type p with ROOT => 1 | GC_HEAP => 0 end).
  { pose proof (gr_objs _ _ _ G mem) as H. rewrite Hme in H.
    destruct (objs sy !! mem) as [ob |]; [| contradiction].
    destruct H as (He & Hc & Hd). exists ob. split; [reflexivity |]. done. }
  destruct Hmy as (ob & Hob & Hend & Hdes & Hcnt).
  assert (Hold : forall h q, ptrs se !! h = Some q -> object q = Some mem -> h = this).
  { intros h q Hq Hrefers. destruct (decide (h = this)) as [-> | Hne]; [reflexivity |].
    rewrite Hpse, lookup_insert_ne in Hq by done.
    destruct (ct_live _ _ (rc_counted sb (ok_rc sb Hokb)) h q mem Hq Hrefers) as [x Hx].
    rewrite (fb_new sb mem e Hfbb) in Hx. discriminate. }
  exists sy, p, ob, (all_objects sb).
  split.
  { rewrite (New_single_run sizeof_T _ this mem s s0 sb sc se Hdef Hcollect Hreg Hdisp).
    rewrite Hcurc. unfold member_ctor. unfold bind at 1. unfold catch_rethrow at 1.
    unfold bind at 1. rewrite Hmembers. reflexivity. }
  split; [exact Hoky |].
  split; [rewrite (gr_size _ _ _ G), Hsize_e, length_map; lia |].
  split; [rewrite (gr_registry _ _ _ G); exact Halle |].
  split; [apply (gr_old _ _ _ G), Hthis |]. split; [reflexivity |]. split; [reflexivity |].
  split; [exact Hob |]. split; [exact Hend |]. split; [exact Hdes |]. split; [exact Hcnt |].
  split.
  { intros h q Hq Hrefers. destruct (gr_new _ _ _ G h q Hq) as [Hq0 | (_ & _ & Hnone)].
    - apply (Hold h q Hq0 Hrefers).
    - congruence. }
  split.
  { intros b (ob' & Hob' & Hb). assert (ob' = ob) as -> by congruence.
    destruct (wf_lists sy (ok_wf sy Hoky) mem ob Hob) as [l Hl].
    rewrite (handle_list_children (ptrs sy) ob l Hl) in Hb.
    apply referents_elem_inv in Hb as (h & q & Hhq & Hrefers).
    pose proof (lo_embedded sy (ok_lo sy Hoky) mem ob l h q Hob Hl Hhq) as Hrange.
    destruct (gr_new _ _ _ G h q (handle_list_live _ _ _ h q Hl Hhq))
      as [Hq0 | (_ & _ & Hnone)]; [| congruence].
    rewrite Hfree_e in Hq0; [discriminate |].
    rewrite Hend in Hrange. unfold start, sizeof_gc_object in Hrange. lia. }
  split.
  { intros off Ho. apply (gr_members _ _ _ G).
    apply list_elem_of_fmap. exists off. done. }
  split.
  { intros cur Hc.
    destruct (rc_current sb (ok_rc sb Hokb) cur ltac:(congruence)) as [obc Hobc].
    assert (Hne : cur <> mem).
    { intros ->. rewrite (fb_new sb mem e Hfbb) in Hobc. discriminate. }
    split; [exact Hne |]. split.
    - pose proof (gr_objs _ _ _ G cur) as H.
      rewrite Hose, lookup_insert_ne, Hobc in H by done.
      destruct (objs sy !! cur); [eauto | contradiction].
    - apply (gr_reach _ _ _ G), Hreache, Hreachb, Hcur, Hc. }
  exists tr. split; [rewrite (gr_trace _ _ _ G); exact Htrace | exact Hnc].
Qed.

(** [New<T>] when the body of the constructor throws. *)
Lemma New_single_throws sizeof_T offs (throws : Z -> bool) this mem s :
  allocation_site s this mem (mem + sizeof_gc_object + sizeof_T) ->
  NoDup offs -> (forall off, off ∈ offs -> 0 <= off < sizeof_T) ->
  Z.of_nat (size (ptrs s)) + Z.of_nat (length offs) + 2 < 2 ^ 31 ->
  throws (start mem) = true ->
  exists s' p ob l,
    New_single sizeof_T (member_ctor offs throws) this mem s =
      Fail constructor_exception s' /\
    heap_ok s' /\ current s' = current s /\
    (forall cur, current s' = Some cur -> reachable s' cur) /\
    ptrs s' !! this = Some p /\ object p = None /\ ptr p = None /\
    objs s' !! mem = Some ob /\ end_ ob = mem + sizeof_gc_object + sizeof_T /\
    destructor ob = destroy_single /\
    all_objects s' = l ++ [mem] /\
    (forall off, off ∈ offs ->
       exists q, ptrs s' !! (start mem + off) = Some q /\ type q = GC_HEAP /\
                 object q = None) /\
    ~ reachable s' mem /\
    exists tr, trace s' = trace s ++ tr /\ no_construct tr.
Proof.
  intros Hsite Hnd Hoffs Hbound Hthrows.
  assert (Hapart : ~ (mem <= this < mem + sizeof_gc_object + sizeof_T))
    by apply (as_apart _ _ _ _ Hsite).
  destruct (New_single_members sizeof_T offs throws this mem s Hsite Hnd Hoffs Hbound)
    as (sy & p & ob & l & Hrun & Hoky & Hsizey & Hally & Hp & Hobj & Hptr & Hob & Hend &
        Hdes & Hcnt & Honly & Hsink & Hmem & Hhint & tr & Htr & Hnc).
  destruct (constructor_failed_ok this mem (current s) sy p ob Hoky Hsizey Hp Hobj Hob Hcnt
              Honly Hsink)
    as (sf & Hfail & Hokf & Hcurf & Htrf & Hallf & Hpsf & (ob' & Hob' & Hend' & Hdes') &
        Hreachf & Hnr).
  { intros cur Hc. apply (Hhint cur Hc). }
  exists sf, (set_ptr None (set_object None p)), ob', l.
  split.
  { rewrite Hrun. unfold bind at 1. unfold catch_rethrow at 1. unfold catch_rethrow at 1.
    unfold plain_ctor. rewrite Hthrows. unfold throw. simpl.
    rewrite (member_handles_delete sy (start mem) (rev offs)).
    - rewrite Hfail. reflexivity.
    - intros off Ho. apply (proj1 (elem_of_rev_iff off offs)) in Ho.
      destruct (Hmem off Ho) as (q & Hq & Hty & _). eauto. }
  split; [exact Hokf |]. split; [exact Hcurf |].
  split.
  { intros cur Hc. rewrite Hcurf in Hc. destruct (Hhint cur Hc) as (Hne & _ & Hr).
    apply (Hreachf cur Hne Hr). }
  split; [rewrite Hpsf; apply lookup_insert_eq |]. split; [reflexivity |].
  split; [reflexivity |]. split; [exact Hob' |]. split; [congruence |].
  split; [congruence |]. split; [congruence |].
  split.
  { intros off Ho. destruct (Hmem off Ho) as (q & Hq & Hty & Hnone).
    exists q. split; [| done]. rewrite Hpsf, lookup_insert_ne; [exact Hq |].
    intros Heq. apply Hapart. specialize (Hoffs off Ho).
    rewrite Heq. unfold start, sizeof_gc_object. lia. }
  split; [exact Hnr |]. exists tr. split; [congruence | exact Hnc].
Qed.

(** X19: [New<T>] keeps the heap in order, whether the constructor of the
    payload returns or throws.  For a payload whose members are handles at
    the given offsets, built in storage that overlaps no live block and
    holds no live handle, by a handle built outside the heap or in the
    payload of the object under construction: [New<T>] returns exactly when
    the body of the constructor does, and either way ends with the heap in
    order, the hint as it was and still reachable, the new header last in
    the registry, and the members linked as null heap handles.  After a
    return the handle refers to the new object and shows its payload, and a
    ROOT handle makes the object a root.  After a throw the handle is null,
    and the header has stayed in the registry without a reference: it is
    not reachable. *)
Theorem New_keeps_heap_in_order sizeof_T (offs : list Z) (throws : Z -> bool)
    (this mem : Z) (s : State) :
  allocation_site s this mem (mem + sizeof_gc_object + sizeof_T) ->
  NoDup offs -> (forall off, off ∈ offs -> 0 <= off < sizeof_T) ->
  Z.of_nat (size (ptrs s)) + Z.of_nat (length offs) + 2 < 2 ^ 31 ->
  exists s' p ob l,
    New_single sizeof_T (member_ctor offs throws) this mem s =
      (if throws (start mem) then Fail constructor_exception s' else Ok tt s') /\
    heap_ok s' /\ current s' = current s /\
    (forall cur, current s' = Some cur -> reachable s' cur) /\
    ptrs s' !! this = Some p /\
    objs s' !! mem = Some ob /\ end_ ob = mem + sizeof_gc_object + sizeof_T /\
    destructor ob = destroy_single /\
    all_objects s' = l ++ [mem] /\
    (forall off, off ∈ offs ->
       exists q, ptrs s' !! (start mem + off) = Some q /\ type q = GC_HEAP /\
                 object q = None) /\
    if throws (start mem)
    then object p = None /\ ptr p = None /\ ~ reachable s' mem
    else object p = Some mem /\ ptr p = Some (start mem) /\
         (type p = ROOT -> is_root s' mem).
Proof.
  intros Hsite Hnd Hoffs Hbound. destruct (throws (start mem)) eqn:Hthrows.
  { destruct (New_single_throws sizeof_T offs throws this mem s Hsite Hnd Hoffs Hbound
                Hthrows)
      as (s' & p & ob & l & Hrun & Hok' & Hcur' & Hreach' & Hp & Hobj & Hptr & Hob & Hend &
          Hdes & Hall & Hmem & Hnr & _).
    exists s', p, ob, l. done. }
  destruct (New_single_members sizeof_T offs throws this mem s Hsite Hnd Hoffs Hbound)
    as (sy & p & ob & l & Hrun & Hoky & Hsizey & Hally & Hp & Hobj & Hptr & Hob & Hend &
        Hdes & Hcnt & Honly & Hsink & Hmem & Hhint & _).
  set (sx := add_trace [EvConstruct (start mem)] sy).
  assert (Hok' : heap_ok (set_current (current s) sx)).
  { apply (heap_ok_same sy); try reflexivity; [| exact Hoky].
    intros cur Hc. apply (Hhint cur Hc). }
  exists (set_current (current s) sx), p, ob, l.
  split.
  { rewrite Hrun. unfold bind at 1. unfold catch_rethrow at 1. unfold catch_rethrow at 1.
    unfold plain_ctor. rewrite Hthrows. reflexivity. }
  split; [exact Hok' |]. split; [reflexivity |].
  split.
  { intros cur Hc. simpl in Hc. destruct (Hhint cur Hc) as (_ & _ & Hr).
    apply (reachable_same sy (set_current (current s) sx) cur eq_refl eq_refl Hr). }
  split; [exact Hp |]. split; [exact Hob |]. split; [exact Hend |]. split; [exact Hdes |].
  split; [exact Hally |]. split; [exact Hmem |].
  split; [exact Hobj |]. split; [exact Hptr |].
  intros Hty. exists ob. split; [exact Hob |]. rewrite Hcnt, Hty. lia.
Qed.

(** X20: the next collection destroys what was never built.  When the body
    of the constructor throws, [New<T>] leaves the header in the registry;
    the next collection finds it unreachable, calls its destructor
    callback, which destroys a [T] at the payload although no constructor
    has returned there, and frees the block. *)
Theorem failed_construction_is_destroyed_later sizeof_T (offs : list Z)
    (throws : Z -> bool) (this mem : Z) (s : State) :
  allocation_site s this mem (mem + sizeof_gc_object + sizeof_T) ->
  NoDup offs -> (forall off, off ∈ offs -> 0 <= off < sizeof_T) ->
  Z.of_nat (size (ptrs s)) + Z.of_nat (length offs) + 2 < 2 ^ 31 ->
  throws (start mem) = true ->
  exists s' s'' tr,
    New_single sizeof_T (member_ctor offs throws) this mem s =
      Fail constructor_exception s' /\
    gc_collect s' = Ok tt s'' /\
    trace s'' = trace s ++ tr /\
    (forall a, EvConstruct a ∉ tr) /\
    EvDestructor mem ∈ tr /\ EvDestroy (start mem) ∈ tr /\ EvDelete mem ∈ tr /\
    objs s'' !! mem = None /\ mem ∉ all_objects s''.
Proof.
  intros Hsite Hnd Hoffs Hbound Hthrows.
  destruct (New_single_throws sizeof_T offs throws this mem s Hsite Hnd Hoffs Hbound Hthrows)
    as (s' & p & ob & l & Hrun & Hok' & _ & _ & _ & _ & _ & Hob & _ & Hdes & _ & _ & Hnr &
        tr1 & Htr1 & Hnc1).
  destruct (garbage_is_finalised s' mem ob (ok_wf s' Hok') Hob Hnr)
    as (s'' & tr2 & Hgc & Htr2 & Hnc2 & Hcall & Hdestroy & Hdelete & Hgone & Hout).
  exists s', s'', (tr1 ++ tr2).
  split; [exact Hrun |]. split; [exact Hgc |].
  split; [rewrite Htr2, Htr1, app_assoc; reflexivity |].
  split.
  { intros a Hin. apply elem_of_app in Hin as [Hin | Hin].
    - unfold no_construct in Hnc1. rewrite Forall_forall in Hnc1. apply (Hnc1 _ Hin a eq_refl).
    - unfold no_construct in Hnc2. rewrite Forall_forall in Hnc2. apply (Hnc2 _ Hin a eq_refl). }
  split; [apply elem_of_app; right; exact Hcall |].
  split; [apply elem_of_app; right; apply Hdestroy; rewrite Hdes; left |].
  split; [apply elem_of_app; right; exact Hdelete |].
  split; [exact Hgone | exact Hout].
Qed.

End TC_facts.

(** ** The collector on concrete states *)

(** A rooted object at 1000 whose handle at 1040 refers to the object at
    2000, and a cycle of two objects at 3000 and 4000 that no root refers
    to. *)
Definition tc_cycle : TC.State :=
  TC.mkState
    (<[1000 := TC.mkObj 1056 TC.destroy_single 1 (Some 1040) false]>
       (<[2000 := TC.mkObj 2056 TC.destroy_single 0 None false]>
          (<[3000 := TC.mkObj 3056 TC.destroy_single 0 (Some 3040) true]>
             {[ 4000 := TC.mkObj 4056 TC.destroy_single 0 (Some 4040) false ]})))
    (<[10 := TC.mkPtr TC.ROOT None (Some 1000) (Some 1040)]>
       (<[1040 := TC.mkPtr TC.GC_HEAP None (Some 2000) (Some 2040)]>
          (<[3040 := TC.mkPtr TC.GC_HEAP None (Some 4000) (Some 4040)]>
             {[ 4040 := TC.mkPtr TC.GC_HEAP None (Some 3000) (Some 3040) ]})))
    [1000; 2000; 3000; 4000] 7 None [].

Example run_collect_cycle :
  exists os ps,
    TC.gc_collect tc_cycle =
    Ok tt (TC.mkState os ps [1000; 2000] 1024 None
             [TC.EvDestructor 3000; TC.EvDestroy 3040;
              TC.EvDestructor 4000; TC.EvDestroy 4040;
              TC.EvDelete 3000; TC.EvDelete 4000]) /\
    dom os = {[1000; 2000]} /\ dom ps = {[10; 1040]}.
Proof. eexists _, _. split; [| split]; vm_compute; reflexivity. Qed.

Lemma tc_cycle_well_formed : well_formed tc_cycle.
Proof.
  apply well_formed_intro.
  - assert (H : bool_decide (NoDup (TC.all_objects tc_cycle))) by (vm_compute; exact I).
    exact (bool_decide_unpack _ H).
  - vm_compute. reflexivity.
  - assert (H : bool_decide (map_Forall (fun _ ob => header_ok tc_cycle ob)
                               (TC.objs tc_cycle))) by (vm_compute; exact I).
    exact (bool_decide_unpack _ H).
Qed.

Lemma gc_collect_keeps_exactly_reachable_witness :
  exists s' garbage,
    TC.gc_collect tc_cycle = Ok tt s' /\
    (forall o, o ∈ TC.all_objects s' <-> o ∈ TC.all_objects tc_cycle /\ reachable tc_cycle o) /\
    (forall o, o ∈ garbage <-> o ∈ TC.all_objects tc_cycle /\ ~ reachable tc_cycle o) /\
    NoDup garbage /\
    destructor_calls (TC.trace s') = destructor_calls (TC.trace tc_cycle) ++ garbage /\
    (forall o, o ∈ garbage -> TC.objs s' !! o = None).
Proof. exact (gc_collect_keeps_exactly_reachable tc_cycle tc_cycle_well_formed). Defined.

(** Two ROOT handles: the one at 10 refers to the object at 1000, the one at
    20 to nothing. *)
Definition tc_two_roots : TC.State :=
  TC.mkState
    {[ 1000 := TC.mkObj 1056 TC.destroy_single 1 None false ]}
    (<[10 := TC.mkPtr TC.ROOT None (Some 1000) (Some 1040)]>
       {[ 20 := TC.mkPtr TC.ROOT None None None ]})
    [1000] 1024 None [].


(** An unreferenced object in the registry; the countdown is given. *)
Definition tc_countdown (n : Z) : TC.State :=
  TC.mkState {[ 1000 := TC.mkObj 1056 TC.destroy_single 0 None false ]} ∅
             [1000] n None [].

Definition never_throws : Z -> bool := fun _ => false.

(** C5 as stated fails twice.  With the countdown at 1 the lowered countdown
    is 0, which is not positive, and yet no collection runs: the garbage at
    1000 stays and the countdown stays 0, for [New<T>] and for [New<T[]>].
    With the countdown at 0 and an empty registry the collection is called
    and leaves the countdown at -1. *)
Lemma countdown_zero_does_not_collect :
  (exists os ps,
     TC.New_single 8 (TC.plain_ctor never_throws) 10 2000 (tc_countdown 1) =
     Ok tt (TC.mkState os ps [1000; 2000] 0 None [TC.EvConstruct 2040])) /\
  (exists os ps,
     TC.New_array 8 (TC.plain_ctor never_throws) 10 2000 2 (tc_countdown 1) =
     Ok tt (TC.mkState os ps [1000; 2000] 0 None
              [TC.EvConstruct 2040; TC.EvConstruct 2048])) /\
  (exists os ps,
     TC.New_single 8 (TC.plain_ctor never_throws) 10 2000
       (TC.mkState ∅ ∅ [] 0 None []) =
     Ok tt (TC.mkState os ps [2000] (-1) None [TC.EvConstruct 2040])).
Proof.
  split; [| split]; eexists _, _; vm_compute; reflexivity.
Qed.

Example run_countdown_expired :
  exists os ps,
    TC.New_single 8 (TC.plain_ctor never_throws) 10 2000 (tc_countdown 0) =
    Ok tt (TC.mkState os ps [2000] 1024 None
             [TC.EvDestructor 1000; TC.EvDestroy 1040; TC.EvDelete 1000;
              TC.EvConstruct 2040]).
Proof. eexists _, _. vm_compute. reflexivity. Qed.

Lemma allocation_countdown_witness :
  TC.New_single 8 (TC.plain_ctor never_throws) 10 2000 (tc_countdown 0) =
  (TC.gc_collect ;; commit_single 8 (TC.plain_ctor never_throws) 10 2000)
    (TC.set_gc_counter (-1)
       (TC.set_ptrs (insert 10 (TC.mkPtr TC.ROOT None None None)) (tc_countdown 0))).
Proof.
  exact (proj1 (proj2 (allocation_countdown 8 (TC.plain_ctor never_throws) 10 2000 0%nat
                         (tc_countdown 0)
                         (TC.set_ptrs (insert 10 (TC.mkPtr TC.ROOT None None None))
                                      (tc_countdown 0))
                         eq_refl ltac:(simpl; lia)))).
Defined.

(** The constructor of the third element throws. *)
Definition third_throws : Z -> bool := fun a => a =? 2056.

(** C4: what the code does where the claim asks for a rollback.
    [New<T[]>] of three elements at 2000, by the ROOT handle at 10, in an
    empty heap; the constructor of the third element throws.  The two
    elements that were built are destroyed first to last, not in reverse.
    The handle is cleared, the root reference is given back, the hint is
    restored and the exception goes on to the caller; but the header stays
    in the registry, with the callback that destroys all three elements.
    The next collection runs that callback: the two elements are destroyed a
    second time, and the third, which was never built, is destroyed too. *)
Theorem array_failure_misses_rollback :
  exists os ps s',
    TC.New_array 8 (TC.plain_ctor third_throws) 10 2000 3 (TC.mkState ∅ ∅ [] 5 None []) =
      Fail TC.constructor_exception
        (TC.mkState os ps [2000] 4 None
           [TC.EvConstruct 2040; TC.EvConstruct 2048;
            TC.EvDestroy 2040; TC.EvDestroy 2048]) /\
    ps !! 10 = Some (TC.mkPtr TC.ROOT None None None) /\
    os !! 2000 = Some (TC.mkObj 2064 (TC.destroy_reverse 8) 0 None false) /\
    TC.gc_collect
      (TC.mkState os ps [2000] 4 None
         [TC.EvConstruct 2040; TC.EvConstruct 2048;
          TC.EvDestroy 2040; TC.EvDestroy 2048]) = Ok tt s' /\
    TC.all_objects s' = [] /\
    TC.trace s' =
      [TC.EvConstruct 2040; TC.EvConstruct 2048;
       TC.EvDestroy 2040; TC.EvDestroy 2048;
       TC.EvDestructor 2000;
       TC.EvDestroy 2056; TC.EvDestroy 2048; TC.EvDestroy 2040;
       TC.EvDelete 2000].
Proof.
  eexists _, _, _.
  split; [vm_compute; reflexivity |].
  split; [vm_compute; reflexivity |].
  split; [vm_compute; reflexivity |].
  split; [vm_compute; reflexivity |].
  split; vm_compute; reflexivity.
Qed.

(** ** The invariants of the heap on concrete states *)

Lemma tc_cycle_laid_out : laid_out tc_cycle.
Proof.
  apply laid_out_intro.
  assert (H : bool_decide (map_Forall (fun o ob => layout_ok tc_cycle o ob)
                             (TC.objs tc_cycle))) by (vm_compute; exact I).
  exact (bool_decide_unpack _ H).
Qed.

Lemma tc_cycle_housed : housed tc_cycle.
Proof.
  apply housed_intro.
  assert (H : bool_decide (map_Forall (fun h p => handle_housed tc_cycle h p)
                             (TC.ptrs tc_cycle))) by (vm_compute; exact I).
  exact (bool_decide_unpack _ H).
Qed.

Lemma tc_cycle_root_counted : root_counted tc_cycle.
Proof.
  apply root_counted_check.
  - assert (H : bool_decide (map_Forall (fun _ p => refers_live (TC.objs tc_cycle) p)
                               (TC.ptrs tc_cycle))) by (vm_compute; exact I).
    exact (bool_decide_unpack _ H).
  - assert (H : bool_decide (map_Forall
                               (fun o ob => TC.root_ref_cnt ob = root_units o (TC.ptrs tc_cycle))
                               (TC.objs tc_cycle))) by (vm_compute; exact I).
    exact (bool_decide_unpack _ H).
  - exact I.
Qed.

Lemma tc_two_roots_root_counted : root_counted tc_two_roots.
Proof.
  apply root_counted_check.
  - assert (H : bool_decide (map_Forall (fun _ p => refers_live (TC.objs tc_two_roots) p)
                               (TC.ptrs tc_two_roots))) by (vm_compute; exact I).
    exact (bool_decide_unpack _ H).
  - assert (H : bool_decide (map_Forall
                               (fun o ob => TC.root_ref_cnt ob =
                                            root_units o (TC.ptrs tc_two_roots))
                               (TC.objs tc_two_roots))) by (vm_compute; exact I).
    exact (bool_decide_unpack _ H).
  - exact I.
Qed.

Lemma handle_operations_preserve_root_counts_witness :
  exists s', run_handle_operation (hop_assign 20 10) tc_two_roots = Ok tt s' /\
             root_counted s'.
Proof.
  apply (handle_operations_preserve_root_counts (hop_assign 20 10) tc_two_roots
           tc_two_roots_root_counted).
  - vm_compute. reflexivity.
  - split; eexists; reflexivity.
Defined.

Lemma rooted_objects_survive_collection_witness :
  exists s' tr,
    TC.gc_collect tc_cycle = Ok tt s' /\ TC.trace s' = TC.trace tc_cycle ++ tr /\
    2000 ∈ TC.all_objects s' /\ is_Some (TC.objs s' !! 2000) /\
    (2000 ∉ destructor_calls tr) /\ (TC.EvDelete 2000 ∉ tr).
Proof.
  apply (rooted_objects_survive_collection tc_cycle 10
           (TC.mkPtr TC.ROOT None (Some 1000) (Some 1040)) 1000 2000
           tc_cycle_well_formed tc_cycle_root_counted eq_refl eq_refl eq_refl).
  apply rtc_once. exists (TC.mkObj 1056 TC.destroy_single 1 (Some 1040) false).
  split; [reflexivity |].
  replace (children (TC.ptrs tc_cycle)
             (TC.mkObj 1056 TC.destroy_single 1 (Some 1040) false))
    with [2000] by (vm_compute; reflexivity).
  left.
Defined.

Lemma gc_collect_preserves_well_formed_witness :
  exists s',
    TC.gc_collect tc_cycle = Ok tt s' /\ well_formed s' /\ laid_out s' /\
    (TC.all_objects tc_cycle <> [] -> forall o, is_Some (TC.objs s' !! o) -> reachable s' o).
Proof.
  exact (gc_collect_preserves_well_formed tc_cycle tc_cycle_well_formed tc_cycle_laid_out).
Defined.

Lemma gc_collect_twice_changes_nothing_witness :
  exists s', TC.gc_collect tc_cycle = Ok tt s' /\ TC.gc_collect s' = Ok tt s'.
Proof.
  eexists. split; [vm_compute; reflexivity |].
  apply (gc_collect_twice_changes_nothing tc_cycle _ tc_cycle_well_formed tc_cycle_laid_out).
  vm_compute. reflexivity.
Defined.

Lemma gc_collect_finalises_before_freeing_witness :
  exists s' garbage callbacks,
    TC.gc_collect tc_cycle = Ok tt s' /\
    sublist (TC.all_objects s') (TC.all_objects tc_cycle) /\
    sublist garbage (TC.all_objects tc_cycle) /\
    TC.all_objects s' ++ garbage ≡ₚ TC.all_objects tc_cycle /\
    TC.trace s' = TC.trace tc_cycle ++ callbacks ++ map TC.EvDelete garbage /\
    destructor_calls callbacks = garbage /\
    Forall (fun ev => ~ is_delete ev) callbacks.
Proof. exact (gc_collect_finalises_before_freeing tc_cycle tc_cycle_well_formed). Defined.

Lemma gc_collect_leaves_no_dangling_handle_witness :
  exists s',
    TC.gc_collect tc_cycle = Ok tt s' /\ root_counted s' /\ housed s' /\
    (forall h p, TC.ptrs tc_cycle !! h = Some p -> TC.type p = TC.ROOT ->
                 TC.ptrs s' !! h = Some p) /\
    (forall h p o, TC.ptrs s' !! h = Some p -> TC.object p = Some o ->
                   o ∈ TC.all_objects s' /\ is_Some (TC.objs s' !! o)) /\
    (forall cur, TC.current s' = Some cur -> reachable s' cur).
Proof.
  apply (gc_collect_leaves_no_dangling_handle tc_cycle tc_cycle_well_formed
           tc_cycle_laid_out tc_cycle_root_counted tc_cycle_housed).
  intros cur Hcur. discriminate Hcur.
Defined.

Lemma tc_cycle_heap_ok : heap_ok tc_cycle.
Proof.
  split; [apply tc_cycle_well_formed | apply tc_cycle_laid_out
         | apply tc_cycle_root_counted | apply tc_cycle_housed].
Qed.

Lemma tc_cycle_placed_20 : placed tc_cycle 20.
Proof.
  apply placed_check.
  assert (H : bool_decide (map_Forall (fun c ob => ~ (c <= 20 < TC.end_ ob))
                             (TC.objs tc_cycle))) by (vm_compute; exact I).
  exact (bool_decide_unpack _ H).
Qed.

(** A handle at 20 and a block at 5000 up to [e], beside the heap of
    [tc_cycle]. *)
Lemma tc_cycle_site e :
  5040 <= e <= 6000 -> allocation_site tc_cycle 20 5000 e.
Proof.
  intros He. split.
  - apply tc_cycle_heap_ok.
  - vm_compute. reflexivity.
  - reflexivity.
  - apply tc_cycle_placed_20.
  - apply fresh_block_check.
    + unfold TC.start, TC.sizeof_gc_object. lia.
    + reflexivity.
    + intros c ob Hob. right.
      assert (H : bool_decide (map_Forall (fun _ ob => TC.end_ ob <= 5000)
                                 (TC.objs tc_cycle))) by (vm_compute; exact I).
      apply (bool_decide_unpack _ H c ob Hob).
    + intros h p Hp Hin.
      assert (H : bool_decide (map_Forall (fun h (_ : TC.Ptr) => h < 5000)
                                 (TC.ptrs tc_cycle))) by (vm_compute; exact I).
      pose proof (bool_decide_unpack _ H h p Hp). simpl in *. lia.
  - lia.
  - intros cur Hcur. discriminate Hcur.
Qed.

Lemma handle_operations_preserve_heap_witness :
  exists s', run_handle_operation (hop_copy 20 10) tc_cycle = Ok tt s' /\ heap_ok s'.
Proof.
  apply (handle_operations_preserve_heap (hop_copy 20 10) tc_cycle tc_cycle_heap_ok).
  - vm_compute. reflexivity.
  - split; [reflexivity | eexists; reflexivity].
  - exact tc_cycle_placed_20.
Defined.

Lemma New_keeps_heap_in_order_witness :
  exists s' p ob l,
    TC.New_single 8 (TC.member_ctor [0] never_throws) 20 5000 tc_cycle = Ok tt s' /\
    heap_ok s' /\ TC.current s' = None /\
    (forall cur, TC.current s' = Some cur -> reachable s' cur) /\
    TC.ptrs s' !! 20 = Some p /\
    TC.objs s' !! 5000 = Some ob /\ TC.end_ ob = 5048 /\
    TC.destructor ob = TC.destroy_single /\
    TC.all_objects s' = l ++ [5000] /\
    (forall off, off ∈ [0] ->
       exists q, TC.ptrs s' !! (5040 + off) = Some q /\ TC.type q = TC.GC_HEAP /\
                 TC.object q = None) /\
    TC.object p = Some 5000 /\ TC.ptr p = Some 5040 /\
    (TC.type p = TC.ROOT -> is_root s' 5000).
Proof.
  apply (New_keeps_heap_in_order 8 [0] never_throws 20 5000 tc_cycle
           (tc_cycle_site 5048 ltac:(lia))).
  - apply NoDup_singleton.
  - intros off Hoff. apply list_elem_of_singleton in Hoff. lia.
  - vm_compute. reflexivity.
Defined.

(** The body of the constructor of the payload at 5040 throws. *)
Definition first_throws : Z -> bool := fun a => a =? 5040.

Lemma failed_construction_is_destroyed_later_witness :
  exists s' s'' tr,
    TC.New_single 8 (TC.member_ctor [0] first_throws) 20 5000 tc_cycle =
      Fail TC.constructor_exception s' /\
    TC.gc_collect s' = Ok tt s'' /\
    TC.trace s'' = TC.trace tc_cycle ++ tr /\
    (forall a, TC.EvConstruct a ∉ tr) /\
    TC.EvDestructor 5000 ∈ tr /\ TC.EvDestroy 5040 ∈ tr /\ TC.EvDelete 5000 ∈ tr /\
    TC.objs s'' !! 5000 = None /\ 5000 ∉ TC.all_objects s''.
Proof.
  apply (failed_construction_is_destroyed_later 8 [0] first_throws 20 5000 tc_cycle
           (tc_cycle_site 5048 ltac:(lia))).
  - apply NoDup_singleton.
  - intros off Hoff. apply list_elem_of_singleton in Hoff. lia.
  - vm_compute. reflexivity.
  - reflexivity.
Defined.

Lemma New_array_keeps_heap_in_order_witness :
  exists s' p ob l,
    TC.New_array 8 (TC.plain_ctor never_throws) 20 5000 3 tc_cycle = Ok tt s' /\
    heap_ok s' /\ TC.current s' = None /\
    (forall cur, TC.current s' = Some cur -> reachable s' cur) /\
    TC.ptrs s' !! 20 = Some p /\
    TC.objs s' !! 5000 = Some ob /\ TC.end_ ob = 5064 /\
    TC.destructor ob = TC.destroy_reverse 8 /\
    TC.all_objects s' = l ++ [5000] /\
    TC.object p = Some 5000 /\ TC.ptr p = Some 5040 /\
    (TC.type p = TC.ROOT -> is_root s' 5000).
Proof.
  exact (New_array_keeps_heap_in_order 8 never_throws 20 5000 3 tc_cycle
           (tc_cycle_site 5064 ltac:(lia))).
Defined.

(** The constructor of the third element, at 5056, throws. *)
Definition last_throws : Z -> bool := fun a => a =? 5056.

Lemma failed_array_is_destroyed_again_witness :
  exists s' s'' tr1 tr2,
    TC.New_array 8 (TC.plain_ctor last_throws) 20 5000 3 tc_cycle =
      Fail TC.constructor_exception s' /\
    TC.gc_collect s' = Ok tt s'' /\
    TC.trace s' = TC.trace tc_cycle ++ tr1 ++ map TC.EvConstruct [5040; 5048] ++
                  map TC.EvDestroy [5040; 5048] /\
    TC.trace s'' = TC.trace s' ++ tr2 /\
    no_construct tr1 /\ no_construct tr2 /\
    TC.EvDestructor 5000 ∈ tr2 /\
    (forall x, x ∈ [5040; 5048] ++ 5056 :: [] -> TC.EvDestroy x ∈ tr2) /\
    TC.EvDelete 5000 ∈ tr2 /\ TC.objs s'' !! 5000 = None.
Proof.
  apply (failed_array_is_destroyed_again 8 last_throws 20 5000 3 tc_cycle
           [5040; 5048] 5056 [] (tc_cycle_site 5064 ltac:(lia))).
  - lia.
  - reflexivity.
  - repeat constructor.
  - reflexivity.
Defined.

(** At program exit: the cycle of [tc_cycle] alone, with no ROOT handle
    left. *)
Definition tc_exit : TC.State :=
  TC.mkState
    (<[3000 := TC.mkObj 3056 TC.destroy_single 0 (Some 3040) false]>
       {[ 4000 := TC.mkObj 4056 TC.destroy_single 0 (Some 4040) false ]})
    (<[3040 := TC.mkPtr TC.GC_HEAP None (Some 4000) (Some 4040)]>
       {[ 4040 := TC.mkPtr TC.GC_HEAP None (Some 3000) (Some 3040) ]})
    [3000; 4000] 7 None [].

Lemma tc_exit_heap_ok : heap_ok tc_exit.
Proof.
  split.
  - apply well_formed_intro.
    + assert (H : bool_decide (NoDup (TC.all_objects tc_exit))) by (vm_compute; exact I).
      exact (bool_decide_unpack _ H).
    + vm_compute. reflexivity.
    + assert (H : bool_decide (map_Forall (fun _ ob => header_ok tc_exit ob)
                                 (TC.objs tc_exit))) by (vm_compute; exact I).
      exact (bool_decide_unpack _ H).
  - apply laid_out_intro.
    assert (H : bool_decide (map_Forall (fun o ob => layout_ok tc_exit o ob)
                               (TC.objs tc_exit))) by (vm_compute; exact I).
    exact (bool_decide_unpack _ H).
  - apply root_counted_check.
    + assert (H : bool_decide (map_Forall (fun _ p => refers_live (TC.objs tc_exit) p)
                                 (TC.ptrs tc_exit))) by (vm_compute; exact I).
      exact (bool_decide_unpack _ H).
    + assert (H : bool_decide (map_Forall
                                 (fun o ob => TC.root_ref_cnt ob =
                                              root_units o (TC.ptrs tc_exit))
                                 (TC.objs tc_exit))) by (vm_compute; exact I).
      exact (bool_decide_unpack _ H).
    + exact I.
  - apply housed_intro.
    assert (H : bool_decide (map_Forall (fun h p => handle_housed tc_exit h p)
                               (TC.ptrs tc_exit))) by (vm_compute; exact I).
    exact (bool_decide_unpack _ H).
Qed.

Lemma exit_collection_frees_everything_witness :
  exists s' callbacks,
    TC.gc_atexit_handler tc_exit = Ok tt s' /\
    TC.all_objects s' = [] /\ TC.objs s' = ∅ /\ TC.ptrs s' = ∅ /\
    TC.trace s' = TC.trace tc_exit ++ callbacks ++ map TC.EvDelete (TC.all_objects tc_exit) /\
    destructor_calls callbacks = TC.all_objects tc_exit /\
    Forall (fun ev => ~ is_delete ev) callbacks.
Proof.
  apply (exit_collection_frees_everything tc_exit tc_exit_heap_ok).
  intros h p Hp. unfold tc_exit in Hp. simpl in Hp.
  apply lookup_insert_Some in Hp as [[_ <-] | [_ Hp]]; [reflexivity |].
  apply lookup_singleton_Some in Hp as [_ <-]. reflexivity.
Defined.

Lemma moved_from_handle_still_shows_witness :
  exists s1,
    TC.Ptr_move 20 10 tc_cycle = Ok tt s1 /\ heap_ok s1 /\
    TC.objs s1 = TC.objs tc_cycle /\
    TC.ptrs s1 !! 20 = Some (TC.mkPtr TC.ROOT None (Some 1000) (Some 1040)) /\
    TC.ptrs s1 !! 10 =
      Some (TC.set_object None (TC.mkPtr TC.ROOT None (Some 1000) (Some 1040))) /\
    TC.Ptr_get 10 s1 = Ok (Some 1040) s1 /\ TC.Ptr_operator_bool 10 s1 = Ok true s1 /\
    forall s2, TC.Ptr_reset 20 s1 = Ok tt s2 -> ~ reachable s2 1000 ->
      exists s3, TC.gc_collect s2 = Ok tt s3 /\ TC.objs s3 !! 1000 = None /\
                 (exists tr, TC.trace s3 = TC.trace s2 ++ tr /\ TC.EvDelete 1000 ∈ tr) /\
                 TC.ptrs s3 !! 10 =
                   Some (TC.set_object None
                           (TC.mkPtr TC.ROOT None (Some 1000) (Some 1040))) /\
                 TC.Ptr_get 10 s3 = Ok (Some 1040) s3 /\
                 TC.Ptr_operator_bool 10 s3 = Ok true s3.
Proof.
  apply (moved_from_handle_still_shows tc_cycle 20 10
           (TC.mkPtr TC.ROOT None (Some 1000) (Some 1040)) 1000 1040 tc_cycle_heap_ok).
  - vm_compute. reflexivity.
  - reflexivity.
  - reflexivity.
  - exact tc_cycle_placed_20.
  - reflexivity.
  - reflexivity.
  - reflexivity.
  - reflexivity.
Defined.

(** ** The cycle of the tests *)

(** [main] of the tests: two nodes that refer to each other, the two ROOT
    handles that go out of scope, and the collection at exit.  The handles
    [a] and [b] are at 10 and 20, the blocks at 1000 and 2000, and the
    member [next] is first in [Node]. *)
Definition test_main : TC.M unit :=
  bind (TC.New_single 48 (TC.member_ctor [0] never_throws) 10 1000) (fun _ =>
  bind (TC.New_single 48 (TC.member_ctor [0] never_throws) 20 2000) (fun _ =>
  bind (TC.Ptr_assign 1040 20) (fun _ =>
  bind (TC.Ptr_assign 2040 10) (fun _ =>
  bind (TC.gc_base_ptr_delete 20) (fun _ =>
  bind (TC.gc_base_ptr_delete 10) (fun _ =>
  TC.gc_atexit_handler)))))).

Example run_test_main :
  test_main (TC.mkState ∅ ∅ [] 1024 None []) =
  Ok tt (TC.mkState ∅ ∅ [] 1024 None
           [TC.EvConstruct 1040; TC.EvConstruct 2040;
            TC.EvDestructor 1000; TC.EvDestroy 1040;
            TC.EvDestructor 2000; TC.EvDestroy 2040;
            TC.EvDelete 1000; TC.EvDelete 2000]).
Proof. vm_compute. reflexivity. Qed.
